(* ===== verification/_CoqProject ===== *)
-Q . S2P
Prelude.v
Proc.v
Bytes.v
CString.v
Definitions.v
NetMessage.v
Checksum.v
Cipher.v
OutMessage.v
Proto.v
Pool.v
PoolFrame.v
PoolLaws.v
PoolRun.v
PoolSend.v
Conn.v
ConnFrame.v
ConnLife.v
Wire.v
ConnMgr.v
Tools.v
Floats.v
Db.v
Tasks.v
Threads.v
Sched.v
SchedSpec.v
StdMap.v
Json.v
Config.v
WorldList.v
Accounts.v
AccountLaws.v
Login.v
LoginFrame.v
LoginLaws.v
LoginPacket.v
Server.v
ServerLaws.v
ServerRun.v
Session.v
SessionLaws.v
SessionRun.v
SessionOnce.v
SessionGuard.v
SessionList.v
SessionLogin.v
SessionProps.v
Clients.v
ClientsRun.v
ClientsProps.v
Program.v
ProgramRun.v
ProgramProps.v
TextLogger.v
Startup.v
StartupLaws.v
