(* ===== verification/Prelude.v ===== *)
(** * A login server, verified

    The program under src/src is a login server for a game: a client connects, sends one
    encrypted packet with an account name and a password, and is answered with the message
    of the day and its list of characters, or with the reason it gets none.  This
    development translates the program into executable definitions and proves what they do.
    Every path below is relative to src/src.

    ** The parts of the program, and where they are modelled

    Bytes and messages.
    - definitions.h: [Definitions], the constants and shared enumerations.
    - net/networkmessage.h and .cpp: [NetMessage], the 16 KiB buffer with its 16-bit position
      and size; [OutMessage] (net/outputmessage.h), a message whose headers are prepended.
    - tools.h and .cpp: [Checksum] (adlerChecksum), [Floats] (floating point: roundValue and
      the random distributions) and [Tools] (everything else).
    - protocol/protocol.h and .cpp: [Cipher] (the rounds of XTEA) and [Proto] (framing,
      encryption, RSA blocks, reference counts); its output buffer is in [Pool].

    The network.
    - net/outputmessage.cpp: [Pool] (the operations), [PoolFrame] (what an operation leaves
      alone), [PoolLaws] and [PoolRun] (the invariant, by rule induction over every run),
      [PoolSend] (the order of sendAll).
    - net/connection.h and .cpp: [Conn] (one connection and all its handlers), [ConnFrame]
      (what a handler leaves alone), [ConnLife] (the connection with its posted work as a
      transition system), [ConnMgr] (the manager's tables), [Wire] (a frame from one end to
      the other).
    - net/server.h and .cpp: [Server] (services, service ports, the service manager),
      [ServerLaws] and [ServerRun] (the ports with their events as a transition system).
    - protocol/protocollogin.h and .cpp: [Login] (the handlers), [LoginFrame], [LoginLaws],
      [LoginPacket].

    All of it together.
    - [Session]: one client of the login port, from the accept to the freed connection: the
      connection of [Conn] over the protocol of [Login], the messages of [Pool], the accounts
      and the dispatcher's queue.  [SessionLaws] and [SessionRun] hold its invariant,
      [SessionOnce] counts its answers, [SessionGuard] bounds what it does to the others,
      [SessionLogin] follows one login step by step, [SessionProps] has the theorems.
      [SessionList] says that the manager's list is left to onStop.
    - [Clients]: any number of sessions over what they share, with connections that come and
      go; [ClientsRun] holds the invariant and [ClientsProps] the theorems.
    - [Program]: the whole server, the clients behind the service ports of [Server], over one
      connection manager; [ProgramRun] holds the invariant and [ProgramProps] the theorems.

    What they work on.
    - database.h and .cpp: [Db] (connection, queries, results, literals, batched inserts,
      transactions) and [Tasks] (the workers).
    - io/io.h and .cpp: [Accounts] and [AccountLaws]; io/worlds.h and .cpp: [WorldList].
    - configmanager.h and .cpp: [Config]; textlogger.h and .cpp: [TextLogger].

    Running.
    - tasks.h and .cpp: [Tasks], and [Threads] (the loops of the dispatcher and of the
      database workers as threads with a lock, a wait and notifications).
    - scheduler.h and .cpp: [Sched], and [SchedSpec] (an abstract timer, and the scheduler
      as an implementation of it).
    - otlogin.cpp: [Startup] (the command line, the start sequence, the end of main) and
      [StartupLaws].

    This file, [Proc], [Bytes], [CString], [StdMap] and [Json] are the library underneath:
    integers at their width, procedures, memory, std::string, std::map, JSON values.

    ** How the parts interact

    otlogin() loads the configuration and the worlds, opens the database, and gives the
    service manager the login service.  A service port accepts a client, asks the connection
    manager, and hands the new connection a protocol, or lets it read its first packet.  The
    connection reads a header and a body, checks the checksum and passes the message to its
    protocol; ProtocolLogin decrypts it and posts delegate() to the dispatcher.  delegate()
    asks the accounts, which ask the database, takes a message from the pool, writes the
    answer and sends it; the pool gives it to the connection, and takes it back through the
    dispatcher when the last pointer to it is dropped.  The scheduler posts to the dispatcher
    what is to be done later.

    ** How code becomes definitions

    - A handler is a procedure, [Proc.proc]: from the state of its object, nothing (undefined
      behaviour, a failed assertion, an exception nobody catches) or a result, the new state
      and its requests, in order: tasks posted, reads and writes started, events scheduled.
      Names are the source's; a part of a long function has a name of its own.
    - An integer is a [Z], wrapped where the source's type wraps it ([wrapu], [wraps] and the
      abbreviations [u8] to [u64], [i8] to [i64]); memory is a list of bytes, an access
      outside it has no result; pointers are identities in a store where they are shared.
    - What is not the program's is a parameter or an argument: OpenSSL's RSA, MD5 and SHA
      functions, MySQL (the class [Database.Server]), Boost.JSON's parser, the request to
      Discord, inet_addr and make_address, the clock, the random numbers, and what asio and
      the operating system answer to each call.
    - Components meet at interfaces: [Connection.ProtocolOps] and [ConnectionLife.ProtocolLaws]
      are what a connection asks of a protocol and may rely on, and [ConnectionLife.Reach] the
      relations its handlers are closed under ([ConnFrame.Stopping] for onStop); [TaskQueue]
      and [QueueLaws] are what a thread asks of its queue, and the dispatcher's and the
      workers' queues implement them; [LawfulServer] is what a database result looks like;
      [StdMap.KeyOrder] the order of keys.  [Session.login_ops] implements the first
      by the login protocol and the pool, and [SessionLaws.login_laws] proves its laws, so
      that what [ConnLife] proves of a connection with any protocol holds of a session.
    - Threads interleave at the granularity of the lock the source takes, or of a handler: the
      transition systems ([ConnLife], [PoolRun], [ServerLaws], [Sched], [Tasks], [Threads])
      deliver one event at a time, in any order that is enabled.  In [Session] and [Clients] the events of
      a connection, the dispatcher's tasks in their order, and the tasks the pool leaves
      behind interleave freely, over faults that change from step to step; what a step posts
      goes behind what is in the queue.  [Program] adds the events of the ports: accepts,
      restarts, services that are added.

    ** What is proved

    - Messages: what is written is read back; no write leaves the buffer; the headers of a
      sent message, byte by byte; a frame that is sent is accepted and decoded to its payload
      at the other end; decryption stays in the buffer whatever the packet holds; XTEA's two
      directions are inverse; adlerChecksum is Adler-32; the RSA block on every branch.
    - Connections: no event in any order meets undefined behaviour; the posted tasks follow
      the state, and the socket is deleted at most once; the states refine an abstract life
      cycle; close() leads to a deleted socket when nothing is in flight, and a connection
      that is closing with a write pending is never released.
    - The pool: no operation gets stuck; no message is lost or in two places, and the
      reference counts are those of the messages in use; the order of sendAll.
    - The ports: what listens is registered and has one accept in flight; no handler meets a
      deleted port before the manager stops; what a client that connects meets; what a failed
      accept and a failed restart make of a port.
    - The login: every first packet is handled; a packet that is written is read back by the
      handler; what a login is answered, on every path of delegate (where the message of
      the day fits); who gets a list of characters.
    - A client: one that logs in over an accepted connection is served, down to the bytes it
      reads; a delegate runs before the closure that deletes its protocol; whatever a client
      sends and whatever fails, it is answered at most once.
    - The server with any number of clients, behind its ports: no step meets undefined
      behaviour, in any order, under the conditions below; what becomes of a client that connects; the manager's list
      holds exactly the connections that are open; and each client has a session as if it
      were alone, but for what others are allowed to do to what they share.
    - Accounts and data: premium days, address bans, what is loaded of an account; which
      passwords a stored hash accepts; string literals that MySQL reads back; batched
      inserts; the state a failed query leaves.
    - Configuration, start and logs: what a file and a command line set, setting by setting,
      and which wins;
      every way the start sequence can go; what a server started on a busy address does; how
      what is printed reaches the terminal and the log.
    - Queues: the dispatcher keeps every task added before it is stopped, refuses the later
      ones, duplicates and reorders nothing, and its thread takes what is queued in every
      schedule; when the workers can be joined, and when one waits
      for ever.  The scheduler is a timer: an event is handed over once, not before its time
      but for one case, and never once it has been stopped; what is due is delivered.
    - Random numbers stay in the range asked for, for every distribution, as long as a float
      can count it.

    Besides these, the files hold many theorems on the components' operations that are not
    listed here, such as what the settings are without a "legacy" section, when a protocol is
    deleted, or when the guard of a read does not hold.

    ** What the theorems assume

    The theorems on a login, a session, the clients and the whole server hold where the
    code's own assumptions do; [LoginLaws.env_ok], [Session.env_good], [Program.env_good]
    and [Program.allowed] collect them.  Outside of them the program does go wrong, and the
    definitions say so by having no result:
    - the message of the day, with its number, a line feed and a NUL, fits the 1300 bytes
      that delegate formats it into ([LoginLaws.motd_fits]); sprintf overflows them else;
    - the addresses listened at and those of the clients are of IPv4 ([ServerLaws.enabled]);
      to_v4 throws for a client of IPv6, and nothing catches it;
    - every world has a port ([LoginLaws.world_good]); the clock is below 2^32 - 2, and the
      pool owns fewer than 2^32 messages, so that the counters do not wrap.
    What is asked of code that is not the program's: rows as long as their list of columns
    ([LawfulServer]), 128 bytes from an RSA decryption that succeeds ([LoginPacket.rsa_ok]),
    random numbers below 2^24, and accepts that report through their handler.

    ** Fuel

    A loop that is not structural takes fuel, and a theorem says how much is enough: the
    length of the string for explodeString and replaceString with a separator that is not
    empty (and none is, with an empty one: [Tools.empty_separator_diverges]); one step per
    chunk for the checksum and per block for the cipher, where the definitions compute it from
    the length; the binary logarithm for decimal printing.  Transition systems need none.

    ** What is not modelled

    - What is written to the terminal; the log lines of the login handlers; the diagnostic
      counters and messages of the conditional builds.
    - Ignoring SIGPIPE, and the CRT parameters given to the RSA key after it has been checked
      (otlogin.cpp); flushing and the exchange of stream buffers (textlogger.cpp).
    - fileExists, which only asks Boost (tools.cpp).  The text of strftime and the natural
      logarithm are arguments: the first depends on the locale, the second on the library.
    - In [Session], [Clients] and [Program]: sendAll, whose messages are other connections'
      (none of a session is ever queued for it, by [SessionProps.answered_once]); the time a
      message has waited; handlers that run inside one another.  A connection is freed only
      when nothing is left to do for it, which is when its last pointer goes.
      ServiceManager::stop is not an event of [Program]: only the end of the process calls
      it; [Server] and [ServerRun] have it.
    - In the components that post tasks ([Pool], [Conn], [Session]), the case that addTask
      drops the task: it does once the dispatcher has been stopped, which nothing in the
      program does.  [Tasks] has it.
    - The destructors that run when the process ends; otpch.h and otpch.cpp (includes only).

    What is modelled and could be taken further: the premium update of all accounts is a
    definition of [Accounts] with theorems on one account, not on a table of them; the life
    of a message is an invariant of the pool ([PoolRun]), not an abstract specification. *)
From Stdlib Require Export ZArith Lia.
From Stdlib Require Import Ascii String.
Export StringSyntax.
From stdpp Require Export base tactics numbers list option gmap.

#[global] Open Scope Z_scope.

Declare Scope cpp_scope.
Delimit Scope cpp_scope with cpp.
#[global] Open Scope cpp_scope.

Create HintDb cpp discriminated.
Create Rewrite HintDb zlen.

(** ** Strings and bytes *)

(** A [std::string] is the list of its bytes, each an unsigned 8-bit value. *)
Abbreviation cstring := (list Z) (only parsing).

Definition byte_of_ascii (c : ascii) : Z := Z.of_N (N_of_ascii c).

Fixpoint lit (s : string) : cstring :=
  match s with
  | EmptyString => []
  | String c s => byte_of_ascii c :: lit s
  end.

Arguments lit s%_string.
Notation "$ s" := (lit s) (at level 1, s at level 0, format "$ s") : cpp_scope.

Definition is_byte (b : Z) : Prop := 0 <= b < 256.
Abbreviation bytes_ok := (Forall is_byte).

#[export] Instance is_byte_dec b : Decision (is_byte b).
Proof. unfold is_byte. apply _. Defined.

Definition zlen {A} (l : list A) : Z := Z.of_nat (length l).

(** ** Fixed-width integers *)

Definition wrapu (w z : Z) : Z := z mod 2 ^ w.
Definition wraps (w z : Z) : Z := (z + 2 ^ (w - 1)) mod 2 ^ w - 2 ^ (w - 1).

Abbreviation u8 := (wrapu 8).
Abbreviation u16 := (wrapu 16).
Abbreviation u32 := (wrapu 32).
Abbreviation u64 := (wrapu 64).
Abbreviation i8 := (wraps 8).
Abbreviation i32 := (wraps 32).
Abbreviation i64 := (wraps 64).

(** The value of a [char] on a platform where [char] is signed. *)
Abbreviation schar := (wraps 8).

(** ** Automation *)

(** [lia] after exposing the wrap-arounds as Euclidean divisions. *)
Ltac width_lia :=
  unfold wrapu, wraps, is_byte in *; Z.div_mod_to_equations; lia.

(** Case analysis on every boolean comparison of the goal and the hypotheses. *)
Ltac zbool_step :=
  match goal with
  | |- context [Z.ltb ?a ?b] => destruct (Z.ltb_spec a b)
  | |- context [Z.leb ?a ?b] => destruct (Z.leb_spec a b)
  | |- context [Z.eqb ?a ?b] => destruct (Z.eqb_spec a b)
  | H : context [Z.ltb ?a ?b] |- _ => destruct (Z.ltb_spec a b)
  | H : context [Z.leb ?a ?b] |- _ => destruct (Z.leb_spec a b)
  | H : context [Z.eqb ?a ?b] |- _ => destruct (Z.eqb_spec a b)
  end.
Ltac zbool := repeat (zbool_step; cbn [andb orb negb] in *; try lia; try done).

(** Turn a successful computation in the option monad into its steps. *)
Ltac inv_opt :=
  repeat match goal with
  | H : Some _ = Some _ |- _ => injection H as H; subst
  | H : None = Some _ |- _ => discriminate H
  | H : Some _ = None |- _ => discriminate H
  | H : mbind _ _ = Some _ |- _ => apply bind_Some in H as (? & ? & ?)
  | H : (let '(_, _) := ?p in _) = Some _ |- _ => destruct p
  | H : (if ?b then _ else _) = Some _ |- _ => destruct b eqn:?
  end.

Lemma wrapu_range w z : 0 <= w -> 0 <= wrapu w z < 2 ^ w.
Proof. intros. apply Z.mod_pos_bound. lia. Qed.

Lemma wrapu_small w z : 0 <= z < 2 ^ w -> wrapu w z = z.
Proof. apply Z.mod_small. Qed.

Lemma wrapu_wrapu w z : 0 <= w -> wrapu w (wrapu w z) = wrapu w z.
Proof. intros. apply wrapu_small. by apply wrapu_range. Qed.

Lemma wrapu_add_l w a b : wrapu w (wrapu w a + b) = wrapu w (a + b).
Proof. apply Zplus_mod_idemp_l. Qed.

Lemma wrapu_add_r w a b : wrapu w (a + wrapu w b) = wrapu w (a + b).
Proof. apply Zplus_mod_idemp_r. Qed.

Lemma wrapu_sub_l w a b : wrapu w (wrapu w a - b) = wrapu w (a - b).
Proof. apply Zminus_mod_idemp_l. Qed.

Lemma wrapu_sub_r w a b : wrapu w (a - wrapu w b) = wrapu w (a - b).
Proof. apply Zminus_mod_idemp_r. Qed.

Lemma wrapu_add_sub w a b : 0 <= a < 2 ^ w -> wrapu w (wrapu w (a + b) - b) = a.
Proof.
  intros. rewrite wrapu_sub_l. replace (a + b - b) with a by lia. by apply wrapu_small.
Qed.

Lemma wrapu_sub_add w a b : 0 <= a < 2 ^ w -> wrapu w (wrapu w (a - b) + b) = a.
Proof.
  intros. rewrite wrapu_add_l. replace (a - b + b) with a by lia. by apply wrapu_small.
Qed.

Lemma wraps_range w z : 0 < w -> - 2 ^ (w - 1) <= wraps w z < 2 ^ (w - 1).
Proof.
  intros. unfold wraps.
  assert (2 ^ w = 2 * 2 ^ (w - 1)) as Hw.
  { rewrite <- Z.pow_succ_r by lia. f_equal. lia. }
  pose proof (Z.mod_pos_bound (z + 2 ^ (w - 1)) (2 ^ w)). lia.
Qed.

Lemma wraps_small w z : 0 < w -> - 2 ^ (w - 1) <= z < 2 ^ (w - 1) -> wraps w z = z.
Proof.
  intros. unfold wraps.
  assert (2 ^ w = 2 * 2 ^ (w - 1)) as Hw.
  { rewrite <- Z.pow_succ_r by lia. f_equal. lia. }
  rewrite Z.mod_small; lia.
Qed.

(** ** Lists measured in [Z] *)

Lemma zlen_nil {A} : zlen (@nil A) = 0.
Proof. done. Qed.

Lemma zlen_cons {A} (x : A) l : zlen (x :: l) = 1 + zlen l.
Proof. unfold zlen. cbn [length]. lia. Qed.

Lemma zlen_app {A} (l1 l2 : list A) : zlen (l1 ++ l2) = zlen l1 + zlen l2.
Proof. unfold zlen. rewrite length_app. lia. Qed.

Lemma zlen_nonneg {A} (l : list A) : 0 <= zlen l.
Proof. unfold zlen. lia. Qed.

Lemma zlen_replicate {A} n (x : A) : zlen (replicate n x) = Z.of_nat n.
Proof. unfold zlen. by rewrite length_replicate. Qed.

#[export] Hint Rewrite @zlen_nil @zlen_cons @zlen_app @zlen_replicate : zlen.
#[export] Hint Resolve zlen_nonneg : cpp.

(** Literals are made of bytes. *)
Lemma lit_bytes_ok s : bytes_ok (lit s).
Proof.
  induction s as [|c s IH]; constructor; [|done].
  unfold is_byte, byte_of_ascii. pose proof (N_ascii_bounded c). lia.
Qed.
#[export] Hint Resolve lit_bytes_ok : cpp.

(** A decidable property of all bytes is checked on the 256 of them. *)
Lemma byte_forall (P : Z -> bool) :
  forallb P (seqZ 0 256) = true -> forall c, is_byte c -> P c = true.
Proof.
  rewrite forallb_forall. intros H c Hc. apply H, list_elem_of_In, elem_of_seqZ.
  unfold is_byte in Hc. lia.
Qed.
