(* ===== verification/Proc.v ===== *)
(** * Handlers as state-passing procedures

    A handler of the program reads and updates the state of its object, asks its
    environment for things (tasks posted, reads started, rows fetched) and may meet
    undefined behaviour.  [proc S O A] is that: from a state, nothing (undefined
    behaviour), or a result, the new state and the requests made, in order. *)
From S2P Require Import Prelude.

Definition proc (S O A : Type) : Type := S -> option (A * S * list O).

Section Proc.
Context {S O : Type}.

#[export] Instance proc_ret : MRet (proc S O) := fun _ a s => Some (a, s, []).

#[export] Instance proc_bind : MBind (proc S O) := fun _ _ k m s =>
  match m s with
  | None => None
  | Some (a, s, out) =>
      match k a s with
      | None => None
      | Some (b, s, out') => Some (b, s, out ++ out')
      end
  end.

Definition gets {A} (f : S -> A) : proc S O A := fun s => Some (f s, s, []).
Definition modify (f : S -> S) : proc S O unit := fun s => Some (tt, f s, []).
Definition emit (o : O) : proc S O unit := fun s => Some (tt, s, [o]).
Definition stuck {A} : proc S O A := fun _ => None.
Definition lift {A} (o : option A) : proc S O A := fun s => a ← o; Some (a, s, []).
Definition skip : proc S O unit := mret tt.

Fixpoint for_each {X} (f : X -> proc S O unit) (xs : list X) : proc S O unit :=
  match xs with
  | [] => skip
  | x :: xs => _ ← f x; for_each f xs
  end.

(** ** Computing *)

Lemma bind_gets {A B} (f : S -> A) (k : A -> proc S O B) s : (gets f ≫= k) s = k (f s) s.
Proof. unfold mbind, proc_bind, gets. by destruct (k (f s) s) as [[[??]?]|]. Qed.

Lemma bind_modify {B} (f : S -> S) (k : unit -> proc S O B) s : (modify f ≫= k) s = k tt (f s).
Proof. unfold mbind, proc_bind, modify. by destruct (k tt (f s)) as [[[??]?]|]. Qed.

Lemma bind_ret {A B} (a : A) (k : A -> proc S O B) s : (mret a ≫= k) s = k a s.
Proof. unfold mbind, proc_bind, mret, proc_ret. by destruct (k a s) as [[[??]?]|]. Qed.

Lemma bind_emit {B} (o : O) (k : unit -> proc S O B) s :
  (emit o ≫= k) s = '(b, s', out) ← k tt s; Some (b, s', o :: out).
Proof. unfold mbind, proc_bind, emit. by destruct (k tt s) as [[[??]?]|]. Qed.

Lemma bind_lift {A B} (a : A) (k : A -> proc S O B) s : (lift (Some a) ≫= k) s = k a s.
Proof. unfold lift, mbind, proc_bind. cbn. by destruct (k a s) as [[[??]?]|]. Qed.

Lemma bind_assoc {A B C} (m : proc S O A) (f : A -> proc S O B) (g : B -> proc S O C) s :
  ((m ≫= f) ≫= g) s = (m ≫= (fun a => f a ≫= g)) s.
Proof.
  unfold mbind, proc_bind. destruct (m s) as [[[a s1] o1]|]; [|done].
  destruct (f a s1) as [[[b s2] o2]|]; [|done].
  destruct (g b s2) as [[[c s3] o3]|]; [|done]. by rewrite (assoc_L (++)).
Qed.

(** What a computation that has ended went through. *)
Lemma bind_inv {A B} (m : proc S O A) (k : A -> proc S O B) s b s' out :
  (m ≫= k) s = Some (b, s', out) ->
  exists a s1 o1 o2, m s = Some (a, s1, o1) /\ k a s1 = Some (b, s', o2) /\ out = o1 ++ o2.
Proof.
  unfold mbind, proc_bind. destruct (m s) as [[[a s1] o1]|]; [|done].
  destruct (k a s1) as [[[b' s2] o2]|] eqn:E; [|done]. intros [= <- <- <-]. eauto 9.
Qed.

Lemma lift_inv {A} (x : option A) s a s' out :
  lift x s = Some (a, s', out) -> x = Some a /\ s' = s /\ out = [].
Proof. unfold lift. destruct x; [|done]. by intros [= <- <- <-]. Qed.

(** Total correctness: from [P], [m] succeeds and [Q] holds of the result, the final
    state and the requests. *)
Definition triple {A} (P : S -> Prop) (m : proc S O A) (Q : A -> S -> list O -> Prop) : Prop :=
  forall s, P s -> exists a s' out, m s = Some (a, s', out) /\ Q a s' out.

Lemma triple_ret {A} (a : A) (P : S -> Prop) (Q : A -> S -> list O -> Prop) :
  (forall s, P s -> Q a s []) -> triple P (mret a) Q.
Proof. intros H s Hs. exists a, s, []. auto. Qed.

Lemma triple_bind {A B} (m : proc S O A) (k : A -> proc S O B) P R Q :
  triple P m R ->
  (forall a out, triple (fun s => R a s out) (k a) (fun b s' out' => Q b s' (out ++ out'))) ->
  triple P (m ≫= k) Q.
Proof.
  intros Hm Hk s Hs. destruct (Hm s Hs) as (a & s1 & o1 & E1 & H1).
  destruct (Hk a o1 s1 H1) as (b & s2 & o2 & E2 & H2).
  exists b, s2, (o1 ++ o2). unfold mbind, proc_bind. by rewrite E1, E2.
Qed.

Lemma triple_weaken {A} (m : proc S O A) P P' (Q Q' : A -> S -> list O -> Prop) :
  triple P m Q -> (forall s, P' s -> P s) -> (forall a s o, Q a s o -> Q' a s o) ->
  triple P' m Q'.
Proof. intros H HP HQ s Hs. destruct (H s (HP s Hs)) as (a & s' & o & E & Hq). eauto 6. Qed.

(** The same for one initial state, by the rules of the operations. *)
Definition wp {A} (m : proc S O A) (Q : A -> S -> list O -> Prop) (s : S) : Prop :=
  exists a s' out, m s = Some (a, s', out) /\ Q a s' out.

Lemma wp_ret {A} (a : A) (Q : A -> S -> list O -> Prop) s : Q a s [] -> wp (mret a) Q s.
Proof. intros. by exists a, s, []. Qed.
Lemma wp_skip (Q : unit -> S -> list O -> Prop) s : Q tt s [] -> wp skip Q s.
Proof. apply wp_ret. Qed.
Lemma wp_gets {A} (f : S -> A) (Q : A -> S -> list O -> Prop) s : Q (f s) s [] -> wp (gets f) Q s.
Proof. intros. by exists (f s), s, []. Qed.
Lemma wp_modify (f : S -> S) (Q : unit -> S -> list O -> Prop) s : Q tt (f s) [] -> wp (modify f) Q s.
Proof. intros. by exists tt, (f s), []. Qed.
Lemma wp_emit (o : O) (Q : unit -> S -> list O -> Prop) s : Q tt s [o] -> wp (emit o) Q s.
Proof. intros. by exists tt, s, [o]. Qed.
Lemma wp_lift {A} (x : option A) a (Q : A -> S -> list O -> Prop) s : x = Some a -> Q a s [] -> wp (lift x) Q s.
Proof. intros -> H. by exists a, s, []. Qed.
Lemma wp_bind {A B} (m : proc S O A) (k : A -> proc S O B) Q s :
  wp m (fun a s1 o1 => wp (k a) (fun b s2 o2 => Q b s2 (o1 ++ o2)) s1) s -> wp (m ≫= k) Q s.
Proof.
  intros (a & s1 & o1 & E1 & b & s2 & o2 & E2 & H). exists b, s2, (o1 ++ o2).
  unfold mbind, proc_bind. by rewrite E1, E2.
Qed.
Lemma wp_mono {A} (m : proc S O A) (Q Q' : A -> S -> list O -> Prop) s :
  wp m Q s -> (forall a s' out, Q a s' out -> Q' a s' out) -> wp m Q' s.
Proof. intros (a & s' & out & E & H) HQ. exists a, s', out. auto. Qed.

(** A loop keeps an invariant of the items left. *)
Lemma wp_for_each {X} (f : X -> proc S O unit) (I : list X -> S -> Prop) xs s :
  I xs s -> (forall x xs s, I (x :: xs) s -> wp (f x) (fun _ s' _ => I xs s') s) ->
  wp (for_each f xs) (fun _ s' _ => I [] s') s.
Proof.
  intros HI Hf. revert s HI. induction xs as [|x xs IH]; intros s HI; cbn [for_each]; [by apply wp_skip|].
  apply wp_bind. eapply wp_mono; [by apply Hf|]. intros [] s' _ H. by apply IH.
Qed.

(** What every run that ends has in common: a relation of its start, its requests and its
    end that composes. *)
Class Composes (R : S -> list O -> S -> Prop) : Prop := {
  composes_refl s : R s [] s;
  composes_trans s1 o1 s2 o2 s3 : R s1 o1 s2 -> R s2 o2 s3 -> R s1 (o1 ++ o2) s3
}.

Definition respects {A} (R : S -> list O -> S -> Prop) (m : proc S O A) : Prop :=
  forall s a s' out, m s = Some (a, s', out) -> R s out s'.

Section Respects.
Context (R : S -> list O -> S -> Prop) `{!Composes R}.

Lemma respects_ret {A} (a : A) : respects R (mret a).
Proof. intros s b s' out [= <- <- <-]. apply composes_refl. Qed.
Lemma respects_gets {A} (f : S -> A) : respects R (gets f).
Proof. intros s b s' out [= <- <- <-]. apply composes_refl. Qed.
Lemma respects_lift {A} (o : option A) : respects R (lift o).
Proof. intros s b s' out. unfold lift. destruct o; [intros [= <- <- <-]; apply composes_refl|done]. Qed.
Lemma respects_stuck {A} : respects R (stuck (A := A)).
Proof. done. Qed.
Lemma respects_modify (f : S -> S) : (forall s, R s [] (f s)) -> respects R (modify f).
Proof. by intros Hf s b s' out [= <- <- <-]. Qed.
Lemma respects_emit o : (forall s, R s [o] s) -> respects R (emit o).
Proof. by intros Ho s b s' out [= <- <- <-]. Qed.
Lemma respects_bind {A B} (m : proc S O A) (k : A -> proc S O B) :
  respects R m -> (forall a, respects R (k a)) -> respects R (m ≫= k).
Proof.
  intros Hm Hk s b s' out (a & s1 & o1 & o2 & E1 & E2 & ->)%bind_inv.
  eapply composes_trans; [by eapply Hm|by eapply Hk].
Qed.
Lemma respects_for_each {X} (f : X -> proc S O unit) xs :
  (forall x, respects R (f x)) -> respects R (for_each f xs).
Proof.
  intros Hf. induction xs as [|x xs IH]; [apply respects_ret|]. apply respects_bind; [apply Hf|]. intros _. exact IH.
Qed.

End Respects.

(** The same with a budget: what the parts spend adds up. *)
Class Graded (R : nat -> S -> list O -> S -> Prop) : Prop := {
  graded_refl s : R 0%nat s [] s;
  graded_trans n k s1 o1 s2 o2 s3 : R n s1 o1 s2 -> R k s2 o2 s3 -> R (n + k)%nat s1 (o1 ++ o2) s3;
  graded_le n k s out s' : (n <= k)%nat -> R n s out s' -> R k s out s'
}.

Section Graded.
Context (R : nat -> S -> list O -> S -> Prop) `{!Graded R}.

#[export] Instance graded_composes : Composes (R 0%nat).
Proof. split; [apply graded_refl|]. intros s1 o1 s2 o2 s3. apply (graded_trans 0 0). Qed.

Lemma graded_bind {A B} n k (m : proc S O A) (f : A -> proc S O B) :
  respects (R n) m -> (forall a, respects (R k) (f a)) -> respects (R (n + k)%nat) (m ≫= f).
Proof.
  intros Hm Hf s b s' out (a & s1 & o1 & o2 & E1 & E2 & ->)%bind_inv.
  eapply graded_trans; [by eapply Hm|by eapply Hf].
Qed.
Lemma graded_first {A B} n (m : proc S O A) (f : A -> proc S O B) :
  respects (R n) m -> (forall a, respects (R 0%nat) (f a)) -> respects (R n) (m ≫= f).
Proof. intros. rewrite <- (Nat.add_0_r n). by apply graded_bind. Qed.
Lemma graded_last {A B} n (m : proc S O A) (f : A -> proc S O B) :
  respects (R 0%nat) m -> (forall a, respects (R n) (f a)) -> respects (R n) (m ≫= f).
Proof. apply (graded_bind 0 n). Qed.
Lemma graded_free {A} n (m : proc S O A) : respects (R 0%nat) m -> respects (R n) m.
Proof. intros Hm s a s' out E. eapply graded_le; [|by eapply Hm]. lia. Qed.

End Graded.

(** What the requests cost is within a budget. *)
Definition within (cost : O -> nat) (n : nat) (s : S) (out : list O) (s' : S) : Prop := (sum_list_with cost out <= n)%nat.

#[export] Instance within_graded cost : Graded (within cost).
Proof.
  unfold within. split; [done| |lia]. intros n k s1 o1 s2 o2 s3 H1 H2. rewrite sum_list_with_app. lia.
Qed.

(** A procedure that asks for nothing. *)
Definition nothing (s : S) (out : list O) (s' : S) : Prop := out = [].

#[export] Instance nothing_composes : Composes nothing.
Proof. split; [done|]. by intros s1 o1 s2 o2 s3 -> ->. Qed.

End Proc.

Abbreviation silent := (respects nothing).

(** A procedure put together from operations that respect a relation. *)
Ltac respects :=
  repeat lazymatch goal with
  | |- respects _ (mbind _ _) => apply respects_bind; [apply _| |intros ?]
  | |- respects _ (gets _) => apply respects_gets, _
  | |- respects _ (modify _) => apply respects_modify; intros ?; try done
  | |- respects _ (lift _) => apply respects_lift, _
  | |- respects _ skip => apply respects_ret, _
  | |- respects _ (mret _) => apply respects_ret, _
  | |- respects _ stuck => apply respects_stuck
  | |- respects _ (for_each _ _) => apply respects_for_each; [apply _|intros ?]
  | |- respects _ (match ?x with _ => _ end) => destruct x
  end.

(** A procedure one of whose parts spends the budget; [leaf] knows the operations. *)
Ltac spends leaf :=
  lazymatch goal with
  | |- respects _ (mbind _ _) =>
      first [apply graded_last; [apply _|solve [respects; leaf]|intros ?; spends leaf]
            |apply graded_first; [apply _|spends leaf|intros ?; solve [respects; leaf]]]
  | |- respects _ (match ?x with _ => _ end) => destruct x; spends leaf
  | |- _ => first [solve [leaf]|apply graded_free; [apply _|solve [respects; leaf]]]
  end.

(** One step of a procedure whose operations have rules. *)
Ltac wp_step :=
  lazymatch goal with
  | |- wp (mbind _ _) _ _ => apply wp_bind
  | |- wp (gets _) _ _ => apply wp_gets
  | |- wp (modify _) _ _ => apply wp_modify
  | |- wp (emit _) _ _ => apply wp_emit
  | |- wp skip _ _ => apply wp_skip
  | |- wp (mret _) _ _ => apply wp_ret
  end.

Create Rewrite HintDb proc.
#[export] Hint Rewrite @bind_assoc @bind_gets @bind_modify @bind_ret @bind_lift : proc.

(** Take a computation that has ended apart, one bind at a time. *)
Ltac proc_inv :=
  repeat match goal with
  | H : (_ ≫= _) _ = Some _ |- _ =>
      let a := fresh "a" in let s1 := fresh "s" in let o1 := fresh "o" in let o2 := fresh "o" in
      let E := fresh "E" in
      apply bind_inv in H as (a & s1 & o1 & o2 & E & H & ->)
  | H : mret _ _ = Some (_, _, _) |- _ => injection H as <- <- <-
  | H : modify _ _ = Some (_, _, _) |- _ => injection H as <- <- <-
  | H : emit _ _ = Some (_, _, _) |- _ => injection H as <- <- <-
  | H : gets _ _ = Some (_, _, _) |- _ => injection H as <- <- <-
  end.
