(* ===== verification/Bytes.v ===== *)
(** * Byte-level memory

    Little-endian words ([*(T* )p] on the supported x86-64 and arm64 hosts) and
    fixed-size byte buffers.  A read or a write outside the buffer has no
    result: it is the out-of-bounds access the C++ code would perform. *)
From S2P Require Import Prelude.

(** ** Little-endian words *)

Fixpoint le_bytes (n : nat) (v : Z) : list Z :=
  match n with
  | O => []
  | S n => v mod 256 :: le_bytes n (v / 256)
  end.

Fixpoint le_value (bs : list Z) : Z :=
  match bs with
  | [] => 0
  | b :: bs => b + 256 * le_value bs
  end.

Lemma length_le_bytes n v : length (le_bytes n v) = n.
Proof. revert v. induction n; intros; cbn; auto. Qed.

Lemma zlen_le_bytes n v : zlen (le_bytes n v) = Z.of_nat n.
Proof. unfold zlen. by rewrite length_le_bytes. Qed.

Lemma le_bytes_ok n v : bytes_ok (le_bytes n v).
Proof.
  revert v. induction n; intros; constructor; [|done].
  unfold is_byte. pose proof (Z.mod_pos_bound v 256). lia.
Qed.

Lemma pow256_S n : 256 ^ Z.of_nat (S n) = 256 * 256 ^ Z.of_nat n.
Proof. rewrite Nat2Z.inj_succ, Z.pow_succ_r; lia. Qed.

Lemma le_value_le_bytes n v : le_value (le_bytes n v) = v mod 256 ^ Z.of_nat n.
Proof.
  revert v. induction n as [|n IH]; intros v; cbn [le_bytes le_value].
  - by rewrite Z.mod_1_r.
  - rewrite IH, pow256_S, Z.rem_mul_r by lia. lia.
Qed.

Lemma le_value_range bs : bytes_ok bs -> 0 <= le_value bs < 256 ^ zlen bs.
Proof.
  induction 1 as [|b bs Hb Hbs IH]; [done|].
  unfold zlen in *. cbn [length le_value]. rewrite pow256_S.
  unfold is_byte in Hb. lia.
Qed.

Lemma le_bytes_le_value bs : bytes_ok bs -> le_bytes (length bs) (le_value bs) = bs.
Proof.
  induction 1 as [|b bs Hb Hbs IH]; [done|].
  cbn [length le_value le_bytes]. unfold is_byte in Hb.
  replace ((b + 256 * le_value bs) mod 256) with b.
  2:{ rewrite Z.mul_comm, Z.mod_add by lia. rewrite Z.mod_small; lia. }
  replace ((b + 256 * le_value bs) / 256) with (le_value bs).
  2:{ rewrite Z.mul_comm, Z.div_add by lia. rewrite Z.div_small; lia. }
  by rewrite IH.
Qed.

Lemma le_bytes_le_value_n n bs :
  length bs = n -> bytes_ok bs -> le_bytes n (le_value bs) = bs.
Proof. intros <-. apply le_bytes_le_value. Qed.

Lemma le_value_small n v : 0 <= v < 256 ^ Z.of_nat n -> le_value (le_bytes n v) = v.
Proof. intros. rewrite le_value_le_bytes. by apply Z.mod_small. Qed.

#[export] Hint Rewrite zlen_le_bytes : zlen.
#[export] Hint Resolve le_bytes_ok : cpp.

(** ** Buffers *)

(** [memcpy(out, b + off, n)]. *)
Definition buf_read (b : list Z) (off n : Z) : option (list Z) :=
  if (0 <=? off) && (0 <=? n) && (off + n <=? zlen b)
  then Some (take (Z.to_nat n) (drop (Z.to_nat off) b))
  else None.

(** [memcpy(b + off, bs, length bs)]. *)
Definition buf_write (b : list Z) (off : Z) (bs : list Z) : option (list Z) :=
  if (0 <=? off) && (off + zlen bs <=? zlen b)
  then Some (take (Z.to_nat off) b ++ bs ++ drop (Z.to_nat off + length bs) b)
  else None.

Lemma buf_read_Some b off n :
  0 <= off -> 0 <= n -> off + n <= zlen b ->
  buf_read b off n = Some (take (Z.to_nat n) (drop (Z.to_nat off) b)).
Proof. intros. unfold buf_read. by zbool. Qed.

Lemma buf_write_Some b off bs :
  0 <= off -> off + zlen bs <= zlen b ->
  buf_write b off bs = Some (take (Z.to_nat off) b ++ bs ++ drop (Z.to_nat off + length bs) b).
Proof. intros. unfold buf_write. by zbool. Qed.

Lemma buf_read_inv b off n bs :
  buf_read b off n = Some bs ->
  0 <= off /\ 0 <= n /\ off + n <= zlen b /\
  bs = take (Z.to_nat n) (drop (Z.to_nat off) b) /\ zlen bs = n.
Proof.
  unfold buf_read. zbool. intros [= <-]. repeat split; try lia.
  unfold zlen in *. rewrite length_take, length_drop. lia.
Qed.

Lemma buf_write_inv b off bs b' :
  buf_write b off bs = Some b' ->
  0 <= off /\ off + zlen bs <= zlen b /\
  b' = take (Z.to_nat off) b ++ bs ++ drop (Z.to_nat off + length bs) b.
Proof. unfold buf_write. zbool. by intros [= <-]. Qed.

Lemma buf_read_None b off n : buf_read b off n = None <-> ~ (0 <= off /\ 0 <= n /\ off + n <= zlen b).
Proof. unfold buf_read. zbool; split; try done; lia. Qed.

Lemma zlen_buf_write b off bs b' : buf_write b off bs = Some b' -> zlen b' = zlen b.
Proof.
  intros (? & ? & ->)%buf_write_inv. unfold zlen in *.
  rewrite !length_app, length_take, length_drop. lia.
Qed.

Lemma buf_read_bytes b off n bs : bytes_ok b -> buf_read b off n = Some bs -> bytes_ok bs.
Proof. intros ? (? & ? & ? & -> & ?)%buf_read_inv. by apply Forall_take, Forall_drop. Qed.

Lemma buf_write_bytes b off bs b' :
  bytes_ok b -> bytes_ok bs -> buf_write b off bs = Some b' -> bytes_ok b'.
Proof.
  intros ?? (? & ? & ->)%buf_write_inv.
  repeat apply Forall_app_2; auto using Forall_take, Forall_drop.
Qed.

Lemma buf_lookup_write b off bs b' (i : nat) :
  buf_write b off bs = Some b' ->
  b' !! i = if decide (off <= Z.of_nat i < off + zlen bs) then bs !! (i - Z.to_nat off)%nat
            else b !! i.
Proof.
  intros (? & ? & ->)%buf_write_inv. unfold zlen in *.
  assert (length (take (Z.to_nat off) b) = Z.to_nat off) as Hl by (rewrite length_take; lia).
  case_decide.
  - rewrite lookup_app_r, Hl by lia. by rewrite lookup_app_l by lia.
  - destruct (decide (Z.of_nat i < off)).
    + rewrite lookup_app_l by lia. apply lookup_take_lt. lia.
    + rewrite lookup_app_r, Hl by lia. rewrite lookup_app_r by lia.
      rewrite lookup_drop. f_equal. lia.
Qed.

Lemma buf_lookup_read b off n bs (i : nat) :
  buf_read b off n = Some bs ->
  bs !! i = if decide (Z.of_nat i < n) then b !! (Z.to_nat off + i)%nat else None.
Proof.
  intros (? & ? & ? & -> & ?)%buf_read_inv. case_decide.
  - rewrite lookup_take_lt by lia. by rewrite lookup_drop.
  - apply lookup_take_ge. lia.
Qed.

(** Reading back what was written. *)
Lemma buf_read_write b off bs b' :
  buf_write b off bs = Some b' -> buf_read b' off (zlen bs) = Some bs.
Proof.
  intros Hw. pose proof (zlen_buf_write _ _ _ _ Hw).
  apply buf_write_inv in Hw as (? & ? & ->).
  rewrite buf_read_Some by (auto with cpp; lia). f_equal.
  assert (length (take (Z.to_nat off) b) = Z.to_nat off) as Hl
    by (unfold zlen in *; rewrite length_take; lia).
  rewrite <- Hl at 1. rewrite drop_app_length.
  unfold zlen. rewrite Nat2Z.id. apply take_app_length.
Qed.

(** A write does not disturb a disjoint range. *)
Lemma buf_read_write_ne b off bs b' off' n :
  buf_write b off bs = Some b' -> off' + n <= off \/ off + zlen bs <= off' ->
  buf_read b' off' n = buf_read b off' n.
Proof.
  intros Hw Hd. pose proof (zlen_buf_write _ _ _ _ Hw) as Hl.
  destruct (buf_read b off' n) as [bs'|] eqn:Hr.
  - pose proof (buf_read_inv _ _ _ _ Hr) as (? & ? & ? & _ & ?).
    rewrite buf_read_Some by lia. f_equal. apply list_eq. intros i.
    rewrite (buf_lookup_read _ _ _ _ i Hr).
    case_decide.
    + rewrite lookup_take_lt by lia. rewrite lookup_drop.
      rewrite (buf_lookup_write _ _ _ _ _ Hw). case_decide; [lia|done].
    + apply lookup_take_ge. lia.
  - apply buf_read_None in Hr. apply buf_read_None. lia.
Qed.

(** Splitting a read. *)
Lemma buf_read_app b off n m bs1 bs2 :
  buf_read b off n = Some bs1 -> buf_read b (off + n) m = Some bs2 ->
  buf_read b off (n + m) = Some (bs1 ++ bs2).
Proof.
  intros (? & ? & ? & -> & ?)%buf_read_inv (? & ? & ? & -> & ?)%buf_read_inv.
  rewrite buf_read_Some by lia. f_equal.
  rewrite !Z2Nat.inj_add by lia. rewrite <- drop_drop. symmetry. apply take_take_drop.
Qed.

Lemma buf_read_app_inv b off n m bs :
  0 <= n -> 0 <= m -> buf_read b off (n + m) = Some bs ->
  exists bs1 bs2, buf_read b off n = Some bs1 /\ buf_read b (off + n) m = Some bs2 /\ bs = bs1 ++ bs2.
Proof.
  intros ?? Hr. pose proof (buf_read_inv _ _ _ _ Hr) as (? & ? & ? & _ & _).
  assert (exists bs1, buf_read b off n = Some bs1) as [bs1 Hr1]
    by (eexists; apply buf_read_Some; lia).
  assert (exists bs2, buf_read b (off + n) m = Some bs2) as [bs2 Hr2]
    by (eexists; apply buf_read_Some; lia).
  exists bs1, bs2. repeat split; try done.
  pose proof (buf_read_app _ _ _ _ _ _ Hr1 Hr2). congruence.
Qed.

(** Two adjacent writes are one write. *)
Lemma buf_write_app b off bs1 bs2 b1 b2 :
  buf_write b off bs1 = Some b1 -> buf_write b1 (off + zlen bs1) bs2 = Some b2 ->
  buf_write b off (bs1 ++ bs2) = Some b2.
Proof.
  intros Hw1 Hw2. pose proof (zlen_buf_write _ _ _ _ Hw1) as Hl1.
  pose proof (zlen_buf_write _ _ _ _ Hw2) as Hl2.
  pose proof (buf_write_inv _ _ _ _ Hw1) as (? & ? & _).
  pose proof (buf_write_inv _ _ _ _ Hw2) as (? & ? & _).
  pose proof (zlen_nonneg bs1).
  destruct (buf_write b off (bs1 ++ bs2)) as [b2'|] eqn:Hw.
  - f_equal. apply list_eq. intros i.
    rewrite (buf_lookup_write _ _ _ _ i Hw), (buf_lookup_write _ _ _ _ i Hw2),
      (buf_lookup_write _ _ _ _ i Hw1). autorewrite with zlen. unfold zlen in *.
    repeat case_decide; try lia; try done.
    + rewrite lookup_app_r by lia. f_equal. lia.
    + by rewrite lookup_app_l by lia.
  - unfold buf_write in Hw. rewrite zlen_app in Hw. zbool.
Qed.

(** ** 32-bit words in a buffer *)

Definition read_word (b : list Z) (off : Z) : option Z :=
  bs ← buf_read b off 4; Some (le_value bs).

Definition write_word (b : list Z) (off : Z) (v : Z) : option (list Z) :=
  buf_write b off (le_bytes 4 v).
