(* ===== verification/CString.v ===== *)
(** * Strings

    The members of [std::string], the C library conversions and the stream
    insertion of integers the program uses.  They are language and standard
    library code, so they are defined here; nothing of src/ is. *)
From S2P Require Import Prelude.

(** ** [std::string] *)

Definition cstring_eqb (s t : cstring) : bool := bool_decide (s = t).

(** [std::string(p)] of a [char const*]: up to the first NUL. *)
Fixpoint c_str (s : cstring) : cstring :=
  match s with
  | [] => []
  | c :: s => if c =? 0 then [] else c :: c_str s
  end.

Fixpoint is_prefix (key s : cstring) : bool :=
  match key, s with
  | [], _ => true
  | _, [] => false
  | k :: key, c :: s => (k =? c) && is_prefix key s
  end.

Fixpoint find_from (key s : cstring) (i : nat) : option nat :=
  if is_prefix key s then Some i
  else match s with
       | [] => None
       | _ :: s => find_from key s (S i)
       end.

(** [s.find(key, pos)]; [npos] is [None]. *)
Definition sfind (s key : cstring) (pos : nat) : option nat :=
  if (length s <? pos)%nat then None else find_from key (drop pos s) pos.

(** [s.substr(pos)] and [s.substr(pos, n)], for [pos <= s.size()]. *)
Definition substr_from (s : cstring) (pos : nat) : cstring := drop pos s.
Definition substr (s : cstring) (pos n : nat) : cstring := take n (drop pos s).

(** [s.rfind(c)] of one character. *)
Fixpoint rfind_char (c : Z) (s : cstring) : option nat :=
  match s with
  | [] => None
  | x :: s => match rfind_char c s with
              | Some i => Some (S i)
              | None => if x =? c then Some O else None
              end
  end.

Definition find_char (c : Z) (s : cstring) : option nat := sfind s [c] 0.

(** [s.erase(0, s.find_first_not_of(t))]. *)
Fixpoint erase_first_of (t s : cstring) : cstring :=
  match s with
  | [] => []
  | c :: s' => if bool_decide (c ∈ t) then erase_first_of t s' else s
  end.

(** [s.erase(s.find_last_not_of(t) + 1)]. *)
Fixpoint erase_last_of (t s : cstring) : cstring :=
  match s with
  | [] => []
  | c :: s' =>
      match erase_last_of t s' with
      | [] => if bool_decide (c ∈ t) then [] else [c]
      | r => c :: r
      end
  end.

(** ** Decimal output: [std::ostream << n], [std::to_string], [%d] *)

Fixpoint dec_aux (fuel : nat) (n : Z) (acc : cstring) : cstring :=
  match fuel with
  | O => acc
  | S fuel =>
      let acc := 48 + n mod 10 :: acc in
      if n / 10 =? 0 then acc else dec_aux fuel (n / 10) acc
  end.

Definition dec_u (n : Z) : cstring := dec_aux (S (Z.to_nat (Z.log2 n))) n [].
Definition dec (z : Z) : cstring := if z <? 0 then 45 :: dec_u (- z) else dec_u z.

(** ** [atoi] *)

Definition is_space (c : Z) : bool := (c =? 32) || ((9 <=? c) && (c <=? 13)).
Definition is_digit (c : Z) : bool := (48 <=? c) && (c <=? 57).

Fixpoint digits_value (acc : Z) (s : cstring) : Z :=
  match s with
  | c :: s => if is_digit c then digits_value (10 * acc + (c - 48)) s else acc
  | [] => acc
  end.

Fixpoint skip_spaces (s : cstring) : cstring :=
  match s with
  | c :: s' => if is_space c then skip_spaces s' else s
  | [] => []
  end.

(** [strtol(s, NULL, 10)]: leading space, a sign, digits, saturating at 64 bits. *)
Definition strtol (s : cstring) : Z :=
  let v := match skip_spaces s with
           | 45 :: s => - digits_value 0 s
           | 43 :: s => digits_value 0 s
           | s => digits_value 0 s
           end in
  Z.max (- 2 ^ 63) (Z.min (2 ^ 63 - 1) v).

(** [atoi(s)], which the C libraries of the supported hosts compute as [(int)strtol(s)]. *)
Definition atoi (s : cstring) : Z := i32 (strtol s).

(** ** Lemmas *)

Lemma cstring_eqb_eq s t : cstring_eqb s t = true <-> s = t.
Proof. unfold cstring_eqb. by rewrite bool_decide_eq_true. Qed.

Lemma c_str_id s : Forall (fun c => c <> 0) s -> c_str s = s.
Proof. induction 1; cbn; [done|]. zbool. by f_equal. Qed.

Lemma c_str_no_nul s : Forall (fun c => c <> 0) (c_str s).
Proof. induction s; cbn; [constructor|]. zbool; by constructor. Qed.

Lemma is_prefix_spec key s : is_prefix key s = true <-> exists r, s = key ++ r.
Proof.
  revert s. induction key as [|k key IH]; intros s; cbn.
  { split; [by exists s|done]. }
  destruct s as [|c s].
  { split; [done|by intros [? ?]]. }
  rewrite andb_true_iff, Z.eqb_eq, IH. split.
  - intros [-> [r ->]]. by exists r.
  - intros [r [= -> ->]]. split; [done|by exists r].
Qed.

Lemma find_from_spec key s i j :
  find_from key s i = Some j ->
  (i <= j)%nat /\ (j - i + length key <= length s)%nat /\
  exists r, drop (j - i) s = key ++ r /\ s = take (j - i) s ++ key ++ r.
Proof.
  revert i. induction s as [|c s IH]; intros i; cbn [find_from];
    destruct (is_prefix key _) eqn:Hp; try done.
  - intros [= <-]. apply is_prefix_spec in Hp as [r Hr]. rewrite Nat.sub_diag.
    split; [lia|]. split; [rewrite Hr, length_app; lia|]. by exists r.
  - intros [= <-]. apply is_prefix_spec in Hp as [r Hr]. rewrite Nat.sub_diag.
    split; [lia|]. split; [rewrite Hr, length_app; lia|]. by exists r.
  - intros (? & ? & r & Hd & Hs)%IH.
    replace (j - i)%nat with (S (j - S i)) by lia. cbn [drop take length].
    split; [lia|]. split; [lia|]. exists r. split; [done|].
    cbn [app]. by f_equal.
Qed.

Lemma sfind_spec s key pos j :
  sfind s key pos = Some j ->
  (pos <= j)%nat /\ (j + length key <= length s)%nat /\
  exists r, s = take j s ++ key ++ r.
Proof.
  unfold sfind. destruct (Nat.ltb_spec (length s) pos); [done|].
  intros (? & Hl & r & _ & Hs)%find_from_spec. rewrite length_drop in Hl.
  split; [lia|]. split; [lia|]. exists r.
  rewrite <- (take_drop pos s) at 1. rewrite Hs at 1. rewrite app_assoc. f_equal.
  rewrite take_take_drop. f_equal. lia.
Qed.

(** A match is found wherever there is one. *)
Lemma find_from_None key s i p :
  find_from key s i = None -> ~ exists r, drop p s = key ++ r.
Proof.
  revert i p. induction s as [|c s IH]; intros i p; cbn [find_from].
  - destruct (is_prefix key []) eqn:Hp; [done|]. intros _ [r Hr].
    rewrite drop_nil in Hr. assert (is_prefix key [] = true); [|congruence].
    apply is_prefix_spec. by exists r.
  - destruct (is_prefix key (c :: s)) eqn:Hp; [done|]. intros Hn [r Hr].
    destruct p as [|p].
    + assert (is_prefix key (c :: s) = true); [|congruence].
      apply is_prefix_spec. by exists r.
    + eapply IH; eauto.
Qed.

Lemma erase_first_of_spec t s :
  exists l, s = l ++ erase_first_of t s /\ Forall (fun c => c ∈ t) l /\
  forall c, head (erase_first_of t s) = Some c -> c ∉ t.
Proof.
  induction s as [|c s (l & Hs & Hl & Hh)]; cbn.
  { by exists []. }
  case_bool_decide.
  - exists (c :: l). repeat split; [cbn; by f_equal|by constructor|done].
  - exists []. repeat split; [constructor|]. by intros ? [= <-].
Qed.

Lemma erase_last_of_spec t s :
  exists l, s = erase_last_of t s ++ l /\ Forall (fun c => c ∈ t) l /\
  forall c, last (erase_last_of t s) = Some c -> c ∉ t.
Proof.
  induction s as [|c s (l & Hs & Hl & Hh)]; cbn [erase_last_of].
  { by exists []. }
  destruct (erase_last_of t s) as [|x r] eqn:He.
  - case_bool_decide.
    + exists (c :: l). cbn in *. repeat split; [by f_equal|by constructor|done].
    + exists l. cbn in *. repeat split; [by f_equal|done|]. by intros ? [= <-].
  - exists l. repeat split; [cbn; by f_equal|done|]. intros y. rewrite last_cons_cons. apply Hh.
Qed.

Lemma digit_range n : 0 <= n -> is_digit (48 + n mod 10) = true.
Proof. intros. unfold is_digit. pose proof (Z.mod_pos_bound n 10). zbool. Qed.

Lemma dec_aux_digits fuel n acc :
  0 <= n -> Forall (fun c => is_digit c = true) acc ->
  Forall (fun c => is_digit c = true) (dec_aux fuel n acc).
Proof.
  revert n acc. induction fuel as [|fuel IH]; intros n acc Hn Hacc; cbn [dec_aux]; [done|].
  assert (Forall (fun c => is_digit c = true) (48 + n mod 10 :: acc))
    by (constructor; auto using digit_range).
  destruct (Z.eqb_spec (n / 10) 0); [done|]. apply IH; auto. by apply Z.div_pos.
Qed.

Lemma digits_value_app acc s t :
  Forall (fun c => is_digit c = true) s ->
  digits_value acc (s ++ t) = digits_value (digits_value acc s) t.
Proof. intros Hs. revert acc. induction Hs as [|c s Hc ? IH]; intros; cbn; [done|]. by rewrite Hc. Qed.

Lemma digits_value_shift acc s :
  Forall (fun c => is_digit c = true) s ->
  digits_value acc s = acc * 10 ^ zlen s + digits_value 0 s.
Proof.
  intros Hs. revert acc. induction Hs as [|c s Hc ? IH]; intros acc; cbn [digits_value].
  - change (zlen []) with 0. lia.
  - rewrite Hc. rewrite IH, (IH (10 * 0 + (c - 48))), zlen_cons.
    rewrite Z.pow_add_r by (auto with cpp; lia). lia.
Qed.

Lemma dec_aux_value fuel n acc :
  0 <= n < 2 ^ Z.of_nat fuel -> Forall (fun c => is_digit c = true) acc ->
  digits_value 0 (dec_aux fuel n acc) = n * 10 ^ zlen acc + digits_value 0 acc.
Proof.
  revert n acc. induction fuel as [|fuel IH]; intros n acc Hn Hacc; cbn [dec_aux].
  { assert (n = 0) as -> by (cbn in Hn; lia). lia. }
  pose proof (digit_range n ltac:(lia)) as Hd.
  pose proof (Z.div_mod n 10 ltac:(lia)).
  assert (digits_value 0 (48 + n mod 10 :: acc)
          = (n mod 10) * 10 ^ zlen acc + digits_value 0 acc) as Hv.
  { cbn [digits_value]. rewrite Hd, digits_value_shift by done. f_equal. lia. }
  destruct (Z.eqb_spec (n / 10) 0) as [E|E].
  - rewrite Hv. f_equal. f_equal. lia.
  - rewrite IH.
    + rewrite Hv, zlen_cons, Z.pow_add_r by (auto with cpp; lia). nia.
    + rewrite Nat2Z.inj_succ, Z.pow_succ_r in Hn by lia.
      split; [apply Z.div_pos; lia|]. apply Z.div_lt_upper_bound; lia.
    + by constructor.
Qed.

Lemma dec_u_fuel n : 0 <= n -> n < 2 ^ Z.of_nat (S (Z.to_nat (Z.log2 n))).
Proof.
  intros. rewrite Nat2Z.inj_succ, Z2Nat.id by apply Z.log2_nonneg.
  destruct (Z.eq_dec n 0) as [->|]; [done|]. apply Z.log2_spec. lia.
Qed.

Lemma dec_u_digits n : 0 <= n -> Forall (fun c => is_digit c = true) (dec_u n).
Proof. intros. by apply dec_aux_digits. Qed.

Lemma dec_u_value n : 0 <= n -> digits_value 0 (dec_u n) = n.
Proof.
  intros. unfold dec_u. rewrite dec_aux_value; [|split; [done|by apply dec_u_fuel]|done].
  rewrite zlen_nil. cbn [digits_value]. lia.
Qed.

Lemma dec_aux_nonempty fuel n acc : acc <> [] \/ (0 < fuel)%nat -> dec_aux fuel n acc <> [].
Proof.
  revert n acc. induction fuel as [|fuel IH]; intros n acc; cbn [dec_aux]; [intros [?|?]; [done|lia]|].
  intros _. destruct (n / 10 =? 0); [done|]. apply IH. by left.
Qed.

Lemma dec_u_nonempty n : dec_u n <> [].
Proof. apply dec_aux_nonempty. right. lia. Qed.

Lemma dec_u_head n : 0 <= n -> exists c s, dec_u n = c :: s /\ is_digit c = true.
Proof.
  intros Hn. pose proof (dec_u_digits n Hn) as Hd. pose proof (dec_u_nonempty n).
  destruct (dec_u n) as [|c s]; [done|]. inversion Hd; subst. by exists c, s.
Qed.

(** A digit is neither a space nor a sign, so [strtol] starts on it. *)
Lemma number_head c s v :
  digits_value 0 (c :: s) = v -> is_digit c = true ->
  match skip_spaces (c :: s) with
  | 45 :: s => - digits_value 0 s
  | 43 :: s => digits_value 0 s
  | s => digits_value 0 s
  end = v.
Proof.
  intros Hv [?%Z.leb_le ?%Z.leb_le]%andb_true_iff. cbn [skip_spaces]. unfold is_space.
  replace ((c =? 32) || ((9 <=? c) && (c <=? 13))) with false by (symmetry; zbool).
  assert (c = 48 \/ c = 49 \/ c = 50 \/ c = 51 \/ c = 52 \/ c = 53 \/ c = 54 \/ c = 55
          \/ c = 56 \/ c = 57) as Hc by lia.
  repeat (destruct Hc as [->|Hc]; [exact Hv|]). subst c. exact Hv.
Qed.

(** Printing an integer and reading it back. *)
Lemma strtol_dec z : - 2 ^ 63 <= z < 2 ^ 63 -> strtol (dec z) = z.
Proof.
  intros Hz. unfold strtol.
  assert (match skip_spaces (dec z) with
          | 45 :: s => - digits_value 0 s | 43 :: s => digits_value 0 s
          | s => digits_value 0 s end = z) as ->.
  { unfold dec. destruct (Z.ltb_spec z 0).
    - change (skip_spaces (45 :: dec_u (- z))) with (45 :: dec_u (- z)).
      cbv iota beta. rewrite dec_u_value by lia. lia.
    - pose proof (dec_u_value z ltac:(done)) as Hv.
      destruct (dec_u_head z ltac:(done)) as (c & s & Hs & Hc). rewrite Hs in *.
      by apply number_head. }
  rewrite Z.min_r, Z.max_r by lia. done.
Qed.

Lemma atoi_dec z : - 2 ^ 31 <= z < 2 ^ 31 -> atoi (dec z) = z.
Proof. intros Hz. unfold atoi. rewrite strtol_dec by lia. apply wraps_small; lia. Qed.

Lemma dec_bytes_ok z : bytes_ok (dec z).
Proof.
  assert (forall n, 0 <= n -> bytes_ok (dec_u n)) as Hu.
  { intros n Hn. eapply Forall_impl; [by apply dec_u_digits|].
    intros c. unfold is_digit, is_byte. rewrite andb_true_iff, !Z.leb_le. lia. }
  unfold dec. destruct (Z.ltb_spec z 0); [|by apply Hu].
  constructor; [done|]. apply Hu. lia.
Qed.
#[export] Hint Resolve dec_bytes_ok : cpp.

Example dec_ex : dec (-1207) = $"-1207" /\ dec 0 = $"0" /\ atoi ($"  +42x") = 42.
Proof. done. Qed.
