(* ===== verification/Definitions.v ===== *)
(** * Compile-time constants (src/definitions.h) *)
From S2P Require Import Prelude.

Definition CLIENT_VERSION_MIN := 963.
Definition CLIENT_VERSION_MAX := 9632.
Definition CLIENT_VERSION_CUSTOM := 964.
Definition CLIENT_VERSION_STRING : cstring :=
  lit "WypasOTS has been updated, please restart the game using launcher!" ++ [10]
  ++ lit "Alternatively, you can download portable version from http://wots.pl".
Definition CLIENT_VERSION_DAT := 0.
Definition CLIENT_VERSION_SPR := 0.
Definition CLIENT_VERSION_PIC := 0.
Definition CLIENT_VERSION_DATA : cstring := CLIENT_VERSION_STRING.

Definition NETWORK_HEADER_SIZE := 2.
Definition NETWORK_CRYPTOHEADER_SIZE := NETWORK_HEADER_SIZE + 6.
Definition NETWORK_MAX_SIZE := 16384.
Definition NETWORK_BODY_SIZE := NETWORK_MAX_SIZE - NETWORK_CRYPTOHEADER_SIZE - 6.

Definition LOCALHOST := 2130706433.
Definition GRATIS_PREMIUM := 65535.

(** [enum ThreadState_t], shared by the dispatcher, the scheduler and the
    database workers. *)
Inductive ThreadState_t := STATE_RUNNING | STATE_CLOSING | STATE_TERMINATED.

#[export] Instance ThreadState_eq_dec : EqDecision ThreadState_t.
Proof. solve_decision. Defined.

(** [enum Encryption_t]: the numbers stored in the configuration. *)
Definition ENCRYPTION_PLAIN := 0.
Definition ENCRYPTION_MD5 := 1.
Definition ENCRYPTION_SHA1 := 2.
Definition ENCRYPTION_SHA256 := 3.
Definition ENCRYPTION_SHA512 := 4.
