(* ===== verification/NetMessage.v ===== *)
(** * Network messages (src/net/networkmessage.h, src/net/networkmessage.cpp)

    A [NetworkMessage] is a 16 KiB buffer with a 16-bit read/write position and
    a 16-bit size.  Every operation keeps the 16-bit arithmetic and the mixed
    signed/unsigned comparisons of the source; an access outside the buffer
    has no result ([None]). *)
From S2P Require Import Prelude Bytes Definitions.

Module NetworkMessage.

Record t := mk {
  m_size : Z;       (* uint16_t *)
  m_position : Z;   (* uint16_t *)
  m_buffer : list Z (* uint8_t[NETWORK_MAX_SIZE] *)
}.

Definition setSize (size : Z) (m : t) : t := mk (u16 size) (m_position m) (m_buffer m).
Definition setPosition (position : Z) (m : t) : t := mk (m_size m) (u16 position) (m_buffer m).
Definition setBuffer (b : list Z) (m : t) : t := mk (m_size m) (m_position m) b.

Definition reset (m : t) : t := mk 0 NETWORK_CRYPTOHEADER_SIZE (m_buffer m).

(** [get<T>(peek)] with [sizeof(T) = n]: the value read, zero-extended. *)
Definition get (n : Z) (peek : bool) (m : t) : option (Z * t) :=
  if u32 (NETWORK_MAX_SIZE - m_position m) <=? n then Some (0, m)
  else
    bs ← buf_read (m_buffer m) (m_position m) n;
    let value := le_value bs in
    if peek then Some (value, m)
    else Some (value, setPosition (m_position m + n) m).

(** [skip(count)] *)
Definition skip (count : Z) (m : t) : t := setPosition (m_position m + count) m.

(** [getString(peek, size)] *)
Definition getString (peek : bool) (size : Z) (m : t) : option (cstring * t) :=
  '(size, m) ← (if size =? 0 then get 2 peek m else Some (size, m));
  let position := if peek then u16 (m_position m + 2) else m_position m in
  if NETWORK_MAX_SIZE - position <=? size then Some ([], m)
  else
    v ← buf_read (m_buffer m) position size;
    if peek then Some (v, m)
    else Some (v, setPosition (m_position m + size) m).

(** [getRaw(peek)]: the argument is converted to [uint16_t]. *)
Definition getRaw (peek : bool) (m : t) : option (cstring * t) :=
  getString peek (u16 (m_size m - m_position m)) m.

(** [hasSpace(size)], [size] an [int32_t]. *)
Definition hasSpace (size : Z) (m : t) : bool := size + m_position m <? NETWORK_BODY_SIZE.

(** [put<T>(value)] with [sizeof(T) = n]. *)
Definition put (n : Z) (value : Z) (m : t) : option t :=
  if negb (hasSpace n m) then Some m
  else
    b ← buf_write (m_buffer m) (m_position m) (le_bytes (Z.to_nat n) value);
    Some (mk (u16 (m_size m + n)) (u16 (m_position m + n)) b).

(** [putString(value, length, addSize)] *)
Definition putString (value : cstring) (addSize : bool) (m : t) : option t :=
  let size := u32 (zlen value) in
  if negb (hasSpace (i32 (u32 (size + (if addSize then 2 else 0)))) m)
     || ((if addSize then 8192 else NETWORK_BODY_SIZE) <? size)
  then Some m
  else
    m ← (if addSize then put 2 (u16 size) m else Some m);
    b ← buf_write (m_buffer m) (m_position m) (take (Z.to_nat size) value);
    Some (mk (u16 (m_size m + size)) (u16 (m_position m + size)) b).

(** [putPadding(amount)]: fills, and counts the bytes, without moving the position. *)
Definition putPadding (amount : Z) (m : t) : option t :=
  if negb (hasSpace (i32 amount) m) then Some m
  else
    b ← buf_write (m_buffer m) (m_position m) (replicate (Z.to_nat amount) 0x33);
    Some (mk (u16 (m_size m + amount)) (m_position m) b).

(** [decodeHeader()] *)
Definition decodeHeader (m : t) : option (Z * t) :=
  b ← buf_read (m_buffer m) 0 2;
  let size := Z.lor (nth 0 b 0) (Z.shiftl (nth 1 b 0) 8) in
  Some (size, setSize size m).

(** [writeBuffer()] moves the position; the pointer it returns is the offset
    [NETWORK_HEADER_SIZE]. *)
Definition writeBuffer (m : t) : Z * t :=
  (NETWORK_HEADER_SIZE, setPosition NETWORK_HEADER_SIZE m).

(** The constructor; the array's bytes are left as they were. *)
Definition new (memory : list Z) : t := reset (mk 0 0 memory).

(** ** Well-formed messages *)

Record wf (m : t) : Prop := {
  wf_size : 0 <= m_size m < 2 ^ 16;
  wf_position : 0 <= m_position m < 2 ^ 16;
  wf_length : zlen (m_buffer m) = NETWORK_MAX_SIZE;
  wf_bytes : bytes_ok (m_buffer m)
}.

(** A message under construction: the bytes written since [reset] lie between
    the crypto header and the position. *)
Record writing (m : t) : Prop := {
  writing_wf : wf m;
  writing_position : m_position m = m_size m + NETWORK_CRYPTOHEADER_SIZE;
  writing_bound : m_position m < NETWORK_BODY_SIZE
}.

(** The bytes written so far. *)
Definition payload (m : t) : list Z :=
  take (Z.to_nat (m_size m)) (drop (Z.to_nat NETWORK_CRYPTOHEADER_SIZE) (m_buffer m)).

(** The bytes [bs] are next to be read. *)
Definition contains (m : t) (bs : list Z) : Prop :=
  buf_read (m_buffer m) (m_position m) (zlen bs) = Some bs.

(** ** Field scripts: what a handler writes and what a client reads *)

Inductive field :=
| FNum (n : nat) (v : Z)   (* put<T>, sizeof(T) = n *)
| FStr (s : cstring).      (* putString(s) *)

Definition field_ok (f : field) : Prop :=
  match f with
  | FNum n v => (0 < n <= 8)%nat /\ 0 <= v < 256 ^ Z.of_nat n
  | FStr s => zlen s <= 8192 /\ bytes_ok s
  end.

Definition encode_field (f : field) : list Z :=
  match f with
  | FNum n v => le_bytes n v
  | FStr s => le_bytes 2 (zlen s) ++ s
  end.

Definition encode (fs : list field) : list Z := concat (map encode_field fs).

Definition write_field (f : field) (m : t) : option t :=
  match f with
  | FNum n v => put (Z.of_nat n) v m
  | FStr s => putString s true m
  end.

Fixpoint write_fields (fs : list field) (m : t) : option t :=
  match fs with
  | [] => Some m
  | f :: fs => m ← write_field f m; write_fields fs m
  end.

(** Read with the types of the script: the sizes of the numbers. *)
Inductive shape := SNum (n : nat) | SStr.

Definition shape_of (f : field) : shape :=
  match f with FNum n _ => SNum n | FStr _ => SStr end.

Definition read_field (sh : shape) (m : t) : option (field * t) :=
  match sh with
  | SNum n => '(v, m) ← get (Z.of_nat n) false m; Some (FNum n v, m)
  | SStr => '(s, m) ← getString false 0 m; Some (FStr s, m)
  end.

Fixpoint read_fields (shs : list shape) (m : t) : option (list field * t) :=
  match shs with
  | [] => Some ([], m)
  | sh :: shs =>
      '(f, m) ← read_field sh m; '(fs, m) ← read_fields shs m; Some (f :: fs, m)
  end.

(** ** Lemmas: layout *)

Create HintDb nmsg discriminated.
#[export] Hint Resolve wf_size wf_position wf_length wf_bytes writing_wf : nmsg.

Ltac consts := unfold NETWORK_BODY_SIZE, NETWORK_MAX_SIZE, NETWORK_CRYPTOHEADER_SIZE,
  NETWORK_HEADER_SIZE in *.

Lemma payload_read m :
  writing m -> buf_read (m_buffer m) NETWORK_CRYPTOHEADER_SIZE (m_size m) = Some (payload m).
Proof.
  intros [[Hs Hp Hl Hb] Hpos Hbd]. consts.
  rewrite buf_read_Some by lia. done.
Qed.

Lemma zlen_payload m : writing m -> zlen (payload m) = m_size m.
Proof. intros Hw. by apply payload_read, buf_read_inv in Hw as (_ & _ & _ & _ & ?). Qed.

Lemma payload_bytes m : writing m -> bytes_ok (payload m).
Proof. intros. apply Forall_take, Forall_drop. apply wf_bytes. by apply writing_wf. Qed.

(** Appending [bs] at the position: shared by [put] and [putString]. *)
Lemma append_bytes m bs :
  writing m -> bytes_ok bs -> m_position m + zlen bs < NETWORK_BODY_SIZE ->
  exists b, buf_write (m_buffer m) (m_position m) bs = Some b /\
    let m' := mk (u16 (m_size m + zlen bs)) (u16 (m_position m + zlen bs)) b in
    writing m' /\ payload m' = payload m ++ bs /\ m_size m' = m_size m + zlen bs.
Proof.
  intros Hw Hbs Hbd. pose proof (payload_read m Hw) as Hpl.
  destruct Hw as [[Hs Hp Hl Hb] Hpos Hb0]. pose proof (zlen_nonneg bs). consts.
  assert (exists b, buf_write (m_buffer m) (m_position m) bs = Some b) as [b Hwr].
  { eexists. apply buf_write_Some; lia. }
  exists b. split; [done|]. cbn.
  pose proof (zlen_buf_write _ _ _ _ Hwr). pose proof (buf_write_bytes _ _ _ _ Hb Hbs Hwr).
  rewrite !wrapu_small by lia.
  assert (writing (mk (m_size m + zlen bs) (m_position m + zlen bs) b)) as Hw'.
  { split; [split|..]; cbn; consts; try lia; done. }
  split; [done|]. split; [|done].
  pose proof (payload_read _ Hw') as Hpl'. cbn in Hpl'. consts.
  erewrite buf_read_app in Hpl'; [by injection Hpl'|..].
  - rewrite (buf_read_write_ne _ _ _ _ _ _ Hwr) by lia. exact Hpl.
  - replace (2 + 6 + m_size m) with (m_position m) by lia. eapply buf_read_write, Hwr.
Qed.

Lemma setPosition_wf p m : wf m -> wf (setPosition p m).
Proof. intros [????]. split; cbn; try done. by apply wrapu_range. Qed.

Lemma setSize_wf p m : wf m -> wf (setSize p m).
Proof. intros [????]. split; cbn; try done. by apply wrapu_range. Qed.
#[export] Hint Resolve setPosition_wf setSize_wf : nmsg.

Lemma new_writing memory :
  zlen memory = NETWORK_MAX_SIZE -> bytes_ok memory -> writing (new memory).
Proof. intros. repeat split; cbn; try done; by consts. Qed.

Lemma payload_new memory : payload (new memory) = [].
Proof. done. Qed.

(** ** Lemmas: reading *)

Lemma contains_app m bs1 bs2 :
  contains m (bs1 ++ bs2) ->
  contains m bs1 /\ buf_read (m_buffer m) (m_position m + zlen bs1) (zlen bs2) = Some bs2.
Proof.
  unfold contains. rewrite zlen_app.
  intros (l1 & l2 & H1 & H2 & Heq)%buf_read_app_inv; auto with cpp.
  pose proof (buf_read_inv _ _ _ _ H1) as (_ & _ & _ & _ & Hl1).
  assert (l1 = bs1 /\ l2 = bs2) as [-> ->]; [|done].
  apply app_inj_1; [|done]. unfold zlen in Hl1. lia.
Qed.

Lemma get_contains m bs rest :
  wf m -> contains m (bs ++ rest) -> m_position m + zlen bs < NETWORK_MAX_SIZE ->
  let m' := setPosition (m_position m + zlen bs) m in
  get (zlen bs) false m = Some (le_value bs, m') /\ wf m' /\ contains m' rest
  /\ m_position m' = m_position m + zlen bs.
Proof.
  intros [Hs Hp Hl Hb] Hc Hbd. apply contains_app in Hc as [H1 H2]. unfold contains in *.
  pose proof (zlen_nonneg bs). unfold get. consts.
  rewrite (wrapu_small 32) by lia. destruct (Z.leb_spec (16384 - m_position m) (zlen bs)); [lia|].
  rewrite H1. cbn. repeat split; cbn; rewrite ?wrapu_small by lia; auto; lia.
Qed.

Lemma getString_contains m s rest :
  wf m -> bytes_ok s -> contains m (le_bytes 2 (zlen s) ++ s ++ rest) ->
  m_position m + 2 + zlen s < NETWORK_MAX_SIZE ->
  exists m', getString false 0 m = Some (s, m') /\ wf m' /\ contains m' rest
  /\ m_position m' = m_position m + 2 + zlen s.
Proof.
  intros Hwf Hs Hc Hbd. pose proof (zlen_nonneg s). pose proof (wf_position _ Hwf).
  destruct (get_contains m (le_bytes 2 (zlen s)) (s ++ rest)) as (Hget & Hwf1 & Hc1 & Hp1);
    autorewrite with zlen in *; [done..|consts; lia|].
  change (Z.of_nat 2) with 2 in *. rewrite le_value_small in Hget by (consts; lia).
  set (m1 := setPosition (m_position m + 2) m) in *.
  apply contains_app in Hc1 as [Hr1 Hr2].
  unfold getString. cbn [Z.eqb]. rewrite Hget. cbn [mbind option_bind]. rewrite Hp1.
  consts. destruct (Z.leb_spec (16384 - (m_position m + 2)) (zlen s)); [lia|].
  rewrite Hp1 in *. unfold contains in Hr1. rewrite Hp1 in Hr1. rewrite Hr1. cbn [mbind option_bind].
  eexists. split; [done|]. split; [by apply setPosition_wf|].
  unfold contains. cbn. rewrite wrapu_small by lia. split; [exact Hr2|lia].
Qed.

(** ** Lemmas: writing *)

Lemma put_fits n v m :
  writing m -> 0 <= n -> m_position m + n < NETWORK_BODY_SIZE ->
  exists m', put n v m = Some m' /\ writing m' /\
    payload m' = payload m ++ le_bytes (Z.to_nat n) v /\ m_size m' = m_size m + n.
Proof.
  intros Hw Hn Hbd.
  destruct (append_bytes m (le_bytes (Z.to_nat n) v)) as (b & Hb & Hw' & Hp & Hs);
    autorewrite with zlen in *; auto with cpp; [by rewrite Z2Nat.id by lia|].
  rewrite Z2Nat.id in * by lia.
  unfold put, hasSpace. destruct (Z.ltb_spec (n + m_position m) NETWORK_BODY_SIZE); [|lia].
  cbn [negb]. rewrite Hb. cbn [mbind option_bind]. eauto.
Qed.

Lemma put_dropped n v m :
  NETWORK_BODY_SIZE <= m_position m + n -> put n v m = Some m.
Proof. intros. unfold put, hasSpace. zbool. Qed.

(** The guards of [putString], for a string of any length. *)
Definition string_fits (s : cstring) (addSize : bool) (m : t) : Prop :=
  zlen s < 2 ^ 32 /\ zlen s <= (if addSize then 8192 else NETWORK_BODY_SIZE) /\
  zlen s + (if addSize then 2 else 0) + m_position m < NETWORK_BODY_SIZE.

Lemma putString_fits s addSize m :
  writing m -> bytes_ok s -> string_fits s addSize m ->
  exists m', putString s addSize m = Some m' /\ writing m' /\
    payload m' = payload m ++ (if addSize then le_bytes 2 (zlen s) else []) ++ s /\
    m_size m' = m_size m + (if addSize then 2 else 0) + zlen s.
Proof.
  intros Hw Hs (Hlen & Hmax & Hfit). pose proof (zlen_nonneg s).
  pose proof (wf_position _ (writing_wf _ Hw)).
  assert (exists m1, (if addSize then put 2 (u16 (zlen s)) m else Some m) = Some m1
    /\ writing m1 /\ payload m1 = payload m ++ (if addSize then le_bytes 2 (zlen s) else [])
    /\ m_size m1 = m_size m + (if addSize then 2 else 0)) as (m1 & Hm1 & Hw1 & Hp1 & Hs1).
  { destruct addSize.
    - rewrite (wrapu_small 16) by lia. apply put_fits; consts; try done; lia.
    - exists m. rewrite app_nil_r. split_and!; [done..|lia]. }
  assert (m_position m1 = m_position m + (if addSize then 2 else 0)) as Hpos1.
  { rewrite (writing_position _ Hw1), (writing_position _ Hw). lia. }
  destruct (append_bytes m1 s) as (b & Hb & Hw2 & Hp2 & Hs2); [done..|lia|].
  unfold putString, hasSpace. rewrite (wrapu_small 32 (zlen s)) by lia.
  rewrite (wrapu_small 32), (wraps_small 32) by (consts; destruct addSize; lia).
  destruct (Z.ltb_spec (zlen s + (if addSize then 2 else 0) + m_position m) NETWORK_BODY_SIZE); [|lia].
  destruct (Z.ltb_spec (if addSize then 8192 else NETWORK_BODY_SIZE) (zlen s)); [lia|].
  cbn [negb orb]. rewrite Hm1. cbn [mbind option_bind].
  rewrite firstn_all2 by (unfold zlen; lia). rewrite Hb. cbn [mbind option_bind].
  eexists. split; [done|]. split; [done|]. split; [|lia].
  by rewrite Hp2, Hp1, <- app_assoc.
Qed.

Lemma putString_dropped s addSize m :
  writing m -> ~ string_fits s addSize m -> zlen s < 2 ^ 32 -> putString s addSize m = Some m.
Proof.
  intros Hw Hn Hlen. pose proof (zlen_nonneg s). pose proof (wf_position _ (writing_wf _ Hw)).
  unfold string_fits, putString, hasSpace in *. rewrite (wrapu_small 32 (zlen s)) by lia.
  destruct (Z.ltb_spec (if addSize then 8192 else NETWORK_BODY_SIZE) (zlen s)).
  { by rewrite orb_true_r. }
  rewrite (wrapu_small 32), (wraps_small 32) by (consts; destruct addSize; lia).
  destruct (Z.ltb_spec (zlen s + (if addSize then 2 else 0) + m_position m) NETWORK_BODY_SIZE); [|done].
  lia.
Qed.

Lemma write_field_fits f m :
  writing m -> field_ok f -> m_position m + zlen (encode_field f) < NETWORK_BODY_SIZE ->
  exists m', write_field f m = Some m' /\ writing m' /\
    payload m' = payload m ++ encode_field f /\ m_size m' = m_size m + zlen (encode_field f).
Proof.
  intros Hw Hok Hfit. destruct f as [n v|s]; cbn [field_ok encode_field write_field] in *.
  - destruct Hok as [? ?]. autorewrite with zlen in *.
    destruct (put_fits (Z.of_nat n) v m) as (m' & ? & ? & Hp & Hs); [done|lia..|].
    rewrite Nat2Z.id in Hp. eauto.
  - destruct Hok as [? ?]. autorewrite with zlen in *.
    destruct (putString_fits s true m) as (m' & ? & ? & Hp & Hs);
      [done..|repeat split; consts; lia|]. exists m'. split_and!; [done..|lia].
Qed.

Lemma encode_cons f fs : encode (f :: fs) = encode_field f ++ encode fs.
Proof. done. Qed.

Lemma encode_app fs gs : encode (fs ++ gs) = encode fs ++ encode gs.
Proof. unfold encode. by rewrite map_app, concat_app. Qed.

Lemma write_fields_fits fs m :
  writing m -> Forall field_ok fs -> m_position m + zlen (encode fs) < NETWORK_BODY_SIZE ->
  exists m', write_fields fs m = Some m' /\ writing m' /\
    payload m' = payload m ++ encode fs /\ m_size m' = m_size m + zlen (encode fs).
Proof.
  intros Hw Hok. revert m Hw. induction Hok as [|f fs Hf Hfs IH]; intros m Hw Hfit.
  - exists m. cbn. rewrite app_nil_r. split_and!; [done..|]. rewrite zlen_nil. lia.
  - rewrite encode_cons, zlen_app in *. pose proof (zlen_nonneg (encode fs)).
    destruct (write_field_fits f m) as (m1 & Hm1 & Hw1 & Hp1 & Hs1); [done..|lia|].
    destruct (IH m1 Hw1) as (m2 & Hm2 & Hw2 & Hp2 & Hs2).
    { rewrite (writing_position _ Hw1), (writing_position _ Hw) in *. lia. }
    exists m2. cbn [write_fields]. rewrite Hm1. cbn [mbind option_bind].
    split; [done|]. split; [done|]. split; [|lia]. by rewrite Hp2, Hp1, app_assoc.
Qed.

Lemma write_fields_app fs gs m :
  write_fields (fs ++ gs) m = (m ← write_fields fs m; write_fields gs m).
Proof.
  revert m. induction fs as [|f fs IH]; intros m; [done|].
  cbn [app write_fields]. destruct (write_field f m); cbn; [apply IH|done].
Qed.

(** ** Lemmas: reading scripts *)

Lemma read_field_contains f m rest :
  wf m -> field_ok f -> contains m (encode_field f ++ rest) ->
  m_position m + zlen (encode_field f) < NETWORK_MAX_SIZE ->
  exists m', read_field (shape_of f) m = Some (f, m') /\ wf m' /\ contains m' rest
  /\ m_position m' = m_position m + zlen (encode_field f).
Proof.
  intros Hwf Hok Hc Hbd. destruct f as [n v|s];
    cbn [field_ok encode_field shape_of read_field] in *; destruct Hok as [? ?].
  - destruct (get_contains m (le_bytes n v) rest) as (Hg & ? & ? & ?); [done..|].
    autorewrite with zlen in *. rewrite Hg. cbn [mbind option_bind].
    rewrite le_value_small by done. eauto.
  - rewrite <- app_assoc in Hc. autorewrite with zlen in *.
    destruct (getString_contains m s rest) as (m' & Hg & ? & ? & ?); [done..|lia|].
    rewrite Hg. cbn [mbind option_bind]. exists m'. split_and!; [done..|lia].
Qed.

Lemma read_fields_contains fs m rest :
  wf m -> Forall field_ok fs -> contains m (encode fs ++ rest) ->
  m_position m + zlen (encode fs) < NETWORK_MAX_SIZE ->
  exists m', read_fields (map shape_of fs) m = Some (fs, m') /\ wf m' /\ contains m' rest
  /\ m_position m' = m_position m + zlen (encode fs).
Proof.
  intros Hwf Hok. revert m Hwf. induction Hok as [|f fs Hf Hfs IH]; intros m Hwf Hc Hbd.
  - exists m. change (encode []) with (@nil Z) in *. rewrite zlen_nil.
    split_and!; [done..|lia].
  - rewrite encode_cons, zlen_app in *. pose proof (zlen_nonneg (encode fs)).
    rewrite <- app_assoc in Hc.
    destruct (read_field_contains f m (encode fs ++ rest)) as (m1 & Hr1 & Hw1 & Hc1 & Hp1);
      [done..|lia|].
    destruct (IH m1 Hw1 Hc1 ltac:(lia)) as (m2 & Hr2 & Hw2 & Hc2 & Hp2).
    exists m2. cbn [map read_fields]. rewrite Hr1. cbn [mbind option_bind].
    rewrite Hr2. cbn [mbind option_bind]. split_and!; [done..|lia].
Qed.

(** ** Lemmas: in-bounds reads *)

Definition readable (m : t) : Prop := wf m /\ m_position m <= NETWORK_MAX_SIZE.

Lemma get_readable n peek m :
  readable m -> 0 <= n ->
  exists v m', get n peek m = Some (v, m') /\ readable m'.
Proof.
  intros [Hwf Hp] Hn. pose proof (wf_position _ Hwf). pose proof (wf_length _ Hwf).
  unfold get, readable. consts. rewrite wrapu_small by lia.
  destruct (Z.leb_spec (16384 - m_position m) n); [by eauto|].
  rewrite buf_read_Some by lia. cbn [mbind option_bind].
  destruct peek; [by eauto|]. eexists _, _. split; [done|].
  split; [by apply setPosition_wf|]. cbn. rewrite wrapu_small; lia.
Qed.

Lemma getString_readable size m :
  readable m -> 0 <= size < 2 ^ 16 ->
  exists v m', getString false size m = Some (v, m') /\ readable m'.
Proof.
  intros Hr Hs. unfold getString.
  assert (exists size' m1, (if size =? 0 then get 2 false m else Some (size, m)) = Some (size', m1)
    /\ readable m1 /\ 0 <= size') as (size' & m1 & -> & Hr1 & Hs').
  { destruct (size =? 0); [|exists size, m; split_and!; [done..|lia]].
    destruct (get_readable 2 false m Hr) as (v & m1 & Hg & Hr1); [lia|].
    exists v, m1. split_and!; [done..|]. unfold get in Hg. inv_opt; [lia|].
    apply le_value_range. eapply buf_read_bytes; [|eassumption].
    apply wf_bytes, Hr. }
  cbn [mbind option_bind]. destruct Hr1 as [Hwf Hp]. consts.
  pose proof (wf_position _ Hwf). pose proof (wf_length _ Hwf). consts.
  destruct (Z.leb_spec (16384 - m_position m1) size'); [by eexists _, _|].
  rewrite buf_read_Some by lia. cbn [mbind option_bind].
  eexists _, _. split; [done|]. split; [by apply setPosition_wf|].
  cbn. consts. rewrite wrapu_small; lia.
Qed.

Definition shape_ok (sh : shape) : Prop :=
  match sh with SNum n => (0 < n <= 8)%nat | SStr => True end.

Lemma read_field_readable sh m :
  readable m -> shape_ok sh ->
  exists f m', read_field sh m = Some (f, m') /\ readable m'.
Proof.
  intros Hr Hok. destruct sh as [n|]; cbn [read_field].
  - destruct (get_readable (Z.of_nat n) false m Hr) as (v & m' & -> & ?); [lia|]. cbn. eauto.
  - destruct (getString_readable 0 m Hr) as (v & m' & -> & ?); [lia|]. cbn. eauto.
Qed.

Lemma put_writing n v m : writing m -> 0 <= n -> exists m', put n v m = Some m' /\ writing m'.
Proof.
  intros Hw Hn. destruct (decide (m_position m + n < NETWORK_BODY_SIZE)).
  - destruct (put_fits n v m) as (m' & ? & ? & _); eauto.
  - exists m. split; [apply put_dropped; lia|done].
Qed.

Lemma putString_writing s addSize m :
  writing m -> bytes_ok s -> zlen s < 2 ^ 32 ->
  exists m', putString s addSize m = Some m' /\ writing m'.
Proof.
  intros Hw Hs Hl. destruct (decide (zlen s <= (if addSize then 8192 else NETWORK_BODY_SIZE) /\
    zlen s + (if addSize then 2 else 0) + m_position m < NETWORK_BODY_SIZE)) as [[? ?]|Hn].
  - destruct (putString_fits s addSize m) as (m' & ? & ? & _); [done..|]. eauto.
  - exists m. split; [|done]. apply putString_dropped; [done| |done]. unfold string_fits. tauto.
Qed.

(** ** Properties *)

(** C9: reading back what was written.  A script of [put]s and [putString]s that
    fits in the body of a fresh message, read with the same types from where the
    writing began, yields exactly the values written and ends at the position
    where the writing ended. *)
Theorem write_read_roundtrip memory fs :
  zlen memory = NETWORK_MAX_SIZE -> bytes_ok memory -> Forall field_ok fs ->
  NETWORK_CRYPTOHEADER_SIZE + zlen (encode fs) < NETWORK_BODY_SIZE ->
  exists m m',
    write_fields fs (new memory) = Some m /\ m_size m = zlen (encode fs) /\
    read_fields (map shape_of fs) (setPosition NETWORK_CRYPTOHEADER_SIZE m) = Some (fs, m') /\
    m_position m' = m_position m.
Proof.
  intros Hl Hb Hok Hfit. pose proof (zlen_nonneg (encode fs)).
  destruct (write_fields_fits fs (new memory)) as (m & Hm & Hw & Hp & Hs);
    [by apply new_writing|done|done|].
  change (m_size (new memory)) with 0 in Hs. rewrite payload_new in Hp. cbn [app] in Hp.
  assert (contains (setPosition NETWORK_CRYPTOHEADER_SIZE m) (encode fs ++ [])) as Hc.
  { rewrite app_nil_r. unfold contains. cbn. rewrite wrapu_small by (by consts).
    rewrite <- Hp at 2. rewrite <- payload_read by done. by f_equal. }
  destruct (read_fields_contains fs (setPosition NETWORK_CRYPTOHEADER_SIZE m) [])
    as (m' & Hr & _ & _ & Hpos); [apply setPosition_wf, Hw|done|done|by consts; cbn; rewrite wrapu_small; lia|].
  exists m, m'. split_and!; [done|lia|done|].
  rewrite Hpos, (writing_position _ Hw). cbn. consts. rewrite wrapu_small; lia.
Qed.

Lemma write_read_roundtrip_witness :
  exists m m',
    write_fields [FNum 1 20; FStr (lit "1" ++ [10] ++ lit "Welcome"); FNum 2 65535]
      (new (replicate (Z.to_nat NETWORK_MAX_SIZE) 0)) = Some m /\
    m_size m = zlen (encode [FNum 1 20; FStr (lit "1" ++ [10] ++ lit "Welcome"); FNum 2 65535]) /\
    read_fields (map shape_of [FNum 1 20; FStr (lit "1" ++ [10] ++ lit "Welcome"); FNum 2 65535])
      (setPosition NETWORK_CRYPTOHEADER_SIZE m)
      = Some ([FNum 1 20; FStr (lit "1" ++ [10] ++ lit "Welcome"); FNum 2 65535], m') /\
    m_position m' = m_position m.
Proof.
  apply (write_read_roundtrip (replicate (Z.to_nat NETWORK_MAX_SIZE) 0)
    [FNum 1 20; FStr (lit "1" ++ [10] ++ lit "Welcome"); FNum 2 65535]).
  - vm_compute. reflexivity.
  - apply Forall_replicate. done.
  - repeat constructor; cbn; lia || done.
  - vm_compute. reflexivity.
Defined.

(** C19: writing never leaves the buffer.  Whatever sequence of [put]s (of at most
    eight bytes) and [putString]s a handler performs on a fresh message, whatever
    their lengths, every access is inside the 16 KiB buffer, and the position and
    the size stay in step and below the body size: what does not fit is dropped. *)
Theorem writes_stay_in_buffer memory fs :
  zlen memory = NETWORK_MAX_SIZE -> bytes_ok memory ->
  Forall (fun f => match f with FNum n _ => (n <= 8)%nat | FStr s => bytes_ok s /\ zlen s < 2 ^ 32 end) fs ->
  exists m, write_fields fs (new memory) = Some m /\ wf m /\
    m_position m = m_size m + NETWORK_CRYPTOHEADER_SIZE /\ m_position m < NETWORK_BODY_SIZE.
Proof.
  intros Hl Hb Hfs. pose proof (new_writing memory Hl Hb) as Hw. revert Hw.
  generalize (new memory). induction Hfs as [|f fs Hf _ IH]; intros m Hw.
  - exists m. split; [done|]. destruct Hw; auto.
  - assert (exists m1, write_field f m = Some m1 /\ writing m1) as (m1 & Hm1 & Hw1).
    { destruct f; cbn [write_field]; [apply put_writing; [done|lia]|].
      destruct Hf. by apply putString_writing. }
    destruct (IH m1 Hw1) as (m2 & ? & ?). exists m2. cbn [write_fields].
    by rewrite Hm1.
Qed.

Lemma writes_stay_in_buffer_witness :
  exists m, write_fields [FStr (replicate (Z.to_nat 8000) 65); FStr (replicate (Z.to_nat 9000) 66); FNum 4 7]
              (new (replicate (Z.to_nat NETWORK_MAX_SIZE) 0)) = Some m /\ wf m /\
    m_position m = m_size m + NETWORK_CRYPTOHEADER_SIZE /\ m_position m < NETWORK_BODY_SIZE.
Proof.
  apply (writes_stay_in_buffer (replicate (Z.to_nat NETWORK_MAX_SIZE) 0)
    [FStr (replicate (Z.to_nat 8000) 65); FStr (replicate (Z.to_nat 9000) 66); FNum 4 7]).
  - vm_compute. reflexivity.
  - apply Forall_replicate. done.
  - do 2 (apply Forall_cons; split;
      [split; [apply Forall_replicate; done|vm_compute; reflexivity]|]).
    apply Forall_cons. split; [lia|constructor].
Defined.

(** Reading never leaves the buffer as long as the position is inside it:
    any script of [get]s and [getString]s succeeds and leaves the position inside.
    A position past the end is not caught by the guard of [get], whose unsigned
    difference wraps around: the read then falls outside the buffer. *)
Theorem reads_stay_in_buffer m shs :
  wf m -> Forall shape_ok shs ->
  (m_position m <= NETWORK_MAX_SIZE ->
   exists fs m', read_fields shs m = Some (fs, m') /\ m_position m' <= NETWORK_MAX_SIZE) /\
  (NETWORK_MAX_SIZE < m_position m ->
   forall n peek, 0 < n <= 8 -> get n peek m = None).
Proof.
  intros Hwf Hok. split.
  - intros Hp. assert (readable m) as Hr by done. clear Hwf Hp. revert m Hr.
    induction Hok as [|sh shs Hsh _ IH]; intros m Hr.
    { exists [], m. split; [done|]. apply Hr. }
    destruct (read_field_readable sh m Hr Hsh) as (f & m1 & Hf & Hr1).
    destruct (IH m1 Hr1) as (fs & m2 & Hfs & Hp2). exists (f :: fs), m2.
    cbn [read_fields]. rewrite Hf. cbn [mbind option_bind]. by rewrite Hfs.
  - intros Hp n peek Hn. destruct Hwf as [Hs Hpos Hl Hb]. unfold get. consts.
    destruct (Z.leb_spec (u32 (16384 - m_position m)) n) as [Hle|_].
    { exfalso. revert Hle. width_lia. }
    by replace (buf_read (m_buffer m) (m_position m) n) with (@None (list Z))
      by (symmetry; apply buf_read_None; lia).
Qed.

Lemma reads_stay_in_buffer_witness :
  exists fs m', read_fields [SNum 4; SStr; SNum 2] (new (replicate (Z.to_nat NETWORK_MAX_SIZE) 0))
    = Some (fs, m') /\ m_position m' <= NETWORK_MAX_SIZE.
Proof.
  apply (reads_stay_in_buffer (new (replicate (Z.to_nat NETWORK_MAX_SIZE) 0)) [SNum 4; SStr; SNum 2]).
  - apply new_writing; [vm_compute; reflexivity|apply Forall_replicate; done].
  - repeat constructor; lia.
  - cbn. done.
Defined.

End NetworkMessage.
