(* ===== verification/Checksum.v ===== *)
(** * The packet checksum (src/tools.cpp, adlerChecksum)

    The C++ routine accumulates two 32-bit sums over chunks of 5552 bytes and
    reduces them only between chunks.  It is proved equal to the textbook
    Adler-32: no sum wraps inside a chunk. *)
From S2P Require Import Prelude Bytes Definitions.

Module Checksum.

Definition adler := 65521.
Definition adler_chunk_size : nat := Z.to_nat 5552.

(** The [do ... while(--tmp)] loop over one chunk, [a] and [b] of type [uint32_t]. *)
Fixpoint adler_chunk (a b : Z) (data : list Z) : Z * Z :=
  match data with
  | [] => (a, b)
  | d :: data =>
      let a := u32 (a + d) in
      let b := u32 (b + a) in
      adler_chunk a b data
  end.

(** The outer loop, one turn per chunk; [fuel] bounds the number of turns. *)
Fixpoint adler_loop (fuel : nat) (a b : Z) (data : list Z) : Z * Z :=
  match fuel with
  | O => (a, b)
  | S fuel =>
      match data with
      | [] => (a, b)
      | _ =>
          let '(a, b) := adler_chunk a b (take adler_chunk_size data) in
          adler_loop fuel (a mod adler) (b mod adler) (drop adler_chunk_size data)
      end
  end.

(** [adlerChecksum(data, length)], [data] the list of the [length] bytes. *)
Definition adlerChecksum (data : list Z) : Z :=
  if (NETWORK_MAX_SIZE <? zlen data) || (zlen data =? 0) then 0
  else
    let '(a, b) := adler_loop (length data) 1 0 data in
    Z.lor (u32 (Z.shiftl b 16)) a.

(** The call [adlerChecksum(b + off, length)]: nothing is read of an empty or
    oversized range. *)
Definition adlerChecksumAt (b : list Z) (off length : Z) : option Z :=
  if (NETWORK_MAX_SIZE <? length) || (length =? 0) then Some 0
  else data ← buf_read b off length; Some (adlerChecksum data).

(** ** Reference: Adler-32 as sums *)

Fixpoint sum_bytes (data : list Z) : Z :=
  match data with [] => 0 | d :: data => d + sum_bytes data end.

(** The sum of [1 + d1 + ... + di] over the prefixes of [data]. *)
Fixpoint sum_prefixes (a : Z) (data : list Z) : Z :=
  match data with [] => 0 | d :: data => (a + d) + sum_prefixes (a + d) data end.

Definition adler32 (data : list Z) : Z :=
  65536 * (sum_prefixes 1 data mod adler) + (1 + sum_bytes data) mod adler.

(** ** Lemmas *)

Lemma sum_bytes_app l1 l2 : sum_bytes (l1 ++ l2) = sum_bytes l1 + sum_bytes l2.
Proof. induction l1; cbn; lia. Qed.

Lemma sum_prefixes_app a l1 l2 :
  sum_prefixes a (l1 ++ l2) = sum_prefixes a l1 + sum_prefixes (a + sum_bytes l1) l2.
Proof.
  revert a. induction l1 as [|d l1 IH]; intros a; cbn [app sum_prefixes sum_bytes].
  - by rewrite Z.add_0_r.
  - rewrite IH. replace (a + (d + sum_bytes l1)) with (a + d + sum_bytes l1) by lia. lia.
Qed.

Lemma sum_prefixes_shift a l : sum_prefixes a l = a * zlen l + sum_prefixes 0 l.
Proof.
  revert a. induction l as [|d l IH]; intros a; cbn [sum_prefixes].
  - change (zlen []) with 0. lia.
  - rewrite (IH (a + d)), (IH (0 + d)), zlen_cons. lia.
Qed.

Lemma sum_bytes_bound l : bytes_ok l -> 0 <= sum_bytes l <= 255 * zlen l.
Proof.
  induction 1 as [|d l Hd _ IH]; cbn [sum_bytes]; autorewrite with zlen; unfold is_byte in *; lia.
Qed.

Lemma sum_prefixes_bound l :
  bytes_ok l -> 0 <= sum_prefixes 0 l /\ 2 * sum_prefixes 0 l <= 255 * (zlen l * (zlen l + 1)).
Proof.
  induction 1 as [|d l Hd _ IH]; cbn [sum_prefixes]; [done|].
  rewrite sum_prefixes_shift, zlen_cons. unfold is_byte in Hd.
  pose proof (zlen_nonneg l). nia.
Qed.

(** Within a chunk nothing wraps. *)
Lemma adler_chunk_exact a b l :
  bytes_ok l -> 0 <= a -> 0 <= b ->
  a + sum_bytes l < 2 ^ 32 -> b + sum_prefixes a l < 2 ^ 32 ->
  adler_chunk a b l = (a + sum_bytes l, b + sum_prefixes a l).
Proof.
  intros Hl. revert a b. induction Hl as [|d l Hd Hl IH]; intros a b Ha Hb Hsa Hsb;
    cbn [adler_chunk sum_bytes sum_prefixes] in *.
  - f_equal; lia.
  - unfold is_byte in Hd. pose proof (sum_bytes_bound l Hl).
    assert (0 <= sum_prefixes (a + d) l).
    { rewrite sum_prefixes_shift. pose proof (sum_prefixes_bound l Hl). pose proof (zlen_nonneg l). nia. }
    rewrite (wrapu_small 32 (a + d)) by lia. rewrite wrapu_small by lia.
    rewrite IH by lia. f_equal; lia.
Qed.

Lemma adler_chunk_take a b l :
  bytes_ok l -> (length l <= adler_chunk_size)%nat -> 0 <= a < adler -> 0 <= b < adler ->
  adler_chunk a b l = (a + sum_bytes l, b + sum_prefixes a l).
Proof.
  intros Hl Hlen Ha Hb. pose proof (sum_bytes_bound l Hl). pose proof (sum_prefixes_bound l Hl).
  assert (zlen l <= 5552) by (unfold zlen, adler_chunk_size in *; lia).
  pose proof (zlen_nonneg l). pose proof (sum_prefixes_shift a l). unfold adler in *.
  apply adler_chunk_exact; [done|lia..|nia].
Qed.

Lemma sum_prefixes_mod a a' l :
  a mod adler = a' mod adler -> sum_prefixes a l mod adler = sum_prefixes a' l mod adler.
Proof.
  intros H. rewrite (sum_prefixes_shift a), (sum_prefixes_shift a').
  rewrite (Zplus_mod (a * zlen l)), (Zplus_mod (a' * zlen l)).
  by rewrite (Zmult_mod a), (Zmult_mod a'), H.
Qed.

Lemma adler_loop_spec fuel a b l :
  bytes_ok l -> (length l <= fuel)%nat -> 0 <= a < adler -> 0 <= b < adler ->
  adler_loop fuel a b l = ((a + sum_bytes l) mod adler, (b + sum_prefixes a l) mod adler).
Proof.
  revert a b l. induction fuel as [|fuel IH]; intros a b l Hl Hfuel Ha Hb.
  { destruct l; cbn in *; [|lia]. rewrite !Z.add_0_r. by rewrite !Z.mod_small. }
  destruct l as [|d l']; cbn [adler_loop].
  { cbn. rewrite !Z.add_0_r. by rewrite !Z.mod_small. }
  set (l := d :: l') in *.
  rewrite adler_chunk_take; [|by apply Forall_take|rewrite length_take; lia|done|done].
  rewrite IH.
  - assert (sum_bytes l = sum_bytes (take adler_chunk_size l) + sum_bytes (drop adler_chunk_size l))
      as -> by (by rewrite <- sum_bytes_app, take_drop).
    assert (sum_prefixes a l = sum_prefixes a (take adler_chunk_size l)
      + sum_prefixes (a + sum_bytes (take adler_chunk_size l)) (drop adler_chunk_size l))
      as -> by (by rewrite <- sum_prefixes_app, take_drop).
    f_equal.
    + rewrite Zplus_mod_idemp_l. f_equal. lia.
    + rewrite Zplus_mod, (sum_prefixes_mod _ (a + sum_bytes (take adler_chunk_size l)))
        by apply Zmod_mod.
      rewrite <- Zplus_mod, Zplus_mod_idemp_l. f_equal. lia.
  - by apply Forall_drop.
  - rewrite length_drop. subst l. unfold adler_chunk_size in *. cbn [length] in *. lia.
  - apply Z.mod_pos_bound. done.
  - apply Z.mod_pos_bound. done.
Qed.

Lemma lor_shift16 a b : 0 <= a < 2 ^ 16 -> 0 <= b < 2 ^ 16 ->
  Z.lor (u32 (Z.shiftl b 16)) a = 65536 * b + a.
Proof.
  intros Ha Hb. rewrite wrapu_small by (rewrite Z.shiftl_mul_pow2; lia).
  pose proof (Z.add_lor_land (Z.shiftl b 16) a) as Hadd.
  assert (Z.land (Z.shiftl b 16) a = 0) as Hland.
  { apply Z.bits_inj'. intros n Hn. rewrite Z.land_spec, Z.bits_0.
    destruct (Z.ltb_spec n 16).
    - by rewrite Z.shiftl_spec_low by lia.
    - rewrite <- (Z.mod_small a (2 ^ 16)) by lia.
      rewrite Z.mod_pow2_bits_high by lia. apply andb_false_r. }
  rewrite Z.shiftl_mul_pow2 in * by lia. lia.
Qed.

Lemma adlerChecksum_adler32 data :
  bytes_ok data -> 0 < zlen data <= NETWORK_MAX_SIZE -> adlerChecksum data = adler32 data.
Proof.
  intros Hb Hl. unfold adlerChecksum.
  destruct (Z.ltb_spec NETWORK_MAX_SIZE (zlen data)); [lia|].
  destruct (Z.eqb_spec (zlen data) 0); [lia|]. cbn [orb].
  rewrite adler_loop_spec; [|done|lia|done|done]. unfold adler32.
  pose proof (Z.mod_pos_bound (1 + sum_bytes data) adler ltac:(done)).
  pose proof (Z.mod_pos_bound (0 + sum_prefixes 1 data) adler ltac:(done)). unfold adler in *.
  rewrite lor_shift16 by lia. by rewrite Z.add_0_l.
Qed.

Lemma adlerChecksum_range data : bytes_ok data -> 0 <= adlerChecksum data < 2 ^ 32.
Proof.
  intros Hb. destruct (decide (0 < zlen data <= NETWORK_MAX_SIZE)) as [Hl|Hl].
  - rewrite adlerChecksum_adler32 by done. unfold adler32, adler.
    pose proof (Z.mod_pos_bound (1 + sum_bytes data) 65521).
    pose proof (Z.mod_pos_bound (sum_prefixes 1 data) 65521). lia.
  - unfold adlerChecksum. pose proof (zlen_nonneg data).
    replace ((NETWORK_MAX_SIZE <? zlen data) || (zlen data =? 0)) with true; [done|].
    symmetry. apply orb_true_iff. rewrite Z.ltb_lt, Z.eqb_eq. lia.
Qed.

Lemma adlerChecksumAt_read b off bs :
  bytes_ok bs -> 0 < zlen bs <= NETWORK_MAX_SIZE -> buf_read b off (zlen bs) = Some bs ->
  adlerChecksumAt b off (zlen bs) = Some (adler32 bs).
Proof.
  intros Hb Hl Hr. unfold adlerChecksumAt.
  destruct (Z.ltb_spec NETWORK_MAX_SIZE (zlen bs)); [lia|].
  destruct (Z.eqb_spec (zlen bs) 0); [lia|]. cbn [orb]. rewrite Hr. cbn [mbind option_bind].
  by rewrite adlerChecksum_adler32.
Qed.

Lemma adler32_range data : 0 <= adler32 data < 2 ^ 32.
Proof.
  unfold adler32, adler. pose proof (Z.mod_pos_bound (1 + sum_bytes data) 65521).
  pose proof (Z.mod_pos_bound (sum_prefixes 1 data) 65521). lia.
Qed.

(** ** Properties *)

(** C18: the checksum routine computes Adler-32 on every packet.  For every
    non-empty byte string up to the maximal packet size, the 32-bit chunked loop
    returns the two sums modulo 65521 packed in one word (none of its 32-bit
    additions wraps inside a 5552-byte chunk); on an empty or oversized input it
    returns 0. *)
Theorem adlerChecksum_correct data :
  bytes_ok data ->
  adlerChecksum data =
    if decide (0 < zlen data <= NETWORK_MAX_SIZE) then adler32 data else 0.
Proof.
  intros Hb. case_decide as Hl; [by apply adlerChecksum_adler32|].
  unfold adlerChecksum. pose proof (zlen_nonneg data).
  replace ((NETWORK_MAX_SIZE <? zlen data) || (zlen data =? 0)) with true; [done|].
  symmetry. apply orb_true_iff. rewrite Z.ltb_lt, Z.eqb_eq. lia.
Qed.

Lemma adlerChecksum_correct_witness :
  adlerChecksum (lit "Wikipedia") = 0x11E60398 /\ adler32 (lit "Wikipedia") = 0x11E60398.
Proof.
  split; [|vm_compute; reflexivity].
  rewrite (adlerChecksum_correct (lit "Wikipedia") (lit_bytes_ok _)).
  vm_compute. reflexivity.
Defined.

End Checksum.
