(* ===== verification/Cipher.v ===== *)
(** * The XTEA cipher (src/protocol/protocol.cpp, the loops of XTEA_encrypt and
    XTEA_decrypt)

    The 32 rounds on a pair of [uint32_t], the index loop that applies them to
    the words of a buffer, and the proofs that the loop is a map over 8-byte
    blocks and that the two directions are inverse to each other. *)
From S2P Require Import Prelude Bytes.

Module XTEA.

Definition delta := 0x61C88647.
Definition decrypt_sum := 0xC6EF3720.

(** [m_key[i]] of a key of four [uint32_t]. *)
Definition key_at (m_key : list Z) (i : Z) : Z := nth (Z.to_nat i) m_key 0.

(** [(v << 4 ^ v >> 5) + v] *)
Definition mix (v : Z) : Z := u32 (Z.lxor (u32 (Z.shiftl v 4)) (Z.shiftr v 5) + v).

(** [mix(v) ^ (sum + m_key[i])] *)
Definition feistel (m_key : list Z) (v sum i : Z) : Z :=
  Z.lxor (mix v) (u32 (sum + key_at m_key i)).

(** One turn of the encryption loop, on [(v0, v1, sum)]. *)
Definition encrypt_round (m_key : list Z) (st : Z * Z * Z) : Z * Z * Z :=
  let '(v0, v1, sum) := st in
  let v0 := u32 (v0 + feistel m_key v1 sum (Z.land sum 3)) in
  let sum := u32 (sum - delta) in
  let v1 := u32 (v1 + feistel m_key v0 sum (Z.land (Z.shiftr sum 11) 3)) in
  (v0, v1, sum).

(** One turn of the decryption loop. *)
Definition decrypt_round (m_key : list Z) (st : Z * Z * Z) : Z * Z * Z :=
  let '(v0, v1, sum) := st in
  let v1 := u32 (v1 - feistel m_key v0 sum (Z.land (Z.shiftr sum 11) 3)) in
  let sum := u32 (sum + delta) in
  let v0 := u32 (v0 - feistel m_key v1 sum (Z.land sum 3)) in
  (v0, v1, sum).

Definition rounds : nat := 32.

Definition encrypt_block (m_key : list Z) (v0 v1 : Z) : Z * Z :=
  let '(v0, v1, _) := Nat.iter rounds (encrypt_round m_key) (v0, v1, 0) in (v0, v1).

Definition decrypt_block (m_key : list Z) (v0 v1 : Z) : Z * Z :=
  let '(v0, v1, _) := Nat.iter rounds (decrypt_round m_key) (v0, v1, decrypt_sum) in (v0, v1).

(** The loop [while(++readPos < messageLength >> 2)] over the words of the
    buffer at offset [start]; [fuel] bounds the number of turns. *)
Fixpoint crypt_loop (crypt : Z -> Z -> Z * Z) (fuel : nat) (start messageLength readPos : Z)
    (b : list Z) : option (list Z) :=
  let readPos := readPos + 1 in
  if readPos <? Z.shiftr messageLength 2 then
    match fuel with
    | O => None
    | S fuel =>
        v0 ← read_word b (start + 4 * readPos);
        v1 ← read_word b (start + 4 * (readPos + 1));
        let '(v0, v1) := crypt v0 v1 in
        b ← write_word b (start + 4 * readPos) v0;
        let readPos := readPos + 1 in
        b ← write_word b (start + 4 * readPos) v1;
        crypt_loop crypt fuel start messageLength readPos b
    end
  else Some b.

(** Fuel for the loop: it advances by two words a turn. *)
Definition crypt_buffer (crypt : Z -> Z -> Z * Z) (start messageLength : Z) (b : list Z) :=
  crypt_loop crypt (Z.to_nat messageLength) start messageLength (-1) b.

(** ** Reference: a map over 8-byte blocks *)

Fixpoint crypt_blocks (crypt : Z -> Z -> Z * Z) (n : nat) (bs : list Z) : list Z :=
  match n with
  | O => []
  | S n =>
      let '(w0, w1) := crypt (le_value (take 4 bs)) (le_value (take 4 (drop 4 bs))) in
      le_bytes 4 w0 ++ le_bytes 4 w1 ++ crypt_blocks crypt n (drop 8 bs)
  end.

(** ** Lemmas: the block cipher *)

Definition is_word (v : Z) : Prop := 0 <= v < 2 ^ 32.
Definition state_ok (st : Z * Z * Z) : Prop :=
  let '(v0, v1, sum) := st in is_word v0 /\ is_word v1 /\ is_word sum.

Lemma word_wrap v : is_word (u32 v).
Proof. apply wrapu_range. lia. Qed.

Lemma encrypt_round_ok k st : state_ok (encrypt_round k st).
Proof. destruct st as [[v0 v1] s]. cbn. auto using word_wrap. Qed.

Lemma decrypt_round_ok k st : state_ok (decrypt_round k st).
Proof. destruct st as [[v0 v1] s]. cbn. auto using word_wrap. Qed.

Lemma decrypt_encrypt_round k st : state_ok st -> decrypt_round k (encrypt_round k st) = st.
Proof.
  destruct st as [[v0 v1] s]. intros (H0 & H1 & Hs). unfold decrypt_round, encrypt_round.
  by rewrite (wrapu_add_sub 32 v1), (wrapu_sub_add 32 s), (wrapu_add_sub 32 v0).
Qed.

Lemma encrypt_decrypt_round k st : state_ok st -> encrypt_round k (decrypt_round k st) = st.
Proof.
  destruct st as [[v0 v1] s]. intros (H0 & H1 & Hs). unfold decrypt_round, encrypt_round.
  by rewrite (wrapu_sub_add 32 v0), (wrapu_add_sub 32 s), (wrapu_sub_add 32 v1).
Qed.

(** Undoing [n] turns with [n] turns, for any pair of rounds inverse on [P]. *)
Lemma iter_inverse {A} (P : A -> Prop) (f g : A -> A) n x :
  (forall y, P y -> g (f y) = y) -> (forall y, P y -> P (f y)) -> P x ->
  Nat.iter n g (Nat.iter n f x) = x.
Proof.
  intros Hgf Hf. revert x. induction n as [|n IH]; intros x Hx; [done|].
  rewrite Nat.iter_succ_r, Nat.iter_succ. rewrite Hgf; [by apply IH|].
  clear IH. induction n; cbn; auto.
Qed.

(** The running sum does not depend on the data. *)
Lemma encrypt_sum k n v0 v1 s :
  snd (Nat.iter n (encrypt_round k) (v0, v1, u32 s)) = u32 (s - Z.of_nat n * delta).
Proof.
  induction n as [|n IH]; [by rewrite Z.mul_0_l, Z.sub_0_r|].
  rewrite Nat.iter_succ. destruct (Nat.iter n _ _) as [[w0 w1] s']. cbn [snd encrypt_round] in *.
  rewrite IH, wrapu_sub_l. f_equal. lia.
Qed.

Lemma decrypt_sum_spec k n v0 v1 s :
  snd (Nat.iter n (decrypt_round k) (v0, v1, u32 s)) = u32 (s + Z.of_nat n * delta).
Proof.
  induction n as [|n IH]; [by rewrite Z.mul_0_l, Z.add_0_r|].
  rewrite Nat.iter_succ. destruct (Nat.iter n _ _) as [[w0 w1] s']. cbn [snd decrypt_round] in *.
  rewrite IH, wrapu_add_l. f_equal. lia.
Qed.

Lemma decrypt_encrypt_block k v0 v1 :
  is_word v0 -> is_word v1 ->
  let '(w0, w1) := encrypt_block k v0 v1 in decrypt_block k w0 w1 = (v0, v1).
Proof.
  intros H0 H1. unfold encrypt_block, decrypt_block.
  pose proof (encrypt_sum k rounds v0 v1 0) as Hs. change (u32 0) with 0 in Hs.
  change (u32 (0 - Z.of_nat rounds * delta)) with decrypt_sum in Hs.
  pose proof (iter_inverse state_ok (encrypt_round k) (decrypt_round k) rounds (v0, v1, 0)
    (decrypt_encrypt_round k) (fun y _ => encrypt_round_ok k y)) as Hi.
  destruct (Nat.iter rounds (encrypt_round k) (v0, v1, 0)) as [[w0 w1] s].
  cbn [snd] in Hs. subst s. rewrite Hi; [reflexivity|].
  split; [exact H0|split; [exact H1|unfold is_word, decrypt_sum; lia]].
Qed.

Lemma encrypt_decrypt_block k v0 v1 :
  is_word v0 -> is_word v1 ->
  let '(w0, w1) := decrypt_block k v0 v1 in encrypt_block k w0 w1 = (v0, v1).
Proof.
  intros H0 H1. unfold encrypt_block, decrypt_block.
  pose proof (decrypt_sum_spec k rounds v0 v1 decrypt_sum) as Hs.
  change (u32 decrypt_sum) with decrypt_sum in Hs.
  change (u32 (decrypt_sum + Z.of_nat rounds * delta)) with 0 in Hs.
  pose proof (iter_inverse state_ok (decrypt_round k) (encrypt_round k) rounds
    (v0, v1, decrypt_sum) (encrypt_decrypt_round k) (fun y _ => decrypt_round_ok k y)) as Hi.
  destruct (Nat.iter rounds (decrypt_round k) (v0, v1, decrypt_sum)) as [[w0 w1] s].
  cbn [snd] in Hs. subst s. rewrite Hi; [reflexivity|].
  split; [exact H0|split; [exact H1|unfold is_word, decrypt_sum; lia]].
Qed.

Lemma encrypt_block_ok k v0 v1 : is_word (encrypt_block k v0 v1).1 /\ is_word (encrypt_block k v0 v1).2.
Proof.
  unfold encrypt_block, rounds. rewrite Nat.iter_succ.
  pose proof (encrypt_round_ok k (Nat.iter 31 (encrypt_round k) (v0, v1, 0))) as Hok.
  destruct (encrypt_round k _) as [[w0 w1] s]. cbn in *. tauto.
Qed.

Lemma decrypt_block_ok k v0 v1 : is_word (decrypt_block k v0 v1).1 /\ is_word (decrypt_block k v0 v1).2.
Proof.
  unfold decrypt_block, rounds. rewrite Nat.iter_succ.
  pose proof (decrypt_round_ok k (Nat.iter 31 (decrypt_round k) (v0, v1, decrypt_sum))) as Hok.
  destruct (decrypt_round k _) as [[w0 w1] s]. cbn in *. tauto.
Qed.

(** ** Lemmas: the loop is the map *)

Lemma zlen_crypt_blocks crypt n bs : zlen (crypt_blocks crypt n bs) = 8 * Z.of_nat n.
Proof.
  revert bs. induction n as [|n IH]; intros bs; [done|]. cbn [crypt_blocks].
  destruct (crypt _ _). autorewrite with zlen. rewrite IH. lia.
Qed.

Lemma crypt_blocks_bytes crypt n bs : bytes_ok (crypt_blocks crypt n bs).
Proof.
  revert bs. induction n as [|n IH]; intros bs; cbn [crypt_blocks]; [done|].
  destruct (crypt _ _). repeat apply Forall_app_2; auto using le_bytes_ok.
Qed.

Lemma take4_block (bs1 bs2 rest : list Z) :
  zlen bs1 = 4 -> zlen bs2 = 4 ->
  take 4 (bs1 ++ bs2 ++ rest) = bs1 /\ take 4 (drop 4 (bs1 ++ bs2 ++ rest)) = bs2 /\
  drop 8 (bs1 ++ bs2 ++ rest) = rest.
Proof.
  unfold zlen. intros H1 H2. assert (length bs1 = 4%nat) as E1 by lia.
  assert (length bs2 = 4%nat) as E2 by lia.
  destruct bs1 as [|a [|b [|c [|d [|]]]]]; try done.
  destruct bs2 as [|a' [|b' [|c' [|d' [|]]]]]; done.
Qed.

Lemma shiftr_words n : Z.shiftr (8 * n) 2 = 2 * n.
Proof. rewrite Z.shiftr_div_pow2 by lia. Z.div_mod_to_equations; lia. Qed.

(** The loop ends at the last word. *)
Lemma crypt_loop_done crypt fuel start i b : crypt_loop crypt fuel start (8 * i) (2 * i - 1) b = Some b.
Proof.
  destruct fuel; cbn [crypt_loop]; rewrite shiftr_words; (destruct (Z.ltb_spec (2 * i - 1 + 1) (2 * i)); [lia|done]).
Qed.

Lemma crypt_loop_blocks crypt fuel start i k b bs :
  0 <= start -> 0 <= i -> (k <= fuel)%nat ->
  buf_read b (start + 8 * i) (8 * Z.of_nat k) = Some bs ->
  crypt_loop crypt fuel start (8 * (i + Z.of_nat k)) (2 * i - 1) b
  = buf_write b (start + 8 * i) (crypt_blocks crypt k bs).
Proof.
  intros Hst Hi. revert fuel b i bs Hi. induction k as [|k IH]; intros fuel b i bs Hi Hfuel Hr.
  - rewrite Z.add_0_r. rewrite crypt_loop_done by lia.
    pose proof (buf_read_inv _ _ _ _ Hr) as (? & _ & ? & _).
    rewrite buf_write_Some by (rewrite ?zlen_crypt_blocks; lia). cbn [crypt_blocks app length].
    by rewrite Nat.add_0_r, take_drop.
  - destruct fuel as [|fuel]; [lia|].
    replace (8 * Z.of_nat (S k)) with (4 + (4 + 8 * Z.of_nat k)) in Hr by lia.
    apply buf_read_app_inv in Hr as (bs1 & bs' & Hr1 & Hr' & ->); [|lia..].
    apply buf_read_app_inv in Hr' as (bs2 & rest & Hr2 & Hr3 & ->); [|lia..].
    pose proof (buf_read_inv _ _ _ _ Hr1) as (_ & _ & _ & _ & Hl1).
    pose proof (buf_read_inv _ _ _ _ Hr2) as (_ & _ & Hle2 & _ & Hl2).
    pose proof (buf_read_inv _ _ _ _ Hr3) as (_ & _ & Hle3 & _ & Hl3).
    cbn [crypt_loop crypt_blocks]. rewrite shiftr_words.
    destruct (take4_block bs1 bs2 rest Hl1 Hl2) as (-> & -> & ->).
    destruct (Z.ltb_spec (2 * i - 1 + 1) (2 * (i + Z.of_nat (S k)))); [|lia].
    unfold read_word. replace (start + 4 * (2 * i - 1 + 1)) with (start + 8 * i) by lia.
    replace (start + 4 * (2 * i - 1 + 1 + 1)) with (start + 8 * i + 4) by lia.
    rewrite Hr1, Hr2. cbn [mbind option_bind].
    destruct (crypt (le_value bs1) (le_value bs2)) as [w0 w1].
    unfold write_word.
    destruct (buf_write b (start + 8 * i) (le_bytes 4 w0)) as [b1|] eqn:Hw1.
    2:{ rewrite buf_write_Some in Hw1 by (autorewrite with zlen; lia). done. }
    pose proof (zlen_buf_write _ _ _ _ Hw1).
    cbn [mbind option_bind].
    destruct (buf_write b1 (start + 8 * i + 4) (le_bytes 4 w1)) as [b2|] eqn:Hw2.
    2:{ rewrite buf_write_Some in Hw2 by (autorewrite with zlen; lia). done. }
    pose proof (zlen_buf_write _ _ _ _ Hw2).
    cbn [mbind option_bind].
    replace (2 * i - 1 + 1 + 1) with (2 * (i + 1) - 1) by lia.
    replace (8 * (i + Z.of_nat (S k))) with (8 * (i + 1 + Z.of_nat k)) by lia.
    assert (buf_read b2 (start + 8 * (i + 1)) (8 * Z.of_nat k) = Some rest) as Hr4.
    { rewrite (buf_read_write_ne _ _ _ _ _ _ Hw2) by (autorewrite with zlen; lia).
      rewrite (buf_read_write_ne _ _ _ _ _ _ Hw1) by (autorewrite with zlen; lia).
      rewrite <- Hr3. f_equal. lia. }
    rewrite (IH fuel b2 (i + 1) rest) by (done || lia).
    destruct (buf_write b2 (start + 8 * (i + 1)) (crypt_blocks crypt k rest)) as [b3|] eqn:Hw3.
    2:{ rewrite buf_write_Some in Hw3 by (rewrite ?zlen_crypt_blocks; lia). done. }
    symmetry. eapply buf_write_app; [exact Hw1|]. rewrite zlen_le_bytes.
    eapply buf_write_app; [exact Hw2|]. rewrite zlen_le_bytes.
    rewrite <- Hw3. f_equal. lia.
Qed.

Lemma crypt_buffer_blocks crypt start n b bs :
  0 <= start -> buf_read b start (8 * Z.of_nat n) = Some bs ->
  crypt_buffer crypt start (8 * Z.of_nat n) b = buf_write b start (crypt_blocks crypt n bs).
Proof.
  intros Hst Hr. unfold crypt_buffer.
  pose proof (crypt_loop_blocks crypt (Z.to_nat (8 * Z.of_nat n)) start 0 n b bs) as Hl.
  rewrite Z.mul_0_r, Z.add_0_r in Hl. rewrite <- Hl by (done || lia). f_equal; lia.
Qed.

(** ** Lemmas: whole buffers *)

Definition inverse_blocks (f g : Z -> Z -> Z * Z) : Prop :=
  forall v0 v1, is_word v0 -> is_word v1 ->
    (let '(w0, w1) := f v0 v1 in g w0 w1) = (v0, v1) /\ is_word (f v0 v1).1 /\ is_word (f v0 v1).2.

Lemma le_word bs : bytes_ok bs -> is_word (le_value (take 4 bs)).
Proof.
  intros Hb. pose proof (le_value_range (take 4 bs)) as Hr. unfold is_word.
  assert (zlen (take 4 bs) <= 4) by (unfold zlen; rewrite length_take; lia).
  assert (256 ^ zlen (take 4 bs) <= 256 ^ 4) by (apply Z.pow_le_mono_r; lia).
  specialize (Hr ltac:(by apply Forall_take)). lia.
Qed.

Lemma crypt_blocks_inverse f g n bs :
  inverse_blocks f g -> bytes_ok bs -> zlen bs = 8 * Z.of_nat n ->
  crypt_blocks g n (crypt_blocks f n bs) = bs.
Proof.
  intros Hinv. revert bs. induction n as [|n IH]; intros bs Hb Hl.
  { destruct bs; [done|]. rewrite zlen_cons in Hl. pose proof (zlen_nonneg bs). lia. }
  cbn [crypt_blocks].
  destruct (Hinv (le_value (take 4 bs)) (le_value (take 4 (drop 4 bs)))) as (Hgf & Hw0 & Hw1);
    [by apply le_word|by apply le_word, Forall_drop|].
  destruct (f _ _) as [w0 w1]. cbn [fst snd] in *.
  destruct (take4_block (le_bytes 4 w0) (le_bytes 4 w1) (crypt_blocks f n (drop 8 bs)))
    as (-> & -> & ->); [by rewrite zlen_le_bytes..|].
  rewrite !le_value_small by done. rewrite Hgf.
  rewrite IH; [|by apply Forall_drop|unfold zlen in *; rewrite length_drop; lia].
  assert (length (take 4 bs) = 4%nat) as Hl0 by (unfold zlen in *; rewrite length_take; lia).
  assert (length (take 4 (drop 4 bs)) = 4%nat) as Hl1
    by (unfold zlen in *; rewrite length_take, length_drop; lia).
  rewrite (le_bytes_le_value_n 4 (take 4 bs)) by (done || by apply Forall_take).
  rewrite (le_bytes_le_value_n 4 (take 4 (drop 4 bs))) by (done || by apply Forall_take, Forall_drop).
  change 8%nat with (4 + 4)%nat. rewrite <- (drop_drop bs 4 4), take_drop. apply take_drop.
Qed.

Lemma encrypt_inverse k : inverse_blocks (encrypt_block k) (decrypt_block k).
Proof.
  intros v0 v1 H0 H1. split; [|apply encrypt_block_ok].
  pose proof (decrypt_encrypt_block k v0 v1 H0 H1). by destruct (encrypt_block k v0 v1).
Qed.

Lemma decrypt_inverse k : inverse_blocks (decrypt_block k) (encrypt_block k).
Proof.
  intros v0 v1 H0 H1. split; [|apply decrypt_block_ok].
  pose proof (encrypt_decrypt_block k v0 v1 H0 H1). by destruct (decrypt_block k v0 v1).
Qed.

Lemma crypt_buffer_inverse f g start n b :
  inverse_blocks f g -> bytes_ok b -> 0 <= start -> start + 8 * Z.of_nat n <= zlen b ->
  exists b1, crypt_buffer f start (8 * Z.of_nat n) b = Some b1 /\
    crypt_buffer g start (8 * Z.of_nat n) b1 = Some b /\
    zlen b1 = zlen b /\ bytes_ok b1 /\
    (forall off m, off + m <= start \/ start + 8 * Z.of_nat n <= off ->
       buf_read b1 off m = buf_read b off m).
Proof.
  intros Hinv Hb Hst Hfit.
  destruct (buf_read b start (8 * Z.of_nat n)) as [bs|] eqn:Hr.
  2:{ rewrite buf_read_Some in Hr by lia. done. }
  pose proof (buf_read_inv _ _ _ _ Hr) as (_ & _ & _ & _ & Hl).
  pose proof (buf_read_bytes _ _ _ _ Hb Hr) as Hbs.
  rewrite (crypt_buffer_blocks f start n b bs) by done.
  destruct (buf_write b start (crypt_blocks f n bs)) as [b1|] eqn:Hw.
  2:{ rewrite buf_write_Some in Hw by (rewrite ?zlen_crypt_blocks; lia). done. }
  pose proof (zlen_buf_write _ _ _ _ Hw) as Hl1.
  pose proof (buf_read_write _ _ _ _ Hw) as Hr1. rewrite zlen_crypt_blocks in Hr1.
  exists b1. split; [done|].
  rewrite (crypt_buffer_blocks g start n b1 _) by done.
  rewrite (crypt_blocks_inverse f g) by done.
  split_and!.
  - destruct (buf_write b1 start bs) as [b2|] eqn:Hw2.
    2:{ rewrite buf_write_Some in Hw2 by lia. done. }
    f_equal. apply list_eq. intros i.
    rewrite (buf_lookup_write _ _ _ _ i Hw2), (buf_lookup_write _ _ _ _ i Hw).
    rewrite zlen_crypt_blocks, Hl. case_decide; [|done].
    rewrite (buf_lookup_read _ _ _ _ _ Hr). case_decide; [f_equal; lia|lia].
  - done.
  - exact (buf_write_bytes _ _ _ _ Hb (crypt_blocks_bytes f n bs) Hw).
  - intros off m Hd. rewrite (buf_read_write_ne _ _ _ _ _ _ Hw); [done|]. by rewrite zlen_crypt_blocks.
Qed.

(** The published test vector: key 000102...0f, plaintext "ABCDEFGH". *)
Example encrypt_block_vector :
  encrypt_block [0x00010203; 0x04050607; 0x08090a0b; 0x0c0d0e0f] 0x41424344 0x45464748
  = (0x497df3d0, 0x72612cb5).
Proof. vm_compute. reflexivity. Qed.

(** ** Properties *)

(** C13: XTEA encryption and decryption of a buffer undo each other.  For every
    key and every range of whole 8-byte blocks inside a buffer, the word loop of
    XTEA_encrypt and the one of XTEA_decrypt terminate without leaving the
    buffer, touch only that range, and composed in either order restore it. *)
Theorem xtea_buffer_inverse m_key start n b :
  bytes_ok b -> 0 <= start -> start + 8 * Z.of_nat n <= zlen b ->
  (exists b1, crypt_buffer (encrypt_block m_key) start (8 * Z.of_nat n) b = Some b1 /\
     crypt_buffer (decrypt_block m_key) start (8 * Z.of_nat n) b1 = Some b /\
     forall off m, off + m <= start \/ start + 8 * Z.of_nat n <= off ->
       buf_read b1 off m = buf_read b off m) /\
  (exists b1, crypt_buffer (decrypt_block m_key) start (8 * Z.of_nat n) b = Some b1 /\
     crypt_buffer (encrypt_block m_key) start (8 * Z.of_nat n) b1 = Some b /\
     forall off m, off + m <= start \/ start + 8 * Z.of_nat n <= off ->
       buf_read b1 off m = buf_read b off m).
Proof.
  intros Hb Hst Hfit. split.
  - destruct (crypt_buffer_inverse _ _ start n b (encrypt_inverse m_key)) as (b1 & ? & ? & _ & _ & ?);
      eauto.
  - destruct (crypt_buffer_inverse _ _ start n b (decrypt_inverse m_key)) as (b1 & ? & ? & _ & _ & ?);
      eauto.
Qed.

Lemma xtea_buffer_inverse_witness :
  exists b1,
    crypt_buffer (encrypt_block [1; 2; 3; 4]) 6 16 (lit "header|sixteen bytes!!|tail") = Some b1 /\
    crypt_buffer (decrypt_block [1; 2; 3; 4]) 6 16 b1 = Some (lit "header|sixteen bytes!!|tail").
Proof.
  destruct (xtea_buffer_inverse [1; 2; 3; 4] 6 2 (lit "header|sixteen bytes!!|tail"))
    as [(b1 & H1 & H2 & _) _].
  - apply lit_bytes_ok.
  - lia.
  - vm_compute. discriminate.
  - exists b1. split; [exact H1|exact H2].
Defined.

End XTEA.
