(* ===== verification/OutMessage.v ===== *)
(** * Output messages (src/net/outputmessage.h, class OutputMessage)

    A [NetworkMessage] whose headers are prepended in the eight bytes left free
    before the payload. *)
From S2P Require Import Prelude Bytes Definitions NetMessage Checksum.

Module OutputMessage.

Inductive OutputMessageState :=
| STATE_FREE
| STATE_ALLOCATED
| STATE_ALLOCATED_NO_AUTOSEND
| STATE_WAITING.

#[export] Instance OutputMessageState_eq_dec : EqDecision OutputMessageState.
Proof. solve_decision. Defined.

(** The base class, and the members of the derived one; the protocol and the
    connection are named by their identities. *)
Record t := mk {
  base : NetworkMessage.t;
  m_protocol : option nat;
  m_connection : option nat;
  m_state : OutputMessageState;
  m_frame : Z;             (* uint64_t *)
  m_outputBufferStart : Z  (* uint32_t *)
}.

Definition setBase (b : NetworkMessage.t) (m : t) : t :=
  mk b (m_protocol m) (m_connection m) (m_state m) (m_frame m) (m_outputBufferStart m).
Definition setProtocol (p : option nat) (m : t) : t :=
  mk (base m) p (m_connection m) (m_state m) (m_frame m) (m_outputBufferStart m).
Definition setConnection (c : option nat) (m : t) : t :=
  mk (base m) (m_protocol m) c (m_state m) (m_frame m) (m_outputBufferStart m).
Definition setState (s : OutputMessageState) (m : t) : t :=
  mk (base m) (m_protocol m) (m_connection m) s (m_frame m) (m_outputBufferStart m).
Definition setFrame (f : Z) (m : t) : t :=
  mk (base m) (m_protocol m) (m_connection m) (m_state m) f (m_outputBufferStart m).
Definition setStart (s : Z) (m : t) : t :=
  mk (base m) (m_protocol m) (m_connection m) (m_state m) (m_frame m) s.

(** [freeMessage()] *)
Definition freeMessage (m : t) : t :=
  mk (base m) None None STATE_FREE 0 NETWORK_CRYPTOHEADER_SIZE.

(** The constructor. *)
Definition new (memory : list Z) : t :=
  freeMessage (mk (NetworkMessage.new memory) None None STATE_FREE 0 0).

(** [header<T>(value)] with [sizeof(T) = n]. *)
Definition header (n : Z) (value : Z) (m : t) : option t :=
  if i32 (m_outputBufferStart m) - n <? 0 then Some m
  else
    let start := u32 (m_outputBufferStart m - n) in
    b ← buf_write (NetworkMessage.m_buffer (base m)) start (le_bytes (Z.to_nat n) value);
    Some (setStart start (setBase
      (NetworkMessage.mk (u16 (NetworkMessage.m_size (base m) + n))
         (NetworkMessage.m_position (base m)) b) m)).

(** [addHeader()] *)
Definition addHeader (m : t) : option t :=
  header 2 (u16 (NetworkMessage.m_size (base m))) m.

(** [addCryptoHeader(addChecksum)] *)
Definition addCryptoHeader (addChecksum : bool) (m : t) : option t :=
  m ← (if addChecksum
       then checksum ← Checksum.adlerChecksumAt (NetworkMessage.m_buffer (base m))
                         (m_outputBufferStart m) (NetworkMessage.m_size (base m));
            header 4 checksum m
       else Some m);
  header 2 (u16 (NetworkMessage.m_size (base m))) m.

(** The bytes handed to [async_write]: [size()] bytes at [getOutputBuffer()]. *)
Definition wire (m : t) : option (list Z) :=
  buf_read (NetworkMessage.m_buffer (base m)) (m_outputBufferStart m)
    (NetworkMessage.m_size (base m)).

(** ** Lemmas *)

(** A message whose [size()] bytes [bs] start at [start]. *)
Record holds (m : t) (start : Z) (bs : list Z) : Prop := {
  holds_wf : NetworkMessage.wf (base m);
  holds_start : m_outputBufferStart m = start;
  holds_size : NetworkMessage.m_size (base m) = zlen bs;
  holds_range : 0 <= start <= NETWORK_CRYPTOHEADER_SIZE /\ start + zlen bs <= NETWORK_MAX_SIZE;
  holds_bytes : buf_read (NetworkMessage.m_buffer (base m)) start (zlen bs) = Some bs
}.

Lemma header_holds n v m start bs :
  holds m start bs -> 0 <= n <= start ->
  exists m', header n v m = Some m' /\ holds m' (start - n) (le_bytes (Z.to_nat n) v ++ bs) /\
    NetworkMessage.m_position (base m') = NetworkMessage.m_position (base m).
Proof.
  intros [[Hs Hp Hl Hb] <- Hsz [Hr1 Hr2] Hrd] Hn. pose proof (zlen_nonneg bs).
  unfold NETWORK_CRYPTOHEADER_SIZE, NETWORK_HEADER_SIZE, NETWORK_MAX_SIZE in *.
  unfold header. rewrite wraps_small by lia.
  destruct (Z.ltb_spec (m_outputBufferStart m - n) 0); [lia|].
  rewrite wrapu_small by lia.
  set (v' := le_bytes (Z.to_nat n) v).
  assert (zlen v' = n) as Hv by (unfold v'; rewrite zlen_le_bytes; lia).
  destruct (buf_write _ (m_outputBufferStart m - n) v') as [b|] eqn:Hw.
  2:{ rewrite buf_write_Some in Hw by lia. done. }
  pose proof (zlen_buf_write _ _ _ _ Hw). cbn [mbind option_bind].
  eexists. split; [done|]. split; [|done].
  split; cbn; rewrite ?zlen_app, ?Hv.
  - split; cbn; [apply wrapu_range; lia|done|etransitivity; [eassumption|exact Hl]|].
    eapply buf_write_bytes; [exact Hb|apply le_bytes_ok|exact Hw].
  - done.
  - rewrite wrapu_small; lia.
  - unfold NETWORK_CRYPTOHEADER_SIZE, NETWORK_HEADER_SIZE, NETWORK_MAX_SIZE. lia.
  - pose proof (buf_read_write _ _ _ _ Hw) as Hrw. rewrite Hv in Hrw.
    eapply buf_read_app; [exact Hrw|].
    rewrite (buf_read_write_ne _ _ _ _ _ _ Hw) by lia.
    rewrite <- Hrd. f_equal. lia.
Qed.

Lemma writing_holds m :
  NetworkMessage.writing (base m) -> m_outputBufferStart m = NETWORK_CRYPTOHEADER_SIZE ->
  holds m NETWORK_CRYPTOHEADER_SIZE (NetworkMessage.payload (base m)).
Proof.
  intros Hw Hst. pose proof (NetworkMessage.zlen_payload _ Hw) as Hl.
  split; [apply Hw|done|done|split; [done|]|].
  - rewrite Hl. destruct Hw as [_ ? ?]. NetworkMessage.consts. lia.
  - rewrite Hl. by apply NetworkMessage.payload_read.
Qed.

Lemma wire_holds m start bs : holds m start bs -> wire m = Some bs.
Proof. intros [_ <- Hsz _ Hrd]. unfold wire. by rewrite Hsz. Qed.

End OutputMessage.
