(* ===== verification/Proto.v ===== *)
(** * Protocol base class (src/protocol/protocol.h, src/protocol/protocol.cpp)

    The encryption state of a protocol, the encoding of outgoing messages, the
    decoding of incoming ones and the reference count.  RSA is OpenSSL's: the
    raw private-key operation is a parameter. *)
From S2P Require Import Prelude Bytes Definitions NetMessage Checksum Cipher OutMessage.

Module Protocol.

Record t := mk {
  m_outputBuffer : option nat;   (* the pending autosend message *)
  m_connection : option nat;
  m_refCount : Z;                (* uint32_t *)
  m_rawMessages : bool;
  m_encryptionEnabled : bool;
  m_checksumEnabled : bool;
  m_key : list Z                 (* uint32_t[4] *)
}.

(** The constructor. *)
Definition new (connection : option nat) : t :=
  mk None connection 0 false false false [0; 0; 0; 0].

Definition setOutputBuffer (o : option nat) (p : t) : t :=
  mk o (m_connection p) (m_refCount p) (m_rawMessages p) (m_encryptionEnabled p)
    (m_checksumEnabled p) (m_key p).
Definition setConnection (c : option nat) (p : t) : t :=
  mk (m_outputBuffer p) c (m_refCount p) (m_rawMessages p) (m_encryptionEnabled p)
    (m_checksumEnabled p) (m_key p).
Definition setRefCount (n : Z) (p : t) : t :=
  mk (m_outputBuffer p) (m_connection p) n (m_rawMessages p) (m_encryptionEnabled p)
    (m_checksumEnabled p) (m_key p).
Definition setRawMessages (b : bool) (p : t) : t :=
  mk (m_outputBuffer p) (m_connection p) (m_refCount p) b (m_encryptionEnabled p)
    (m_checksumEnabled p) (m_key p).
Definition setEncryption (b : bool) (p : t) : t :=
  mk (m_outputBuffer p) (m_connection p) (m_refCount p) (m_rawMessages p) b
    (m_checksumEnabled p) (m_key p).
Definition setChecksum (b : bool) (p : t) : t :=
  mk (m_outputBuffer p) (m_connection p) (m_refCount p) (m_rawMessages p)
    (m_encryptionEnabled p) b (m_key p).
Definition setXTEAKey (key : list Z) (p : t) : t :=
  mk (m_outputBuffer p) (m_connection p) (m_refCount p) (m_rawMessages p)
    (m_encryptionEnabled p) (m_checksumEnabled p) key.

Definition enableChecksum : t -> t := setChecksum true.
Definition disableChecksum : t -> t := setChecksum false.
Definition enableXTEAEncryption : t -> t := setEncryption true.
Definition disableXTEAEncryption : t -> t := setEncryption false.
Definition addRef (p : t) : t := setRefCount (u32 (m_refCount p + 1)) p.
Definition unRef (p : t) : t := setRefCount (u32 (m_refCount p - 1)) p.

(** What [releaseProtocol()] does next: run again in SCHEDULER_MINTICKS, or
    delete the object (after dropping its connection). *)
Inductive release_action := RescheduleRelease | DeleteProtocol.

Definition releaseProtocol (p : t) : release_action * t :=
  if 0 <? m_refCount p then (RescheduleRelease, p)
  else (DeleteProtocol, setConnection None p).

(** [XTEA_encrypt(msg)] *)
Definition XTEA_encrypt (key : list Z) (msg : OutputMessage.t) : option OutputMessage.t :=
  let messageLength := NetworkMessage.m_size (OutputMessage.base msg) in
  '(messageLength, msg) ←
    (if messageLength mod 8 =? 0 then Some (messageLength, msg)
     else
       let n := u16 (8 - messageLength mod 8) in
       base ← NetworkMessage.putPadding n (OutputMessage.base msg);
       Some (u16 (messageLength + n), OutputMessage.setBase base msg));
  b ← XTEA.crypt_buffer (XTEA.encrypt_block key) (OutputMessage.m_outputBufferStart msg)
        messageLength (NetworkMessage.m_buffer (OutputMessage.base msg));
  Some (OutputMessage.setBase (NetworkMessage.setBuffer b (OutputMessage.base msg)) msg).

(** [XTEA_decrypt(msg)]: the flag returned, and the message as it was left. *)
Definition XTEA_decrypt (key : list Z) (msg : NetworkMessage.t) : option (bool * NetworkMessage.t) :=
  let messageLength := NetworkMessage.m_size msg - 6 in
  if negb (Z.rem messageLength 8 =? 0) then Some (false, msg)
  else
    b ← XTEA.crypt_buffer (XTEA.decrypt_block key) (NetworkMessage.m_position msg)
          messageLength (NetworkMessage.m_buffer msg);
    '(tmp, msg) ← NetworkMessage.get 2 false (NetworkMessage.setBuffer b msg);
    if NetworkMessage.m_size msg - 8 <? tmp then Some (false, msg)
    else Some (true, NetworkMessage.setSize tmp msg).

(** The encoding half of [onSendMessage(msg)]. *)
Definition encodeMessage (p : t) (msg : OutputMessage.t) : option OutputMessage.t :=
  if m_rawMessages p then Some msg
  else
    msg ← OutputMessage.addHeader msg;
    msg ← (if m_encryptionEnabled p then XTEA_encrypt (m_key p) msg else Some msg);
    if m_checksumEnabled p then OutputMessage.addCryptoHeader true msg else Some msg.

(** [onSendMessage(msg)], [id] the identity of the message. *)
Definition onSendMessage (p : t) (id : nat) (msg : OutputMessage.t) : option (t * OutputMessage.t) :=
  msg ← encodeMessage p msg;
  Some (if bool_decide (m_outputBuffer p = Some id) then setOutputBuffer None p else p, msg).

(** [onRecvMessage(msg)]: whether [parsePacket] is called, and on what. *)
Definition onRecvMessage (p : t) (msg : NetworkMessage.t) : option (bool * NetworkMessage.t) :=
  if m_encryptionEnabled p then XTEA_decrypt (m_key p) msg else Some (true, msg).

Section RSA.
(** [RSA_private_decrypt(128, from, to, g_RSA, RSA_NO_PADDING)]: the 128 bytes
    stored at [to], or nothing stored on failure. *)
Variable RSA_private_decrypt : list Z -> option (list Z).

(** [RSA_decrypt(msg)]: the flag returned, and the message as it was left. *)
Definition RSA_decrypt (msg : NetworkMessage.t) : option (bool * NetworkMessage.t) :=
  if negb (NetworkMessage.m_size msg - NetworkMessage.m_position msg =? 128)
  then Some (false, msg)
  else
    let size := NetworkMessage.m_size msg in
    from ← buf_read (NetworkMessage.m_buffer msg) (NetworkMessage.m_position msg) 128;
    b ← (match RSA_private_decrypt from with
         | Some to => buf_write (NetworkMessage.m_buffer msg) 0 to
         | None => Some (NetworkMessage.m_buffer msg)
         end);
    let msg := NetworkMessage.setPosition 0
                 (NetworkMessage.setSize size (NetworkMessage.setBuffer b msg)) in
    '(first, msg) ← NetworkMessage.get 1 false msg;
    Some (first =? 0, msg).

End RSA.

(** ** Wire format of an encrypted message with checksum *)

Definition pad_len (l : Z) : Z := (- l) mod 8.

Definition plain_body (payload : list Z) : list Z :=
  le_bytes 2 (zlen payload) ++ payload ++
  replicate (Z.to_nat (pad_len (2 + zlen payload))) 0x33.

Definition blocks_of (bs : list Z) : nat := Z.to_nat (zlen bs / 8).

Definition encrypted_body (key payload : list Z) : list Z :=
  let plain := plain_body payload in
  XTEA.crypt_blocks (XTEA.encrypt_block key) (blocks_of plain) plain.

Definition frame (key payload : list Z) : list Z :=
  let body := encrypted_body key payload in
  le_bytes 2 (4 + zlen body) ++ le_bytes 4 (Checksum.adler32 body) ++ body.

(** ** Lemmas *)

Lemma pad_len_spec l : 0 <= pad_len l < 8 /\ (l + pad_len l) mod 8 = 0.
Proof. unfold pad_len. Z.div_mod_to_equations. lia. Qed.

Lemma plain_body_len payload :
  zlen (plain_body payload) = 2 + zlen payload + pad_len (2 + zlen payload) /\
  zlen (plain_body payload) = 8 * Z.of_nat (blocks_of (plain_body payload)).
Proof.
  pose proof (pad_len_spec (2 + zlen payload)) as [Hp Hm]. pose proof (zlen_nonneg payload).
  assert (zlen (plain_body payload) = 2 + zlen payload + pad_len (2 + zlen payload)) as Hl.
  { unfold plain_body. autorewrite with zlen. lia. }
  split; [done|]. unfold blocks_of. rewrite Hl.
  rewrite Z2Nat.id by (apply Z.div_pos; lia). Z.div_mod_to_equations. lia.
Qed.

Lemma plain_body_bytes payload : bytes_ok payload -> bytes_ok (plain_body payload).
Proof.
  intros. repeat apply Forall_app_2; auto with cpp. by apply Forall_replicate.
Qed.

Lemma zlen_encrypted_body key payload :
  zlen (encrypted_body key payload) = zlen (plain_body payload).
Proof. unfold encrypted_body. rewrite XTEA.zlen_crypt_blocks. by rewrite <- (proj2 (plain_body_len payload)). Qed.

Lemma encrypted_body_bytes key payload : bytes_ok (encrypted_body key payload).
Proof. apply XTEA.crypt_blocks_bytes. Qed.

Lemma decrypt_encrypted_body key payload :
  bytes_ok payload ->
  XTEA.crypt_blocks (XTEA.decrypt_block key) (blocks_of (plain_body payload))
    (encrypted_body key payload) = plain_body payload.
Proof.
  intros. apply XTEA.crypt_blocks_inverse; [apply XTEA.encrypt_inverse|by apply plain_body_bytes|].
  apply plain_body_len.
Qed.

Lemma holds_bytes_ok m start bs : OutputMessage.holds m start bs -> bytes_ok bs.
Proof.
  intros [Hwf _ _ _ Hr]. eapply buf_read_bytes; [|exact Hr]. apply Hwf.
Qed.

(** Padding appends to what the message holds. *)
Lemma putPadding_holds n m start bs :
  OutputMessage.holds m start bs ->
  NetworkMessage.m_position (OutputMessage.base m) = start + zlen bs ->
  0 <= n < 8 -> start + zlen bs + n < NETWORK_BODY_SIZE ->
  exists base, NetworkMessage.putPadding n (OutputMessage.base m) = Some base /\
    OutputMessage.holds (OutputMessage.setBase base m) start
      (bs ++ replicate (Z.to_nat n) 0x33) /\
    NetworkMessage.m_size base = zlen bs + n /\
    NetworkMessage.m_position base = NetworkMessage.m_position (OutputMessage.base m).
Proof.
  intros [[Hs Hp Hl Hb] <- Hsz [Hr1 Hr2] Hrd] Hpos Hn Hfit. pose proof (zlen_nonneg bs).
  unfold NetworkMessage.putPadding, NetworkMessage.hasSpace. NetworkMessage.consts.
  rewrite wraps_small by lia.
  destruct (Z.ltb_spec (n + NetworkMessage.m_position (OutputMessage.base m)) (16384 - (2 + 6) - 6));
    [|lia]. cbn [negb]. rewrite Hpos in *.
  set (pad := replicate (Z.to_nat n) 0x33).
  assert (zlen pad = n) as Hpl by (unfold pad; rewrite zlen_replicate; lia).
  destruct (buf_write _ _ pad) as [b|] eqn:Hw.
  2:{ rewrite buf_write_Some in Hw by lia. done. }
  pose proof (zlen_buf_write _ _ _ _ Hw). cbn [mbind option_bind].
  rewrite wrapu_small by lia.
  eexists. split; [done|]. split; [|split; [cbn; lia|done]].
  split; cbn; rewrite ?zlen_app, ?Hpl; NetworkMessage.consts; try lia.
  - split; cbn; [lia|lia|etransitivity; [eassumption|exact Hl]|].
    refine (buf_write_bytes _ _ _ _ Hb _ Hw). by apply Forall_replicate.
  - eapply buf_read_app.
    + rewrite (buf_read_write_ne _ _ _ _ _ _ Hw) by lia. exact Hrd.
    + pose proof (buf_read_write _ _ _ _ Hw) as Hrw. by rewrite Hpl in Hrw.
Qed.

Lemma XTEA_encrypt_holds key m start bs :
  OutputMessage.holds m start bs ->
  NetworkMessage.m_position (OutputMessage.base m) = start + zlen bs ->
  start + zlen bs + pad_len (zlen bs) < NETWORK_BODY_SIZE ->
  let plain := bs ++ replicate (Z.to_nat (pad_len (zlen bs))) 0x33 in
  exists m', XTEA_encrypt key m = Some m' /\
    OutputMessage.holds m' start
      (XTEA.crypt_blocks (XTEA.encrypt_block key) (blocks_of plain) plain).
Proof.
  intros Hh Hpos Hfit plain. pose proof (pad_len_spec (zlen bs)) as [Hp Hm].
  pose proof (zlen_nonneg bs). pose proof (OutputMessage.holds_range _ _ _ Hh) as [Hst _].
  NetworkMessage.consts.
  assert (zlen plain = zlen bs + pad_len (zlen bs)) as Hpl.
  { unfold plain. autorewrite with zlen. lia. }
  assert (zlen plain = 8 * Z.of_nat (blocks_of plain)) as Hbl.
  { unfold blocks_of. rewrite Z2Nat.id by (apply Z.div_pos; lia). Z.div_mod_to_equations. lia. }
  assert (exists m1, (if NetworkMessage.m_size (OutputMessage.base m) mod 8 =? 0
     then Some (NetworkMessage.m_size (OutputMessage.base m), m)
     else let n := u16 (8 - NetworkMessage.m_size (OutputMessage.base m) mod 8) in
       base ← NetworkMessage.putPadding n (OutputMessage.base m);
       Some (u16 (NetworkMessage.m_size (OutputMessage.base m) + n), OutputMessage.setBase base m))
     = Some (zlen plain, m1) /\ OutputMessage.holds m1 start plain) as (m1 & Heq & Hm1).
  { rewrite (OutputMessage.holds_size _ _ _ Hh). destruct (Z.eqb_spec (zlen bs mod 8) 0) as [E|E].
    - assert (pad_len (zlen bs) = 0) as Hz by (unfold pad_len in *; Z.div_mod_to_equations; lia).
      assert (plain = bs) as -> by (unfold plain; rewrite Hz; apply app_nil_r). eauto.
    - assert (8 - zlen bs mod 8 = pad_len (zlen bs)) as ->
        by (unfold pad_len in *; Z.div_mod_to_equations; lia).
      cbv zeta. rewrite (wrapu_small 16 (pad_len _)) by lia.
      destruct (putPadding_holds (pad_len (zlen bs)) m start bs) as (base & -> & Hm1 & Hs1 & _);
        [done|done|lia|NetworkMessage.consts; lia|].
      cbn [mbind option_bind]. rewrite wrapu_small by lia. rewrite <- Hpl. eauto. }
  unfold XTEA_encrypt. cbv zeta in Heq |- *. rewrite Heq. cbn [mbind option_bind]. clear Heq.
  pose proof (holds_bytes_ok _ _ _ Hm1) as Hok. destruct Hm1 as [[Hs1 Hp1 Hl1 Hb1] Hst1 Hsz1 Hr1 Hrd1].
  rewrite Hst1, Hbl, (XTEA.crypt_buffer_blocks _ _ _ _ plain) by (rewrite <- ?Hbl; (done || lia)).
  set (body := XTEA.crypt_blocks _ _ _).
  assert (zlen body = zlen plain) as Hbody by (unfold body; rewrite XTEA.zlen_crypt_blocks; lia).
  destruct (buf_write _ start body) as [b|] eqn:Hw.
  2:{ rewrite buf_write_Some in Hw by (NetworkMessage.consts; lia). done. }
  pose proof (zlen_buf_write _ _ _ _ Hw). cbn [mbind option_bind]. eexists. split; [done|].
  split; cbn; rewrite ?Hbody; try done.
  - split; cbn; [done|done|etransitivity; [eassumption|exact Hl1]|].
    refine (buf_write_bytes _ _ _ _ Hb1 _ Hw). apply XTEA.crypt_blocks_bytes.
  - rewrite <- Hbody. by eapply buf_read_write.
Qed.

(** The message that arrives: a body at the read position 6, of [8 k] bytes. *)
Lemma XTEA_decrypt_body key payload m :
  NetworkMessage.wf m -> bytes_ok payload ->
  NetworkMessage.m_position m = 6 ->
  NetworkMessage.m_size m = 6 + zlen (encrypted_body key payload) ->
  NetworkMessage.contains m (encrypted_body key payload) ->
  6 + zlen (encrypted_body key payload) <= NETWORK_MAX_SIZE ->
  exists m', XTEA_decrypt key m = Some (true, m') /\ NetworkMessage.wf m' /\
    NetworkMessage.m_position m' = 8 /\ NetworkMessage.m_size m' = zlen payload /\
    NetworkMessage.contains m' payload.
Proof.
  intros Hwf Hpl Hpos Hsz Hc Hfit. pose proof (zlen_nonneg payload).
  pose proof (plain_body_len payload) as [Hl1 Hl2].
  pose proof (pad_len_spec (2 + zlen payload)) as [Hpad _].
  rewrite zlen_encrypted_body in *. unfold NetworkMessage.contains in Hc.
  rewrite Hpos, zlen_encrypted_body in Hc.
  unfold XTEA_decrypt. rewrite Hsz.
  replace (6 + zlen (plain_body payload) - 6) with (8 * Z.of_nat (blocks_of (plain_body payload))) by lia.
  replace (Z.rem (8 * Z.of_nat (blocks_of (plain_body payload))) 8) with 0.
  2:{ rewrite Z.rem_mod_nonneg by lia. Z.div_mod_to_equations. lia. }
  cbn [Z.eqb negb]. rewrite Hpos.
  rewrite (XTEA.crypt_buffer_blocks _ _ _ _ (encrypted_body key payload)) by (rewrite <- ?Hl2; done).
  rewrite decrypt_encrypted_body by done.
  destruct Hwf as [Hs Hp Hl Hb]. NetworkMessage.consts.
  destruct (buf_write _ 6 (plain_body payload)) as [b|] eqn:Hw.
  2:{ rewrite buf_write_Some in Hw by lia. done. }
  pose proof (zlen_buf_write _ _ _ _ Hw). cbn [mbind option_bind].
  set (m1 := NetworkMessage.setBuffer b m).
  assert (NetworkMessage.wf m1) as Hwf1.
  { split; cbn; [done|done|etransitivity; [eassumption|exact Hl]|].
    refine (buf_write_bytes _ _ _ _ Hb _ Hw). by apply plain_body_bytes. }
  assert (NetworkMessage.contains m1 (plain_body payload)) as Hc1.
  { unfold NetworkMessage.contains. cbn. rewrite Hpos. by eapply buf_read_write. }
  destruct (NetworkMessage.get_contains m1 (le_bytes 2 (zlen payload))
    (payload ++ replicate (Z.to_nat (pad_len (2 + zlen payload))) 0x33))
    as (Hg & Hwf2 & Hc2 & Hp2); [done|exact Hc1|cbn; rewrite Hpos; NetworkMessage.consts; autorewrite with zlen; lia|].
  autorewrite with zlen in *. change (Z.of_nat 2) with 2 in *.
  rewrite le_value_small in Hg by lia. rewrite Hg. cbn [mbind option_bind].
  set (m2 := NetworkMessage.setPosition _ _) in *.
  assert (NetworkMessage.m_size m2 = 6 + zlen (plain_body payload)) as -> by exact Hsz.
  destruct (Z.ltb_spec (6 + zlen (plain_body payload) - 8) (zlen payload)); [lia|].
  eexists. split; [done|]. split; [by apply NetworkMessage.setSize_wf|].
  apply NetworkMessage.contains_app in Hc2 as [Hc2 _].
  split; [|split; [cbn; rewrite wrapu_small; lia|exact Hc2]].
  change (NetworkMessage.m_position m2 = 8). rewrite Hp2. cbn. lia.
Qed.

(** When the padding does not fit, it is dropped but the blocks are still encrypted. *)
Lemma XTEA_encrypt_dropped key m start bs :
  OutputMessage.holds m start bs ->
  NetworkMessage.m_position (OutputMessage.base m) = start + zlen bs ->
  zlen bs mod 8 <> 0 ->
  start + zlen bs < NETWORK_BODY_SIZE <= start + zlen bs + pad_len (zlen bs) ->
  exists m' bs', XTEA_encrypt key m = Some m' /\ OutputMessage.holds m' start bs' /\
    zlen bs' = zlen bs.
Proof.
  intros [[Hs Hp Hl Hb] <- Hsz [Hr1 Hr2] Hrd] Hpos Hne Hfit. pose proof (zlen_nonneg bs).
  pose proof (pad_len_spec (zlen bs)) as [Hpad Hm]. NetworkMessage.consts.
  unfold XTEA_encrypt. rewrite Hsz. destruct (Z.eqb_spec (zlen bs mod 8) 0) as [|Hz]; [done|].
  assert (8 - zlen bs mod 8 = pad_len (zlen bs)) as ->
    by (unfold pad_len in *; Z.div_mod_to_equations; lia).
  rewrite (wrapu_small 16 (pad_len _)) by lia.
  unfold NetworkMessage.putPadding, NetworkMessage.hasSpace. NetworkMessage.consts.
  rewrite wraps_small by lia.
  match goal with |- context [?a <? ?b] => destruct (Z.ltb_spec a b); [lia|] end.
  cbn [negb mbind option_bind]. rewrite wrapu_small by lia.
  set (n := Z.to_nat ((zlen bs + pad_len (zlen bs)) / 8)).
  assert (zlen bs + pad_len (zlen bs) = 8 * Z.of_nat n) as ->.
  { unfold n. rewrite Z2Nat.id by (apply Z.div_pos; lia). Z.div_mod_to_equations. lia. }
  destruct (XTEA.crypt_buffer_inverse _ _ (OutputMessage.m_outputBufferStart m) n
    (NetworkMessage.m_buffer (OutputMessage.base m)) (XTEA.encrypt_inverse key))
    as (b & Hcr & _ & Hlb & Hbb & _); [done|lia| |].
  { unfold n. rewrite Z2Nat.id by (apply Z.div_pos; lia). Z.div_mod_to_equations. lia. }
  cbn [OutputMessage.setBase OutputMessage.m_outputBufferStart OutputMessage.base].
  rewrite Hcr. cbn [mbind option_bind].
  destruct (buf_read b (OutputMessage.m_outputBufferStart m) (zlen bs)) as [bs'|] eqn:Hrd'.
  2:{ rewrite buf_read_Some in Hrd' by lia. done. }
  pose proof (buf_read_inv _ _ _ _ Hrd') as (_ & _ & _ & _ & Hl').
  eexists _, bs'. split; [done|]. split; [|done].
  split; cbn; rewrite ?Hl'; try done; NetworkMessage.consts.
  split; cbn; [done|done|etransitivity; [exact Hlb|exact Hl]|done].
Qed.

(** The crypto header in front of an encrypted body. *)
Lemma addCryptoHeader_holds m body :
  OutputMessage.holds m 6 body -> 0 < zlen body ->
  exists m', OutputMessage.addCryptoHeader true m = Some m' /\
    OutputMessage.holds m' 0
      (le_bytes 2 (4 + zlen body) ++ le_bytes 4 (Checksum.adler32 body) ++ body).
Proof.
  intros Hh Hpos. pose proof (OutputMessage.holds_range _ _ _ Hh) as [_ Hr].
  pose proof (holds_bytes_ok _ _ _ Hh) as Hok. NetworkMessage.consts.
  unfold OutputMessage.addCryptoHeader.
  rewrite (OutputMessage.holds_start _ _ _ Hh), (OutputMessage.holds_size _ _ _ Hh).
  rewrite (Checksum.adlerChecksumAt_read _ 6 body Hok) by
    (NetworkMessage.consts; (lia || apply Hh)). cbn [mbind option_bind].
  destruct (OutputMessage.header_holds 4 (Checksum.adler32 body) m 6 body Hh ltac:(lia))
    as (m1 & -> & Hh1 & _). cbn [mbind option_bind]. change (6 - 4) with 2 in Hh1.
  change (Z.to_nat 4) with 4%nat in Hh1.
  rewrite (OutputMessage.holds_size _ _ _ Hh1). autorewrite with zlen.
  rewrite wrapu_small by lia.
  destruct (OutputMessage.header_holds 2 (Z.of_nat 4 + zlen body) m1 2 _ Hh1 ltac:(lia))
    as (m2 & -> & Hh2 & _). eauto.
Qed.

Lemma addHeader_holds m payload :
  OutputMessage.holds m 8 payload ->
  exists m', OutputMessage.addHeader m = Some m' /\
    OutputMessage.holds m' 6 (le_bytes 2 (zlen payload) ++ payload) /\
    NetworkMessage.m_position (OutputMessage.base m') = NetworkMessage.m_position (OutputMessage.base m).
Proof.
  intros Hh. pose proof (OutputMessage.holds_range _ _ _ Hh) as [_ Hr].
  pose proof (zlen_nonneg payload). NetworkMessage.consts.
  unfold OutputMessage.addHeader. rewrite (OutputMessage.holds_size _ _ _ Hh), wrapu_small by lia.
  apply (OutputMessage.header_holds 2 (zlen payload) m 8 payload Hh). lia.
Qed.

(** Encryption succeeds on every message under construction, padded or not. *)
Lemma XTEA_encrypt_total key m start bs :
  OutputMessage.holds m start bs ->
  NetworkMessage.m_position (OutputMessage.base m) = start + zlen bs ->
  start + zlen bs < NETWORK_BODY_SIZE -> 0 < zlen bs ->
  exists m' bs', XTEA_encrypt key m = Some m' /\ OutputMessage.holds m' start bs' /\ 0 < zlen bs'.
Proof.
  intros Hh Hp Hb Hpos. pose proof (pad_len_spec (zlen bs)) as [? ?].
  destruct (Z.lt_ge_cases (start + zlen bs + pad_len (zlen bs)) NETWORK_BODY_SIZE).
  - destruct (XTEA_encrypt_holds key m start bs) as (m' & E & Hh'); [done..|].
    eexists _, _. split; [done|]. split; [done|]. rewrite XTEA.zlen_crypt_blocks.
    unfold blocks_of. autorewrite with zlen. rewrite !Z2Nat.id by (try apply Z.div_pos; lia).
    Z.div_mod_to_equations. lia.
  - destruct (XTEA_encrypt_dropped key m start bs) as (m' & bs' & E & Hh' & Hl); [done..| |done|].
    + unfold pad_len in *. Z.div_mod_to_equations. lia.
    + exists m', bs'. split_and!; [done..|lia].
Qed.

Definition same_owner (m m' : OutputMessage.t) : Prop :=
  OutputMessage.m_protocol m' = OutputMessage.m_protocol m /\
  OutputMessage.m_connection m' = OutputMessage.m_connection m /\
  OutputMessage.m_state m' = OutputMessage.m_state m /\ OutputMessage.m_frame m' = OutputMessage.m_frame m.

(** What the encoding of a message looks at. *)
Definition cipher (p : t) : bool * bool * bool * list Z :=
  (m_rawMessages p, m_encryptionEnabled p, m_checksumEnabled p, m_key p).

Lemma encodeMessage_cipher p p' m : cipher p = cipher p' -> encodeMessage p m = encodeMessage p' m.
Proof. unfold cipher, encodeMessage. by intros [= -> -> -> ->]. Qed.

Lemma header_owner n v m m' : OutputMessage.header n v m = Some m' -> same_owner m m'.
Proof.
  unfold OutputMessage.header. destruct (_ <? 0); [by intros [= <-]|].
  destruct (buf_write _ _ _); cbn; [|done]. by intros [= <-].
Qed.

Lemma XTEA_encrypt_owner key m m' : XTEA_encrypt key m = Some m' -> same_owner m m'.
Proof.
  unfold XTEA_encrypt. destruct (_ =? 0); cbn.
  - destruct (XTEA.crypt_buffer _ _ _ _); cbn; [|done]. by intros [= <-].
  - destruct (NetworkMessage.putPadding _ _); cbn; [|done].
    destruct (XTEA.crypt_buffer _ _ _ _); cbn; [|done]. by intros [= <-].
Qed.

Lemma encodeMessage_owner p m m' : encodeMessage p m = Some m' -> same_owner m m'.
Proof.
  unfold encodeMessage. destruct (m_rawMessages p); [by intros [= <-]|].
  destruct (OutputMessage.addHeader m) as [m1|] eqn:E1; cbn; [|done].
  apply header_owner in E1.
  destruct (if m_encryptionEnabled p then XTEA_encrypt (m_key p) m1 else Some m1) as [m2|] eqn:E2; cbn; [|done].
  assert (same_owner m1 m2) as H2 by (destruct (m_encryptionEnabled p);
    [by eapply XTEA_encrypt_owner|by injection E2 as <-]).
  assert (forall m3, OutputMessage.addCryptoHeader true m2 = Some m3 -> same_owner m2 m3) as H3.
  { intros m3. unfold OutputMessage.addCryptoHeader.
    destruct (Checksum.adlerChecksumAt _ _ _); cbn; [|done].
    destruct (OutputMessage.header 4 _ _) as [m4|] eqn:E4; cbn; [|done].
    intros E5%header_owner. apply header_owner in E4. unfold same_owner in *. intuition congruence. }
  destruct (m_checksumEnabled p); [intros E3%H3|intros [= <-]]; unfold same_owner in *; intuition congruence.
Qed.

(** [onSendMessage] succeeds on every message under construction, whatever the flags. *)
Lemma onSendMessage_total p id msg :
  NetworkMessage.writing (OutputMessage.base msg) ->
  OutputMessage.m_outputBufferStart msg = NETWORK_CRYPTOHEADER_SIZE ->
  exists msg', onSendMessage p id msg =
      Some (if bool_decide (m_outputBuffer p = Some id) then setOutputBuffer None p else p, msg') /\
    same_owner msg msg' /\ NetworkMessage.wf (OutputMessage.base msg').
Proof.
  intros Hw Hst.
  assert (exists msg', encodeMessage p msg = Some msg' /\ NetworkMessage.wf (OutputMessage.base msg')) as (msg' & E & Hwf).
  { unfold encodeMessage. destruct (m_rawMessages p); [by eauto using NetworkMessage.writing_wf|].
    pose proof (OutputMessage.writing_holds msg Hw Hst) as Hh.
    pose proof (NetworkMessage.zlen_payload _ Hw) as Hlp.
    destruct (addHeader_holds msg _ Hh) as (m1 & -> & Hh1 & Hp1). cbn [mbind option_bind].
    destruct Hw as [_ Hpos Hb]. pose proof (zlen_nonneg (NetworkMessage.payload (OutputMessage.base msg))).
    assert (exists m2 bs2, (if m_encryptionEnabled p then XTEA_encrypt (m_key p) m1 else Some m1) = Some m2 /\
      OutputMessage.holds m2 6 bs2 /\ 0 < zlen bs2) as (m2 & bs2 & -> & Hh2 & Hl2).
    { destruct (m_encryptionEnabled p).
      - apply (XTEA_encrypt_total _ _ _ _ Hh1); rewrite ?Hp1; autorewrite with zlen; NetworkMessage.consts; lia.
      - eexists _, _. split; [done|]. split; [done|]. autorewrite with zlen. lia. }
    cbn [mbind option_bind]. destruct (m_checksumEnabled p); [|by eauto using OutputMessage.holds_wf].
    destruct (addCryptoHeader_holds m2 bs2 Hh2 Hl2) as (m3 & -> & Hh3). by eauto using OutputMessage.holds_wf. }
  exists msg'. split; [|by eauto using encodeMessage_owner]. unfold onSendMessage. by rewrite E.
Qed.

(** ** Properties *)

Lemma encode_frame p id msg :
  m_rawMessages p = false -> m_encryptionEnabled p = true -> m_checksumEnabled p = true ->
  NetworkMessage.writing (OutputMessage.base msg) ->
  OutputMessage.m_outputBufferStart msg = NETWORK_CRYPTOHEADER_SIZE ->
  let payload := NetworkMessage.payload (OutputMessage.base msg) in
  NETWORK_CRYPTOHEADER_SIZE + zlen payload + pad_len (2 + zlen payload) < NETWORK_BODY_SIZE ->
  exists p' msg', onSendMessage p id msg = Some (p', msg') /\
    OutputMessage.wire msg' = Some (frame (m_key p) payload).
Proof.
  intros Hraw Henc Hck Hw Hst payload Hfit.
  pose proof (OutputMessage.writing_holds msg Hw Hst) as Hh. fold payload in Hh.
  pose proof (NetworkMessage.zlen_payload _ Hw) as Hlp. fold payload in Hlp.
  pose proof (zlen_nonneg payload). NetworkMessage.consts.
  destruct (addHeader_holds msg payload Hh) as (m1 & Hm1 & Hh1 & Hp1).
  destruct (XTEA_encrypt_holds (m_key p) m1 6 _ Hh1) as (m2 & Hm2 & Hh2).
  { rewrite Hp1, (NetworkMessage.writing_position _ Hw). autorewrite with zlen.
    NetworkMessage.consts. lia. }
  { autorewrite with zlen. NetworkMessage.consts. change (Z.of_nat 2) with 2. lia. }
  assert ((le_bytes 2 (zlen payload) ++ payload) ++
    replicate (Z.to_nat (pad_len (zlen (le_bytes 2 (zlen payload) ++ payload)))) 0x33
    = plain_body payload) as Hpb.
  { unfold plain_body. rewrite <- app_assoc. do 2 f_equal. autorewrite with zlen. done. }
  rewrite Hpb in Hh2. fold (encrypted_body (m_key p) payload) in Hh2.
  pose proof (plain_body_len payload) as [Hl _]. pose proof (pad_len_spec (2 + zlen payload)) as [? _].
  destruct (addCryptoHeader_holds m2 (encrypted_body (m_key p) payload) Hh2) as (m3 & Hm3 & Hh3).
  { rewrite zlen_encrypted_body. lia. }
  unfold onSendMessage, encodeMessage. rewrite Hraw, Hm1. cbn [mbind option_bind].
  rewrite Henc, Hm2. cbn [mbind option_bind]. rewrite Hck, Hm3. cbn [mbind option_bind].
  eexists _, m3. split; [done|]. by apply OutputMessage.wire_holds in Hh3.
Qed.

(** C1: the wire format of an encrypted message.  A payload written on a fresh
    output message, padded within the body size, leaves [onSendMessage] (with
    encryption and checksum on) as: the total length on two bytes, the Adler-32 of
    the body on four, and the body, which is the XTEA encryption of the payload
    preceded by its length and padded with 0x33 to whole blocks. *)
Theorem onSendMessage_frame p id msg :
  m_rawMessages p = false -> m_encryptionEnabled p = true -> m_checksumEnabled p = true ->
  NetworkMessage.writing (OutputMessage.base msg) ->
  OutputMessage.m_outputBufferStart msg = NETWORK_CRYPTOHEADER_SIZE ->
  let payload := NetworkMessage.payload (OutputMessage.base msg) in
  NETWORK_CRYPTOHEADER_SIZE + zlen payload + pad_len (2 + zlen payload) < NETWORK_BODY_SIZE ->
  exists p' msg', onSendMessage p id msg = Some (p', msg') /\
    OutputMessage.wire msg' = Some (frame (m_key p) payload).
Proof. exact (encode_frame p id msg). Qed.

Definition example_memory : list Z := replicate (Z.to_nat NETWORK_MAX_SIZE) 0.

Definition example_protocol : t :=
  setXTEAKey [11; 22; 33; 44] (enableXTEAEncryption (enableChecksum (new (Some 0%nat)))).

Lemma example_message_writing :
  NetworkMessage.writing (OutputMessage.base (OutputMessage.new example_memory)).
Proof. apply NetworkMessage.new_writing; [vm_compute; reflexivity|by apply Forall_replicate]. Qed.

Lemma onSendMessage_frame_witness :
  exists p' msg', onSendMessage example_protocol 0 (OutputMessage.new example_memory) = Some (p', msg') /\
    OutputMessage.wire msg' = Some (frame [11; 22; 33; 44] []).
Proof.
  apply (onSendMessage_frame example_protocol 0 (OutputMessage.new example_memory)).
  - reflexivity.
  - reflexivity.
  - reflexivity.
  - apply example_message_writing.
  - reflexivity.
  - vm_compute. reflexivity.
Defined.

(** A message near the body limit is sent malformed.  When the payload fits but
    its padding does not, [putPadding] drops the padding while the length is still
    rounded up for the cipher: the frame is sent with a size that is not a whole
    number of blocks, which the receiving check of XTEA_decrypt refuses. *)
Theorem onSendMessage_padding_dropped p id msg :
  m_rawMessages p = false -> m_encryptionEnabled p = true -> m_checksumEnabled p = true ->
  NetworkMessage.writing (OutputMessage.base msg) ->
  OutputMessage.m_outputBufferStart msg = NETWORK_CRYPTOHEADER_SIZE ->
  let payload := NetworkMessage.payload (OutputMessage.base msg) in
  NETWORK_BODY_SIZE <= NETWORK_CRYPTOHEADER_SIZE + zlen payload + pad_len (2 + zlen payload) ->
  exists p' msg' bs, onSendMessage p id msg = Some (p', msg') /\
    OutputMessage.wire msg' = Some bs /\ (zlen bs - 6) mod 8 <> 0 /\
    forall key m, NetworkMessage.m_size m = zlen bs -> XTEA_decrypt key m = Some (false, m).
Proof.
  intros Hraw Henc Hck Hw Hst payload Hfit.
  pose proof (OutputMessage.writing_holds msg Hw Hst) as Hh. fold payload in Hh.
  pose proof (NetworkMessage.zlen_payload _ Hw) as Hlp. fold payload in Hlp.
  pose proof (NetworkMessage.writing_bound _ Hw). pose proof (NetworkMessage.writing_position _ Hw).
  pose proof (zlen_nonneg payload). pose proof (pad_len_spec (2 + zlen payload)) as [? _].
  NetworkMessage.consts.
  destruct (addHeader_holds msg payload Hh) as (m1 & Hm1 & Hh1 & Hp1).
  assert ((2 + zlen payload) mod 8 <> 0) as Hne
    by (unfold pad_len in *; Z.div_mod_to_equations; lia).
  destruct (XTEA_encrypt_dropped (m_key p) m1 6 _ Hh1) as (m2 & body & Hm2 & Hh2 & Hlb).
  { rewrite Hp1. autorewrite with zlen. lia. }
  { by autorewrite with zlen. }
  { autorewrite with zlen. NetworkMessage.consts. change (Z.of_nat 2) with 2. lia. }
  autorewrite with zlen in Hlb. change (Z.of_nat 2) with 2 in Hlb.
  destruct (addCryptoHeader_holds m2 body Hh2) as (m3 & Hm3 & Hh3); [lia|].
  unfold onSendMessage, encodeMessage. rewrite Hraw, Hm1. cbn [mbind option_bind].
  rewrite Henc, Hm2. cbn [mbind option_bind]. rewrite Hck, Hm3. cbn [mbind option_bind].
  eexists _, m3, _. split; [done|]. split; [by apply OutputMessage.wire_holds in Hh3|].
  autorewrite with zlen. change (Z.of_nat 2) with 2. change (Z.of_nat 4) with 4. rewrite Hlb.
  replace (2 + (4 + (2 + zlen payload)) - 6) with (2 + zlen payload) by lia.
  split; [done|]. intros key m Hm. unfold XTEA_decrypt. rewrite Hm.
  replace (2 + (4 + (2 + zlen payload)) - 6) with (2 + zlen payload) by lia.
  rewrite Z.rem_mod_nonneg by lia. by destruct (Z.eqb_spec ((2 + zlen payload) mod 8) 0).
Qed.

(** A message filled with one string up to the last bytes of the body. *)
Definition example_full_message : OutputMessage.t :=
  OutputMessage.setBase
    (default (NetworkMessage.new example_memory)
       (NetworkMessage.putString (replicate (Z.to_nat 16360) 65) false
          (NetworkMessage.new example_memory)))
    (OutputMessage.new example_memory).

Lemma example_full_message_writing :
  NetworkMessage.writing (OutputMessage.base example_full_message).
Proof.
  destruct (NetworkMessage.putString_writing (replicate (Z.to_nat 16360) 65) false
    (NetworkMessage.new example_memory)) as (m & Hm & Hw);
    [apply example_message_writing|by apply Forall_replicate|vm_compute; reflexivity|].
  unfold example_full_message. rewrite Hm. exact Hw.
Qed.

Lemma onSendMessage_padding_dropped_witness :
  exists p' msg' bs, onSendMessage example_protocol 0 example_full_message = Some (p', msg') /\
    OutputMessage.wire msg' = Some bs /\ (zlen bs - 6) mod 8 <> 0.
Proof.
  destruct (onSendMessage_padding_dropped example_protocol 0 example_full_message)
    as (p' & msg' & bs & H1 & H2 & H3 & _).
  - reflexivity.
  - reflexivity.
  - reflexivity.
  - apply example_full_message_writing.
  - reflexivity.
  - vm_compute. discriminate.
  - exists p', msg', bs. auto.
Defined.

Lemma XTEA_decrypt_total key m :
  NetworkMessage.wf m -> 2 <= NetworkMessage.m_position m <= 6 ->
  NetworkMessage.m_size m <= NETWORK_MAX_SIZE - 8 ->
  exists ok m', XTEA_decrypt key m = Some (ok, m') /\ NetworkMessage.wf m' /\
    (ok = true ->
     NetworkMessage.m_position m' = NetworkMessage.m_position m + 2 /\
     NetworkMessage.m_position m' + NetworkMessage.m_size m' <= NetworkMessage.m_size m).
Proof.
  intros Hwf Hpos Hsz. pose proof Hwf as [Hs Hp Hl Hb]. NetworkMessage.consts.
  unfold XTEA_decrypt. destruct (Z.eqb_spec (Z.rem (NetworkMessage.m_size m - 6) 8) 0) as [E|E];
    cbn [negb]; [|by exists false, m].
  assert (0 <= NetworkMessage.m_size m - 6) as Hge.
  { destruct (Z.ltb_spec (NetworkMessage.m_size m) 6); [|lia]. exfalso.
    assert (NetworkMessage.m_size m = 0 \/ NetworkMessage.m_size m = 1 \/
      NetworkMessage.m_size m = 2 \/ NetworkMessage.m_size m = 3 \/
      NetworkMessage.m_size m = 4 \/ NetworkMessage.m_size m = 5) as Hc by lia.
    destruct Hc as [Hc|[Hc|[Hc|[Hc|[Hc|Hc]]]]]; rewrite Hc in E; done. }
  rewrite Z.rem_mod_nonneg in E by lia.
  set (n := Z.to_nat ((NetworkMessage.m_size m - 6) / 8)).
  assert (NetworkMessage.m_size m - 6 = 8 * Z.of_nat n) as Hn.
  { unfold n. rewrite Z2Nat.id by (apply Z.div_pos; lia). Z.div_mod_to_equations. lia. }
  rewrite Hn.
  destruct (XTEA.crypt_buffer_inverse _ _ (NetworkMessage.m_position m) n
    (NetworkMessage.m_buffer m) (XTEA.decrypt_inverse key)) as (b & -> & _ & Hlb & Hbb & _);
    [done|lia|lia|]. cbn [mbind option_bind].
  set (m1 := NetworkMessage.setBuffer b m).
  assert (NetworkMessage.readable m1) as Hr1.
  { split; [split; cbn; [done|done|etransitivity; [exact Hlb|exact Hl]|done]|].
    NetworkMessage.consts. cbn. lia. }
  assert (exists v m2, NetworkMessage.get 2 false m1 = Some (v, m2) /\ 0 <= v /\
    NetworkMessage.wf m2 /\ NetworkMessage.m_position m2 = NetworkMessage.m_position m + 2 /\
    NetworkMessage.m_size m2 = NetworkMessage.m_size m) as (v & m2 & -> & Hv & Hwf2 & Hp2 & Hs2).
  { destruct Hr1 as [Hwf1 _]. unfold NetworkMessage.get. NetworkMessage.consts.
    cbn [m1 NetworkMessage.m_position NetworkMessage.setBuffer NetworkMessage.m_buffer].
    rewrite wrapu_small by lia. destruct (Z.leb_spec (16384 - NetworkMessage.m_position m) 2); [lia|].
    destruct (buf_read b (NetworkMessage.m_position m) 2) as [bs|] eqn:Hrd.
    2:{ rewrite buf_read_Some in Hrd by lia. done. }
    cbn [mbind option_bind]. eexists _, _. split; [done|].
    split; [apply le_value_range; eapply buf_read_bytes; [exact Hbb|exact Hrd]|].
    split; [by apply NetworkMessage.setPosition_wf|]. split; [|done].
    cbn. rewrite wrapu_small; lia. }
  cbn [mbind option_bind]. rewrite Hs2.
  destruct (Z.ltb_spec (NetworkMessage.m_size m - 8) v); [by exists false, m2|].
  eexists true, _. split; [done|]. split; [by apply NetworkMessage.setSize_wf|].
  intros _. cbn. rewrite wrapu_small by lia. lia.
Qed.

(** Decryption of an incoming packet never leaves the packet buffer, and an
    accepted message lies inside the packet.  Whatever the bytes received, for the
    positions 2 and 6 the receiver uses, XTEA_decrypt terminates without an access
    outside the buffer; when it accepts, the announced payload ends before the end
    of the packet. *)
Theorem XTEA_decrypt_safe key m :
  NetworkMessage.wf m -> 2 <= NetworkMessage.m_position m <= 6 ->
  NetworkMessage.m_size m <= NETWORK_MAX_SIZE - 8 ->
  exists ok m', XTEA_decrypt key m = Some (ok, m') /\ NetworkMessage.wf m' /\
    (ok = true ->
     NetworkMessage.m_position m' = NetworkMessage.m_position m + 2 /\
     NetworkMessage.m_position m' + NetworkMessage.m_size m' <= NetworkMessage.m_size m).
Proof. exact (XTEA_decrypt_total key m). Qed.

Lemma XTEA_decrypt_safe_witness :
  exists ok m', XTEA_decrypt [1; 2; 3; 4]
      (NetworkMessage.setSize 22 (NetworkMessage.setPosition 6 (NetworkMessage.new example_memory)))
    = Some (ok, m').
Proof.
  destruct (XTEA_decrypt_safe [1; 2; 3; 4]
    (NetworkMessage.setSize 22 (NetworkMessage.setPosition 6 (NetworkMessage.new example_memory))))
    as (ok & m' & H & _).
  - apply NetworkMessage.setSize_wf, NetworkMessage.setPosition_wf, example_message_writing.
  - vm_compute. split; discriminate.
  - vm_compute. discriminate.
  - exists ok, m'. exact H.
Defined.

Lemma RSA_decrypt_cases rsa m :
  (forall bs to, zlen bs = 128 -> rsa bs = Some to -> zlen to = 128 /\ bytes_ok to) ->
  NetworkMessage.wf m -> NetworkMessage.m_size m <= NETWORK_MAX_SIZE ->
  if decide (NetworkMessage.m_size m = NetworkMessage.m_position m + 128) then
    exists from plain rest m',
      buf_read (NetworkMessage.m_buffer m) (NetworkMessage.m_position m) 128 = Some from /\
      Some (plain :: rest) = (match rsa from with
        | Some to => Some to | None => buf_read (NetworkMessage.m_buffer m) 0 128 end) /\
      RSA_decrypt rsa m = Some (plain =? 0, m') /\ NetworkMessage.wf m' /\
      NetworkMessage.m_position m' = 1 /\ NetworkMessage.m_size m' = NetworkMessage.m_size m /\
      NetworkMessage.contains m' rest
  else RSA_decrypt rsa m = Some (false, m).
Proof.
  intros Hrsa Hwf Hsz. pose proof Hwf as [Hs Hp Hl Hb]. NetworkMessage.consts.
  unfold RSA_decrypt. case_decide as E.
  2:{ destruct (Z.eqb_spec (NetworkMessage.m_size m - NetworkMessage.m_position m) 128); [lia|done]. }
  replace (NetworkMessage.m_size m - NetworkMessage.m_position m) with 128 by lia.
  cbn [Z.eqb negb Pos.eqb].
  destruct (buf_read _ (NetworkMessage.m_position m) 128) as [from|] eqn:Hfrom.
  2:{ apply buf_read_None in Hfrom. lia. }
  pose proof (buf_read_inv _ _ _ _ Hfrom) as (_ & _ & _ & _ & Hfl). cbn [mbind option_bind].
  assert (exists b block, (match rsa from with
      | Some to => buf_write (NetworkMessage.m_buffer m) 0 to
      | None => Some (NetworkMessage.m_buffer m) end) = Some b /\
    Some block = (match rsa from with
      | Some to => Some to | None => buf_read (NetworkMessage.m_buffer m) 0 128 end) /\
    buf_read b 0 128 = Some block /\ zlen b = 16384 /\ bytes_ok b) as (b & block & -> & Hb1 & Hr & Hbl & Hbb).
  { destruct (rsa from) as [to|] eqn:Er.
    - destruct (Hrsa _ _ Hfl Er) as [Htl Htb].
      destruct (buf_write (NetworkMessage.m_buffer m) 0 to) as [b|] eqn:Hw.
      2:{ rewrite buf_write_Some in Hw by lia. done. }
      exists b, to. split_and!; [done|done| |by rewrite (zlen_buf_write _ _ _ _ Hw)|exact (buf_write_bytes _ _ _ _ Hb Htb Hw)].
      rewrite <- Htl. by eapply buf_read_write.
    - destruct (buf_read (NetworkMessage.m_buffer m) 0 128) as [block|] eqn:Hr.
      2:{ apply buf_read_None in Hr. lia. }
      by exists (NetworkMessage.m_buffer m), block. }
  pose proof (buf_read_inv _ _ _ _ Hr) as (_ & _ & _ & _ & Hbk).
  destruct block as [|plain rest]; [done|]. rewrite zlen_cons in Hbk.
  cbn [mbind option_bind].
  set (m1 := NetworkMessage.setPosition 0 _).
  assert (NetworkMessage.wf m1) as Hwf1.
  { apply NetworkMessage.setPosition_wf, NetworkMessage.setSize_wf. by split. }
  destruct (NetworkMessage.get_contains m1 [plain] rest) as (Hg & Hwf2 & Hc2 & Hp2).
  { done. }
  { unfold NetworkMessage.contains. change (buf_read b 0 (zlen (plain :: rest)) = Some (plain :: rest)).
    rewrite zlen_cons, Hbk. exact Hr. }
  { done. }
  change (zlen [plain]) with 1 in *. cbv zeta in Hg. rewrite Hg. cbn [mbind option_bind].
  exists from, plain, rest. eexists. split_and!; [done|done| |exact Hwf2|exact Hp2| |exact Hc2].
  - do 3 f_equal. cbn. lia.
  - cbn. by apply wrapu_small.
Qed.

(** RSA block handling.  For any private-key operation that answers 128 bytes or
    fails, RSA_decrypt stays inside the packet buffer; it rejects a packet whose
    unread part is not exactly 128 bytes and leaves it as it was; otherwise it
    accepts exactly when the first byte of the plain block is zero, keeps the size,
    and leaves the 127 remaining plain bytes next to be read (after a failed
    operation, the first bytes of the packet itself play that part). *)
Theorem RSA_decrypt_spec rsa m :
  (forall bs to, zlen bs = 128 -> rsa bs = Some to -> zlen to = 128 /\ bytes_ok to) ->
  NetworkMessage.wf m -> NetworkMessage.m_size m <= NETWORK_MAX_SIZE ->
  if decide (NetworkMessage.m_size m = NetworkMessage.m_position m + 128) then
    exists from plain rest m',
      buf_read (NetworkMessage.m_buffer m) (NetworkMessage.m_position m) 128 = Some from /\
      Some (plain :: rest) = (match rsa from with
        | Some to => Some to | None => buf_read (NetworkMessage.m_buffer m) 0 128 end) /\
      RSA_decrypt rsa m = Some (plain =? 0, m') /\ NetworkMessage.wf m' /\
      NetworkMessage.m_position m' = 1 /\ NetworkMessage.m_size m' = NetworkMessage.m_size m /\
      NetworkMessage.contains m' rest
  else RSA_decrypt rsa m = Some (false, m).
Proof. exact (RSA_decrypt_cases rsa m). Qed.

Definition example_rsa_packet : NetworkMessage.t :=
  NetworkMessage.setSize 134 (NetworkMessage.setPosition 6 (NetworkMessage.new example_memory)).

(** A stand-in for the private-key operation: reverse the block. *)
Definition example_rsa (from : list Z) : option (list Z) :=
  if decide (bytes_ok from) then Some (rev from) else None.

Lemma RSA_decrypt_spec_witness :
  exists ok m', RSA_decrypt example_rsa example_rsa_packet = Some (ok, m') /\
    NetworkMessage.m_position m' = 1.
Proof.
  assert (forall bs to, zlen bs = 128 -> example_rsa bs = Some to ->
    zlen to = 128 /\ bytes_ok to) as Hrsa.
  { unfold example_rsa. intros bs to Hl H. case_decide; [|done]. injection H as <-.
    split; [|by apply Forall_rev]. unfold zlen in *. by rewrite length_rev. }
  assert (NetworkMessage.wf example_rsa_packet) as Hwf
    by apply NetworkMessage.setSize_wf, NetworkMessage.setPosition_wf, example_message_writing.
  pose proof (RSA_decrypt_spec example_rsa example_rsa_packet Hrsa Hwf) as H.
  rewrite decide_True in H by reflexivity.
  destruct H as (from & plain & rest & m' & _ & _ & Hd & _ & Hp & _); [vm_compute; discriminate|].
  exists (plain =? 0), m'. split; [exact Hd|exact Hp].
Defined.

End Protocol.
