(* ===== verification/Pool.v ===== *)
(** * The pool of output messages (src/net/outputmessage.h, src/net/outputmessage.cpp,
      and getOutputBuffer and writeOutputBuffer of src/protocol/protocol.cpp)

    The pool owns its messages and hands out counted pointers to them; a message whose
    last pointer is dropped is put back by a task of the dispatcher.  The model keeps the
    messages in a store and the pointers in lists: those of the pool's own queues, those
    of the protocols' buffers, and those held by anybody else. *)
From S2P Require Import Prelude Proc Bytes Definitions NetMessage OutMessage Proto.

Module OutputMessagePool.

Definition OUTPUT_POOL_SIZE := 100.

Record t := mk {
  messages : gmap nat OutputMessage.t;    (* every message made, by identity *)
  m_outputMessages : list nat;            (* the free ones *)
  m_autoSend : list nat;
  m_addQueue : list nat;
  m_frameTime : Z;                        (* uint64_t *)
  m_shutdown : bool
}.

(** What [Connection::send] does with a message: it refuses it; it has it encoded and
    starts the write, which keeps a pointer; starting the write throws; it closes a slow
    connection; or a write is in flight and the message goes to [autoSend]. *)
Inductive sending := Refused | Writing | WriteFault | Slow | Queued.

#[global] Instance sending_eq_dec : EqDecision sending.
Proof. solve_decision. Defined.

Record state := mkState {
  pool : t;
  protocols : gmap nat Protocol.t;        (* the protocols that are not deleted *)
  connections : gmap nat Z;               (* the connections' m_refCount, uint32_t *)
  held : list nat;                        (* the pointers held elsewhere *)
  tasks : list nat                        (* the internalReleaseMessage tasks *)
}.

Inductive request :=
| Connection_send (connection msg : nat) (content : OutputMessage.t)
| Async_write (connection msg : nat)
| Reschedule_releaseProtocol (protocol : nat)
| Delete_protocol (protocol : nat).

Abbreviation M := (proc state request).

Definition setPool (f : t -> t) (s : state) : state :=
  mkState (f (pool s)) (protocols s) (connections s) (held s) (tasks s).
Definition setMessages (f : gmap nat OutputMessage.t -> gmap nat OutputMessage.t) : state -> state :=
  setPool (fun p => mk (f (messages p)) (m_outputMessages p) (m_autoSend p) (m_addQueue p) (m_frameTime p) (m_shutdown p)).
Definition setFree (f : list nat -> list nat) : state -> state :=
  setPool (fun p => mk (messages p) (f (m_outputMessages p)) (m_autoSend p) (m_addQueue p) (m_frameTime p) (m_shutdown p)).
Definition setAutoSend (f : list nat -> list nat) : state -> state :=
  setPool (fun p => mk (messages p) (m_outputMessages p) (f (m_autoSend p)) (m_addQueue p) (m_frameTime p) (m_shutdown p)).
Definition setAddQueue (f : list nat -> list nat) : state -> state :=
  setPool (fun p => mk (messages p) (m_outputMessages p) (m_autoSend p) (f (m_addQueue p)) (m_frameTime p) (m_shutdown p)).
Definition setProtocols (f : gmap nat Protocol.t -> gmap nat Protocol.t) (s : state) : state :=
  mkState (pool s) (f (protocols s)) (connections s) (held s) (tasks s).
Definition setConnections (f : gmap nat Z -> gmap nat Z) (s : state) : state :=
  mkState (pool s) (protocols s) (f (connections s)) (held s) (tasks s).
Definition setHeld (f : list nat -> list nat) (s : state) : state :=
  mkState (pool s) (protocols s) (connections s) (f (held s)) (tasks s).
Definition setTasks (f : list nat -> list nat) (s : state) : state :=
  mkState (pool s) (protocols s) (connections s) (held s) (f (tasks s)).

(** Dereferencing: of a message, which the pool never frees, and of a protocol, which is
    stuck when the protocol has been deleted. *)
Definition message (msg : nat) : M OutputMessage.t := o ← gets (fun s => messages (pool s) !! msg); lift o.
Definition protocol (p : nat) : M Protocol.t := o ← gets (fun s => protocols s !! p); lift o.
Definition onMessage (msg : nat) (f : OutputMessage.t -> OutputMessage.t) : M unit :=
  m ← message msg; modify (setMessages (insert msg (f m))).
Definition onProtocol (p : nat) (f : Protocol.t -> Protocol.t) : M unit :=
  pr ← protocol p; modify (setProtocols (insert p (f pr))).
Definition onConnection (c : nat) (f : Z -> Z) : M unit :=
  o ← gets (fun s => connections s !! c);
  n ← lift o;
  modify (setConnections (insert c (f n))).

(** ** Counted pointers *)

Definition buffers (ps : gmap nat Protocol.t) : list nat := omap (fun kv => Protocol.m_outputBuffer kv.2) (map_to_list ps).

Definition pointers (s : state) : list nat :=
  m_autoSend (pool s) ++ m_addQueue (pool s) ++ held s ++ buffers (protocols s).

(** A pointer to [msg] has gone: the last one posts the release. *)
Definition releaseMessage (msg : nat) : M unit := modify (setTasks (cons msg)).
Definition settle (msg : nat) : M unit :=
  ps ← gets pointers;
  if decide (msg ∈ ps) then skip else releaseMessage msg.

Fixpoint remove_one (x : nat) (l : list nat) : list nat :=
  match l with
  | [] => []
  | y :: l => if decide (x = y) then l else y :: remove_one x l
  end.

(** A pointer held elsewhere is copied, or dropped. *)
Definition hold (msg : nat) : M unit := modify (setHeld (cons msg)).
Definition drop_pointer (msg : nat) : M unit := _ ← modify (setHeld (remove_one msg)); settle msg.

(** ** Operations *)

(** The constructor, with the messages' memory. *)
Definition new (memory : list Z) (now : Z) (m_shutdown : bool) : t :=
  let ids := seq 0 (Z.to_nat OUTPUT_POOL_SIZE) in
  mk (list_to_map (map (fun i => (i, OutputMessage.new memory)) ids)) ids [] [] now m_shutdown.

Definition startExecutionFrame (now : Z) : M unit :=
  modify (setPool (fun p => mk (messages p) (m_outputMessages p) (m_autoSend p) (m_addQueue p) now false)).

Definition stop : M unit :=
  modify (setPool (fun p => mk (messages p) (m_outputMessages p) (m_autoSend p) (m_addQueue p) (m_frameTime p) true)).

Definition autoSend (msg : nat) : M unit := modify (setAddQueue (fun q => q ++ [msg])).

(** [configureOutputMessage(msg, protocol, autoSend)] *)
Definition configureOutputMessage (msg p : nat) (autoSend : bool) : M unit :=
  _ ← onMessage msg (fun m => OutputMessage.setBase (NetworkMessage.reset (OutputMessage.base m)) m);
  _ ← (if autoSend
       then _ ← onMessage msg (OutputMessage.setState OutputMessage.STATE_ALLOCATED);
            modify (setAutoSend (fun q => q ++ [msg]))
       else onMessage msg (OutputMessage.setState OutputMessage.STATE_ALLOCATED_NO_AUTOSEND));
  pr ← protocol p;
  _ ← onMessage msg (OutputMessage.setProtocol (Some p));
  _ ← onProtocol p Protocol.addRef;
  frame ← gets (fun s => m_frameTime (pool s));
  _ ← onMessage msg (OutputMessage.setFrame frame);
  match Protocol.m_connection pr with
  | None => stuck                        (* assert(connection) *)
  | Some c =>
      _ ← onMessage msg (OutputMessage.setConnection (Some c));
      onConnection c (fun n => u32 (n + 1))
  end.

(** [getOutputMessage(protocol, autoSend)]: the pointer returned is held by the caller;
    [memory] is that of a message made because none is free. *)
Definition getOutputMessage (memory : list Z) (p : nat) (autoSend : bool) : M (option nat) :=
  shutdown ← gets (fun s => m_shutdown (pool s));
  if shutdown : bool then mret None
  else
    pr ← protocol p;
    match Protocol.m_connection pr with
    | None => mret None
    | Some _ =>
        free ← gets (fun s => m_outputMessages (pool s));
        _ ← (match free with
             | [] =>
                 made ← gets (fun s => fresh (dom (messages (pool s))));
                 _ ← modify (setMessages (insert made (OutputMessage.new memory)));
                 modify (setFree (fun _ => [made]))
             | _ => skip
             end);
        free ← gets (fun s => m_outputMessages (pool s));
        match last free with
        | None => stuck
        | Some msg =>
            _ ← hold msg;
            _ ← modify (setFree (fun _ => removelast free));
            _ ← configureOutputMessage msg p autoSend;
            mret (Some msg)
        end
    end.

(** [internalReleaseMessage(msg)], run by the dispatcher. *)
Definition internalReleaseMessage (msg : nat) : M unit :=
  _ ← modify (setTasks (remove_one msg));
  m ← message msg;
  _ ← (match OutputMessage.m_protocol m with Some p => onProtocol p Protocol.unRef | None => skip end);
  _ ← (match OutputMessage.m_connection m with Some c => onConnection c (fun n => u32 (n - 1)) | None => skip end);
  _ ← onMessage msg OutputMessage.freeMessage;
  modify (setFree (fun q => q ++ [msg])).

(** [protocol->onSendMessage(msg)], if [msg->getProtocol()]. *)
Definition onSendMessage (msg : nat) : M unit :=
  m ← message msg;
  match OutputMessage.m_protocol m with
  | None => skip
  | Some p =>
      pr ← protocol p;
      r ← lift (Protocol.onSendMessage pr msg m);
      _ ← modify (setProtocols (insert p r.1));
      modify (setMessages (insert msg r.2))
  end.

(** [connection->send(msg)], [sending] telling what the connection does; [m] is the
    object pointed at. *)
Definition connection_send (how : sending) (c msg : nat) (m : OutputMessage.t) : M bool :=
  _ ← emit (Connection_send c msg m);
  match how with
  | Refused => mret false
  | Writing => _ ← onSendMessage msg; _ ← hold msg; _ ← emit (Async_write c msg); mret true
  | WriteFault => _ ← onSendMessage msg; mret true
  | Slow => mret true
  | Queued => _ ← autoSend msg; mret true
  end.

(** The body shared by [send] and the loop of [sendAll]. *)
Definition sendTo (how : nat -> nat -> sending) (msg : nat) (m : OutputMessage.t) : M unit :=
  match OutputMessage.m_connection m with
  | None => skip
  | Some c =>
      sent ← connection_send (how c msg) c msg m;
      if sent : bool then skip else onSendMessage msg
  end.

Definition send (how : nat -> nat -> sending) (msg : nat) : M unit :=
  m ← message msg;
  match OutputMessage.m_state m with
  | OutputMessage.STATE_ALLOCATED_NO_AUTOSEND => sendTo how msg m
  | _ => skip
  end.

(** The first loop of [sendAll], over [m_addQueue]. *)
Definition enqueue (dropTime frameTime : Z) (msg : nat) : M unit :=
  m ← message msg;
  let frame := OutputMessage.m_frame m in
  if dropTime <=? frame then
    _ ← onMessage msg (OutputMessage.setState OutputMessage.STATE_ALLOCATED);
    modify (setAutoSend (fun q => if frame <? frameTime then msg :: q else q ++ [msg]))
  else onSendMessage msg.

(** The second one, over [m_autoSend]; each message is erased after its turn, and the
    loop stops at the first one that is not due. *)
Fixpoint flushAutoSend (how : nat -> nat -> sending) (frameTime : Z) (queue : list nat) : M unit :=
  match queue with
  | [] => skip
  | msg :: queue =>
      m ← message msg;
      if frameTime <=? OutputMessage.m_frame m then skip
      else
        _ ← sendTo how msg m;
        _ ← modify (setAutoSend tail);
        _ ← settle msg;
        flushAutoSend how frameTime queue
  end.

Definition sendAll (how : nat -> nat -> sending) : M unit :=
  now ← gets (fun s => m_frameTime (pool s));
  let dropTime := u64 (now - 10000) in
  let frameTime := u64 (now - 10) in
  addQueue ← gets (fun s => m_addQueue (pool s));
  _ ← for_each (enqueue dropTime frameTime) addQueue;
  _ ← modify (setAddQueue (fun _ => []));
  _ ← for_each settle addQueue;
  queue ← gets (fun s => m_autoSend (pool s));
  flushAutoSend how frameTime queue.

Definition getAvailableMessageCount (p : t) : Z := zlen (m_outputMessages p).
Definition getAutoMessageCount (p : t) : Z := zlen (m_autoSend p).
Definition getQueuedMessageCount (p : t) : Z := zlen (m_addQueue p).

(** ** The protocols' side *)

(** [m_outputBuffer = msg]; the pointer kept so far is dropped. *)
Definition assignBuffer (p : nat) (msg : option nat) : M unit :=
  pr ← protocol p;
  _ ← onProtocol p (Protocol.setOutputBuffer msg);
  match Protocol.m_outputBuffer pr with Some old => settle old | None => skip end.

(** [getOutputBuffer()]: the pointer returned is held by the caller. *)
Definition getOutputBuffer (memory : list Z) (p : nat) : M (option nat) :=
  pr ← protocol p;
  match Protocol.m_outputBuffer pr with
  | Some msg => _ ← hold msg; mret (Some msg)
  | None =>
      match Protocol.m_connection pr with
      | None => mret None
      | Some _ =>
          msg ← getOutputMessage memory p true;
          _ ← assignBuffer p msg;
          mret msg
      end
  end.

(** [writeOutputBuffer(msg)] *)
Definition writeOutputBuffer (memory : list Z) (p : nat) (msg : NetworkMessage.t) : M unit :=
  pr ← protocol p;
  if bool_decide (Protocol.m_outputBuffer pr = None) && bool_decide (Protocol.m_connection pr = None) then skip
  else
    full ← (match Protocol.m_outputBuffer pr with
            | None => mret true
            | Some buffer =>
                m ← message buffer;
                mret (NETWORK_MAX_SIZE <? NetworkMessage.m_position (OutputMessage.base m) + NetworkMessage.m_size msg)
            end);
    _ ← (if full : bool then
           got ← getOutputMessage memory p true;
           _ ← assignBuffer p got;
           match got with Some id => drop_pointer id | None => skip end
         else skip);
    pr ← protocol p;
    match Protocol.m_outputBuffer pr with
    | None => skip
    | Some buffer =>
        m ← message buffer;
        bytes ← lift (buf_read (NetworkMessage.m_buffer msg) NETWORK_CRYPTOHEADER_SIZE (NetworkMessage.m_size msg));
        base ← lift (NetworkMessage.putString bytes false (OutputMessage.base m));
        onMessage buffer (OutputMessage.setBase base)
    end.

(** [releaseProtocol()] of [p]; the protocol's own pointers go with it. *)
Definition releaseProtocol (p : nat) : M unit :=
  pr ← protocol p;
  match Protocol.releaseProtocol pr with
  | (Protocol.RescheduleRelease, _) => emit (Reschedule_releaseProtocol p)
  | (Protocol.DeleteProtocol, _) =>
      _ ← modify (setProtocols (delete p));
      _ ← (match Protocol.m_outputBuffer pr with Some msg => settle msg | None => skip end);
      emit (Delete_protocol p)
  end.

End OutputMessagePool.
