(* ===== verification/PoolFrame.v ===== *)
(** * What the operations of the pool leave alone

    The owners of messages and protocols rely on more than the books of [PoolLaws]: what
    an operation asks for, and which protocols and connections it touches. *)
From S2P Require Import Prelude Proc Bytes Definitions NetMessage OutMessage Proto Pool.

Module PoolFrame.
Import OutputMessagePool.

Section Frame.
Context {X : Type} (f : Protocol.t -> X).

(** An aspect of a protocol that the counting of its messages does not touch. *)
Class Uncounted : Prop := {
  uncounted_refs pr n : f (Protocol.setRefCount n pr) = f pr;
  uncounted_buffer pr o : f (Protocol.setOutputBuffer o pr) = f pr
}.
Context `{!Uncounted}.

Definition aspect (s : state) (p : nat) : option X := f <$> protocols s !! p.

(** No protocol comes, goes or changes in that aspect, and no connection comes or goes. *)
Record steady (s : state) (out : list request) (s' : state) : Prop := {
  steady_aspect p : aspect s' p = aspect s p;
  steady_connection c : is_Some (connections s' !! c) <-> is_Some (connections s !! c)
}.

#[export] Instance steady_composes : Composes steady.
Proof.
  split; [by split|]. intros s1 o1 s2 o2 s3 [A1 C1] [A2 C2]. split; [intros p; by rewrite A2, A1|].
  intros c. by rewrite C2, C1.
Qed.

Lemma message_steady id : respects steady (message id).
Proof. unfold message. respects. Qed.
Lemma protocol_steady p : respects steady (protocol p).
Proof. unfold protocol. respects. Qed.
Lemma onMessage_steady id g : respects steady (onMessage id g).
Proof. unfold onMessage. respects; apply message_steady. Qed.

Lemma onProtocol_steady p g : (forall pr, f (g pr) = f pr) -> respects steady (onProtocol p g).
Proof.
  intros Hg s [] s' out E. unfold onProtocol, protocol in E. autorewrite with proc in E.
  destruct (protocols s !! p) as [pr|] eqn:Hp; [|done]. autorewrite with proc in E. injection E as <- <-.
  split; [|done]. intros q. unfold aspect. cbn. rewrite lookup_insert.
  case_decide as Hd; [subst q|done]. by rewrite Hp; cbn; rewrite Hg.
Qed.

Lemma onConnection_steady c g : respects steady (onConnection c g).
Proof.
  intros s [] s' out E. unfold onConnection in E. autorewrite with proc in E.
  destruct (connections s !! c) as [n|] eqn:Hc; [|done]. autorewrite with proc in E. injection E as <- <-.
  split; [done|]. intros k. cbn. rewrite lookup_insert_is_Some'. split; [intros [<-|?]; [by eexists|done]|auto].
Qed.

Lemma hold_steady id : respects steady (hold id).
Proof. unfold hold. respects. Qed.

Lemma settle_steady id : respects steady (settle id).
Proof. unfold settle, releaseMessage. respects. Qed.

Lemma drop_pointer_steady id : respects steady (drop_pointer id).
Proof. unfold drop_pointer. respects; apply settle_steady. Qed.

Lemma configure_steady id p auto : respects steady (configureOutputMessage id p auto).
Proof.
  unfold configureOutputMessage.
  respects; first [apply onMessage_steady|apply protocol_steady|apply onConnection_steady
    |apply onProtocol_steady; intros; apply uncounted_refs].
Qed.

Lemma getOutputMessage_steady memory p auto : respects steady (getOutputMessage memory p auto).
Proof.
  unfold getOutputMessage.
  respects; first [apply protocol_steady|apply configure_steady|apply hold_steady].
Qed.

Lemma onSendMessage_steady id : respects steady (onSendMessage id).
Proof.
  intros s [] s' out E. unfold onSendMessage, message, protocol in E. autorewrite with proc in E.
  destruct (messages (pool s) !! id) as [m|]; [|done]. autorewrite with proc in E.
  destruct (OutputMessage.m_protocol m) as [p|]; [|injection E as <- <-; apply composes_refl].
  autorewrite with proc in E. destruct (protocols s !! p) as [pr|] eqn:Hp; [|done]. autorewrite with proc in E.
  destruct (Protocol.onSendMessage pr id m) as [[pr' m']|] eqn:Es; [|done].
  autorewrite with proc in E. injection E as <- <-. split; [|done].
  intros q. unfold aspect. cbn. rewrite lookup_insert. case_decide as Hd; [subst q|done]. rewrite Hp. cbn. f_equal.
  unfold Protocol.onSendMessage in Es. destruct (Protocol.encodeMessage pr m); cbn in Es; [|done].
  injection Es as <- <-. case_bool_decide; [apply uncounted_buffer|done].
Qed.

Lemma connection_send_steady how c id m : respects steady (connection_send how c id m).
Proof.
  unfold connection_send, autoSend. apply respects_bind; [apply _|apply respects_emit; by intros|intros _].
  destruct how; respects; first [apply onSendMessage_steady|apply hold_steady|apply respects_emit; by intros].
Qed.

Lemma send_steady how id : respects steady (send how id).
Proof.
  unfold send, sendTo.
  respects; first [apply message_steady|apply connection_send_steady|apply onSendMessage_steady].
Qed.

Lemma internalReleaseMessage_steady id : respects steady (internalReleaseMessage id).
Proof.
  unfold internalReleaseMessage.
  respects; first [apply message_steady|apply onMessage_steady|apply onConnection_steady
    |apply onProtocol_steady; intros; apply uncounted_refs].
Qed.

End Frame.

#[export] Instance connection_uncounted : Uncounted Protocol.m_connection.
Proof. by split. Qed.

(** What the encoding of messages and their delivery depend on. *)
Definition face (pr : Protocol.t) := (Protocol.m_connection pr, Protocol.cipher pr).

#[export] Instance face_uncounted : Uncounted face.
Proof. by split. Qed.

Lemma aspect_face s p : aspect Protocol.m_connection s p = fst <$> aspect face s p.
Proof. unfold aspect. by destruct (protocols s !! p). Qed.

(** ** The connections stay when a protocol goes *)

Definition same_connections (s : state) (out : list request) (s' : state) : Prop := connections s' = connections s.

#[export] Instance same_connections_composes : Composes same_connections.
Proof. split; [done|]. unfold same_connections. intros s1 o1 s2 o2 s3 H1 H2. congruence. Qed.

Lemma releaseProtocol_connections p : respects same_connections (releaseProtocol p).
Proof. unfold releaseProtocol, protocol, settle, releaseMessage. respects; by apply respects_emit. Qed.

(** ** Silent operations *)

Lemma message_silent id : silent (message id).
Proof. unfold message. respects. Qed.
Lemma protocol_silent p : silent (protocol p).
Proof. unfold protocol. respects. Qed.
Lemma onMessage_silent id f : silent (onMessage id f).
Proof. unfold onMessage, message. respects. Qed.
Lemma onProtocol_silent p f : silent (onProtocol p f).
Proof. unfold onProtocol, protocol. respects. Qed.

Lemma getOutputMessage_silent memory p auto : silent (getOutputMessage memory p auto).
Proof.
  unfold getOutputMessage, hold, configureOutputMessage, onConnection.
  respects; first [apply protocol_silent | apply onMessage_silent | apply onProtocol_silent].
Qed.

Lemma internalReleaseMessage_silent id : silent (internalReleaseMessage id).
Proof.
  unfold internalReleaseMessage, onConnection.
  respects; first [apply message_silent | apply onMessage_silent | apply onProtocol_silent].
Qed.

Lemma drop_pointer_silent id : silent (drop_pointer id).
Proof. unfold drop_pointer, settle, releaseMessage. respects. Qed.

End PoolFrame.
