(* ===== verification/PoolLaws.v ===== *)
(** * The pool's books (the invariant of [Pool])

    Every message is free, waits for its release, or is pointed at; the reference counts
    of protocols and connections count the messages that name them. *)
From S2P Require Import Prelude Proc Bytes Definitions NetMessage OutMessage Proto Pool.

Module PoolLaws.
Import OutputMessagePool.

(** ** Counting messages *)

Definition of_protocol (p : nat) (m : OutputMessage.t) : Prop := OutputMessage.m_protocol m = Some p.
Definition of_connection (c : nat) (m : OutputMessage.t) : Prop := OutputMessage.m_connection m = Some c.

#[export] Instance of_protocol_dec p m : Decision (of_protocol p m).
Proof. unfold of_protocol. apply _. Defined.
#[export] Instance of_connection_dec c m : Decision (of_connection c m).
Proof. unfold of_connection. apply _. Defined.

Section Count.
Context (P : OutputMessage.t -> Prop) `{!forall m, Decision (P m)}.

Definition count (ms : gmap nat OutputMessage.t) : Z :=
  zlen (filter (fun kv => P kv.2) (map_to_list ms)).

Definition one (m : OutputMessage.t) : Z := if decide (P m) then 1 else 0.

Lemma count_fresh id m ms : ms !! id = None -> count (<[id := m]> ms) = one m + count ms.
Proof.
  intros Hn. unfold count, one, zlen. rewrite map_to_list_insert by done. rewrite filter_cons. cbn.
  destruct (decide (P m)); [cbn [length]; lia|lia].
Qed.

Lemma count_insert id m m' ms :
  ms !! id = Some m -> count (<[id := m']> ms) = count ms - one m + one m'.
Proof.
  intros Hm. rewrite <- (insert_id ms id m Hm) at 2. rewrite <- !(insert_delete_eq ms).
  rewrite !count_fresh by apply lookup_delete_eq. lia.
Qed.

Lemma count_same id m m' ms : ms !! id = Some m -> (P m' <-> P m) -> count (<[id := m']> ms) = count ms.
Proof.
  intros Hm HP. rewrite (count_insert id m) by done. unfold one. do 2 case_decide; tauto || lia.
Qed.

Lemma count_none ms : count ms = 0 -> forall id m, ms !! id = Some m -> ~ P m.
Proof.
  intros Hc id m Hm HP. rewrite <- (insert_delete_id ms id m Hm), count_fresh in Hc by apply lookup_delete_eq.
  unfold one in Hc. rewrite decide_True in Hc by done.
  pose proof (zlen_nonneg (filter (fun kv : nat * OutputMessage.t => P kv.2) (map_to_list (delete id ms)))) as Hn.
  unfold count in Hc. lia.
Qed.

Lemma count_bound ms : 0 <= count ms <= Z.of_nat (size ms).
Proof.
  unfold count, zlen. rewrite <- length_map_to_list. pose proof (length_filter (fun kv : nat * OutputMessage.t => P kv.2) (map_to_list ms)). lia.
Qed.
End Count.

Definition owns (q : nat) (o : option nat) : Z :=
  match o with Some p => if decide (q = p) then 1 else 0 | None => 0 end.

Lemma one_protocol q m : one (of_protocol q) m = owns q (OutputMessage.m_protocol m).
Proof.
  unfold one, owns. destruct (decide (of_protocol q m)) as [E|E]; unfold of_protocol in E.
  - rewrite E. by rewrite decide_True.
  - destruct (OutputMessage.m_protocol m); [|done]. rewrite decide_False by congruence. done.
Qed.

Lemma one_connection q m : one (of_connection q) m = owns q (OutputMessage.m_connection m).
Proof.
  unfold one, owns. destruct (decide (of_connection q m)) as [E|E]; unfold of_connection in E.
  - rewrite E. by rewrite decide_True.
  - destruct (OutputMessage.m_connection m); [|done]. rewrite decide_False by congruence. done.
Qed.

(** ** The invariant *)

Definition unencoded (m : OutputMessage.t) : Prop :=
  NetworkMessage.writing (OutputMessage.base m) /\
  OutputMessage.m_outputBufferStart m = NETWORK_CRYPTOHEADER_SIZE.

Abbreviation free s := (m_outputMessages (pool s)).
Abbreviation store s := (messages (pool s)).

Record message_ok (s : state) (L : list nat) (id : nat) (m : OutputMessage.t) : Prop := {
  message_wf : NetworkMessage.wf (OutputMessage.base m);
  message_free : id ∈ free s -> OutputMessage.m_protocol m = None /\ OutputMessage.m_connection m = None /\
    OutputMessage.m_outputBufferStart m = NETWORK_CRYPTOHEADER_SIZE;
  message_used : ~ (id ∈ free s) -> exists p c, OutputMessage.m_protocol m = Some p /\
    OutputMessage.m_connection m = Some c /\ is_Some (protocols s !! p) /\ is_Some (connections s !! c);
  message_unencoded : id ∈ L \/ id ∈ buffers (protocols s) -> unencoded m
}.

Record protocol_ok (s : state) (p : nat) (pr : Protocol.t) : Prop := {
  protocol_refs : Protocol.m_refCount pr = u32 (count (of_protocol p) (store s));
  protocol_connection : forall c, Protocol.m_connection pr = Some c -> is_Some (connections s !! c);
  protocol_buffer : forall id, Protocol.m_outputBuffer pr = Some id ->
    exists m, store s !! id = Some m /\ OutputMessage.m_protocol m = Some p
}.

(** [X] are messages a local pointer still keeps, [L] those that are to be encoded yet. *)
Record inv (X L : list nat) (s : state) : Prop := {
  inv_once : NoDup (free s ++ tasks s);
  inv_apart : forall id, id ∈ free s ++ tasks s -> ~ (id ∈ pointers s ++ X);
  inv_cover : forall id, is_Some (store s !! id) <-> id ∈ free s ++ tasks s \/ id ∈ pointers s ++ X;
  inv_messages : forall id m, store s !! id = Some m -> message_ok s L id m;
  inv_protocols : forall p pr, protocols s !! p = Some pr -> protocol_ok s p pr;
  inv_connections : forall c n, connections s !! c = Some n -> n = u32 (count (of_connection c) (store s));
  inv_queue : NoDup L
}.

Lemma elem_of_buffers ps id :
  id ∈ buffers ps <-> exists p pr, ps !! p = Some pr /\ Protocol.m_outputBuffer pr = Some id.
Proof.
  unfold buffers. rewrite list_elem_of_omap. split.
  - intros ([p pr] & Hin & Hb). exists p, pr. by rewrite <- elem_of_map_to_list.
  - intros (p & pr & Hp & Hb). exists (p, pr). by rewrite elem_of_map_to_list.
Qed.

Lemma inv_unused X L s id : inv X L s -> id ∈ pointers s ++ X -> ~ (id ∈ free s).
Proof. intros Hi Hp Hf. apply (inv_apart _ _ _ Hi id); [|done]. rewrite elem_of_app. auto. Qed.

(** Membership in lists put together from the queues. *)
Ltac elems := unfold pointers; cbn [app]; repeat first
  [rewrite elem_of_app | rewrite list_elem_of_singleton | rewrite elem_of_cons | rewrite elem_of_nil].
Tactic Notation "elems" "in" hyp(H) := unfold pointers in H; repeat first
  [rewrite elem_of_app in H | rewrite list_elem_of_singleton in H | rewrite elem_of_cons in H | rewrite elem_of_nil in H].

(** ** Moves that only concern pointers *)

Lemma inv_pointers X X' L L' s s' :
  inv X L s ->
  store s' = store s -> free s' = free s -> tasks s' = tasks s ->
  protocols s' = protocols s -> connections s' = connections s ->
  (forall id, id ∈ pointers s' ++ X' <-> id ∈ pointers s ++ X) ->
  NoDup L' -> (forall id m, id ∈ L' -> store s !! id = Some m -> id ∈ L \/ unencoded m) ->
  inv X' L' s'.
Proof.
  intros [H1 H2 H3 H4 H5 H6 H7] Es Ef Et Ep Ec Hp HL HLs.
  split; rewrite ?Es, ?Ef, ?Et, ?Ep, ?Ec; try done.
  - intros id. by rewrite Hp; apply H2.
  - intros id. by rewrite Hp.
  - intros id m Hm. destruct (H4 id m Hm) as [A B C D]. split; rewrite ?Ef, ?Ep, ?Ec; try done.
    intros [Hin|Hin]; [|by apply D; right]. destruct (HLs id m Hin Hm); [by apply D; left|done].
  - intros p pr Hpr. destruct (H5 p pr Hpr) as [A B C]. by split; rewrite ?Es, ?Ec.
Qed.

(** A message changes, with the same owner. *)
Lemma inv_message X L s id m m' :
  inv X L s -> store s !! id = Some m ->
  OutputMessage.m_protocol m' = OutputMessage.m_protocol m ->
  OutputMessage.m_connection m' = OutputMessage.m_connection m ->
  NetworkMessage.wf (OutputMessage.base m') ->
  (id ∈ free s -> OutputMessage.m_outputBufferStart m' = NETWORK_CRYPTOHEADER_SIZE) ->
  (id ∈ L \/ id ∈ buffers (protocols s) -> unencoded m') ->
  inv X L (setMessages (insert id m') s).
Proof.
  intros [H1 H2 H3 H4 H5 H6 H7] Hm Ep Ec Hw Hf Hu.
  assert (forall p, count (of_protocol p) (<[id := m']> (store s)) = count (of_protocol p) (store s)) as Cp.
  { intros p. apply (count_same _ id m); [done|]. unfold of_protocol. by rewrite Ep. }
  assert (forall c, count (of_connection c) (<[id := m']> (store s)) = count (of_connection c) (store s)) as Cc.
  { intros c. apply (count_same _ id m); [done|]. unfold of_connection. by rewrite Ec. }
  split; cbn; try done.
  - intros id'. rewrite lookup_insert_is_Some'. rewrite H3. split; [|by right].
    intros [<-|?]; [|done]. by apply H3; eexists.
  - intros id' m0. rewrite lookup_insert. case_decide as Hid; [intros [= <-]; subst id'|].
    + destruct (H4 id m Hm) as [A B C D]. split; cbn; rewrite ?Ep, ?Ec; try done.
      intros Hin. destruct (B Hin) as (? & ? & ?). auto.
    + intros Hm0. destruct (H4 id' m0 Hm0) as [A B C D]. by split.
  - intros p pr Hpr. destruct (H5 p pr Hpr) as [A B C]. split; cbn; [by rewrite Cp|done|].
    intros id' Hb. destruct (C id' Hb) as (m0 & Hm0 & Hp0). rewrite lookup_insert.
    case_decide as Hid; [subst id'|eauto]. exists m'. split; [done|]. rewrite Hm in Hm0. injection Hm0 as <-. by rewrite Ep.
  - intros c n Hc. rewrite Cc. by apply H6.
Qed.

(** The last pointer of a message has gone, or not. *)
Lemma inv_settle X L s id (Q : unit -> state -> list request -> Prop) :
  inv (id :: X) L s -> ~ (id ∈ X) ->
  (forall s' out, inv X L s' -> pool s' = pool s -> protocols s' = protocols s -> held s' = held s -> Q tt s' out) ->
  wp (settle id) Q s.
Proof.
  intros Hi HX HQ. unfold settle. wp_step. wp_step. case_decide as Hd; [wp_step|unfold releaseMessage; wp_step];
    apply HQ; try done.
  - eapply inv_pointers; [exact Hi|done..| |by apply Hi|by left].
    intros i. rewrite !elem_of_app, elem_of_cons. split; [tauto|]. intros [?|[->|?]]; auto.
  - destruct Hi as [H1 H2 H3 H4 H5 H6 H7].
    assert (~ (id ∈ free s ++ tasks s)) as Hn.
    { intros Hin. apply (H2 id Hin). rewrite elem_of_app, elem_of_cons. auto. }
    split; cbn; try done.
    + rewrite <- Permutation_middle. by constructor.
    + intros i. change (pointers (setTasks (cons id) s)) with (pointers s).
      rewrite !elem_of_app, elem_of_cons. intros Hin Hp.
      assert (i <> id) as Hne by (intros ->; destruct Hp; done).
      apply (H2 i); rewrite !elem_of_app, ?elem_of_cons; intuition congruence.
    + intros i. change (pointers (setTasks (cons id) s)) with (pointers s).
      rewrite H3, !elem_of_app, !elem_of_cons. tauto.
    + intros i m Hm. destruct (H4 i m Hm) as [A B C D]. by split.
    + intros p pr Hpr. destruct (H5 p pr Hpr) as [A B C]. by split.
Qed.

(** ** Encoding a message *)

Lemma buffers_insert ps p pr pr' id :
  ps !! p = Some pr ->
  id ∈ buffers (<[p := pr']> ps) <->
    Protocol.m_outputBuffer pr' = Some id \/ exists q qr, q <> p /\ ps !! q = Some qr /\ Protocol.m_outputBuffer qr = Some id.
Proof.
  intros Hp. rewrite elem_of_buffers. split.
  - intros (q & qr & Hq & Hb). rewrite lookup_insert in Hq. case_decide; [injection Hq as <-; by left|right; eauto 6].
  - intros [Hb|(q & qr & Hne & Hq & Hb)].
    + exists p, pr'. by rewrite lookup_insert_eq.
    + exists q, qr. by rewrite lookup_insert_ne.
Qed.

(** A protocol changes, keeping its references; a buffer it gives up is kept otherwise,
    one it takes is an unencoded message of its own. *)
Lemma inv_protocol X X' L s p pr pr' :
  inv X L s -> protocols s !! p = Some pr ->
  Protocol.m_refCount pr' = Protocol.m_refCount pr ->
  (forall c, Protocol.m_connection pr' = Some c -> is_Some (connections s !! c)) ->
  (forall id, Protocol.m_outputBuffer pr' = Some id -> exists m, store s !! id = Some m /\
     OutputMessage.m_protocol m = Some p /\ unencoded m) ->
  (forall id, id ∈ pointers (setProtocols (insert p pr') s) ++ X' <-> id ∈ pointers s ++ X) ->
  inv X' L (setProtocols (insert p pr') s).
Proof.
  intros [H1 H2 H3 H4 H5 H6 H7] Hp Er Ec Eb Hptr.
  split; cbn; try done.
  - intros id Hin. rewrite Hptr. by apply H2.
  - intros id. rewrite Hptr. apply H3.
  - intros id m Hm. destruct (H4 id m Hm) as [A B C D]. split; cbn; try done.
    + intros Hf. destruct (C Hf) as (q & c & Hq & Hc & Iq & Ic). exists q, c. split_and!; try done.
      rewrite lookup_insert_is_Some'. by right.
    + rewrite (buffers_insert _ p pr) by done. intros [?|[Hb|(q & qr & Hne & Hq & Hb)]]; [by apply D; left| |].
      * destruct (Eb id Hb) as (m' & Hm' & _ & Hu). congruence.
      * apply D. right. apply elem_of_buffers. eauto.
  - intros q qr. rewrite lookup_insert. case_decide as Hq; [intros [= <-]; subst q|].
    + destruct (H5 p pr Hp) as [A B C]. split; cbn; [by rewrite Er|done|].
      intros id Hb. destruct (Eb id Hb) as (m & Hm & Hmp & _). eauto.
    + intros Hqr. destruct (H5 q qr Hqr) as [A B C]. by split.
Qed.

(** The state after [onSendMessage] of a message that some other pointer keeps. *)
Lemma inv_onSendMessage X L s id m (Q : unit -> state -> list request -> Prop) :
  inv X L s -> store s !! id = Some m -> unencoded m -> ~ (id ∈ L) -> ~ (id ∈ free s) ->
  id ∈ m_autoSend (pool s) ++ m_addQueue (pool s) ++ held s ++ X ->
  (forall s' out m', inv X L s' -> held s' = held s -> m_autoSend (pool s') = m_autoSend (pool s) ->
     m_addQueue (pool s') = m_addQueue (pool s) -> free s' = free s -> tasks s' = tasks s ->
     store s' = <[id := m']> (store s) -> Protocol.same_owner m m' ->
     Q tt s' out) ->
  wp (onSendMessage id) Q s.
Proof.
  intros Hi Hm [Hw Hst] HL Hf Hin HQ.
  destruct (inv_messages _ _ _ Hi id m Hm) as [A B C D].
  destruct (C Hf) as (p & c & Hp & Hc & [pr Hpr] & Hcs).
  destruct (Protocol.onSendMessage_total pr id m Hw Hst) as (m' & E & Ho & Hwf').
  destruct (inv_protocols _ _ _ Hi p pr Hpr) as [Pr Pc Pb].
  set (pr' := if bool_decide (Protocol.m_outputBuffer pr = Some id) then Protocol.setOutputBuffer None pr else pr) in *.
  unfold onSendMessage, message, protocol. repeat wp_step. rewrite Hm.
  eapply wp_lift; [done|]. rewrite Hp. repeat wp_step. rewrite Hpr. eapply wp_lift; [done|].
  wp_step. eapply wp_lift; [exact E|]. repeat wp_step. cbn [fst snd].
  set (s1 := setProtocols (insert p pr') s).
  assert (forall i, Protocol.m_outputBuffer pr' = Some i <-> Protocol.m_outputBuffer pr = Some i /\ i <> id) as Hb'.
  { intros i. unfold pr'. case_bool_decide as Hb; cbn.
    - rewrite Hb. split; [done|]. by intros [[= ->] ?].
    - split; [intros Hi'; split; congruence|by intros [? _]]. }
  assert (forall i, i ∈ buffers (protocols s1) <-> i ∈ buffers (protocols s) /\ i <> id) as Hbs.
  { intros i. unfold s1. cbn. rewrite (buffers_insert _ p pr) by done. rewrite elem_of_buffers, Hb'. split.
    - intros [[Hb Hne]|(q & qr & Hne & Hq & Hb)]; [by eauto 6|]. split; [by eauto|]. intros ->.
      destruct (protocol_buffer _ _ _ (inv_protocols _ _ _ Hi q qr Hq) id Hb) as (m0 & Hm0 & Hq0). congruence.
    - intros [(q & qr & Hq & Hb) Hne]. destruct (decide (q = p)) as [->|]; [left; split; [congruence|done]|right; eauto 6]. }
  assert (inv X L s1) as Hi1.
  { apply (inv_protocol X X L s p pr pr'); try done.
    - unfold pr'. by case_bool_decide.
    - unfold pr'. by case_bool_decide.
    - intros i [Hb Hne]%Hb'. destruct (Pb i Hb) as (m0 & Hm0 & Hp0). exists m0. split_and!; [done..|].
      eapply message_unencoded; [by apply (inv_messages _ _ _ Hi)|]. right. apply elem_of_buffers. eauto.
    - intros i. change (insert p pr' ?ps) with (insert p pr' ps). fold s1.
      unfold pointers. change (m_autoSend (pool s1)) with (m_autoSend (pool s)).
      change (m_addQueue (pool s1)) with (m_addQueue (pool s)). change (held s1) with (held s).
      rewrite !elem_of_app, Hbs. rewrite !elem_of_app in Hin. destruct (decide (i = id)) as [->|]; tauto. }
  apply (HQ _ _ m'); try done.
  destruct Ho as (O1 & O2 & O3 & O4). apply (inv_message X L s1 id m); try done.
  rewrite Hbs. intros [?|[_ ?]]; done.
Qed.

(** ** Rules of the small operations *)

Lemma wp_message s id m (Q : OutputMessage.t -> state -> list request -> Prop) :
  store s !! id = Some m -> Q m s [] -> wp (message id) Q s.
Proof. intros Hm HQ. unfold message. repeat wp_step. rewrite Hm. by eapply wp_lift. Qed.

Lemma wp_protocol s p pr (Q : Protocol.t -> state -> list request -> Prop) :
  protocols s !! p = Some pr -> Q pr s [] -> wp (protocol p) Q s.
Proof. intros Hm HQ. unfold protocol. repeat wp_step. rewrite Hm. by eapply wp_lift. Qed.

Lemma wp_onMessage s id m f (Q : unit -> state -> list request -> Prop) :
  store s !! id = Some m -> Q tt (setMessages (insert id (f m)) s) [] -> wp (onMessage id f) Q s.
Proof. intros Hm HQ. unfold onMessage. wp_step. eapply wp_message; [done|]. by wp_step. Qed.

Lemma wp_onProtocol s p pr f (Q : unit -> state -> list request -> Prop) :
  protocols s !! p = Some pr -> Q tt (setProtocols (insert p (f pr)) s) [] -> wp (onProtocol p f) Q s.
Proof. intros Hm HQ. unfold onProtocol. wp_step. eapply wp_protocol; [done|]. by wp_step. Qed.

Lemma wp_onConnection s c n f (Q : unit -> state -> list request -> Prop) :
  connections s !! c = Some n -> Q tt (setConnections (insert c (f n)) s) [] -> wp (onConnection c f) Q s.
Proof. intros Hm HQ. unfold onConnection. repeat wp_step. rewrite Hm. eapply wp_lift; [done|]. by wp_step. Qed.

(** Fewer messages to be encoded. *)
Lemma inv_fewer X L L' s : inv X L s -> NoDup L' -> (forall id, id ∈ L' -> id ∈ L) -> inv X L' s.
Proof. intros Hi HL HLs. eapply inv_pointers; [exact Hi|done..|by intros id; left; apply HLs]. Qed.

(** A pointer in the queues is the program's. *)
Lemma queued_pointer s id : id ∈ m_autoSend (pool s) ++ m_addQueue (pool s) ++ held s -> id ∈ pointers s.
Proof. unfold pointers. rewrite !elem_of_app. tauto. Qed.

(** ** Sending *)

(** What sending [id] leaves: the queues, but for [id] itself at the end of the second. *)
Definition sent_state (X L : list nat) (id : nat) (s s' : state) : Prop :=
  m_autoSend (pool s') = m_autoSend (pool s) /\
  ((m_addQueue (pool s') = m_addQueue (pool s) /\ inv X L s') \/
   (m_addQueue (pool s') = m_addQueue (pool s) ++ [id] /\ inv X (L ++ [id]) s')) /\
  forall i, i ∈ held s -> i ∈ held s'.

Lemma wp_sendTo how X L s id m :
  inv X L s -> store s !! id = Some m -> unencoded m -> ~ (id ∈ L) ->
  id ∈ m_autoSend (pool s) ++ m_addQueue (pool s) ++ held s ++ X ->
  wp (sendTo how id m) (fun _ s' _ => sent_state X L id s s') s.
Proof.
  intros Hi Hm Hu HL Hin.
  assert (~ (id ∈ free s)) as Hf.
  { apply (inv_unused _ _ _ _ Hi). unfold pointers. rewrite !elem_of_app in *. tauto. }
  destruct (message_used _ _ _ _ (inv_messages _ _ _ Hi id m Hm) Hf) as (p & c & Hp & Hc & _).
  unfold sendTo. rewrite Hc. wp_step. unfold connection_send. repeat wp_step.
  destruct (how c id); repeat wp_step.
  - eapply inv_onSendMessage; try done. intros s' out m' Hi' Eh Ea Eq _ _ _ _.
    split; [done|]. split; [by left|]. by rewrite Eh.
  - eapply inv_onSendMessage; try done. intros s' out m' Hi' Eh Ea Eq _ _ _ _. unfold hold. repeat wp_step.
    split; [done|]. cbn. split; [left; split; [done|]|intros i; rewrite Eh, elem_of_cons; auto].
    eapply inv_pointers; [exact Hi'|done..| |by apply Hi'|by left].
    intros i. elems. cbn. elems. rewrite Eh, Ea, Eq. elems in Hin. split; [|tauto].
    intros; destruct_or!; subst; tauto.
  - eapply inv_onSendMessage; try done. intros s' out m' Hi' Eh Ea Eq _ _ _ _. repeat wp_step.
    split; [done|]. split; [by left|]. by rewrite Eh.
  - split; [done|]. by split; [left|].
  - unfold autoSend. repeat wp_step. split; [done|]. split; [right; split; [done|]|done].
    eapply inv_pointers; [exact Hi|done..| | |].
    + intros i. elems. cbn. elems. elems in Hin. split; [|tauto]. intros; destruct_or!; subst; tauto.
    + apply NoDup_app. split_and!; [by apply Hi| |apply NoDup_singleton].
      intros i Hi' ->%list_elem_of_singleton. done.
    + intros i m0 [?| ->%list_elem_of_singleton]%elem_of_app Hm0; [by left|right; congruence].
Qed.

(** The books at rest: the queues are what is to be encoded. *)
Definition books (s : state) : Prop := inv [] (m_autoSend (pool s) ++ m_addQueue (pool s)) s.

Lemma flushAutoSend_books how frameTime s :
  books s -> wp (flushAutoSend how frameTime (m_autoSend (pool s))) (fun _ s' _ => books s') s.
Proof.
  unfold books at 1. remember (m_autoSend (pool s)) as queue eqn:Eq. revert s Eq.
  induction queue as [|id queue IH]; intros s Eq Hi; cbn [flushAutoSend].
  { wp_step. unfold books. by rewrite <- Eq. }
  assert (id ∈ pointers s) as Hptr.
  { unfold pointers. rewrite <- Eq, elem_of_app. left. apply list_elem_of_here. }
  assert (is_Some (store s !! id)) as [m Hm] by (apply (inv_cover _ _ _ Hi); right; by rewrite app_nil_r).
  assert (unencoded m) as Hu.
  { apply (message_unencoded _ _ _ _ (inv_messages _ _ _ Hi id m Hm)). left. apply list_elem_of_here. }
  pose proof (inv_queue _ _ _ Hi) as Hnd. cbn in Hnd. apply NoDup_cons in Hnd as [Hnin Hnd].
  assert (inv [] (queue ++ m_addQueue (pool s)) s) as Hi'.
  { eapply inv_fewer; [exact Hi|done|]. intros i. cbn. rewrite elem_of_cons. auto. }
  wp_step. eapply wp_message; [done|]. destruct (_ <=? _).
  { wp_step. unfold books. by rewrite <- Eq. }
  wp_step. eapply wp_mono.
  { apply (wp_sendTo how [] (queue ++ m_addQueue (pool s)) s id m); try done.
    rewrite <- Eq, elem_of_app. left. apply list_elem_of_here. }
  intros [] s1 _ (Ea & Hq & Hh). repeat wp_step.
  set (L := queue ++ m_addQueue (pool s1)).
  assert (inv [] L s1) as Hi1.
  { unfold L. destruct Hq as [[-> ?]|[-> Hq]]; [done|]. by rewrite app_assoc. }
  eapply (inv_settle [] L).
  - eapply (inv_pointers [] [id]); [exact Hi1|done..| |by apply Hi1|by left].
    intros i. elems. cbn. elems. rewrite Ea, <- Eq. elems. tauto.
  - by apply not_elem_of_nil.
  - intros s2 out Hi2 Ep _ _. apply IH.
    + rewrite Ep. cbn. by rewrite Ea, <- Eq.
    + rewrite Ep. exact Hi2.
Qed.

Lemma unencoded_state st m : unencoded (OutputMessage.setState st m) <-> unencoded m.
Proof. done. Qed.

(** One round of the first loop: [rest] is to be looked at yet, the second queue is
    still [queue]. *)
Definition enqueueing (queue rest : list nat) (s : state) : Prop :=
  m_addQueue (pool s) = queue /\ inv [] (m_autoSend (pool s) ++ rest) s /\ (forall i, i ∈ rest -> i ∈ queue).

Lemma enqueue_step dropTime frameTime queue id rest s :
  enqueueing queue (id :: rest) s ->
  wp (enqueue dropTime frameTime id) (fun _ s' _ => enqueueing queue rest s') s.
Proof.
  intros (Eq & Hi & Hsub).
  assert (id ∈ queue) as Hin by (apply Hsub, list_elem_of_here).
  assert (id ∈ pointers s) as Hptr by (elems; rewrite Eq; tauto).
  assert (is_Some (store s !! id)) as [m Hm] by (apply (inv_cover _ _ _ Hi); right; by rewrite app_nil_r).
  assert (id ∈ m_autoSend (pool s) ++ id :: rest) as HL by (elems; tauto).
  assert (unencoded m) as Hu by (apply (message_unencoded _ _ _ _ (inv_messages _ _ _ Hi id m Hm)); by left).
  pose proof (inv_queue _ _ _ Hi) as Hnd. rewrite <- Permutation_middle in Hnd. apply NoDup_cons in Hnd as [Hnin Hnd].
  assert (inv [] (m_autoSend (pool s) ++ rest) s) as Hi'.
  { eapply inv_fewer; [exact Hi|done|]. intros i. elems. tauto. }
  assert (forall i, i ∈ rest -> i ∈ queue) as Hsub' by (intros i Hr; apply Hsub; elems; auto).
  assert (~ (id ∈ free s)) as Hf by (apply (inv_unused _ _ _ _ Hi); by rewrite app_nil_r).
  unfold enqueue. wp_step. eapply wp_message; [done|]. destruct (_ <=? _).
  - wp_step. eapply wp_onMessage; [done|]. wp_step.
    set (s1 := setMessages _ s).
    assert (inv [] (m_autoSend (pool s) ++ rest) s1) as Hi1.
    { apply (inv_message _ _ s id m); try done. apply (inv_messages _ _ _ Hi id m Hm). }
    split; [done|]. split; [|done].
    assert (NoDup (id :: m_autoSend (pool s) ++ rest)) as Hnd1 by (by apply NoDup_cons).
    eapply inv_pointers; [exact Hi1|done..| | |].
    + intros i. elems. cbn. rewrite Eq. destruct (_ <? _); elems; split; intros; destruct_or!; subst; tauto.
    + cbn. destruct (_ <? _); [done|]. rewrite <- app_assoc. cbn [app]. by rewrite <- Permutation_middle.
    + intros i m0 Hil Hm0. cbn in Hil.
      assert (i = id \/ i ∈ m_autoSend (pool s) ++ rest) as [->|?].
      { revert Hil. destruct (_ <? _); elems; tauto. }
      * right. unfold s1 in Hm0. cbn in Hm0. rewrite lookup_insert_eq in Hm0. by injection Hm0 as <-.
      * by left.
  - eapply inv_onSendMessage; try done; [elems; rewrite Eq; tauto|].
    intros s' out m' Hi2 _ Ea Eq' _ _ _ _. split; [congruence|]. split; [by rewrite Ea|done].
Qed.

Lemma settle_all xs s :
  inv xs (m_autoSend (pool s)) s -> m_addQueue (pool s) = [] -> NoDup xs ->
  wp (for_each settle xs) (fun _ s' _ => books s') s.
Proof.
  intros Hi Hq Hnd. eapply wp_mono.
  { apply (wp_for_each settle (fun xs s => inv xs (m_autoSend (pool s)) s /\ m_addQueue (pool s) = [] /\ NoDup xs)); [done|].
    clear. intros x xs s (Hi & Hq & [Hx Hnd]%NoDup_cons). apply (inv_settle xs _ _ _ _ Hi Hx).
    intros s' out Hi' Ep _ _. by rewrite Ep. }
  intros [] s' out (Hi' & Hq' & _). unfold books. by rewrite Hq', app_nil_r.
Qed.

Lemma sendAll_books how s : books s -> wp (sendAll how) (fun _ s' _ => books s') s.
Proof.
  intros Hb. unfold sendAll. do 5 wp_step. eapply wp_mono.
  { apply (wp_for_each _ (enqueueing (m_addQueue (pool s)))); [by split|]. intros. by apply enqueue_step. }
  intros [] s1 out (Eq & Hi & _). rewrite app_nil_r in Hi.
  pose proof (inv_queue _ _ _ Hb) as Hnd. apply NoDup_app in Hnd as (_ & _ & Hnd).
  repeat wp_step. eapply wp_mono.
  { apply settle_all; [|done|done]. eapply inv_pointers; [exact Hi|done..| |by apply Hi|by left].
    intros i. elems. cbn. rewrite Eq. elems. tauto. }
  intros [] s2 _ Hb2. repeat wp_step. by apply flushAutoSend_books.
Qed.

Lemma send_books how s id m :
  books s -> store s !! id = Some m -> id ∈ held s -> unencoded m ->
  ~ (id ∈ m_autoSend (pool s) ++ m_addQueue (pool s)) ->
  wp (send how id) (fun _ s' _ => books s') s.
Proof.
  intros Hb Hm Hh Hu Hq. unfold send. wp_step. eapply wp_message; [done|].
  destruct (OutputMessage.m_state m); try (wp_step; done).
  eapply wp_mono; [eapply wp_sendTo; try done; elems; tauto|].
  intros [] s' _ (Ea & [[Eq Hi]|[Eq Hi]] & _); unfold books; rewrite Ea, Eq; [done|by rewrite app_assoc].
Qed.

(** ** Pointers copied and dropped *)

Lemma elem_of_remove_one x i l : i ∈ remove_one x l -> i ∈ l.
Proof. induction l as [|y l IH]; cbn; [done|]. case_decide; elems; tauto. Qed.

Lemma remove_one_elem x i l : i ∈ l -> i = x \/ i ∈ remove_one x l.
Proof. induction l as [|y l IH]; cbn; [by elems|]. case_decide; elems; intuition congruence. Qed.

Lemma hold_books s id : books s -> id ∈ pointers s -> wp (hold id) (fun _ s' _ => books s') s.
Proof.
  intros Hb Hin. unfold hold. wp_step. eapply inv_pointers; [exact Hb|done..| |by apply Hb|by left].
  intros i. elems in Hin. elems. cbn. elems. split; intros; destruct_or!; subst; tauto.
Qed.

Lemma drop_pointer_books s id :
  books s -> id ∈ held s ->
  wp (drop_pointer id) (fun _ s' _ => books s' /\ pool s' = pool s /\ protocols s' = protocols s) s.
Proof.
  intros Hb Hin. unfold drop_pointer. repeat wp_step. apply (inv_settle [] (m_autoSend (pool s) ++ m_addQueue (pool s))).
  - eapply (inv_pointers [] [id]); [exact Hb|done..| |by apply Hb|by left].
    intros i. elems. cbn. elems. pose proof (elem_of_remove_one id i (held s)).
    pose proof (remove_one_elem id i (held s)). split; intros; destruct_or!; subst; tauto.
  - apply not_elem_of_nil.
  - intros s' out Hi Ep Epr _. unfold books. by rewrite Ep, Epr.
Qed.

(** ** Taking a message *)

(** The message after [configureOutputMessage]. *)
Definition configured (p c : nat) (auto : bool) (frame : Z) (m : OutputMessage.t) : OutputMessage.t :=
  OutputMessage.setConnection (Some c) (OutputMessage.setFrame frame (OutputMessage.setProtocol (Some p)
    (OutputMessage.setState (if auto then OutputMessage.STATE_ALLOCATED else OutputMessage.STATE_ALLOCATED_NO_AUTOSEND)
      (OutputMessage.setBase (NetworkMessage.reset (OutputMessage.base m)) m)))).

Definition push_if (auto : bool) (id : nat) : state -> state :=
  if auto then setAutoSend (fun q => q ++ [id]) else (fun s => s).

Lemma setMessages_insert id m m' s :
  setMessages (insert id m') (setMessages (insert id m) s) = setMessages (insert id m') s.
Proof. unfold setMessages, setPool. cbn. by rewrite insert_insert_eq. Qed.

Lemma wp_configure s id p pr c n m auto (Q : unit -> state -> list request -> Prop) :
  store s !! id = Some m -> protocols s !! p = Some pr -> Protocol.m_connection pr = Some c ->
  connections s !! c = Some n ->
  Q tt (setConnections (insert c (u32 (n + 1))) (setProtocols (insert p (Protocol.addRef pr))
    (push_if auto id (setMessages (insert id (configured p c auto (m_frameTime (pool s)) m)) s)))) [] ->
  wp (configureOutputMessage id p auto) Q s.
Proof.
  intros Hm Hp Hc Hn HQ. unfold configureOutputMessage.
  assert (forall m0 f s0, store (setMessages (insert id m0) s0) !! id = Some m0 /\
    store (push_if f id (setMessages (insert id m0) s0)) !! id = Some m0) as Hl.
  { intros m0 [] s0; cbn; by rewrite lookup_insert_eq. }
  wp_step. eapply wp_onMessage; [done|]. wp_step.
  set (m1 := OutputMessage.setBase _ m). set (s1 := setMessages _ s).
  set (m2 := OutputMessage.setState (if auto then OutputMessage.STATE_ALLOCATED
    else OutputMessage.STATE_ALLOCATED_NO_AUTOSEND) m1).
  set (s2 := push_if auto id (setMessages (insert id m2) s)).
  apply (wp_mono _ (fun _ s' out => s' = s2 /\ out = [])).
  { destruct auto; [wp_step|]; (eapply wp_onMessage; [apply Hl; exact false|]);
      unfold s1; rewrite setMessages_insert; [wp_step|]; done. }
  intros [] s' o [-> ->]. wp_step. eapply wp_protocol; [by unfold s2; destruct auto|].
  wp_step. eapply wp_onMessage; [unfold s2; by apply Hl|].
  wp_step. eapply wp_onProtocol; [by unfold s2; destruct auto|]. repeat wp_step.
  eapply wp_onMessage; [cbn; apply lookup_insert_eq|].
  rewrite Hc. wp_step. eapply wp_onMessage; [cbn; apply lookup_insert_eq|].
  eapply wp_onConnection; [by unfold s2; destruct auto|].
  match goal with |- Q tt ?s' _ => match type of HQ with Q tt ?s0 _ => replace s' with s0; [exact HQ|] end end.
  unfold s2, m2, m1. clear. destruct s as [[ms fr au aq ft sd] ps cs hs ts].
  unfold configured, push_if, setMessages, setConnections, setProtocols, setAutoSend, setPool. cbn [pool messages].
  destruct auto; cbn; rewrite !insert_insert_eq; done.
Qed.

Lemma buffers_same ps p pr pr' i :
  ps !! p = Some pr -> Protocol.m_outputBuffer pr' = Protocol.m_outputBuffer pr ->
  i ∈ buffers (<[p := pr']> ps) <-> i ∈ buffers ps.
Proof.
  intros Hp Hb. rewrite (buffers_insert _ p pr) by done. rewrite elem_of_buffers, Hb. split.
  - intros [?|(q & qr & _ & ? & ?)]; eauto.
  - intros (q & qr & Hq & Hqb). destruct (decide (q = p)) as [->|]; [left; congruence|right; eauto 6].
Qed.

Lemma reset_writing m : NetworkMessage.wf m -> NetworkMessage.writing (NetworkMessage.reset m).
Proof. intros [????]. repeat split; cbn; try done; NetworkMessage.consts; lia. Qed.

(** The reference counts when message [id] changes owners: [refs] counts those of [q]. *)
Lemma count_owner P `{!forall m, Decision (P m)} (ms : gmap nat OutputMessage.t) id m m' :
  ms !! id = Some m -> u32 (count P (<[id := m']> ms)) = u32 (u32 (count P ms) - one P m + one P m').
Proof.
  intros Hm. rewrite (count_insert P id m) by done. unfold Z.sub. rewrite <- !Z.add_assoc. by rewrite wrapu_add_l.
Qed.

(** A message becomes, or ceases to be, one of [p] and [c]; [refs] is what is added to
    their reference counts. *)
Lemma inv_counts X L s id m m' p pr pr' c n refs :
  inv X L s -> store s !! id = Some m -> protocols s !! p = Some pr -> connections s !! c = Some n ->
  (forall q, one (of_protocol q) m' - one (of_protocol q) m = if decide (q = p) then refs else 0) ->
  (forall q, one (of_connection q) m' - one (of_connection q) m = if decide (q = c) then refs else 0) ->
  Protocol.m_refCount pr' = u32 (Protocol.m_refCount pr + refs) ->
  (forall q qr, <[p := pr']> (protocols s) !! q = Some qr ->
     Protocol.m_refCount qr = u32 (count (of_protocol q) (<[id := m']> (store s)))) /\
  (forall q k, <[c := u32 (n + refs)]> (connections s) !! q = Some k ->
     k = u32 (count (of_connection q) (<[id := m']> (store s)))).
Proof.
  intros Hi Hm Hp Hc Op Oc Hr. split; intros q k; rewrite lookup_insert.
  - rewrite (count_owner _ _ id m m' Hm). specialize (Op q). destruct (decide (p = q)) as [Hq|Hq]; [intros [= <-]; subst q|intros Hk].
    + rewrite decide_True in Op by done. rewrite Hr. 
      rewrite (protocol_refs _ _ _ (inv_protocols _ _ _ Hi p pr Hp)). f_equal. lia.
    + rewrite decide_False in Op by done. rewrite (protocol_refs _ _ _ (inv_protocols _ _ _ Hi q k Hk)).
      rewrite <- (wrapu_wrapu 32) at 1 by lia. f_equal. lia.
  - rewrite (count_owner _ _ id m m' Hm). specialize (Oc q). destruct (decide (c = q)) as [Hq|Hq]; [intros [= <-]; subst q|intros Hk].
    + rewrite decide_True in Oc by done. rewrite (inv_connections _ _ _ Hi c n Hc). f_equal. lia.
    + rewrite decide_False in Oc by done. rewrite (inv_connections _ _ _ Hi q k Hk).
      rewrite <- (wrapu_wrapu 32) at 1 by lia. f_equal. lia.
Qed.

(** A protocol when a message without one becomes one of [p]'s. *)
Lemma allocate_protocol s s' id m m' p pr c n q qr :
  (forall q qr, protocols s !! q = Some qr -> protocol_ok s q qr) -> protocols s !! p = Some pr ->
  store s !! id = Some m -> OutputMessage.m_protocol m = None ->
  store s' = <[id := m']> (store s) -> connections s' = <[c := n]> (connections s) ->
  <[p := Protocol.addRef pr]> (protocols s) !! q = Some qr ->
  Protocol.m_refCount qr = u32 (count (of_protocol q) (<[id := m']> (store s))) ->
  protocol_ok s' q qr.
Proof.
  intros Hok Hp Hm Hmp Es Ec Hqr Hrefs. split; rewrite ?Es; [done|..].
  - intros k Hk. rewrite Ec, lookup_insert_is_Some'. right. rewrite lookup_insert in Hqr. case_decide.
    + injection Hqr as <-. by apply (protocol_connection _ _ _ (Hok p pr Hp)).
    + by apply (protocol_connection _ _ _ (Hok q qr Hqr)).
  - intros i Hb. assert (exists m0, store s !! i = Some m0 /\ OutputMessage.m_protocol m0 = Some q) as (m0 & Hm0 & Hq0).
    { rewrite lookup_insert in Hqr. case_decide; [injection Hqr as <-; subst q|].
      - by apply (protocol_buffer _ _ _ (Hok p pr Hp)).
      - by apply (protocol_buffer _ _ _ (Hok q qr Hqr)). }
    exists m0. split; [|done]. rewrite lookup_insert_ne; [done|]. intros ->. congruence.
Qed.

(** The books when a free message becomes one of [p]'s. *)
Lemma inv_allocate (X L L' : list nat) s id m p pr c n (auto : bool) :
  inv X L s -> last (free s) = Some id -> store s !! id = Some m ->
  protocols s !! p = Some pr -> Protocol.m_connection pr = Some c -> connections s !! c = Some n ->
  L' = (if auto then L ++ [id] else L) -> (forall i, i ∈ L -> i ∈ pointers s ++ X) ->
  inv X L' (setConnections (insert c (u32 (n + 1))) (setProtocols (insert p (Protocol.addRef pr))
    (push_if auto id (setMessages (insert id (configured p c auto (m_frameTime (pool s)) m))
      (setFree (fun _ => removelast (free s)) (setHeld (cons id) s)))))).
Proof.
  intros Hi [F HF]%last_Some Hm Hp Hc Hn -> HLp.
  assert (id ∈ free s) as Hf by (rewrite HF; elems; tauto).
  assert (~ (id ∈ pointers s ++ X)) as Hnp by (apply (inv_apart _ _ _ Hi); elems; tauto).
  destruct (message_free _ _ _ _ (inv_messages _ _ _ Hi id m Hm) Hf) as (Hmp & Hmc & Hst).
  set (m' := configured p c auto (m_frameTime (pool s)) m).
  destruct (inv_counts X L s id m m' p pr (Protocol.addRef pr) c n 1) as [Cp Cc]; try done.
  { intros q. rewrite !one_protocol, Hmp. cbn. case_decide; lia. }
  { intros q. rewrite !one_connection, Hmc. cbn. case_decide; lia. }
  set (s' := setConnections _ _).
  assert (free s' = F) as Ef by (unfold s'; destruct auto; cbn; by rewrite HF, removelast_last).
  assert (store s' = <[id := m']> (store s)) as Es by (by unfold s'; destruct auto).
  assert (tasks s' = tasks s /\ protocols s' = <[p := Protocol.addRef pr]> (protocols s) /\
    connections s' = <[c := u32 (n + 1)]> (connections s)) as (Et & Ep & Ec) by (by unfold s'; destruct auto).
  assert (forall i, i ∈ pointers s' <-> i = id \/ i ∈ pointers s) as Hptr.
  { intros i. unfold pointers. rewrite Ep. elems. rewrite (buffers_same _ p pr) by done.
    unfold s'. destruct auto; cbn; elems; tauto. }
  assert (NoDup (F ++ tasks s) /\ ~ (id ∈ F ++ tasks s)) as [HndF HidF].
  { pose proof (inv_once _ _ _ Hi) as Hnd. rewrite HF, <- app_assoc in Hnd. cbn in Hnd.
    rewrite <- Permutation_middle in Hnd. by apply NoDup_cons in Hnd as [? ?]. }
  clearbody s'. split; rewrite ?Ef, ?Et; try done.
  - intros i HiF HiP. rewrite elem_of_app, Hptr in HiP.
    destruct HiP as [[->|HiP]|HiP]; [done| |]; (apply (inv_apart _ _ _ Hi i);
      [rewrite HF; revert HiF; elems; tauto|elems in HiP; elems; tauto]).
  - intros i. rewrite Es, lookup_insert_is_Some', (inv_cover _ _ _ Hi), HF. rewrite (elem_of_app (pointers s')), Hptr.
    elems. intuition congruence.
  - intros i m0. rewrite Es, lookup_insert. destruct (decide (id = i)) as [<-|Hne].
    + intros [= <-]. pose proof (reset_writing _ (message_wf _ _ _ _ (inv_messages _ _ _ Hi id m Hm))) as Hw.
      split; rewrite ?Ef; cbn.
      * by apply Hw.
      * intros Hin. destruct HidF. elems. by left.
      * intros _. exists p, c. rewrite Ep, Ec, !lookup_insert_eq. eauto.
      * by split.
    + intros Hm0. destruct (inv_messages _ _ _ Hi i m0 Hm0) as [A B C D]. split; rewrite ?Ef, ?Ep, ?Ec; try done.
      * intros Hin. apply B. rewrite HF. elems. by left.
      * intros Hin. destruct C as (q & k & Hq & Hk & Iq & Ik).
        { rewrite HF. elems. intuition congruence. }
        exists q, k. rewrite !lookup_insert_is_Some'. auto.
      * rewrite (buffers_same _ p pr) by done. intros Hin. apply D. destruct auto; [|tauto].
        elems in Hin. intuition congruence.
  - intros q qr. rewrite Ep. intros Hqr. eapply allocate_protocol; try done; [apply (inv_protocols _ _ _ Hi)|by apply Cp].
  - intros k v. rewrite Ec, Es. apply Cc.
  - destruct auto; [|by apply Hi]. apply NoDup_app. split_and!; [by apply Hi| |apply NoDup_singleton].
    intros i HiL ->%list_elem_of_singleton. by apply Hnp, HLp.
Qed.

(** A message made because none is free. *)
Lemma inv_make X L s id m :
  inv X L s -> store s !! id = None -> free s = [] -> unencoded m ->
  OutputMessage.m_protocol m = None -> OutputMessage.m_connection m = None ->
  inv X L (setFree (fun _ => [id]) (setMessages (insert id m) s)).
Proof.
  intros Hi Hn Hf [Hw Hst] Hp Hc.
  assert (~ (id ∈ tasks s) /\ ~ (id ∈ pointers s ++ X)) as [Hnt Hnp].
  { assert (~ is_Some (store s !! id)) as Hns by (rewrite Hn; by intros [? ?]).
    rewrite (inv_cover _ _ _ Hi), Hf in Hns. cbn in Hns. tauto. }
  destruct Hi as [H1 H2 H3 H4 H5 H6 H7]. rewrite Hf in *. cbn in *. split; cbn; try done.
  - by apply NoDup_cons.
  - intros i. change (pointers (setFree _ _)) with (pointers s). rewrite elem_of_cons.
    intros [->|Hin]; [done|by apply H2].
  - intros i. change (pointers (setFree _ _)) with (pointers s).
    rewrite lookup_insert_is_Some', H3, elem_of_cons. intuition congruence.
  - intros i m0. rewrite lookup_insert. case_decide as Hd.
    + intros [= <-]. subst i. split; cbn; try done; [by apply Hw|]. by intros []; elems.
    + intros Hm0. destruct (H4 i m0 Hm0) as [A B C D]. split; cbn; try done.
      * intros Hin%list_elem_of_singleton. congruence.
      * intros _. apply C. rewrite Hf. apply not_elem_of_nil.
  - intros p pr Hpr. destruct (H5 p pr Hpr) as [A B C]. split; cbn; try done.
    + rewrite A, count_fresh by done. by rewrite one_protocol, Hp.
    + intros i Hb. destruct (C i Hb) as (m0 & Hm0 & Hq0). exists m0. split; [|done].
      rewrite lookup_insert_ne; [done|]. intros ->. congruence.
  - intros c n Hcn. rewrite count_fresh by done. rewrite one_connection, Hc. by apply H6.
Qed.

Definition memory_ok (memory : list Z) : Prop := zlen memory = NETWORK_MAX_SIZE /\ bytes_ok memory.

(** What [getOutputMessage] leaves: nothing changed, or a message of [p] without content,
    held by the caller. *)
Definition taken (p : nat) (auto : bool) (s : state) (got : option nat) (s' : state) : Prop :=
  books s' /\
  match got with
  | None => s' = s
  | Some id =>
      ~ (id ∈ pointers s) /\ id ∈ held s' /\
      (exists m, store s' !! id = Some m /\ unencoded m /\ NetworkMessage.m_size (OutputMessage.base m) = 0 /\
         OutputMessage.m_protocol m = Some p /\
         (forall pr, protocols s !! p = Some pr -> OutputMessage.m_connection m = Protocol.m_connection pr) /\
         OutputMessage.m_frame m = m_frameTime (pool s) /\
         OutputMessage.m_state m =
           if auto then OutputMessage.STATE_ALLOCATED else OutputMessage.STATE_ALLOCATED_NO_AUTOSEND) /\
      m_addQueue (pool s') = m_addQueue (pool s) /\
      m_autoSend (pool s') = m_autoSend (pool s) ++ (if auto then [id] else []) /\
      (forall pr, protocols s !! p = Some pr -> protocols s' !! p = Some (Protocol.addRef pr))
  end.

Lemma allocate_books p pr c auto s id m :
  books s -> last (free s) = Some id -> store s !! id = Some m ->
  protocols s !! p = Some pr -> Protocol.m_connection pr = Some c ->
  wp (_ ← hold id; _ ← modify (setFree (fun _ => removelast (free s))); _ ← configureOutputMessage id p auto; mret (Some id))
    (fun got s' _ => got = Some id /\ taken p auto s got s') s.
Proof.
  intros Hb Hlast Hm Hp Hc. pose proof Hlast as [F HF]%last_Some.
  assert (id ∈ free s) as Hf by (rewrite HF; elems; tauto).
  assert (~ (id ∈ pointers s)) as Hnp.
  { intros Hin. apply (inv_apart _ _ _ Hb id); elems; elems in Hin; tauto. }
  destruct (protocol_connection _ _ _ (inv_protocols _ _ _ Hb p pr Hp) c Hc) as [n Hn].
  unfold hold. repeat wp_step.
  eapply wp_configure; [exact Hm|exact Hp|exact Hc|exact Hn|]. repeat wp_step.
  pose proof (inv_allocate [] (m_autoSend (pool s) ++ m_addQueue (pool s)) _ s id m p pr c n auto
    Hb Hlast Hm Hp Hc Hn eq_refl) as Hi.
  cbn [pool setFree setHeld setPool m_frameTime].
  set (s' := setConnections _ _) in *.
  assert (m_addQueue (pool s') = m_addQueue (pool s) /\
    m_autoSend (pool s') = m_autoSend (pool s) ++ (if auto then [id] else [])) as [Eq Ea].
  { unfold s'. destruct auto; cbn; by rewrite ?app_nil_r. }
  assert (inv [] (if auto then (m_autoSend (pool s) ++ m_addQueue (pool s)) ++ [id]
    else m_autoSend (pool s) ++ m_addQueue (pool s)) s') as Hi'.
  { apply Hi. intros i. elems. tauto. }
  split; [done|]. split; [|split; [done|]].
  - unfold books. rewrite Eq, Ea. destruct auto; [|by rewrite app_nil_r].
    eapply inv_fewer; [exact Hi'| |intros i; elems; tauto].
    pose proof (inv_queue _ _ _ Hi') as Hnd.
    rewrite <- !app_assoc in *. by rewrite (Permutation_app_comm [id]).
  - destruct (message_free _ _ _ _ (inv_messages _ _ _ Hb id m Hm) Hf) as (_ & _ & Hst).
    pose proof (reset_writing _ (message_wf _ _ _ _ (inv_messages _ _ _ Hb id m Hm))) as Hw.
    split; [unfold s'; destruct auto; cbn; apply list_elem_of_here|].
    split; [exists (configured p c auto (m_frameTime (pool s)) m); unfold s'; split; [destruct auto; cbn; apply lookup_insert_eq|]|].
    { split_and!; try done. intros pr0 Hp0. cbn. congruence. }
    split_and!; try done. intros pr0 Hp0. unfold s'. destruct auto; cbn; rewrite lookup_insert_eq; congruence.
Qed.

(** When there is a message to be had. *)
Definition serves (s : state) (pr : Protocol.t) : bool :=
  negb (m_shutdown (pool s)) && bool_decide (is_Some (Protocol.m_connection pr)).

Lemma getOutputMessage_books memory p auto s pr :
  books s -> memory_ok memory -> protocols s !! p = Some pr ->
  wp (getOutputMessage memory p auto)
    (fun got s' _ => taken p auto s got s' /\ bool_decide (is_Some got) = serves s pr) s.
Proof.
  intros Hb [Hml Hmb] Hp. unfold getOutputMessage, serves. repeat wp_step.
  destruct (m_shutdown (pool s)); [wp_step; by split|]. wp_step. eapply wp_protocol; [done|].
  destruct (Protocol.m_connection pr) as [c|] eqn:Hc; [|wp_step; by split]. do 3 wp_step.
  destruct (free s) as [|i F] eqn:Ef.
  - repeat wp_step. set (id := fresh (dom (store s))).
    assert (store s !! id = None) as Hid by (apply not_elem_of_dom, is_fresh).
    set (s1 := setFree _ _).
    assert (books s1) as Hb1.
    { by apply inv_make. }
    change (free s1) with [id]. cbn [last].
    eapply wp_mono; [eapply (allocate_books p pr c auto s1 id (OutputMessage.new memory)); try done; cbn; apply lookup_insert_eq|].
    intros got s' _ [-> Ht]. split; [exact Ht|done].
  - repeat wp_step. rewrite Ef.
    destruct (last (i :: F)) as [id|] eqn:El; [|by apply last_None in El].
    assert (is_Some (store s !! id)) as [m Hm].
    { apply (inv_cover _ _ _ Hb). left. rewrite Ef. apply last_Some in El as [F' ->]. elems. tauto. }
    rewrite <- Ef. eapply wp_mono; [eapply allocate_books; try done; by rewrite Ef|]. by intros got s' _ [-> ?].
Qed.

End PoolLaws.
