(* ===== verification/PoolRun.v ===== *)
(** * The pool at work (the operations of [Pool], in any order)

    The remaining operations keep the books, and every run of the pool, the protocols
    and the connections keeps them. *)
From S2P Require Import Prelude Proc Bytes Definitions NetMessage OutMessage Proto Pool PoolLaws.

Module PoolRun.
Import OutputMessagePool PoolLaws.

(** ** A message is put back *)

Lemma remove_one_perm x l : x ∈ l -> l ≡ₚ x :: remove_one x l.
Proof.
  induction l as [|y l IH]; cbn; [by elems|]. case_decide as Hd; [by subst|].
  rewrite elem_of_cons. intros [->|Hin]; [done|]. rewrite (IH Hin) at 1. constructor.
Qed.

(** The books when [id], which waits for its release, becomes free. *)
Lemma inv_release (L : list nat) s id m p pr c n :
  inv [] L s -> id ∈ tasks s -> ~ (id ∈ L) -> store s !! id = Some m ->
  OutputMessage.m_protocol m = Some p -> OutputMessage.m_connection m = Some c ->
  protocols s !! p = Some pr -> connections s !! c = Some n ->
  inv [] L (setFree (fun q => q ++ [id]) (setMessages (insert id (OutputMessage.freeMessage m))
    (setConnections (insert c (u32 (n - 1))) (setProtocols (insert p (Protocol.unRef pr))
      (setTasks (remove_one id) s))))).
Proof.
  intros Hi Ht HL Hm Hmp Hmc Hp Hc.
  assert (free s ++ tasks s ≡ₚ (free s ++ [id]) ++ remove_one id (tasks s)) as Hperm.
  { rewrite <- app_assoc. cbn. by rewrite (remove_one_perm id (tasks s)) at 1. }
  assert (~ (id ∈ pointers s)) as Hnp.
  { intros Hin. apply (inv_apart _ _ _ Hi id); [elems; tauto|by rewrite app_nil_r]. }
  set (m' := OutputMessage.freeMessage m).
  destruct (inv_counts [] L s id m m' p pr (Protocol.unRef pr) c n (-1)) as [Cp Cc]; try done.
  { intros q. rewrite !one_protocol, Hmp. cbn. case_decide; lia. }
  { intros q. rewrite !one_connection, Hmc. cbn. case_decide; lia. }
  set (s' := setFree _ _).
  assert (forall i, i ∈ pointers s' <-> i ∈ pointers s) as Hptr.
  { intros i. unfold pointers. elems. cbn. by rewrite (buffers_same _ p pr). }
  destruct Hi as [H1 H2 H3 H4 H5 H6 H7]. split; try done.
  - cbn. by rewrite <- Hperm.
  - intros i. rewrite app_nil_r, Hptr. cbn. rewrite <- Hperm. rewrite <- (app_nil_r (pointers s)). apply H2.
  - intros i. rewrite app_nil_r, Hptr. cbn. rewrite <- Hperm, lookup_insert_is_Some', H3, app_nil_r.
    split; [|tauto]. intros [<-|?]; [|done]. left. elems. tauto.
  - intros i m0. cbn. rewrite lookup_insert. case_decide as Hd; [intros [= <-]; subst i|intros Hm0].
    + destruct (H4 id m Hm) as [A _ _ _]. split; cbn; try done.
      * intros []. elems. tauto.
      * rewrite (buffers_same _ p pr) by done. intros [?|Hb]; [done|]. destruct Hnp. elems. tauto.
    + destruct (H4 i m0 Hm0) as [A B C D]. split; cbn; try done.
      * rewrite elem_of_app, list_elem_of_singleton. intros [?|?]; [by apply B|congruence].
      * intros Hf. destruct C as (q & k & Hq & Hk & Iq & Ik); [by rewrite elem_of_app in Hf; tauto|].
        exists q, k. rewrite !lookup_insert_is_Some'. auto.
      * by rewrite (buffers_same _ p pr).
  - intros q qr Hqr. split.
    + by apply Cp.
    + cbn in *. intros k Hk. rewrite lookup_insert_is_Some'. right. rewrite lookup_insert in Hqr.
      case_decide; [injection Hqr as <-; by apply (H5 p pr Hp)|by apply (H5 q qr Hqr)].
    + cbn in *. intros i Hb.
      assert (i ∈ buffers (protocols s)) as Hin.
      { rewrite <- (buffers_same (protocols s) p pr (Protocol.unRef pr) i) by done. apply elem_of_buffers. eauto. }
      assert (id <> i) as Hne by (intros ->; destruct Hnp; elems; tauto).
      rewrite lookup_insert_ne by done. rewrite lookup_insert in Hqr.
      case_decide; [injection Hqr as <-; subst q; by apply (H5 p pr Hp)|by apply (H5 q qr Hqr)].
Qed.

Lemma internalReleaseMessage_books s id :
  books s -> id ∈ tasks s ->
  wp (internalReleaseMessage id) (fun _ s' out => books s' /\ id ∈ free s' /\ out = []) s.
Proof.
  intros Hb Ht.
  assert (~ (id ∈ pointers s)) as Hnp by (intros Hin; apply (inv_apart _ _ _ Hb id); [elems; tauto|by rewrite app_nil_r]).
  assert (is_Some (store s !! id)) as [m Hm] by (apply (inv_cover _ _ _ Hb); elems; tauto).
  assert (~ (id ∈ free s)) as Hf.
  { intros Hf. pose proof (inv_once _ _ _ Hb) as (_ & Hd & _)%NoDup_app. by apply (Hd id). }
  destruct (message_used _ _ _ _ (inv_messages _ _ _ Hb id m Hm) Hf) as (p & c & Hmp & Hmc & [pr Hp] & [n Hn]).
  unfold internalReleaseMessage. repeat wp_step. eapply wp_message; [done|]. rewrite Hmp, Hmc. wp_step.
  eapply wp_onProtocol; [done|]. wp_step. eapply wp_onConnection; [done|]. wp_step.
  eapply wp_onMessage; [done|]. wp_step.
  split; [|split; [cbn; elems; tauto|done]].
  apply (inv_release _ s id m p pr c n); try done.
  intros Hin. apply Hnp. elems. elems in Hin. tauto.
Qed.

(** ** A protocol's buffer *)

Lemma elem_of_option (o : option nat) i : i ∈ option_list o <-> o = Some i.
Proof. destruct o as [j|]; cbn; elems; naive_solver. Qed.

Lemma assignBuffer_books s p pr msg :
  books s -> protocols s !! p = Some pr ->
  (forall id, msg = Some id -> id ∈ held s /\ exists m, store s !! id = Some m /\
     OutputMessage.m_protocol m = Some p /\ unencoded m) ->
  wp (assignBuffer p msg) (fun _ s' _ => books s' /\ pool s' = pool s /\ held s' = held s /\
    protocols s' = <[p := Protocol.setOutputBuffer msg pr]> (protocols s)) s.
Proof.
  intros Hb Hp Hmsg. unfold assignBuffer. wp_step. eapply wp_protocol; [done|]. wp_step.
  eapply wp_onProtocol; [done|]. set (s1 := setProtocols _ s).
  assert (inv (option_list (Protocol.m_outputBuffer pr)) (m_autoSend (pool s) ++ m_addQueue (pool s)) s1) as Hi.
  { apply (inv_protocol [] _ _ s p pr); try done.
    - intros c. apply (protocol_connection _ _ _ (inv_protocols _ _ _ Hb p pr Hp)).
    - intros id Hid. by apply Hmsg.
    - intros i. elems. cbn. rewrite (buffers_insert _ p pr) by done. rewrite elem_of_buffers. cbn.
      assert (msg = Some i -> i ∈ held s) as Hh by (intros Hid; by apply Hmsg).
      rewrite elem_of_option. split.
      + intros [[?|[?|[?|[?|(q & qr & _ & ? & ?)]]]]|?]; eauto 10.
      + intros [[?|[?|[?|(q & qr & Hq & Hbq)]]]|?]; try tauto.
        destruct (decide (q = p)) as [->|Hne]; [right; congruence|eauto 12]. }
  destruct (Protocol.m_outputBuffer pr) as [old|]; cbn in Hi.
  - apply (inv_settle [] _ _ _ _ Hi); [apply not_elem_of_nil|].
    intros s' out Hi' Ep Epr Eh. unfold books. by rewrite Ep.
  - by wp_step.
Qed.

(** What a message got through the buffer is: the buffer of [p], held by the caller. *)
Definition buffer_of (p id : nat) (s : state) : Prop :=
  id ∈ held s /\ exists pr, protocols s !! p = Some pr /\ Protocol.m_outputBuffer pr = Some id.

(** The payload of the message in the buffer of [p]. *)
Definition buffer_payload (s : state) (p : nat) : option (list Z) :=
  pr ← protocols s !! p;
  id ← Protocol.m_outputBuffer pr;
  m ← store s !! id;
  Some (NetworkMessage.payload (OutputMessage.base m)).

Lemma refill_books memory s p pr :
  books s -> memory_ok memory -> protocols s !! p = Some pr ->
  wp (got ← getOutputMessage memory p true; _ ← assignBuffer p got; mret got)
    (fun got s' _ => books s' /\ bool_decide (is_Some got) = serves s pr /\
       match got with
       | Some id => buffer_of p id s' /\ buffer_payload s' p = Some []
       | None => protocols s' = <[p := Protocol.setOutputBuffer None pr]> (protocols s)
       end) s.
Proof.
  intros Hb Hmem Hp. wp_step. eapply wp_mono; [by eapply getOutputMessage_books|].
  intros [id|] s1 o1 [[Hb1 Ht] Hs]; wp_step.
  - destruct Ht as (_ & Hh & (m & Hm & Hu & Hz & Hmp & _) & Eq & Ea & Hpr).
    eapply wp_mono; [eapply (assignBuffer_books s1 p (Protocol.addRef pr)); [done|by apply Hpr|]|].
    { intros i [= <-]. eauto. }
    intros [] s2 o2 (Hb2 & Ep & Eh & Epr). wp_step. unfold buffer_of, buffer_payload.
    rewrite Ep, Eh, Epr, lookup_insert_eq. cbn. rewrite Hm. cbn. unfold NetworkMessage.payload. rewrite Hz.
    split_and!; try done. by eexists.
  - subst s1. eapply wp_mono; [by eapply assignBuffer_books|].
    intros [] s2 o2 (Hb2 & Ep & Eh & Epr). by wp_step.
Qed.

Lemma getOutputBuffer_books memory s p pr :
  books s -> memory_ok memory -> protocols s !! p = Some pr ->
  wp (getOutputBuffer memory p) (fun got s' _ => books s' /\ match got with Some id => buffer_of p id s' | None => True end) s.
Proof.
  intros Hb Hmem Hp. unfold getOutputBuffer. wp_step. eapply wp_protocol; [done|].
  destruct (Protocol.m_outputBuffer pr) as [id|] eqn:Eb.
  - assert (id ∈ pointers s) as Hin by (elems; rewrite elem_of_buffers; eauto 10).
    wp_step. unfold hold. wp_step. wp_step. split; [|split; [cbn; elems; tauto|by exists pr]].
    destruct (hold_books s id Hb Hin) as (a & s' & o & [= <- <- <-] & Hb'). exact Hb'.
  - destruct (Protocol.m_connection pr); [|by wp_step].
    eapply wp_mono; [by eapply refill_books|]. intros [id|] s' o; tauto.
Qed.

Lemma buffer_books s p pr id :
  books s -> protocols s !! p = Some pr -> Protocol.m_outputBuffer pr = Some id ->
  exists m, store s !! id = Some m /\ unencoded m /\ id ∈ pointers s.
Proof.
  intros Hb Hp Hbuf. assert (id ∈ buffers (protocols s)) as Hin by (apply elem_of_buffers; eauto).
  destruct (protocol_buffer _ _ _ (inv_protocols _ _ _ Hb p pr Hp) id Hbuf) as (m & Hm & _).
  exists m. split; [done|]. split; [|elems; tauto].
  apply (message_unencoded _ _ _ _ (inv_messages _ _ _ Hb id m Hm)). by right.
Qed.

(** The holder of an unencoded message writes in it. *)
Lemma fill_books s id m base' :
  books s -> store s !! id = Some m -> id ∈ pointers s -> unencoded m -> NetworkMessage.writing base' ->
  books (setMessages (insert id (OutputMessage.setBase base' m)) s).
Proof.
  intros Hb Hm Hin [_ Hst] Hw. apply (inv_message _ _ s id m); try done. apply Hw.
Qed.

Lemma append_books s p pr id m msg :
  books s -> protocols s !! p = Some pr -> Protocol.m_outputBuffer pr = Some id -> store s !! id = Some m ->
  NetworkMessage.writing msg ->
  wp (m ← message id;
      bytes ← lift (buf_read (NetworkMessage.m_buffer msg) NETWORK_CRYPTOHEADER_SIZE (NetworkMessage.m_size msg));
      base ← lift (NetworkMessage.putString bytes false (OutputMessage.base m));
      onMessage id (OutputMessage.setBase base))
    (fun _ s' _ => books s' /\ buffer_payload s' p = Some (
       let old := NetworkMessage.payload (OutputMessage.base m) in
       if NETWORK_CRYPTOHEADER_SIZE + zlen old + NetworkMessage.m_size msg <? NETWORK_BODY_SIZE
       then old ++ NetworkMessage.payload msg else old)) s.
Proof.
  intros Hb Hp Hbuf Hm Hw. destruct (buffer_books s p pr id Hb Hp Hbuf) as (m0 & Hm0 & [Hwm Hst] & Hin).
  rewrite Hm in Hm0. injection Hm0 as <-.
  pose proof (NetworkMessage.zlen_payload _ Hw) as Hlen. pose proof (NetworkMessage.zlen_payload _ Hwm) as Hlo.
  pose proof (NetworkMessage.payload_bytes _ Hw) as Hbytes.
  wp_step. eapply wp_message; [done|]. wp_step. eapply wp_lift; [by apply NetworkMessage.payload_read|]. wp_step.
  cbn zeta. rewrite Hlo. set (old := NetworkMessage.payload (OutputMessage.base m)) in *.
  pose proof (NetworkMessage.writing_position _ Hwm) as Hpos. pose proof (NetworkMessage.writing_position _ Hw) as Hpm.
  pose proof (NetworkMessage.writing_bound _ Hw) as Hbm. pose proof (zlen_nonneg old).
  assert (exists base', NetworkMessage.putString (NetworkMessage.payload msg) false (OutputMessage.base m) = Some base' /\
    NetworkMessage.writing base' /\ NetworkMessage.payload base' =
      if NETWORK_CRYPTOHEADER_SIZE + NetworkMessage.m_size (OutputMessage.base m) + NetworkMessage.m_size msg <? NETWORK_BODY_SIZE
      then old ++ NetworkMessage.payload msg else old) as (base' & Hput & Hw' & Hpl).
  { destruct (Z.ltb_spec (NETWORK_CRYPTOHEADER_SIZE + NetworkMessage.m_size (OutputMessage.base m) + NetworkMessage.m_size msg) NETWORK_BODY_SIZE) as [Hlt|Hge].
    - destruct (NetworkMessage.putString_fits (NetworkMessage.payload msg) false (OutputMessage.base m)) as (b & E & Hwb & Hplb & _); [done..| |eauto].
      unfold NetworkMessage.string_fits. NetworkMessage.consts. lia.
    - exists (OutputMessage.base m). split; [|done]. apply NetworkMessage.putString_dropped; [done| |NetworkMessage.consts; lia].
      unfold NetworkMessage.string_fits. NetworkMessage.consts. lia. }
  eapply wp_lift; [exact Hput|]. eapply wp_onMessage; [done|]. split; [by apply fill_books|].
  unfold buffer_payload. cbn. rewrite Hp. cbn. rewrite Hbuf. cbn. rewrite lookup_insert_eq. cbn. by rewrite Hpl.
Qed.

(** A fresh message for the buffer, and the payload in it. *)
Lemma refill_append memory p msg s pr :
  books s -> memory_ok memory -> NetworkMessage.writing msg -> protocols s !! p = Some pr ->
  wp (_ ← (got ← getOutputMessage memory p true; _ ← assignBuffer p got;
           match got with Some id => drop_pointer id | None => skip end);
      pr ← protocol p;
      match Protocol.m_outputBuffer pr with
      | None => skip
      | Some buffer =>
          m ← message buffer;
          bytes ← lift (buf_read (NetworkMessage.m_buffer msg) NETWORK_CRYPTOHEADER_SIZE (NetworkMessage.m_size msg));
          base ← lift (NetworkMessage.putString bytes false (OutputMessage.base m));
          onMessage buffer (OutputMessage.setBase base)
      end)
    (fun _ s' _ => books s' /\
       buffer_payload s' p = if serves s pr then Some (NetworkMessage.payload msg) else None) s.
Proof.
  intros Hb Hmem Hw Hp. destruct (refill_books memory s p pr Hb Hmem Hp) as (got & s1 & o1 & E & Hb1 & <- & H1).
  apply bind_inv in E as (got' & s2 & o2 & o3 & E1 & E2 & ->).
  apply bind_inv in E2 as ([] & s3 & o4 & o5 & E2 & E3 & ->). injection E3 as -> -> <-.
  wp_step. wp_step. exists got, s2, o2. split; [done|]. wp_step. exists tt, s1, o4. split; [done|].
  destruct got as [id|]; cbn [is_Some].
  - destruct H1 as [[Hh (pr1 & Hp1 & Hbuf)] Hpl]. eapply wp_mono; [by apply drop_pointer_books|].
    intros [] s4 o6 (Hb4 & Ep & Epr). rewrite <- Epr in Hp1.
    wp_step. eapply wp_protocol; [done|]. rewrite Hbuf.
    destruct (buffer_books s4 p pr1 id Hb4 Hp1 Hbuf) as (m & Hm & _).
    eapply wp_mono; [by apply (append_books s4 p pr1 id m msg)|]. intros [] s' out [Hb' Hpl']. split; [done|].
    unfold buffer_payload in Hpl. rewrite <- Epr, <- Ep, Hp1 in Hpl. cbn in Hpl. rewrite Hbuf in Hpl. cbn in Hpl.
    rewrite Hm in Hpl. cbn in Hpl. injection Hpl as Hpl. rewrite Hpl in Hpl'. rewrite Hpl'. cbn zeta.
    rewrite zlen_nil, Z.add_0_r. pose proof (NetworkMessage.writing_position _ Hw). pose proof (NetworkMessage.writing_bound _ Hw).
    by rewrite (proj2 (Z.ltb_lt _ _)) by lia.
  - wp_step. wp_step. eapply wp_protocol; [by rewrite H1, lookup_insert_eq|]. cbn. wp_step. split; [done|].
    unfold buffer_payload. by rewrite H1, lookup_insert_eq.
Qed.

(** The payload in the buffer after [msg] is written, from the one before. *)
Definition written (s : state) (pr : Protocol.t) (msg : NetworkMessage.t) (before : option (list Z)) : option (list Z) :=
  let fresh := if serves s pr then Some (NetworkMessage.payload msg) else None in
  match before with
  | Some old =>
      let used := NETWORK_CRYPTOHEADER_SIZE + zlen old + NetworkMessage.m_size msg in
      if used <? NETWORK_BODY_SIZE then Some (old ++ NetworkMessage.payload msg)
      else if used <=? NETWORK_MAX_SIZE then Some old
      else fresh
  | None => fresh
  end.

Lemma wp_writeOutputBuffer memory p msg s pr :
  books s -> memory_ok memory -> NetworkMessage.writing msg -> protocols s !! p = Some pr ->
  wp (writeOutputBuffer memory p msg)
    (fun _ s' _ => books s' /\ buffer_payload s' p = written s pr msg (buffer_payload s p)) s.
Proof.
  intros Hb Hmem Hw Hp.
  unfold writeOutputBuffer. wp_step. eapply wp_protocol; [done|].
  destruct (Protocol.m_outputBuffer pr) as [id|] eqn:Ebuf.
  - destruct (buffer_books s p pr id Hb Hp Ebuf) as (m & Hm & [Hwm _] & _).
    assert (buffer_payload s p = Some (NetworkMessage.payload (OutputMessage.base m))) as ->.
    { unfold buffer_payload. rewrite Hp. cbn. rewrite Ebuf. cbn. by rewrite Hm. }
    pose proof (NetworkMessage.zlen_payload _ Hwm) as Hl. pose proof (NetworkMessage.writing_position _ Hwm) as Hpos.
    rewrite bool_decide_eq_false_2 by done. cbn [andb]. repeat wp_step. eapply wp_message; [done|]. wp_step.
    unfold written. cbn zeta. rewrite Hl, Hpos, (Z.add_comm (NetworkMessage.m_size (OutputMessage.base m))).
    set (u := _ + NetworkMessage.m_size msg). destruct (Z.ltb_spec NETWORK_MAX_SIZE u) as [Hfull|Hroom].
    + rewrite (proj2 (Z.ltb_ge u _)), (proj2 (Z.leb_gt u _)) by (NetworkMessage.consts; lia).
      by apply refill_append.
    + wp_step. wp_step. wp_step. eapply wp_protocol; [done|]. rewrite Ebuf.
      eapply wp_mono; [by apply (append_books s p pr id m msg)|]. intros [] s' out [Hb' Hpl]. split; [done|].
      rewrite Hpl. cbn zeta. rewrite Hl. fold u. destruct (u <? NETWORK_BODY_SIZE); [done|].
      by rewrite (proj2 (Z.leb_le u _)).
  - assert (buffer_payload s p = None) as Hnone by (unfold buffer_payload; rewrite Hp; cbn; by rewrite Ebuf).
    rewrite Hnone. destruct (Protocol.m_connection pr) as [c|] eqn:Ec; cbn [andb].
    + rewrite (bool_decide_eq_false_2 (Some c = None)), andb_false_r by done. wp_step. wp_step.
      by apply refill_append.
    + rewrite (bool_decide_eq_true_2 (@None nat = None)) by done. cbn [andb]. wp_step. split; [done|]. rewrite Hnone. unfold written, serves. rewrite Ec.
      by rewrite andb_false_r.
Qed.

(** ** Protocols and connections that come and go *)

Definition few_messages (s : state) : Prop := Z.of_nat (size (store s)) < 2 ^ 32.

(** A count of zero is a true one, as long as the counter has not gone round. *)
Lemma count_zero P `{!forall m, Decision (P m)} s :
  few_messages s -> u32 (count P (store s)) = 0 -> forall id m, store s !! id = Some m -> ~ P m.
Proof.
  intros Hs Hz. pose proof (count_bound P (store s)). apply (count_none P). unfold few_messages in Hs.
  rewrite wrapu_small in Hz by lia. done.
Qed.

Lemma count_absent P `{!forall m, Decision (P m)} (ms : gmap nat OutputMessage.t) :
  (forall id m, ms !! id = Some m -> ~ P m) -> count P ms = 0.
Proof.
  intros Hn. unfold count. destruct (filter _ (map_to_list ms)) as [|[id m] l] eqn:E; [done|]. exfalso.
  assert ((id, m) ∈ filter (fun kv : nat * OutputMessage.t => P kv.2) (map_to_list ms)) as Hin.
  { rewrite E. apply list_elem_of_here. }
  apply list_elem_of_filter in Hin as [HP Hin%elem_of_map_to_list]. by apply (Hn id m).
Qed.

(** A message names only what is there. *)
Lemma message_names s id m :
  books s -> store s !! id = Some m ->
  (forall p, OutputMessage.m_protocol m = Some p -> is_Some (protocols s !! p)) /\
  (forall c, OutputMessage.m_connection m = Some c -> is_Some (connections s !! c)).
Proof.
  intros Hb Hm. destruct (inv_messages _ _ _ Hb id m Hm) as [_ B C _]. destruct (decide (id ∈ free s)) as [Hf|Hf].
  - destruct (B Hf) as (-> & -> & _). done.
  - destruct (C Hf) as (q & k & -> & -> & Iq & Ik). split; by intros ? [= <-].
Qed.

(** The rest stays when a protocol or a connection that nothing names goes. *)
Lemma delete_protocol_books s p :
  books s -> (forall id m, store s !! id = Some m -> OutputMessage.m_protocol m <> Some p) ->
  books (setProtocols (delete p) s).
Proof.
  intros [H1 H2 H3 H4 H5 H6 H7] Hno.
  assert (forall i, i ∈ buffers (delete p (protocols s)) <-> i ∈ buffers (protocols s)) as Hbuf.
  { intros i. rewrite !elem_of_buffers. split.
    - intros (q & qr & [? ?]%lookup_delete_Some & ?). eauto.
    - intros (q & qr & Hq & Hbq). exists q, qr. split; [|done]. apply lookup_delete_Some. split; [|done].
      intros ->. destruct (protocol_buffer _ _ _ (H5 q qr Hq) i Hbq) as (m & Hm & Hmp). by apply (Hno i m). }
  assert (forall i, i ∈ pointers (setProtocols (delete p) s) <-> i ∈ pointers s) as Hptr.
  { intros i. elems. cbn. by rewrite Hbuf. }
  split; cbn; try done.
  - intros i. rewrite app_nil_r, Hptr. rewrite <- (app_nil_r (pointers s)). apply H2.
  - intros i. by rewrite app_nil_r, Hptr, H3, app_nil_r.
  - intros i m Hm. destruct (H4 i m Hm) as [A B C D]. split; cbn; try done; [|by rewrite Hbuf].
    intros Hf. destruct (C Hf) as (q & c & Hq & Hc & Iq & Ic). exists q, c. split_and!; try done.
    rewrite lookup_delete_ne; [done|]. intros ->. by apply (Hno i m).
  - intros q qr [? Hq]%lookup_delete_Some. by destruct (H5 q qr Hq).
Qed.

Lemma delete_connection_books s c :
  books s -> (forall id m, store s !! id = Some m -> OutputMessage.m_connection m <> Some c) ->
  (forall p pr, protocols s !! p = Some pr -> Protocol.m_connection pr <> Some c) ->
  books (setConnections (delete c) s).
Proof.
  intros [H1 H2 H3 H4 H5 H6 H7] Hno Hnp. split; cbn; try done.
  - intros i m Hm. destruct (H4 i m Hm) as [A B C D]. split; cbn; try done.
    intros Hf. destruct (C Hf) as (q & k & Hq & Hk & Iq & Ik). exists q, k. split_and!; try done.
    rewrite lookup_delete_ne; [done|]. intros ->. by apply (Hno i m).
  - intros q qr Hq. destruct (H5 q qr Hq) as [A B C]. split; cbn; try done.
    intros k Hk. rewrite lookup_delete_ne; [by apply B|]. intros ->. by apply (Hnp q qr).
  - intros k n [? Hk]%lookup_delete_Some. by apply H6.
Qed.

Lemma new_connection_books s c :
  books s -> connections s !! c = None -> books (setConnections (insert c 0) s).
Proof.
  intros Hb Hn. pose proof Hb as [H1 H2 H3 H4 H5 H6 H7].
  assert (forall k, is_Some (connections s !! k) -> is_Some (<[c := 0]> (connections s) !! k)) as Hk.
  { intros k Hk. rewrite lookup_insert_is_Some'. auto. }
  split; cbn; try done.
  - intros i m Hm. destruct (H4 i m Hm) as [A B C D]. split; cbn; try done. intros Hf. naive_solver.
  - intros q qr Hq. destruct (H5 q qr Hq) as [A B C]. split; cbn; try done. auto.
  - intros k n. rewrite lookup_insert. case_decide as Hd; [intros [= <-]; subst k|apply H6].
    rewrite count_absent; [done|]. intros i m Hm Hof. destruct (message_names s i m Hb Hm) as [_ Hnames].
    destruct (Hnames c Hof) as [? ?]. congruence.
Qed.

(** A protocol that no message names yet. *)
Lemma insert_protocol_books s p pr :
  books s -> protocols s !! p = None -> Protocol.m_refCount pr = 0 -> Protocol.m_outputBuffer pr = None ->
  (forall c, Protocol.m_connection pr = Some c -> is_Some (connections s !! c)) ->
  books (setProtocols (insert p pr) s).
Proof.
  intros Hb Hn Hr Ho Hc. pose proof Hb as [H1 H2 H3 H4 H5 H6 H7].
  assert (forall i, i ∈ buffers (<[p := pr]> (protocols s)) <-> i ∈ buffers (protocols s)) as Hbuf.
  { intros i. rewrite !elem_of_buffers. split; intros (q & qr & Hq & Hbq).
    - rewrite lookup_insert in Hq. case_decide; [injection Hq as <-; congruence|eauto].
    - exists q, qr. rewrite lookup_insert_ne; [done|]. intros ->. congruence. }
  assert (forall i, i ∈ pointers (setProtocols (insert p pr) s) <-> i ∈ pointers s) as Hptr.
  { intros i. elems. cbn. by rewrite Hbuf. }
  split; cbn; try done.
  - intros i. rewrite app_nil_r, Hptr. rewrite <- (app_nil_r (pointers s)). apply H2.
  - intros i. by rewrite app_nil_r, Hptr, H3, app_nil_r.
  - intros i m Hm. destruct (H4 i m Hm) as [A B C D]. split; cbn; try done; [|by rewrite Hbuf].
    intros Hf. destruct (C Hf) as (q & k & Hq & Hk & Iq & Ik). exists q, k. split_and!; try done.
    rewrite lookup_insert_is_Some'. auto.
  - intros q qr. rewrite lookup_insert. case_decide as Hd; [intros [= <-]; subst q|intros Hq; by destruct (H5 q qr Hq)].
    split; cbn; [|done|congruence]. rewrite Hr.
    rewrite count_absent; [done|]. intros i m Hm Hof. destruct (message_names s i m Hb Hm) as [Hnames _].
    destruct (Hnames p Hof) as [? ?]. congruence.
Qed.

(** [releaseProtocol] deletes the object when no message names it, and only then. *)
Lemma releaseProtocol_books s p pr :
  books s -> few_messages s -> protocols s !! p = Some pr ->
  wp (releaseProtocol p) (fun _ s' out => books s' /\
    (((forall id m, store s !! id = Some m -> OutputMessage.m_protocol m <> Some p) /\
       protocols s' = delete p (protocols s) /\ out = [Delete_protocol p]) \/
     ((exists id m, store s !! id = Some m /\ OutputMessage.m_protocol m = Some p) /\
       s' = s /\ out = [Reschedule_releaseProtocol p]))) s.
Proof.
  intros Hb Hs Hp. pose proof (protocol_refs _ _ _ (inv_protocols _ _ _ Hb p pr Hp)) as Hr.
  unfold releaseProtocol. wp_step. eapply wp_protocol; [done|]. unfold Protocol.releaseProtocol.
  destruct (Z.ltb_spec 0 (Protocol.m_refCount pr)) as [Hpos|Hz].
  - wp_step. split; [done|]. right. split; [|done].
    destruct (decide (Exists (fun kv : nat * OutputMessage.t => of_protocol p kv.2) (map_to_list (store s)))) as [He|He].
    + apply Exists_exists in He as ([id m] & Hin%elem_of_map_to_list & Hof). eauto.
    + rewrite count_absent in Hr; [change (u32 0) with 0 in Hr; lia|]. intros id m Hm Hof. apply He, Exists_exists. exists (id, m).
      by rewrite elem_of_map_to_list.
  - assert (u32 (count (of_protocol p) (store s)) = 0) as Hz0.
    { pose proof (wrapu_range 32 (count (of_protocol p) (store s))). lia. }
    pose proof (count_zero _ s Hs Hz0) as Hno. pose proof (delete_protocol_books s p Hb Hno) as Hb'.
    wp_step. wp_step. destruct (Protocol.m_outputBuffer pr) as [id|] eqn:Ebuf.
    + destruct (protocol_buffer _ _ _ (inv_protocols _ _ _ Hb p pr Hp) id Ebuf) as (m & Hm & Hmp).
      exfalso. by apply (Hno id m).
    + wp_step. wp_step. wp_step. split; [done|]. left. by split_and!.
Qed.

(** ** Runs *)

(** What happens to the pool: connections and protocols come and go, messages are
    taken, written and sent, pointers copied and dropped, and the dispatcher runs the
    release tasks. *)
Inductive op :=
| NewConnection (c : nat)
| FreeConnection (c : nat)
| NewProtocol (p c : nat)
| Configure (p : nat) (f : Protocol.t -> Protocol.t)
| CloseProtocol (p : nat)
| ReleaseProtocol (p : nat)
| Take (memory : list Z) (p : nat) (autoSend : bool)
| TakeBuffer (memory : list Z) (p : nat)
| WriteBuffer (memory : list Z) (p : nat) (msg : NetworkMessage.t)
| Fill (id : nat) (base : NetworkMessage.t)
| Copy (id : nat)
| Drop (id : nat)
| Send (how : nat -> nat -> sending) (id : nat)
| SendAll (how : nat -> nat -> sending)
| Released (id : nat)
| Frame (now : Z)
| Shutdown.

Definition run (o : op) : M unit :=
  match o with
  | NewConnection c => modify (setConnections (insert c 0))
  | FreeConnection c => modify (setConnections (delete c))
  | NewProtocol p c => modify (setProtocols (insert p (Protocol.new (Some c))))
  | Configure p f => onProtocol p f
  | CloseProtocol p => onProtocol p (Protocol.setConnection None)
  | ReleaseProtocol p => releaseProtocol p
  | Take memory p auto => _ ← getOutputMessage memory p auto; skip
  | TakeBuffer memory p => _ ← getOutputBuffer memory p; skip
  | WriteBuffer memory p msg => writeOutputBuffer memory p msg
  | Fill id base => onMessage id (OutputMessage.setBase base)
  | Copy id => hold id
  | Drop id => drop_pointer id
  | Send how id => send how id
  | SendAll how => sendAll how
  | Released id => internalReleaseMessage id
  | Frame now => startExecutionFrame now
  | Shutdown => stop
  end.

(** What the callers owe: objects that exist, the messages they hold, written within
    bounds and sent once, and a connection freed as [Connection::releaseConnection]
    does, with no references and after its protocol has let it go. *)
Definition allowed (o : op) (s : state) : Prop :=
  match o with
  | NewConnection c => connections s !! c = None
  | FreeConnection c => few_messages s /\ connections s !! c = Some 0 /\
      forall p pr, protocols s !! p = Some pr -> Protocol.m_connection pr <> Some c
  | NewProtocol p c => protocols s !! p = None /\ is_Some (connections s !! c)
  | Configure p f => exists pr, protocols s !! p = Some pr /\
      Protocol.m_refCount (f pr) = Protocol.m_refCount pr /\
      Protocol.m_connection (f pr) = Protocol.m_connection pr /\
      Protocol.m_outputBuffer (f pr) = Protocol.m_outputBuffer pr
  | CloseProtocol p => is_Some (protocols s !! p)
  | ReleaseProtocol p => is_Some (protocols s !! p) /\ few_messages s
  | Take memory p _ | TakeBuffer memory p => memory_ok memory /\ is_Some (protocols s !! p)
  | WriteBuffer memory p msg => memory_ok memory /\ is_Some (protocols s !! p) /\ NetworkMessage.writing msg
  | Fill id base => NetworkMessage.writing base /\ id ∈ held s /\ exists m, store s !! id = Some m /\ unencoded m
  | Copy id => id ∈ held s
  | Drop id => id ∈ held s
  | Send how id => id ∈ held s /\ ~ (id ∈ m_autoSend (pool s) ++ m_addQueue (pool s)) /\
      exists m, store s !! id = Some m /\ unencoded m
  | SendAll how => True
  | Released id => id ∈ tasks s
  | Frame _ | Shutdown => True
  end.

Lemma update_protocol_books s p pr pr' :
  books s -> protocols s !! p = Some pr -> Protocol.m_refCount pr' = Protocol.m_refCount pr ->
  (forall c, Protocol.m_connection pr' = Some c -> is_Some (connections s !! c)) ->
  Protocol.m_outputBuffer pr' = Protocol.m_outputBuffer pr ->
  books (setProtocols (insert p pr') s).
Proof.
  intros Hb Hp Hr Hc Hbuf. apply (inv_protocol [] [] _ s p pr pr'); try done.
  - intros id Hid. rewrite Hbuf in Hid. destruct (buffer_books s p pr id Hb Hp Hid) as (m & Hm & Hu & _).
    destruct (protocol_buffer _ _ _ (inv_protocols _ _ _ Hb p pr Hp) id Hid) as (m0 & Hm0 & Hmp). exists m. split_and!; congruence.
  - intros i. elems. cbn. by rewrite (buffers_same _ p pr).
Qed.

Lemma configure_books s p pr pr' :
  books s -> protocols s !! p = Some pr -> Protocol.m_refCount pr' = Protocol.m_refCount pr ->
  (Protocol.m_connection pr' = Protocol.m_connection pr \/ Protocol.m_connection pr' = None) ->
  Protocol.m_outputBuffer pr' = Protocol.m_outputBuffer pr ->
  books (setProtocols (insert p pr') s).
Proof.
  intros Hb Hp Hr Hc Hbuf. apply (update_protocol_books s p pr pr'); try done.
  intros c Hc'. apply (protocol_connection _ _ _ (inv_protocols _ _ _ Hb p pr Hp)). destruct Hc; congruence.
Qed.

Lemma pool_books s f :
  books s -> (forall q, messages (f q) = messages q /\ m_outputMessages (f q) = m_outputMessages q /\
    m_autoSend (f q) = m_autoSend q /\ m_addQueue (f q) = m_addQueue q) ->
  books (setPool f s).
Proof.
  intros Hb Hf. destruct (Hf (pool s)) as (E1 & E2 & E3 & E4). unfold books. cbn. rewrite E3, E4.
  eapply inv_pointers; [exact Hb|done..| |by apply Hb|by left].
  intros i. elems. cbn. by rewrite E3, E4.
Qed.

Lemma run_books o s : books s -> allowed o s -> wp (run o) (fun _ s' _ => books s') s.
Proof.
  intros Hb. destruct o; cbn [allowed run].
  - intros Hc. wp_step. by apply new_connection_books.
  - intros (Hs & Hc & Hnp). wp_step. apply delete_connection_books; try done.
    apply (count_zero _ s Hs). symmetry. by apply (inv_connections _ _ _ Hb).
  - intros [Hp Hc]. wp_step. apply insert_protocol_books; try done. by intros k [= <-].
  - intros (pr & Hp & Hr & Hc & Hbuf). eapply wp_onProtocol; [done|]. apply (configure_books s p pr); auto.
  - intros [pr Hp]. eapply wp_onProtocol; [done|]. apply (configure_books s p pr); auto.
  - intros [[pr Hp] Hs]. eapply wp_mono; [by eapply releaseProtocol_books|]. by intros [] s' out [? _].
  - intros [Hm [pr Hp]]. wp_step. eapply wp_mono; [by eapply getOutputMessage_books|].
    intros got s' out [[Hb' _] _]. by wp_step.
  - intros [Hm [pr Hp]]. wp_step. eapply wp_mono; [by eapply getOutputBuffer_books|].
    intros got s' out [Hb' _]. by wp_step.
  - intros (Hm & [pr Hp] & Hw). eapply wp_mono; [by eapply wp_writeOutputBuffer|]. by intros [] s' out [? _].
  - intros (Hw & Hh & m & Hm & Hu). eapply wp_onMessage; [done|]. apply fill_books; try done. elems. tauto.
  - intros Hh. apply hold_books; [done|]. elems. tauto.
  - intros Hh. eapply wp_mono; [by apply drop_pointer_books|]. by intros [] s' out [? _].
  - intros (Hh & Hq & m & Hm & Hu). by eapply send_books.
  - intros _. by apply sendAll_books.
  - intros Ht. eapply wp_mono; [by apply internalReleaseMessage_books|]. by intros [] s' out [? _].
  - intros _. unfold startExecutionFrame. wp_step. by apply pool_books.
  - intros _. unfold stop. wp_step. by apply pool_books.
Qed.

(** The pool as made, before any connection. *)
Definition start (memory : list Z) (now : Z) (shutdown : bool) : state :=
  mkState (new memory now shutdown) ∅ ∅ [] [].

Inductive reachable (memory : list Z) : state -> Prop :=
| reach_start now shutdown : reachable memory (start memory now shutdown)
| reach_run s o s' out : reachable memory s -> allowed o s -> run o s = Some (tt, s', out) -> reachable memory s'.

Lemma start_store memory now shutdown id :
  store (start memory now shutdown) !! id =
    if decide (id < Z.to_nat OUTPUT_POOL_SIZE)%nat then Some (OutputMessage.new memory) else None.
Proof.
  cbn. generalize (Z.to_nat OUTPUT_POOL_SIZE) as k. intros k.
  case_decide as Hd.
  - apply elem_of_list_to_map; [|apply list_elem_of_fmap; exists id; split; [done|apply elem_of_seq; lia]].
    rewrite <- list_fmap_compose. change (fst ∘ _) with (fun i : nat => i). rewrite list_fmap_id. apply NoDup_seq.
  - apply not_elem_of_list_to_map. rewrite <- list_fmap_compose. change (fst ∘ _) with (fun i : nat => i).
    rewrite list_fmap_id, elem_of_seq. lia.
Qed.

Lemma start_books memory now shutdown : memory_ok memory -> books (start memory now shutdown).
Proof.
  intros [Hl Hb]. pose proof (start_store memory now shutdown) as Hst.
  assert (forall id, id ∈ free (start memory now shutdown) <-> (id < Z.to_nat OUTPUT_POOL_SIZE)%nat) as Hf.
  { intros id. unfold start, new. cbn [pool m_outputMessages]. rewrite elem_of_seq. lia. }
  assert (NoDup (free (start memory now shutdown))) as Hnd by apply NoDup_seq.
  assert (pointers (start memory now shutdown) = [] /\ tasks (start memory now shutdown) = []) as [Hp Ht] by done.
  assert (protocols (start memory now shutdown) = ∅ /\ connections (start memory now shutdown) = ∅) as [Epr Ec] by done.
  assert (m_autoSend (pool (start memory now shutdown)) = [] /\ m_addQueue (pool (start memory now shutdown)) = []) as [Ea Eq] by done.
  unfold books. rewrite Ea, Eq. generalize dependent (start memory now shutdown). intros s Hst Hf Hnd Hp Ht Epr Ec Ea Eq.
  split; rewrite ?Hp, ?Ht, ?Epr, ?Ec, ?app_nil_r.
  - done.
  - intros id _. apply not_elem_of_nil.
  - intros id. rewrite Hst, Hf, elem_of_nil. case_decide; [|by split; [intros [? ?]|tauto]].
    split; [tauto|by eexists].
  - intros id m. rewrite Hst. case_decide as Hd; [|done]. intros [= <-]. apply Hf in Hd.
    assert (NetworkMessage.writing (OutputMessage.base (OutputMessage.new memory))) as Hw by (by apply NetworkMessage.new_writing).
    split; [apply Hw|done|done|done].
  - done.
  - done.
  - apply NoDup_nil_2.
Qed.

Lemma reachable_books memory s : memory_ok memory -> reachable memory s -> books s.
Proof.
  intros Hm. induction 1 as [|s o s' out Hr IH Ha E]; [by apply start_books|].
  destruct (run_books o s IH Ha) as ([] & s1 & o1 & E1 & Hb). congruence.
Qed.

(** ** Examples *)

Definition after (o : op) (s : state) : state :=
  match run o s with Some (_, s', _) => s' | None => s end.

Lemma reach_after memory s o :
  memory_ok memory -> reachable memory s -> allowed o s -> reachable memory (after o s).
Proof.
  intros Hm Hr Ha. destruct (run_books o s (reachable_books memory s Hm Hr) Ha) as ([] & s' & out & E & _).
  unfold after. rewrite E. by eapply reach_run.
Qed.

Definition example_memory : list Z := replicate (Z.to_nat NETWORK_MAX_SIZE) 0.

Lemma example_memory_ok : memory_ok example_memory.
Proof. split; [vm_compute; reflexivity|]. apply Forall_forall. intros x [-> _]%elem_of_replicate. done. Qed.

(** A client's connection and its protocol, which has a message in its buffer and
    another one in hand. *)
Definition example_client : state :=
  after (NewProtocol 3 7) (after (NewConnection 7) (start example_memory 20000 false)).
Definition example_buffer : state := after (TakeBuffer example_memory 3) example_client.
Definition example : state := after (Take example_memory 3 false) example_buffer.
Definition example_protocol : Protocol.t := Protocol.mk (Some 99%nat) (Some 7%nat) 2 false false false [0; 0; 0; 0].

Lemma example_client_reachable : reachable example_memory example_client.
Proof.
  unfold example_client. apply reach_after; [exact example_memory_ok|apply reach_after; [exact example_memory_ok|apply reach_start|done]|].
  split; [vm_compute; reflexivity|]. by exists 0.
Qed.

Lemma example_buffer_reachable : reachable example_memory example_buffer.
Proof.
  unfold example_buffer. apply reach_after; [exact example_memory_ok|exact example_client_reachable|].
  split; [exact example_memory_ok|]. eexists. vm_compute. reflexivity.
Qed.

Lemma example_protocols : protocols example !! 3%nat = Some example_protocol.
Proof. vm_compute. reflexivity. Qed.

Lemma example_reachable : reachable example_memory example.
Proof.
  unfold example. apply reach_after; [exact example_memory_ok|exact example_buffer_reachable|].
  split; [exact example_memory_ok|]. eexists. vm_compute. reflexivity.
Qed.

(** ** Properties *)

(** The references are those of the messages in use.  In every run, a message that is
    not free names a protocol that is not deleted and a connection that is not freed, and
    the reference count of every protocol and of every connection is the number of
    messages that name it, modulo 2^32. *)
Lemma references_counted memory s :
  memory_ok memory -> reachable memory s ->
  (forall id m, messages (pool s) !! id = Some m -> ~ (id ∈ m_outputMessages (pool s)) ->
     exists p c, OutputMessage.m_protocol m = Some p /\ OutputMessage.m_connection m = Some c /\
       is_Some (protocols s !! p) /\ is_Some (connections s !! c)) /\
  (forall p pr, protocols s !! p = Some pr ->
     Protocol.m_refCount pr = u32 (count (of_protocol p) (messages (pool s)))) /\
  (forall c n, connections s !! c = Some n -> n = u32 (count (of_connection c) (messages (pool s)))).
Proof.
  intros Hm Hr. pose proof (reachable_books memory s Hm Hr) as Hb. split_and!.
  - intros id m Hid Hf. by eapply message_used, Hf; apply Hb.
  - intros p pr Hp. by apply (inv_protocols _ _ _ Hb).
  - by apply (inv_connections _ _ _ Hb).
Qed.

(** C26: no message is lost or in two places.  In every run, each message the pool ever
    made is in exactly one of three places: on the free list, in a release task of the
    dispatcher, or pointed at by a queue, a protocol's buffer or somebody else; and none
    is on the free list or in the tasks twice.  A message that is not free names a protocol
    that is not deleted and a connection that is not freed, and the reference count of
    every protocol and of every connection is the number of messages that name it, modulo
    2^32. *)
Theorem messages_accounted memory s :
  memory_ok memory -> reachable memory s ->
  (NoDup (m_outputMessages (pool s) ++ tasks s) /\
   (forall id, id ∈ m_outputMessages (pool s) ++ tasks s -> ~ (id ∈ pointers s)) /\
   (forall id, is_Some (messages (pool s) !! id) <->
      id ∈ m_outputMessages (pool s) ++ tasks s \/ id ∈ pointers s)) /\
  (forall id m, messages (pool s) !! id = Some m -> ~ (id ∈ m_outputMessages (pool s)) ->
     exists p c, OutputMessage.m_protocol m = Some p /\ OutputMessage.m_connection m = Some c /\
       is_Some (protocols s !! p) /\ is_Some (connections s !! c)) /\
  (forall p pr, protocols s !! p = Some pr ->
     Protocol.m_refCount pr = u32 (count (of_protocol p) (messages (pool s)))) /\
  (forall c n, connections s !! c = Some n -> n = u32 (count (of_connection c) (messages (pool s)))).
Proof.
  intros Hm Hr. split; [|by apply (references_counted memory)].
  pose proof (reachable_books memory s Hm Hr) as [H1 H2 H3 _ _ _ _].
  rewrite app_nil_r in H2, H3. by split_and!.
Qed.

(** The pool never gets stuck.  In every run, whatever operation the callers are
    allowed next, and whatever the connections do with the messages they are sent, it
    ends without dereferencing a deleted protocol, failing an assertion or touching a
    byte outside a message. *)
Theorem pool_never_stuck memory s o :
  memory_ok memory -> reachable memory s -> allowed o s ->
  exists s' out, run o s = Some (tt, s', out).
Proof.
  intros Hm Hr Ha. destruct (run_books o s (reachable_books memory s Hm Hr) Ha) as ([] & s' & out & E & _). eauto.
Qed.

(** A protocol is deleted only when no message names it.  In every run (with fewer
    than 2^32 messages), [releaseProtocol] deletes the object when no message names it,
    and otherwise asks to be run again and changes nothing. *)
Theorem protocol_deleted_unused memory s p pr :
  memory_ok memory -> reachable memory s -> few_messages s -> protocols s !! p = Some pr ->
  exists s' out, releaseProtocol p s = Some (tt, s', out) /\
    (((forall id m, messages (pool s) !! id = Some m -> OutputMessage.m_protocol m <> Some p) /\
       protocols s' = delete p (protocols s) /\ out = [Delete_protocol p]) \/
     ((exists id m, messages (pool s) !! id = Some m /\ OutputMessage.m_protocol m = Some p) /\
       s' = s /\ out = [Reschedule_releaseProtocol p])).
Proof.
  intros Hm Hr Hs Hp. destruct (releaseProtocol_books s p pr (reachable_books memory s Hm Hr) Hs Hp)
    as ([] & s' & out & E & _ & H). eauto.
Qed.

(** What is written through the buffer.  [writeOutputBuffer] appends the payload to
    the message in the protocol's buffer, or to a fresh one when there is none or when
    the two together exceed the network message; with no message to be had, nothing is
    kept.  The guards of the buffer and of [putString] differ: a payload that fits the
    network message, but not its body, is dropped. *)
Theorem writeOutputBuffer_appends memory p msg s pr :
  books s -> memory_ok memory -> NetworkMessage.writing msg -> protocols s !! p = Some pr ->
  exists s' out, writeOutputBuffer memory p msg s = Some (tt, s', out) /\
    buffer_payload s' p = written s pr msg (buffer_payload s p).
Proof.
  intros Hb Hmem Hw Hp. destruct (wp_writeOutputBuffer memory p msg s pr) as ([] & s' & out & E & _ & H); eauto.
Qed.

Lemma messages_accounted_witness :
  length (m_outputMessages (pool example)) = 98%nat /\ held example = [98%nat; 99%nat] /\
  NoDup (m_outputMessages (pool example) ++ tasks example) /\
  (forall id, id ∈ m_outputMessages (pool example) ++ tasks example -> ~ (id ∈ pointers example)) /\
  (forall id, is_Some (messages (pool example) !! id) <->
     id ∈ m_outputMessages (pool example) ++ tasks example \/ id ∈ pointers example).
Proof.
  split; [vm_compute; reflexivity|]. split; [vm_compute; reflexivity|].
  destruct (messages_accounted example_memory example) as [H _]; [exact example_memory_ok|exact example_reachable|exact H].
Defined.

Lemma pool_never_stuck_witness :
  exists s' out, run (SendAll (fun _ _ => Writing)) example = Some (tt, s', out).
Proof.
  apply (pool_never_stuck example_memory example (SendAll (fun _ _ => Writing)));
    [exact example_memory_ok|exact example_reachable|exact I].
Defined.

Lemma protocol_deleted_unused_witness :
  exists s' out, releaseProtocol 3 example = Some (tt, s', out) /\
    (((forall id m, messages (pool example) !! id = Some m -> OutputMessage.m_protocol m <> Some 3%nat) /\
       protocols s' = delete 3%nat (protocols example) /\ out = [Delete_protocol 3]) \/
     ((exists id m, messages (pool example) !! id = Some m /\ OutputMessage.m_protocol m = Some 3%nat) /\
       s' = example /\ out = [Reschedule_releaseProtocol 3])).
Proof.
  apply (protocol_deleted_unused example_memory example 3%nat example_protocol);
    [exact example_memory_ok|exact example_reachable|vm_compute; reflexivity|exact example_protocols].
Defined.

(** A message of one byte. *)
Definition example_letter : NetworkMessage.t :=
  default (NetworkMessage.new example_memory) (NetworkMessage.put 1 65 (NetworkMessage.new example_memory)).

Lemma example_letter_writing : NetworkMessage.writing example_letter.
Proof.
  destruct example_memory_ok as [Hl Hb].
  destruct (NetworkMessage.put_writing 1 65 (NetworkMessage.new example_memory)) as (m & E & Hw);
    [by apply NetworkMessage.new_writing|lia|].
  unfold example_letter. by rewrite E.
Qed.

Lemma writeOutputBuffer_appends_witness :
  exists s' out, writeOutputBuffer example_memory 3 example_letter example = Some (tt, s', out) /\
    buffer_payload s' 3 = Some [65].
Proof.
  destruct (writeOutputBuffer_appends example_memory 3 example_letter example example_protocol)
    as (s' & out & E & H);
    [exact (reachable_books _ _ example_memory_ok example_reachable)|exact example_memory_ok
    |exact example_letter_writing|exact example_protocols|].
  exists s', out. split; [exact E|]. rewrite H. vm_compute. reflexivity.
Defined.

End PoolRun.
