(* ===== verification/PoolSend.v ===== *)
(** * The order in which [sendAll] hands messages over (src/net/outputmessage.cpp) *)
From S2P Require Import Prelude Proc Bytes Definitions NetMessage OutMessage Proto Pool PoolLaws PoolRun.

Module PoolSend.
Import OutputMessagePool PoolLaws.

(** The messages handed to their connections. *)
Definition handed (out : list request) : list nat :=
  omap (fun o => match o with Connection_send _ msg _ => Some msg | _ => None end) out.

Lemma handed_app out out' : handed (out ++ out') = handed out ++ handed out'.
Proof. apply omap_app. Qed.

(** What an encoding leaves of a message: its frame and its connection. *)
Definition label (s : state) (id : nat) : option (Z * option nat) :=
  m ← messages (pool s) !! id; Some (OutputMessage.m_frame m, OutputMessage.m_connection m).

Definition frame_of (s : state) (id : nat) : Z := default 0 (fst <$> label s id).

Definition same_labels (s s' : state) : Prop := forall id, label s' id = label s id.

#[export] Instance same_labels_preorder : PreOrder same_labels.
Proof. split; [done|]. intros s1 s2 s3 H1 H2 id. by rewrite H2, H1. Qed.

Lemma same_frame s s' id : same_labels s s' -> frame_of s' id = frame_of s id.
Proof. intros H. unfold frame_of. by rewrite H. Qed.

Lemma message_label s id m :
  messages (pool s) !! id = Some m -> label s id = Some (OutputMessage.m_frame m, OutputMessage.m_connection m).
Proof. intros Hm. unfold label. by rewrite Hm. Qed.

Lemma label_message s s' id m m' :
  messages (pool s) !! id = Some m -> messages (pool s') = <[id := m']> (messages (pool s)) ->
  OutputMessage.m_frame m' = OutputMessage.m_frame m -> OutputMessage.m_connection m' = OutputMessage.m_connection m ->
  same_labels s s'.
Proof.
  intros Hm Hs Hf Hc i. unfold label. rewrite Hs, lookup_insert. case_decide as Hd; [subst i|done].
  rewrite Hm. cbn. by rewrite Hf, Hc.
Qed.

(** ** What each step that ended did *)

Lemma message_inv id s m s' out : message id s = Some (m, s', out) -> messages (pool s) !! id = Some m /\ s' = s /\ out = [].
Proof.
  unfold message. intros E. proc_inv. unfold lift in E. destruct (messages (pool s) !! id); [|done].
  by injection E as <- <- <-.
Qed.

Lemma protocol_inv p s pr s' out : protocol p s = Some (pr, s', out) -> s' = s /\ out = [].
Proof.
  unfold protocol. intros E. proc_inv. unfold lift in E. destruct (protocols s !! p); [|done].
  by injection E as <- <- <-.
Qed.

(** Nothing but the messages' contents and the protocols. *)
Definition quiet (s s' : state) (out : list request) : Prop :=
  m_autoSend (pool s') = m_autoSend (pool s) /\ same_labels s s' /\ handed out = [].

Lemma quiet_refl s : quiet s s [].
Proof. by split_and!. Qed.

Lemma onSendMessage_quiet id s s' out : onSendMessage id s = Some (tt, s', out) -> quiet s s' out.
Proof.
  unfold onSendMessage. intros E. apply bind_inv in E as (m & s1 & o1 & o2 & (Hm & -> & ->)%message_inv & E & ->).
  destruct (OutputMessage.m_protocol m) as [p|]; [|injection E as <- <-; apply quiet_refl].
  apply bind_inv in E as (pr & s2 & o3 & o4 & (-> & ->)%protocol_inv & E & ->).
  destruct (Protocol.onSendMessage pr id m) as [[pr' m']|] eqn:Es; [|done].
  assert (Protocol.same_owner m m') as (_ & Hc & _ & Hf).
  { unfold Protocol.onSendMessage in Es. destruct (Protocol.encodeMessage pr m) as [m1|] eqn:Ee; cbn in Es; [|done].
    injection Es as _ <-. by eapply Protocol.encodeMessage_owner. }
  autorewrite with proc in E. injection E as <- <-. split; [done|]. split; [|done].
  eapply (label_message s _ id m m'); done.
Qed.

Lemma settle_quiet id s s' out : settle id s = Some (tt, s', out) -> quiet s s' out.
Proof.
  unfold settle, releaseMessage. intros E. proc_inv.
  destruct (decide _); injection E as <- <-; by split_and!.
Qed.

(** A message handed to its connection, whatever that does with it. *)
Lemma sendTo_hands how id m c s s' out :
  OutputMessage.m_connection m = Some c -> sendTo how id m s = Some (tt, s', out) ->
  m_autoSend (pool s') = m_autoSend (pool s) /\ same_labels s s' /\ handed out = [id].
Proof.
  unfold sendTo, connection_send. intros -> E.
  apply bind_inv in E as (sent & s1 & o1 & o2 & E & E2 & ->).
  apply bind_inv in E as ([] & s0 & o3 & o4 & E0 & E & ->). injection E0 as <- <-.
  assert (quiet s s1 o4 /\ quiet s1 s' o2) as [(A1 & L1 & O1) (A2 & L2 & O2)].
  2:{ split_and!; [congruence|by etransitivity|]. rewrite !handed_app. by rewrite O1, O2. }
  destruct (how c id); autorewrite with proc in E.
  - injection E as <- <- <-. split; [apply quiet_refl|by eapply onSendMessage_quiet].
  - apply bind_inv in E as ([] & s2 & o5 & o6 & (A & L & O)%onSendMessage_quiet & E & ->).
    unfold hold in E. proc_inv. injection E2 as <- <-. split; [|by split_and!].
    split_and!; [done|done|]. by rewrite !handed_app, O.
  - apply bind_inv in E as ([] & s2 & o5 & o6 & (A & L & O)%onSendMessage_quiet & E & ->).
    proc_inv. injection E2 as <- <-. split; [|by split_and!].
    split_and!; [done|done|]. by rewrite !handed_app, O.
  - injection E as <- <- <-. injection E2 as <- <-. split; apply quiet_refl.
  - unfold autoSend in E. autorewrite with proc in E. injection E as <- <- <-. injection E2 as <- <-.
    split; by split_and!.
Qed.

Lemma enqueue_puts dropTime frameTime id s s' out :
  enqueue dropTime frameTime id s = Some (tt, s', out) ->
  same_labels s s' /\ handed out = [] /\
  m_autoSend (pool s') =
    if dropTime <=? frame_of s id
    then if frame_of s id <? frameTime then id :: m_autoSend (pool s) else m_autoSend (pool s) ++ [id]
    else m_autoSend (pool s).
Proof.
  unfold enqueue. intros E. apply bind_inv in E as (m & s1 & o1 & o2 & (Hm & -> & ->)%message_inv & E & ->).
  assert (frame_of s id = OutputMessage.m_frame m) as -> by (unfold frame_of; by rewrite (message_label s id m)).
  destruct (dropTime <=? OutputMessage.m_frame m).
  - apply bind_inv in E as ([] & s2 & o3 & o4 & E1 & E & ->). injection E as <- <-.
    unfold onMessage in E1. apply bind_inv in E1 as (m1 & s3 & o5 & o6 & (Hm1 & -> & ->)%message_inv & E1 & ->).
    injection E1 as <- <-. rewrite Hm in Hm1. injection Hm1 as <-.
    split; [by eapply (label_message s _ id m)|]. by split.
  - apply onSendMessage_quiet in E as (A & L & O). by split_and!.
Qed.

(** ** What sending leaves of the protocols and asks for *)

(** The connection of a protocol. *)
Definition link (s : state) (p : nat) : option (option nat) := Protocol.m_connection <$> protocols s !! p.

Lemma onSendMessage_link id s s' out :
  onSendMessage id s = Some (tt, s', out) -> (forall q, link s' q = link s q) /\ held s' = held s /\ out = [].
Proof.
  unfold onSendMessage. intros E. apply bind_inv in E as (m & s1 & o1 & o2 & (Hm & -> & ->)%message_inv & E & ->).
  destruct (OutputMessage.m_protocol m) as [p|]; [|by injection E as <- <-].
  unfold protocol in E. autorewrite with proc in E. destruct (protocols s !! p) as [pr|] eqn:Hp; [|done].
  autorewrite with proc in E. destruct (Protocol.onSendMessage pr id m) as [[pr' m']|] eqn:Es; [|done].
  autorewrite with proc in E. injection E as <- <-. split; [|done]. intros q. unfold link. cbn. rewrite lookup_insert.
  case_decide as Hd; [|done]. subst q. rewrite Hp. cbn. f_equal.
  unfold Protocol.onSendMessage in Es. destruct (Protocol.encodeMessage pr m); cbn in Es; [|done].
  injection Es as <- <-. by case_bool_decide.
Qed.

(** The requests of one message handed over: itself, and the write that is started. *)
Definition sends (c id : nat) (m : OutputMessage.t) (out : list request) : Prop :=
  out = [Connection_send c id m] \/ out = [Connection_send c id m; Async_write c id].

Lemma sendTo_sends how id m c s s' out :
  OutputMessage.m_connection m = Some c -> sendTo how id m s = Some (tt, s', out) ->
  (forall q, link s' q = link s q) /\ (forall i, i ∈ held s -> i ∈ held s') /\ sends c id m out.
Proof.
  unfold sendTo, connection_send, sends. intros -> E.
  apply bind_inv in E as (sent & s1 & o1 & o2 & E & E2 & ->).
  apply bind_inv in E as ([] & s0 & o3 & o4 & E0 & E & ->). injection E0 as <- <-.
  destruct (how c id); autorewrite with proc in E.
  - injection E as <- <- <-. apply onSendMessage_link in E2 as (L & Hh & ->). rewrite Hh. auto.
  - apply bind_inv in E as ([] & s2 & o5 & o6 & (L & Hh & ->)%onSendMessage_link & E & ->).
    unfold hold in E. proc_inv. injection E2 as <- <-. cbn. rewrite Hh. split; [done|]. split; [|by right].
    intros i Hi. apply elem_of_cons. auto.
  - apply bind_inv in E as ([] & s2 & o5 & o6 & (L & Hh & ->)%onSendMessage_link & E & ->).
    proc_inv. injection E2 as <- <-. cbn. rewrite Hh. auto.
  - injection E as <- <- <-. injection E2 as <- <-. auto.
  - unfold autoSend in E. autorewrite with proc in E. injection E as <- <- <-. injection E2 as <- <-. auto.
Qed.

(** A message whose write is started has been encoded, and is held for it. *)
Lemma sendTo_writes how id m c p pr s s' out :
  messages (pool s) !! id = Some m -> OutputMessage.m_connection m = Some c ->
  OutputMessage.m_protocol m = Some p -> protocols s !! p = Some pr -> how c id = Writing ->
  sendTo how id m s = Some (tt, s', out) ->
  out = [Connection_send c id m; Async_write c id] /\ held s' = id :: held s /\
  exists m', Protocol.encodeMessage pr m = Some m' /\ messages (pool s') !! id = Some m'.
Proof.
  intros Hm Hc Hp Hpr Hw. unfold sendTo, connection_send, onSendMessage, message, protocol, hold. rewrite Hc, Hw.
  autorewrite with proc. rewrite bind_emit. autorewrite with proc. rewrite Hm. autorewrite with proc. rewrite Hp.
  autorewrite with proc. rewrite Hpr. autorewrite with proc. unfold Protocol.onSendMessage.
  destruct (Protocol.encodeMessage pr m) as [m'|]; cbn; [|done]. intros [= <- <-].
  split; [done|]. split; [done|]. exists m'. split; [done|]. cbn. by rewrite lookup_insert_eq.
Qed.

(** ** The two loops *)

(** The first queue after the messages of the second have been put in it: the late ones
    in front of it, the last one first, the others behind. *)
Definition enqueued (dropTime frameTime : Z) (frame : nat -> Z) (added queue : list nat) : list nat :=
  rev (filter (fun id => dropTime <= frame id /\ frame id < frameTime) added) ++ queue ++
  filter (fun id => dropTime <= frame id /\ frameTime <= frame id) added.

Lemma enqueue_loop dropTime frameTime frame added s s' out :
  (forall id, frame_of s id = frame id) ->
  for_each (enqueue dropTime frameTime) added s = Some (tt, s', out) ->
  same_labels s s' /\ handed out = [] /\
  m_autoSend (pool s') = enqueued dropTime frameTime frame added (m_autoSend (pool s)).
Proof.
  revert s out. induction added as [|id added IH]; intros s out Hf E; cbn [for_each] in E.
  { injection E as <- <-. unfold enqueued. cbn. by rewrite app_nil_r. }
  apply bind_inv in E as ([] & s1 & o1 & o2 & (L1 & O1 & A1)%enqueue_puts & E & ->).
  apply IH in E as (L2 & O2 & A2); [|intros i; by rewrite (same_frame s s1)].
  split; [by etransitivity|]. split; [by rewrite handed_app, O1, O2|].
  rewrite A2, A1, Hf. unfold enqueued. rewrite !filter_cons.
  destruct (Z.leb_spec dropTime (frame id)) as [Hd|Hd].
  - destruct (Z.ltb_spec (frame id) frameTime) as [Ht|Ht].
    + rewrite (decide_True (P := dropTime <= frame id /\ frame id < frameTime)) by done.
      rewrite (decide_False (P := dropTime <= frame id /\ frameTime <= frame id)) by lia.
      cbn [rev]. by rewrite <- app_assoc.
    + rewrite (decide_False (P := dropTime <= frame id /\ frame id < frameTime)) by lia.
      rewrite (decide_True (P := dropTime <= frame id /\ frameTime <= frame id)) by done.
      by rewrite <- app_assoc.
  - rewrite !decide_False by lia. done.
Qed.

Lemma settle_loop ids s s' out : for_each settle ids s = Some (tt, s', out) -> quiet s s' out.
Proof.
  revert s out. induction ids as [|id ids IH]; intros s out E; cbn [for_each] in E.
  { injection E as <- <-. apply quiet_refl. }
  apply bind_inv in E as ([] & s1 & o1 & o2 & (A1 & L1 & O1)%settle_quiet & (A2 & L2 & O2)%IH & ->).
  split; [congruence|]. split; [by etransitivity|]. by rewrite handed_app, O1, O2.
Qed.

(** The messages at the front of the queue that are due, and the rest. *)
Fixpoint due (frame : nat -> Z) (frameTime : Z) (queue : list nat) : list nat * list nat :=
  match queue with
  | [] => ([], [])
  | id :: rest =>
      if frame id <? frameTime then (id :: (due frame frameTime rest).1, (due frame frameTime rest).2)
      else ([], queue)
  end.

Definition connected (s : state) (id : nat) : Prop := exists f c, label s id = Some (f, Some c).

Lemma flush_loop how frameTime frame queue s s' out :
  (forall id, frame_of s id = frame id) -> Forall (connected s) queue -> m_autoSend (pool s) = queue ->
  flushAutoSend how frameTime queue s = Some (tt, s', out) ->
  handed out = (due frame frameTime queue).1 /\ m_autoSend (pool s') = (due frame frameTime queue).2.
Proof.
  revert s out. induction queue as [|id queue IH]; intros s out Hf Hc Hq E; cbn [flushAutoSend] in E.
  { injection E as <- <-. done. }
  apply bind_inv in E as (m & s1 & o1 & o2 & (Hm & -> & ->)%message_inv & E & ->).
  pose proof (message_label s id m Hm) as Hl. apply Forall_cons in Hc as [(f & c & Hc) Hcs].
  rewrite Hl in Hc. injection Hc as _ Hmc.
  assert (OutputMessage.m_frame m = frame id) as Hfr by (rewrite <- Hf; unfold frame_of; by rewrite Hl).
  rewrite Hfr in E. cbn [due]. destruct (Z.leb_spec frameTime (frame id)) as [Ht|Ht].
  { injection E as <- <-. by rewrite (proj2 (Z.ltb_ge _ _)). }
  rewrite (proj2 (Z.ltb_lt _ _)) by done.
  apply bind_inv in E as ([] & s2 & o3 & o4 & E1 & E & ->).
  apply (sendTo_hands how id m c) in E1 as (A1 & L1 & O1); [|done].
  apply bind_inv in E as ([] & s3 & o5 & o6 & E2 & E & ->). injection E2 as <- <-.
  apply bind_inv in E as ([] & s4 & o7 & o8 & (A2 & L2 & O2)%settle_quiet & E & ->).
  assert (same_labels s s4) as L by (etransitivity; [exact L1|exact L2]).
  apply IH in E as (O3 & A3).
  - cbn. rewrite !handed_app, O1, O2, O3. done.
  - intros i. by rewrite (same_frame s s4).
  - eapply Forall_impl; [exact Hcs|]. intros i (f' & c' & Hi). exists f', c'. by rewrite L.
  - rewrite A2. cbn. by rewrite A1, Hq.
Qed.

(** ** Property *)

(** C27: what [sendAll] hands over, and in which order.  The messages put back by
    connections that were busy go to the queue again, unless they are older than ten
    seconds: those not yet due behind it, and the late ones in front of it, in reverse;
    then the messages at the front that are due are handed to their connections, in the
    order of the queue, and the rest stays queued.  So two late messages of a client
    that was busy are handed over in the order opposite to the one they were sent in. *)
Theorem sendAll_order how s :
  books s ->
  let dropTime := u64 (m_frameTime (pool s) - 10000) in
  let frameTime := u64 (m_frameTime (pool s) - 10) in
  let queue := enqueued dropTime frameTime (frame_of s) (m_addQueue (pool s)) (m_autoSend (pool s)) in
  exists s' out, sendAll how s = Some (tt, s', out) /\
    handed out = (due (frame_of s) frameTime queue).1 /\
    m_autoSend (pool s') = (due (frame_of s) frameTime queue).2.
Proof.
  intros Hb dropTime frameTime queue.
  assert (forall id, id ∈ m_autoSend (pool s) ++ m_addQueue (pool s) -> connected s id) as Hcon.
  { intros id Hin. assert (id ∈ pointers s) as Hp by (elems in Hin; elems; tauto).
    assert (is_Some (messages (pool s) !! id)) as [m Hm] by (apply (inv_cover _ _ _ Hb); right; by rewrite app_nil_r).
    assert (~ (id ∈ free s)) as Hf by (apply (inv_unused _ _ _ _ Hb); by rewrite app_nil_r).
    destruct (message_used _ _ _ _ (inv_messages _ _ _ Hb id m Hm) Hf) as (p & c & _ & Hc & _).
    exists (OutputMessage.m_frame m), c. rewrite (message_label s id m Hm). by rewrite Hc. }
  destruct (sendAll_books how s Hb) as ([] & s' & out & E & _). exists s', out. split; [done|].
  unfold sendAll in E. autorewrite with proc in E. fold dropTime frameTime in E.
  apply bind_inv in E as ([] & s1 & o1 & o2 & E1 & E & ->).
  apply (enqueue_loop _ _ (frame_of s)) in E1 as (L1 & O1 & A1); [|done]. fold queue in A1.
  apply bind_inv in E as ([] & s2 & o3 & o4 & E2 & E & ->). injection E2 as <- <-.
  apply bind_inv in E as ([] & s3 & o5 & o6 & (A2 & L2 & O2)%settle_loop & E & ->).
  apply bind_inv in E as (q & s4 & o7 & o8 & E3 & E & ->). injection E3 as <- <- <-.
  assert (same_labels s s3) as L by (etransitivity; [exact L1|exact L2]).
  rewrite !handed_app, O1, O2. cbn [handed omap list_omap app].
  assert (m_autoSend (pool s3) = queue) as Hq by (rewrite A2; exact A1).
  rewrite Hq in E. eapply flush_loop; [| |exact Hq|exact E].
  - intros i. by rewrite (same_frame s s3).
  - apply Forall_forall. intros i Hi. destruct (Hcon i) as (f & c & Hl).
    + unfold queue, enqueued in Hi. rewrite !elem_of_app, list_elem_of_In, <- in_rev, <- list_elem_of_In,
        !list_elem_of_filter in Hi. elems. tauto.
    + exists f, c. by rewrite L.
Qed.

(** Two messages of a client whose connection was busy, a hundred milliseconds later. *)
Definition example_two : state :=
  PoolRun.after (PoolRun.Take PoolRun.example_memory 3 false)
    (PoolRun.after (PoolRun.Take PoolRun.example_memory 3 false) PoolRun.example_client).
Definition example_queued : state :=
  PoolRun.after (PoolRun.Send (fun _ _ => Queued) 98)
    (PoolRun.after (PoolRun.Send (fun _ _ => Queued) 99) example_two).
Definition example_late : state := PoolRun.after (PoolRun.Frame 20100) example_queued.

Definition unencodedb (m : OutputMessage.t) : bool :=
  let b := OutputMessage.base m in
  bool_decide (0 <= NetworkMessage.m_size b) && bool_decide (NetworkMessage.m_size b < 2 ^ 16) &&
  (zlen (NetworkMessage.m_buffer b) =? NETWORK_MAX_SIZE) &&
  forallb (fun x => bool_decide (0 <= x < 256)) (NetworkMessage.m_buffer b) &&
  (NetworkMessage.m_position b =? NetworkMessage.m_size b + NETWORK_CRYPTOHEADER_SIZE) &&
  (NetworkMessage.m_position b <? NETWORK_BODY_SIZE) &&
  (OutputMessage.m_outputBufferStart m =? NETWORK_CRYPTOHEADER_SIZE).

Lemma unencodedb_spec m : unencodedb m = true -> unencoded m.
Proof.
  unfold unencodedb. rewrite !andb_true_iff, !bool_decide_eq_true, !Z.eqb_eq, Z.ltb_lt, forallb_forall.
  intros ((((((H1 & H2) & H3) & H4) & H5) & H6) & H7). split; [|done]. split; [split|done|done]; try done.
  - NetworkMessage.consts. lia.
  - apply Forall_forall. intros x Hx%list_elem_of_In%H4. by apply bool_decide_eq_true in Hx.
Qed.

Definition sendable (id : nat) (s : state) : bool :=
  bool_decide (id ∈ held s) && negb (bool_decide (id ∈ m_autoSend (pool s) ++ m_addQueue (pool s))) &&
  match messages (pool s) !! id with Some m => unencodedb m | None => false end.

Lemma sendable_allowed how id s : sendable id s = true -> PoolRun.allowed (PoolRun.Send how id) s.
Proof.
  unfold sendable. rewrite !andb_true_iff, negb_true_iff, bool_decide_eq_true, bool_decide_eq_false.
  intros ((H1 & H2) & H3). destruct (messages (pool s) !! id) as [m|] eqn:E; [|done].
  split; [done|]. split; [done|]. exists m. split; [done|]. by apply unencodedb_spec.
Qed.

Lemma example_late_reachable : PoolRun.reachable PoolRun.example_memory example_late.
Proof.
  pose proof PoolRun.example_memory_ok as Hm.
  assert (PoolRun.reachable PoolRun.example_memory example_two) as H2.
  { do 2 (apply PoolRun.reach_after; [exact Hm| |split; [exact Hm|eexists; vm_compute; reflexivity]]).
    exact PoolRun.example_client_reachable. }
  apply PoolRun.reach_after; [exact Hm| |exact I].
  do 2 (apply PoolRun.reach_after; [exact Hm| |apply sendable_allowed; vm_compute; reflexivity]).
  exact H2.
Qed.

Lemma sendAll_order_witness :
  exists s' out, sendAll (fun _ _ => Writing) example_late = Some (tt, s', out) /\
    m_addQueue (pool example_late) = [99%nat; 98%nat] /\ handed out = [98%nat; 99%nat] /\ m_autoSend (pool s') = [].
Proof.
  destruct (sendAll_order (fun _ _ => Writing) example_late) as (s' & out & E & H1 & H2).
  - apply (PoolRun.reachable_books PoolRun.example_memory); [exact PoolRun.example_memory_ok|exact example_late_reachable].
  - exists s', out. split; [exact E|]. split; [vm_compute; reflexivity|].
    rewrite H1, H2. vm_compute. split; reflexivity.
Defined.

End PoolSend.
