(* ===== verification/Conn.v ===== *)
(** * Connections (src/net/connection.h, src/net/connection.cpp)

    One [Connection]: its state, every handler that runs on it, and the system made
    of a connection and the work posted for it (dispatcher tasks, scheduler events,
    asio completions).  The manager's tables are in [ConnMgr]. *)
From S2P Require Import Prelude Proc Bytes Definitions NetMessage Checksum Cipher OutMessage Proto.

Module Connection.

(** ** State *)

Inductive ConnectionState_t :=
| CONNECTION_STATE_OPEN
| CONNECTION_STATE_REQUEST_CLOSE
| CONNECTION_STATE_CLOSING
| CONNECTION_STATE_CLOSED.

#[export] Instance ConnectionState_eq_dec : EqDecision ConnectionState_t.
Proof. solve_decision. Defined.

(** [m_socket]: the pointee is open or closed, or the pointer is NULL. *)
Inductive socket := SocketOpen | SocketClosed | SocketNull.

Record t := mk {
  m_msg : NetworkMessage.t;
  m_protocol : option nat;             (* Protocol*, NULL or the identity of one *)
  m_socket : socket;
  m_receivedFirst : bool;
  m_writeError : bool;
  m_readError : bool;
  m_pendingWrite : Z;                  (* int32_t *)
  m_pendingRead : Z;                   (* int32_t *)
  m_connectionState : ConnectionState_t;
  m_refCount : Z;                      (* uint32_t *)
  m_time : Z;                          (* time_t *)
  m_packets : Z                        (* uint32_t *)
}.

Definition new (memory : list Z) (time : Z) : t :=
  mk (NetworkMessage.new memory) None SocketOpen false false false 0 0
    CONNECTION_STATE_OPEN 0 time 0.

Definition setMsg m c := mk m (m_protocol c) (m_socket c) (m_receivedFirst c) (m_writeError c)
  (m_readError c) (m_pendingWrite c) (m_pendingRead c) (m_connectionState c) (m_refCount c) (m_time c) (m_packets c).
Definition setProtocol p c := mk (m_msg c) p (m_socket c) (m_receivedFirst c) (m_writeError c)
  (m_readError c) (m_pendingWrite c) (m_pendingRead c) (m_connectionState c) (m_refCount c) (m_time c) (m_packets c).
Definition setSocket s c := mk (m_msg c) (m_protocol c) s (m_receivedFirst c) (m_writeError c)
  (m_readError c) (m_pendingWrite c) (m_pendingRead c) (m_connectionState c) (m_refCount c) (m_time c) (m_packets c).
Definition setReceivedFirst b c := mk (m_msg c) (m_protocol c) (m_socket c) b (m_writeError c)
  (m_readError c) (m_pendingWrite c) (m_pendingRead c) (m_connectionState c) (m_refCount c) (m_time c) (m_packets c).
Definition setWriteError b c := mk (m_msg c) (m_protocol c) (m_socket c) (m_receivedFirst c) b
  (m_readError c) (m_pendingWrite c) (m_pendingRead c) (m_connectionState c) (m_refCount c) (m_time c) (m_packets c).
Definition setReadError b c := mk (m_msg c) (m_protocol c) (m_socket c) (m_receivedFirst c) (m_writeError c)
  b (m_pendingWrite c) (m_pendingRead c) (m_connectionState c) (m_refCount c) (m_time c) (m_packets c).
Definition setPending w r c := mk (m_msg c) (m_protocol c) (m_socket c) (m_receivedFirst c) (m_writeError c)
  (m_readError c) (i32 w) (i32 r) (m_connectionState c) (m_refCount c) (m_time c) (m_packets c).
Definition setState st c := mk (m_msg c) (m_protocol c) (m_socket c) (m_receivedFirst c) (m_writeError c)
  (m_readError c) (m_pendingWrite c) (m_pendingRead c) st (m_refCount c) (m_time c) (m_packets c).
Definition setRefCount n c := mk (m_msg c) (m_protocol c) (m_socket c) (m_receivedFirst c) (m_writeError c)
  (m_readError c) (m_pendingWrite c) (m_pendingRead c) (m_connectionState c) (u32 n) (m_time c) (m_packets c).
Definition setRate time packets c := mk (m_msg c) (m_protocol c) (m_socket c) (m_receivedFirst c) (m_writeError c)
  (m_readError c) (m_pendingWrite c) (m_pendingRead c) (m_connectionState c) (m_refCount c) time (u32 packets).

(** ** Environment *)

(** The error code of a completion. *)
Inductive asio_error := NoError | OperationAborted | Eof | ConnectionReset | ConnectionAborted | OtherError.

#[export] Instance asio_error_eq_dec : EqDecision asio_error.
Proof. solve_decision. Defined.

(** Where an exception leaves the try block that arms a timer and starts an
    operation: nowhere, in the timer calls, or in the operation itself. *)
Inductive fault_t := NoFault | TimerFault | OperationFault.

Record env := mkEnv {
  fault : fault_t;
  closeFault : bool;               (* an exception in closeSocket's try block *)
  postFault : bool;                (* an exception in asio::post *)
  now : Z;                         (* time(NULL) *)
  MAX_PACKETS_PER_SECOND : Z;
  FORCE_CLOSE_SLOW_CONNECTION : bool
}.

(** What a handler asks of the rest of the program. *)
Inductive request :=
| AddTask_closeConnection          (* Dispatcher::addTask *)
| AddEvent_releaseConnection       (* Scheduler::addEvent, SCHEDULER_MINTICKS *)
| Post_onStop                      (* asio::post *)
| Cancel_readTimer
| Cancel_writeTimer
| Start_readTimer
| Start_writeTimer
| Read_header (off size : Z)       (* async_read into m_msg's buffer, then parseHeader *)
| Read_packet (off size : Z)       (* async_read into m_msg's buffer, then parsePacket *)
| Write_message (msg : nat)        (* async_write, then onWrite *)
| AutoSend (msg : nat)             (* OutputMessagePool::autoSend *)
| Shutdown_socket                  (* shutdown and close *)
| Delete_socket
| Manager_releaseConnection
| Log_error                        (* LOG_MESSAGE of an exception *)
| Log_state.                       (* the "m_connectionState" message of closeConnection *)

#[export] Instance request_eq_dec : EqDecision request.
Proof. solve_decision. Defined.

(** ** What a connection relies on: the protocols and the service port

    Calls back into the connection while it handles a packet. *)
Inductive callback := Callback_close | Callback_send (msg : nat).

Class ProtocolOps (W : Type) := {
  onConnect : nat -> W -> option (list callback * W);
  setConnection : nat -> bool -> W -> option W;   (* to this connection, or to none *)
  releaseProtocol : nat -> W -> option W;
  makeProtocol : bool -> NetworkMessage.t -> W -> option (option nat * NetworkMessage.t * W);
  onRecvFirstMessage : nat -> NetworkMessage.t -> W -> option (list callback * NetworkMessage.t * W);
  onRecvMessage : nat -> NetworkMessage.t -> W -> option (list callback * NetworkMessage.t * W);
  onSendMessage : nat -> W -> option W            (* msg->getProtocol()->onSendMessage(msg), if any *)
}.

(** A connection, [Connection::m_logError] and the protocols. *)
Record state (W : Type) := mkState { conn : t; m_logError : bool; world : W }.
Arguments mkState {W}.
Arguments conn {W}.
Arguments m_logError {W}.
Arguments world {W}.

(** ** Handlers *)

Section Handlers.
Context {W : Type} `{!ProtocolOps W}.

Abbreviation M := (proc (state W) request).

Definition get {A} (f : t -> A) : M A := gets (fun s => f (conn s)).
Definition update (f : t -> t) : M unit :=
  modify (fun s => mkState (f (conn s)) (m_logError s) (world s)).
Definition onWorld (f : W -> W) : M unit :=
  modify (fun s => mkState (conn s) (m_logError s) (f (world s))).

(** A call of a protocol, which may be stuck. *)
Definition callWorld (f : W -> option W) : M unit :=
  w ← gets world;
  w ← lift (f w);
  onWorld (fun _ => w).

Definition is_state (sts : list ConnectionState_t) : M bool :=
  get (fun c => bool_decide (m_connectionState c ∈ sts)).

(** [catch(std::exception& e)]: [k] is the rest of the [if(m_logError)] block. *)
Definition logged (k : M unit) : M unit :=
  log ← gets m_logError;
  if log : bool
  then _ ← emit Log_error; _ ← modify (fun s => mkState (conn s) false (world s)); k
  else skip.

Definition close : M unit :=
  closing ← is_state [CONNECTION_STATE_CLOSING; CONNECTION_STATE_CLOSED; CONNECTION_STATE_REQUEST_CLOSE];
  if closing : bool then skip
  else
    _ ← update (setState CONNECTION_STATE_REQUEST_CLOSE);
    emit AddTask_closeConnection.

Definition closeSocket (e : env) : M unit :=
  socket ← get m_socket;
  match socket with
  | SocketNull => stuck
  | SocketClosed => skip
  | SocketOpen =>
      _ ← update (setPending 0 0);
      if closeFault e then logged skip
      else _ ← update (setSocket SocketClosed); emit Shutdown_socket
  end.

(** The assertion is compiled out of release builds; a violated one is stuck. *)
Definition deleteConnection (e : env) : M unit :=
  n ← get m_refCount;
  if negb (n =? 0) then stuck
  else if postFault e then logged skip
  else emit Post_onStop.

Definition releaseConnection (e : env) : M unit :=
  n ← get m_refCount;
  if 0 <? n then emit AddEvent_releaseConnection else deleteConnection e.

Definition closeConnection (e : env) : M unit :=
  requested ← is_state [CONNECTION_STATE_REQUEST_CLOSE];
  if negb requested then emit Log_state
  else
    protocol ← get m_protocol;
    _ ← (match protocol with
         | Some p =>
             _ ← callWorld (setConnection p false);
             _ ← callWorld (releaseProtocol p);
             update (setProtocol None)
         | None => skip
         end);
    _ ← update (setState CONNECTION_STATE_CLOSING);
    pendingWrite ← get m_pendingWrite;
    writeError ← get m_writeError;
    if (pendingWrite =? 0) || writeError then
      _ ← closeSocket e;
      _ ← releaseConnection e;
      update (setState CONNECTION_STATE_CLOSED)
    else skip.

Definition onStop : M unit :=
  _ ← emit Cancel_readTimer;
  _ ← emit Cancel_writeTimer;
  socket ← get m_socket;
  _ ← (match socket with
       | SocketNull => stuck
       | SocketOpen => emit Shutdown_socket
       | SocketClosed => skip
       end);
  _ ← update (setSocket SocketNull);
  _ ← emit Delete_socket;
  emit Manager_releaseConnection.

(** [getHandle()] dereferences the socket. *)
Definition getHandle : M unit :=
  socket ← get m_socket;
  match socket with SocketNull => stuck | _ => skip end.

(** The try block of [accept], [parseHeader] and [parsePacket]: the read timer is
    armed, the message is made ready ([prepare]) and the read [op] is started; an
    exception closes the connection. *)
Definition startRead (e : env) (prepare : M unit) (op : request) : M unit :=
  w ← get m_pendingWrite; r ← get m_pendingRead;
  _ ← update (setPending w (r + 1));
  match fault e with
  | TimerFault => logged close
  | NoFault => _ ← emit Start_readTimer; _ ← prepare; _ ← getHandle; emit op
  | OperationFault => _ ← emit Start_readTimer; _ ← prepare; _ ← getHandle; logged close
  end.

Definition readHeader (e : env) : M unit :=
  startRead e skip (Read_header 0 NETWORK_HEADER_SIZE).

Definition accept (e : env) : M unit := readHeader e.

Definition finishRead : M unit :=
  w ← get m_pendingWrite; r ← get m_pendingRead; update (setPending w (r - 1)).

Definition internalSend (e : env) (msg : nat) : M unit :=
  w ← get m_pendingWrite; r ← get m_pendingRead;
  _ ← update (setPending (w + 1) r);
  match fault e with
  | NoFault => _ ← emit Start_writeTimer; _ ← getHandle; emit (Write_message msg)
  | TimerFault => logged skip
  | OperationFault => _ ← emit Start_writeTimer; logged skip
  end.

(** [msg->getProtocol()->onSendMessage(msg)] *)
Definition encode (msg : nat) : M unit := callWorld (onSendMessage msg).

Definition send (e : env) (msg : nat) : M bool :=
  open ← is_state [CONNECTION_STATE_OPEN];
  writeError ← get m_writeError;
  if negb open || writeError then mret false
  else
    pendingWrite ← get m_pendingWrite;
    _ ← (if pendingWrite =? 0 then
           _ ← encode msg; internalSend e msg
         else if (100 <? pendingWrite) && FORCE_CLOSE_SLOW_CONNECTION e then close
         else emit (AutoSend msg));
    mret true.

Definition run_callback (e : env) (cb : callback) : M unit :=
  match cb with
  | Callback_close => close
  | Callback_send msg => _ ← send e msg; skip
  end.

(** A call of a protocol's handler on [m_msg]. *)
Definition call_protocol (e : env)
    (f : NetworkMessage.t -> W -> option (list callback * NetworkMessage.t * W)) : M unit :=
  m ← get m_msg; w ← gets world;
  r ← lift (f m w);
  let '(cbs, m, w) := r in
  _ ← update (setMsg m);
  _ ← onWorld (fun _ => w);
  for_each (run_callback e) cbs.

Definition handle (e : env) (protocol : nat) : M unit :=
  _ ← update (setProtocol (Some protocol));
  w ← gets world;
  r ← lift (onConnect protocol w);
  let '(cbs, w) := r in
  _ ← onWorld (fun _ => w);
  _ ← for_each (run_callback e) cbs;
  accept e.

(** Both error handlers: every error but an abort closes the connection. *)
Definition handleReadError (error : asio_error) : M unit :=
  _ ← (match error with OperationAborted => skip | _ => close end);
  update (setReadError true).

Definition handleWriteError (error : asio_error) : M unit :=
  _ ← (match error with OperationAborted => skip | _ => close end);
  update (setWriteError true).

Definition failed (error : asio_error) : bool :=
  match error with NoError => false | _ => true end.

Definition parseHeader (e : env) (error : asio_error) : M unit :=
  _ ← emit Cancel_readTimer;
  m ← get m_msg;
  r ← lift (NetworkMessage.decodeHeader m);
  let '(size, m) := r in
  _ ← update (setMsg m);
  _ ← (if failed error || (size <=? 0) || (NETWORK_MAX_SIZE - 16 <=? size)
       then handleReadError error else skip);
  open ← is_state [CONNECTION_STATE_OPEN];
  readError ← get m_readError;
  if negb open || readError then close
  else
    _ ← finishRead;
    let '(off, m') := NetworkMessage.writeBuffer (NetworkMessage.setSize (size + NETWORK_HEADER_SIZE) m) in
    startRead e (update (setMsg m')) (Read_packet off size).

(** The packet rate: [None] when [passed] is 0. *)
Definition packetRate (e : env) (c : t) : option (bool * t) :=
  let passed := u32 (Z.max 1 (now e - m_time c + 1)) in
  if passed =? 0 then None
  else
    let packets := u32 (m_packets c + 1) in
    let c := setRate (m_time c) packets c in
    if u32 (MAX_PACKETS_PER_SECOND e) <? packets / passed then Some (false, c)
    else Some (true, if 2 <? passed then setRate (now e) 0 c else c).

(** The checksum in front of a packet: whether it is there, and the message after
    it. *)
Definition verifyChecksum (m : NetworkMessage.t) : option (bool * NetworkMessage.t) :=
  let length := u32 (NetworkMessage.m_size m - NetworkMessage.m_position m - 4) in
  '(checksumReceived, m) ← NetworkMessage.get 4 true m;
  checksum ← (if 0 <? length
              then Checksum.adlerChecksumAt (NetworkMessage.m_buffer m) (NetworkMessage.m_position m + 4) length
              else Some 0);
  if checksumReceived =? checksum then Some (true, NetworkMessage.skip 4 m)
  else Some (false, m).

(** The first packet of a connection: the port makes a protocol of it, or the
    protocol of the port has been there since [handle]. *)
Definition firstPacket (checksumEnabled : bool) : M bool :=
  _ ← update (setReceivedFirst true);
  protocol ← get m_protocol;
  m ← get m_msg;
  match protocol with
  | None =>
      w ← gets world;
      r ← lift (makeProtocol checksumEnabled m w);
      let '(protocol, m, w) := r in
      _ ← update (setMsg m);
      _ ← onWorld (fun _ => w);
      _ ← update (setProtocol protocol);
      match protocol with
      | None => mret false
      | Some p => _ ← callWorld (setConnection p true); mret true
      end
  | Some _ =>
      _ ← update (setMsg (NetworkMessage.skip 1 m)); mret true
  end.

(** The virtual call on [m_protocol]. *)
Definition deliver (e : env) (f : nat -> NetworkMessage.t -> W -> option (list callback * NetworkMessage.t * W)) : M unit :=
  protocol ← get m_protocol;
  match protocol with
  | None => stuck
  | Some p => call_protocol e (f p)
  end.

Definition parsePacket (e : env) (error : asio_error) : M unit :=
  _ ← emit Cancel_readTimer;
  _ ← (if failed error then handleReadError error else skip);
  open ← is_state [CONNECTION_STATE_OPEN];
  readError ← get m_readError;
  if negb open || readError then close
  else
    c ← get id;
    r ← lift (packetRate e c);
    let '(within, c) := r in
    _ ← update (fun _ => c);
    if negb within then close
    else
      _ ← finishRead;
      m ← get m_msg;
      r ← lift (verifyChecksum m);
      let '(checksumEnabled, m) := r in
      _ ← update (setMsg m);
      receivedFirst ← get m_receivedFirst;
      if negb receivedFirst then
        made ← firstPacket checksumEnabled;
        if negb made then close
        else
          _ ← deliver e onRecvFirstMessage;
          readHeader e
      else
        _ ← deliver e onRecvMessage;
        readHeader e.

Definition onWrite (e : env) (error : asio_error) : M unit :=
  _ ← emit Cancel_writeTimer;
  _ ← (if failed error then handleWriteError error else skip);
  open ← is_state [CONNECTION_STATE_OPEN];
  writeError ← get m_writeError;
  if negb open || writeError then _ ← closeSocket e; close
  else
    w ← get m_pendingWrite; r ← get m_pendingRead; update (setPending (w - 1) r).

Definition onReadTimeout (e : env) : M unit :=
  r ← get m_pendingRead; readError ← get m_readError;
  if (0 <? r) || readError then _ ← closeSocket e; close else skip.

Definition onWriteTimeout (e : env) : M unit :=
  w ← get m_pendingWrite; writeError ← get m_writeError;
  if (0 <? w) || writeError then _ ← closeSocket e; close else skip.

(** [handleReadTimeout], [handleWriteTimeout]: [expired] when the weak pointer is. *)
Definition handleReadTimeout (e : env) (expired : bool) (error : asio_error) : M unit :=
  if bool_decide (error = OperationAborted) || expired then skip else onReadTimeout e.
Definition handleWriteTimeout (e : env) (expired : bool) (error : asio_error) : M unit :=
  if bool_decide (error = OperationAborted) || expired then skip else onWriteTimeout e.

Definition addRef : M unit := update (fun c => setRefCount (m_refCount c + 1) c).
Definition unRef : M unit := update (fun c => setRefCount (m_refCount c - 1) c).

End Handlers.

(** ** The connection and the work posted for it *)

(** The read in progress: what completes next on the socket. *)
Inductive reading_t := Idle | AwaitHeader | AwaitPacket (size : Z).

Record sys (W : Type) := mkSys {
  st : state W;
  closeTasks : nat;       (* closeConnection tasks in the dispatcher *)
  releaseEvents : nat;    (* releaseConnection events in the scheduler *)
  stopPosts : nat;        (* onStop posted to the io context *)
  reading : reading_t;
  writing : list nat      (* the messages being written, in order *)
}.
Arguments mkSys {W}.
Arguments st {W}.
Arguments closeTasks {W}.
Arguments releaseEvents {W}.
Arguments stopPosts {W}.
Arguments reading {W}.
Arguments writing {W}.

Inductive event :=
| EvClose                                             (* close(), any thread *)
| EvSend (msg : nat)                                  (* send(msg), any thread *)
| EvCloseTask                                         (* the dispatcher runs closeConnection *)
| EvRelease                                           (* the scheduler runs releaseConnection *)
| EvStop                                              (* the io context runs onStop *)
| EvHeader (error : asio_error) (bytes : list Z)      (* the header has been read *)
| EvPacket (error : asio_error) (bytes : list Z)      (* the packet has been read *)
| EvWritten (error : asio_error)                      (* a write has completed *)
| EvReadTimer (error : asio_error)
| EvWriteTimer (error : asio_error)
| EvAddRef
| EvUnRef.

Definition requests_of (r : request) (out : list request) : nat := length (filter (.= r) out).

Definition next_read (out : list request) (d : reading_t) : reading_t :=
  fold_left (fun d r => match r with
    | Read_header _ _ => AwaitHeader
    | Read_packet _ size => AwaitPacket size
    | _ => d end) out d.

Definition writes_in (out : list request) : list nat :=
  omap (fun r => match r with Write_message msg => Some msg | _ => None end) out.

Section System.
Context {W : Type} `{!ProtocolOps W}.

(** What a handler asked for becomes pending work. *)
Definition absorb (s : sys W) (r : option (unit * state W * list request)) : option (sys W) :=
  '(_, st', out) ← r;
  Some (mkSys st'
    (closeTasks s + requests_of AddTask_closeConnection out)
    (releaseEvents s + requests_of AddEvent_releaseConnection out)
    (stopPosts s + requests_of Post_onStop out)
    (next_read out (reading s))
    (writing s ++ writes_in out)).

Definition set_closeTasks n (s : sys W) := mkSys (st s) n (releaseEvents s) (stopPosts s) (reading s) (writing s).
Definition set_releaseEvents n (s : sys W) := mkSys (st s) (closeTasks s) n (stopPosts s) (reading s) (writing s).
Definition set_stopPosts n (s : sys W) := mkSys (st s) (closeTasks s) (releaseEvents s) n (reading s) (writing s).
Definition set_reading d (s : sys W) := mkSys (st s) (closeTasks s) (releaseEvents s) (stopPosts s) d (writing s).
Definition set_writing n (s : sys W) := mkSys (st s) (closeTasks s) (releaseEvents s) (stopPosts s) (reading s) n.

(** The bytes of a completed read are in the message's buffer. *)
Definition fill (off : Z) (bytes : list Z) : proc (state W) request unit :=
  m ← get m_msg;
  b ← lift (buf_write (NetworkMessage.m_buffer m) off bytes);
  update (setMsg (NetworkMessage.setBuffer b m)).

Definition connection_of (s : sys W) : t := conn (st s).

(** The completion of a read carries what was asked for, or less and an error.
    Completions run before the socket is deleted: closing the socket queues them, and
    [onStop] is posted afterwards; a timer that fires later finds the weak pointer
    expired. *)
Definition read_complete (error : asio_error) (bytes : list Z) (size : Z) : bool :=
  bool_decide (bytes_ok bytes) &&
  (if failed error then zlen bytes <=? size else zlen bytes =? size).

Definition has_socket (s : sys W) : bool :=
  match m_socket (connection_of s) with SocketNull => false | _ => true end.

Definition enabled (ev : event) (s : sys W) : bool :=
  match ev with
  | EvClose | EvSend _ | EvAddRef => true
  | EvUnRef => 0 <? m_refCount (connection_of s)
  | EvCloseTask => (0 <? closeTasks s)%nat
  | EvRelease => (0 <? releaseEvents s)%nat
  | EvStop => (0 <? stopPosts s)%nat
  | EvHeader error bytes => has_socket s &&
      match reading s with AwaitHeader => read_complete error bytes NETWORK_HEADER_SIZE | _ => false end
  | EvPacket error bytes => has_socket s &&
      match reading s with AwaitPacket size => read_complete error bytes size | _ => false end
  | EvWritten _ => has_socket s && negb (bool_decide (writing s = []))
  | EvReadTimer _ | EvWriteTimer _ => has_socket s
  end.

Definition run (e : env) (ev : event) (s : sys W) : option (sys W) :=
  match ev with
  | EvClose => absorb s (close (st s))
  | EvSend msg => absorb s ((_ ← send e msg; skip) (st s))
  | EvCloseTask => absorb (set_closeTasks (pred (closeTasks s)) s) (closeConnection e (st s))
  | EvRelease => absorb (set_releaseEvents (pred (releaseEvents s)) s) (releaseConnection e (st s))
  | EvStop => absorb (set_stopPosts (pred (stopPosts s)) s) (onStop (st s))
  | EvHeader error bytes =>
      absorb (set_reading Idle s) ((_ ← fill 0 bytes; parseHeader e error) (st s))
  | EvPacket error bytes =>
      absorb (set_reading Idle s) ((_ ← fill NETWORK_HEADER_SIZE bytes; parsePacket e error) (st s))
  | EvWritten error => absorb (set_writing (tail (writing s)) s) (onWrite e error (st s))
  | EvReadTimer error => absorb s (handleReadTimeout e false error (st s))
  | EvWriteTimer error => absorb s (handleWriteTimeout e false error (st s))
  | EvAddRef => absorb s (addRef (st s))
  | EvUnRef => absorb s (unRef (st s))
  end.

(** The clock is a 32-bit one, short of its end. *)
Definition env_ok (e : env) : Prop := 0 <= now e < 2 ^ 32 - 2.

Definition fresh (memory : list Z) (time : Z) (log : bool) (w : W) : sys W :=
  mkSys (mkState (new memory time) log w) 0 0 0 Idle [].

(** A connection's life: [ServicePort::handle] starts it with [accept], or with
    [handle] and the port's own protocol, which the world [owns], and events follow, while
    the world stays within its bounds. *)
Inductive reachable (world_ok idle : W -> Prop) (owns : nat -> W -> Prop) (bounded : W -> Prop) : sys W -> Prop :=
| reach_accept memory time log w e s :
    zlen memory = NETWORK_MAX_SIZE -> bytes_ok memory -> 0 <= time < 2 ^ 32 - 2 ->
    env_ok e -> world_ok w -> idle w ->
    absorb (fresh memory time log w) (accept e (st (fresh memory time log w))) = Some s ->
    reachable world_ok idle owns bounded s
| reach_handle memory time log w e p s :
    zlen memory = NETWORK_MAX_SIZE -> bytes_ok memory -> 0 <= time < 2 ^ 32 - 2 ->
    env_ok e -> world_ok w -> idle w -> owns p w ->
    absorb (fresh memory time log w) (handle e p (st (fresh memory time log w))) = Some s ->
    reachable world_ok idle owns bounded s
| reach_event e ev s s' :
    reachable world_ok idle owns bounded s -> env_ok e -> enabled ev s = true -> bounded (world (st s)) ->
    run e ev s = Some s' -> reachable world_ok idle owns bounded s'.

End System.

End Connection.
