(* ===== verification/ConnFrame.v ===== *)
(** * What the handlers of a connection leave alone

    Most of what a handler does is bookkeeping of its own: timers, reads, the state, the
    flags of the errors.  Whatever relates the states of a connection before and after such
    steps holds of the handlers that are made of them. *)
From S2P Require Import Prelude Proc NetMessage Conn.

Module ConnFrame.
Import Connection.

(** A change that is nobody else's business: the protocol and the first packet are what
    they were, a socket does not come or go, and the count of writes is what it was, unless
    it is reset. *)
Definition minor (c c' : t) : Prop :=
  m_protocol c' = m_protocol c /\ m_receivedFirst c' = m_receivedFirst c /\
  (m_socket c' = SocketNull <-> m_socket c = SocketNull) /\
  (m_pendingWrite c' = m_pendingWrite c \/ m_pendingWrite c' = i32 (m_pendingWrite c) \/ m_pendingWrite c' = 0).

Class Minor {W} (R : state W -> list request -> state W -> Prop) : Prop := {
  minor_change s c log : minor (conn s) c -> R s [] (mkState c log (world s));
  minor_request s r : match r with Write_message _ => False | _ => True end -> R s [r] s
}.

(** The deletion of the socket is not minor. *)
Class Stopping {W} (R : state W -> list request -> state W -> Prop) : Prop :=
  stopping s : m_socket (conn s) <> SocketNull -> R s [] (mkState (setSocket SocketNull (conn s)) (m_logError s) (world s)).

Create HintDb conn discriminated.
#[export] Hint Constants Opaque : conn.
Ltac minor_step := apply minor_change; split_and!; first [reflexivity|by left|by right; right].
Ltac bookkeeping := respects; first [solve [minor_step]|auto with conn typeclass_instances nocore].

Section Frame.
Context {W : Type} `{!ProtocolOps W}.
Context (R : state W -> list request -> state W -> Prop) `{!Composes R, !Minor R}.

(** ** The steps *)

Lemma update_minor f : (forall c, minor c (f c)) -> respects R (update f).
Proof. intros Hf. apply respects_modify. intros s. apply minor_change, Hf. Qed.
Lemma log_minor b : respects R (modify (fun s : state W => mkState (conn s) b (world s))).
Proof. apply respects_modify. intros s. apply minor_change. by split_and!; [| | |left]. Qed.
Lemma emit_minor r : match r with Write_message _ => False | _ => True end -> respects R (emit r).
Proof. intros Hr. apply respects_emit. intros s. by apply minor_request. Qed.
Lemma get_minor {A} (f : t -> A) : respects R (get f).
Proof. apply respects_gets, _. Qed.
Lemma is_state_minor sts : respects R (is_state sts).
Proof. apply get_minor. Qed.

(** [setPending] with the count of writes the connection has. *)
Lemma pending_minor {A} g (k : proc (state W) request A) :
  respects R k -> respects R (w ← get m_pendingWrite; r ← get m_pendingRead; _ ← update (setPending w (g r)); k).
Proof.
  intros Hk s a s' out E. unfold get, update in E. autorewrite with proc in E.
  apply (composes_trans (R := R) s [] (mkState (setPending (m_pendingWrite (conn s)) (g (m_pendingRead (conn s))) (conn s))
    (m_logError s) (world s)) out s'); [|by eapply Hk].
  apply minor_change. by split_and!; [| | |right; left].
Qed.
Lemma finishRead_minor : respects R finishRead.
Proof.
  intros s a s' out E. unfold finishRead, get, update in E. autorewrite with proc in E. injection E as <- <- <-.
  apply minor_change. by split_and!; [| | |right; left].
Qed.

#[local] Hint Resolve get_minor is_state_minor log_minor finishRead_minor : conn.
#[local] Hint Extern 0 (respects _ (update _)) => apply respects_modify; intros; minor_step : conn.
#[local] Hint Extern 0 (respects _ (emit _)) => apply emit_minor; exact I : conn.

(** ** The handlers *)

Lemma close_minor : respects R close.
Proof. unfold close. bookkeeping. Qed.
#[local] Hint Resolve close_minor : conn.
Lemma logged_minor k : respects R k -> respects R (logged k).
Proof. intros Hk. unfold logged. bookkeeping. Qed.
#[local] Hint Extern 0 (respects _ (logged _)) => apply logged_minor; bookkeeping : conn.
(** A socket is closed when it is open. *)
Lemma closeSocket_minor e : respects R (closeSocket e).
Proof.
  intros s [] s' out E. unfold closeSocket, get in E. rewrite bind_gets in E.
  destruct (m_socket (conn s)) eqn:Hs; [|injection E as <- <-; apply (composes_refl (R := R))|done].
  apply bind_inv in E as ([] & s1 & o1 & o2 & E1 & E & ->). injection E1 as <- <-.
  apply (composes_trans (R := R) s [] (mkState (setPending 0 0 (conn s)) (m_logError s) (world s)) o2 s').
  { apply minor_change. by split_and!; [| | |right; right]. }
  destruct (closeFault e); [revert E; assert (respects R (logged skip)) as Hl by bookkeeping; apply Hl|].
  apply bind_inv in E as ([] & s2 & o3 & o4 & E2 & E & ->). injection E2 as <- <-. injection E as <- <-.
  apply (composes_trans (R := R) _ [] (mkState (setSocket SocketClosed (setPending 0 0 (conn s))) (m_logError s) (world s)) [Shutdown_socket]).
  - apply (minor_change (R := R) (mkState (setPending 0 0 (conn s)) (m_logError s) (world s))). cbn [conn].
    split_and!; [done|done| |by left]. cbn. by rewrite Hs.
  - by apply minor_request.
Qed.
Lemma getHandle_minor : respects R getHandle.
Proof. unfold getHandle. bookkeeping. Qed.
Lemma deleteConnection_minor e : respects R (deleteConnection e).
Proof. unfold deleteConnection. bookkeeping. Qed.
#[local] Hint Resolve closeSocket_minor getHandle_minor deleteConnection_minor : conn.
Lemma releaseConnection_minor e : respects R (releaseConnection e).
Proof. unfold releaseConnection. bookkeeping. Qed.
Lemma onStop_minor : Stopping R -> respects R onStop.
Proof.
  intros Hstop. unfold onStop. do 2 (apply respects_bind; [done|bookkeeping|intros _]).
  intros s [] s' out E. unfold get in E. rewrite bind_gets in E.
  apply bind_inv in E as ([] & s1 & o1 & o2 & E1 & E & ->).
  assert (s1 = s /\ R s o1 s /\ m_socket (conn s) <> SocketNull) as (-> & H1 & Hs).
  { destruct (m_socket (conn s)); [injection E1 as <- <-|injection E1 as <- <-|done]; split_and!; try done;
      [by apply minor_request|apply (composes_refl (R := R))]. }
  eapply (composes_trans (R := R)); [exact H1|]. apply bind_inv in E as ([] & s2 & o3 & o4 & E2 & E & ->). injection E2 as <- <-.
  eapply (composes_trans (R := R)); [by apply stopping|].
  assert (respects R (_ ← emit Delete_socket; emit Manager_releaseConnection)) as Hr by bookkeeping. by eapply Hr.
Qed.

Lemma startRead_minor e k op :
  respects R k -> match op with Write_message _ => False | _ => True end -> respects R (startRead e k op).
Proof. intros Hk Hop%emit_minor. unfold startRead. apply pending_minor. bookkeeping. Qed.
#[local] Hint Extern 0 (respects _ (startRead _ _ _)) => apply startRead_minor; [bookkeeping|exact I] : conn.
Lemma readHeader_minor e : respects R (readHeader e).
Proof. unfold readHeader. bookkeeping. Qed.
Lemma handleReadError_minor error : respects R (handleReadError error).
Proof. unfold handleReadError. bookkeeping. Qed.
Lemma handleWriteError_minor error : respects R (handleWriteError error).
Proof. unfold handleWriteError. bookkeeping. Qed.
#[local] Hint Resolve handleReadError_minor handleWriteError_minor : conn.
Lemma fill_minor off bytes : respects R (fill off bytes).
Proof. unfold fill. bookkeeping. Qed.
Lemma parseHeader_minor e error : respects R (parseHeader e error).
Proof. unfold parseHeader. bookkeeping. Qed.
Lemma readTimer_minor e expired error : respects R (handleReadTimeout e expired error).
Proof. unfold handleReadTimeout, onReadTimeout. bookkeeping. Qed.
Lemma writeTimer_minor e expired error : respects R (handleWriteTimeout e expired error).
Proof. unfold handleWriteTimeout, onWriteTimeout. bookkeeping. Qed.

(** ** A packet

    Up to the protocol's handlers it is bookkeeping. *)

Lemma packetRate_minor e c within c' : packetRate e c = Some (within, c') -> minor c c'.
Proof. unfold packetRate. repeat case_match; try done; intros [= <- <-]; by split_and!; [| | |left]. Qed.

Section Packet.
Context (P : state W -> list request -> state W -> Prop).
Context (Hthen : forall s1 o1 s2 o2 s3, R s1 o1 s2 -> P s2 o2 s3 -> P s1 (o1 ++ o2) s3) (Hsub : forall s out s', R s out s' -> P s out s').

Lemma packet_free {A} (m : proc (state W) request A) : respects R m -> respects P m.
Proof. intros Hm s a s' out E. by eapply Hsub, Hm. Qed.

Lemma packet_after {A B} (m : proc (state W) request A) (k : A -> proc (state W) request B) :
  respects R m -> (forall a, respects P (k a)) -> respects P (m ≫= k).
Proof.
  intros Hm Hk s b s' out (a & s1 & o1 & o2 & E1 & E2 & ->)%bind_inv. eapply Hthen; [by eapply Hm|by eapply Hk].
Qed.

Lemma packet_rate {A} e (k : bool -> proc (state W) request A) :
  (forall within, respects P (k within)) ->
  respects P (c ← get id; r ← lift (packetRate e c); let '(within, c) := r in _ ← update (fun _ => c); k within).
Proof.
  intros Hk s a s' out E. unfold get, update in E. autorewrite with proc in E.
  destruct (packetRate e _) as [[within c]|] eqn:Er; [|done]. autorewrite with proc in E.
  apply (Hthen s [] (mkState c (m_logError s) (world s)) out s'); [eapply minor_change, packetRate_minor, Er|by eapply Hk].
Qed.

Lemma parsePacket_rule e error :
  (forall checksumEnabled s s' out, m_receivedFirst (conn s) = false ->
     (made ← firstPacket checksumEnabled; if negb made then close else _ ← deliver e onRecvFirstMessage; readHeader e) s =
       Some (tt, s', out) -> P s out s') ->
  (forall s s' out, (_ ← deliver e onRecvMessage; readHeader e) s = Some (tt, s', out) -> P s out s') ->
  respects P (parsePacket e error).
Proof.
  intros Hfirst Hnext. unfold parsePacket. do 4 (apply packet_after; [bookkeeping|intros ?]).
  case_match; [apply packet_free; bookkeeping|]. apply packet_rate. intros within. case_match; [apply packet_free; bookkeeping|].
  do 3 (apply packet_after; [bookkeeping|intros ?]). case_match. apply packet_after; [bookkeeping|intros _].
  intros s [] s' out E. unfold get in E at 1. rewrite bind_gets in E. destruct (m_receivedFirst (conn s)) eqn:Hf; [by apply Hnext|].
  eapply Hfirst; [exact Hf|exact E].
Qed.

End Packet.
End Frame.

#[export] Hint Resolve get_minor is_state_minor log_minor finishRead_minor close_minor closeSocket_minor getHandle_minor
  deleteConnection_minor releaseConnection_minor readHeader_minor handleReadError_minor handleWriteError_minor
  fill_minor parseHeader_minor readTimer_minor writeTimer_minor : conn.
#[export] Hint Extern 0 (respects _ (update _)) => apply respects_modify; intros; minor_step : conn.
#[export] Hint Extern 0 (respects _ (emit _)) => apply emit_minor; [apply _|exact I] : conn.
#[export] Hint Extern 0 (respects _ onStop) => apply onStop_minor; apply _ : conn.
#[export] Hint Extern 0 (respects _ (logged _)) => apply logged_minor; [apply _|apply _|bookkeeping] : conn.

End ConnFrame.
