(* ===== verification/ConnLife.v ===== *)
(** * The life of a connection

    Every handler of [Conn] terminates without undefined behaviour on a connection in
    good order, and the posted work follows the connection's state. *)
From S2P Require Import Prelude Proc Bytes Definitions NetMessage Checksum Cipher OutMessage Proto Conn.

Module ConnectionLife.
Import Connection.

(** The message as a packet's handlers get it: the packet is in the buffer, and one byte
    further on for the first one, whose protocol identifier has been read. *)
Record packet (m : NetworkMessage.t) : Prop := {
  packet_readable : NetworkMessage.readable m;
  packet_position : 2 <= NetworkMessage.m_position m <= 6;
  packet_size : NetworkMessage.m_size m <= NETWORK_MAX_SIZE - 8
}.
Record first_packet (m : NetworkMessage.t) : Prop := {
  first_readable : NetworkMessage.readable m;
  first_position : NetworkMessage.m_position m <= 7;
  first_size : NetworkMessage.m_size m <= NETWORK_MAX_SIZE - 8
}.

Lemma packet_first m : packet m -> first_packet m.
Proof. intros [? ? ?]. split; [done|lia|done]. Qed.

(** The protocol identifier is taken from a packet. *)
Lemma get1_first m :
  packet m -> exists v m', NetworkMessage.get 1 false m = Some (v, m') /\ first_packet m'.
Proof.
  intros [Hr Hp Hs]. destruct (NetworkMessage.get_readable 1 false m Hr) as (v & m' & E & Hr'); [lia|].
  exists v, m'. split; [done|]. unfold NetworkMessage.get in E. inv_opt; [split; [done|lia|done]|].
  split; [done|..]; cbn; [|done]. rewrite wrapu_small by lia. lia.
Qed.

(** What the protocols of a connection promise: a protocol that is there can be bound and
    released, the handlers of one that is bound to this connection ([owns]) accept any
    packet, leave a well-formed message and stay bound, all in good order.  Without a
    protocol the world is [idle] for this connection; releasing is only asked for while
    the world is within its bounds. *)
Class ProtocolLaws (W : Type) `{!ProtocolOps W} := {
  world_ok : W -> Prop;
  idle : W -> Prop;
  alive : nat -> W -> Prop;
  owns : nat -> W -> Prop;
  bounded : W -> Prop;
  owns_alive p w : world_ok w -> owns p w -> alive p w;
  onConnect_ok p w : world_ok w -> owns p w ->
    exists cbs w', onConnect p w = Some (cbs, w') /\ world_ok w' /\ owns p w';
  bind_ok p w : world_ok w -> idle w -> alive p w ->
    exists w', setConnection p true w = Some w' /\ world_ok w' /\ owns p w';
  letgo_ok p w : world_ok w -> alive p w -> bounded w ->
    exists w1 w2, setConnection p false w = Some w1 /\ releaseProtocol p w1 = Some w2 /\ world_ok w2;
  makeProtocol_ok ck m w : packet m -> world_ok w ->
    exists p m' w', makeProtocol ck m w = Some (p, m', w') /\ first_packet m' /\ world_ok w' /\
      (idle w -> idle w') /\ (forall q, p = Some q -> alive q w');
  onRecvFirstMessage_ok p m w : first_packet m -> world_ok w -> owns p w ->
    exists cbs m' w', onRecvFirstMessage p m w = Some (cbs, m', w') /\ NetworkMessage.wf m' /\ world_ok w' /\ owns p w';
  onRecvMessage_ok p m w : packet m -> world_ok w -> owns p w ->
    exists cbs m' w', onRecvMessage p m w = Some (cbs, m', w') /\ NetworkMessage.wf m' /\ world_ok w' /\ owns p w';
  onSendMessage_ok msg w : world_ok w ->
    exists w', onSendMessage msg w = Some w' /\ world_ok w' /\ (idle w -> idle w') /\ (forall p, owns p w -> owns p w')
}.

Section Life.
Context {W : Type} `{!ProtocolOps W, !ProtocolLaws W}.

(** ** A connection in good order *)

Record ok (s : state W) : Prop := {
  ok_msg : NetworkMessage.wf (m_msg (conn s));
  ok_socket : m_socket (conn s) <> SocketNull;
  ok_protocol : m_connectionState (conn s) = CONNECTION_STATE_OPEN ->
    m_receivedFirst (conn s) = true -> m_protocol (conn s) <> None;
  ok_released : m_connectionState (conn s) = CONNECTION_STATE_CLOSING \/
    m_connectionState (conn s) = CONNECTION_STATE_CLOSED -> m_protocol (conn s) = None;
  ok_time : 0 <= m_time (conn s) < 2 ^ 32 - 2;
  ok_refs : 0 <= m_refCount (conn s);
  ok_world : world_ok (world s);
  ok_owns : forall p, m_protocol (conn s) = Some p -> owns p (world s);
  ok_idle : m_protocol (conn s) = None ->
    m_connectionState (conn s) = CONNECTION_STATE_OPEN \/
    m_connectionState (conn s) = CONNECTION_STATE_REQUEST_CLOSE -> idle (world s)
}.

(** What a handler may do besides its own business: request the closure, once; the
    connection keeps its protocol, and leaves the protocols alone when it is not open. *)
Record moves (s : state W) (out : list request) (s' : state W) : Prop := {
  mv_state :
    (m_connectionState (conn s') = m_connectionState (conn s) /\
     requests_of AddTask_closeConnection out = 0%nat) \/
    (m_connectionState (conn s) = CONNECTION_STATE_OPEN /\
     m_connectionState (conn s') = CONNECTION_STATE_REQUEST_CLOSE /\
     requests_of AddTask_closeConnection out = 1%nat);
  mv_release : requests_of AddEvent_releaseConnection out = 0%nat;
  mv_stop : requests_of Post_onStop out = 0%nat;
  mv_refs : m_refCount (conn s') = m_refCount (conn s);
  mv_world : m_connectionState (conn s) <> CONNECTION_STATE_OPEN -> world s' = world s;
  mv_protocol : forall p, m_protocol (conn s) = Some p -> m_protocol (conn s') = Some p
}.

(** As [moves], without touching the message or starting a read. *)
Record keeps (s : state W) (out : list request) (s' : state W) : Prop := {
  kp_moves : moves s out s';
  kp_msg : m_msg (conn s') = m_msg (conn s);
  kp_read : forall d, next_read out d = d
}.

(** A read in progress other than of a packet. *)
Definition no_packet (d : reading_t) : Prop := forall size, d <> AwaitPacket size.

(** As [moves], never waiting for a packet. *)
Record waits (s : state W) (out : list request) (s' : state W) : Prop := {
  wt_moves : moves s out s';
  wt_read : forall d, no_packet d -> no_packet (next_read out d)
}.

(** The message has been made ready for a packet of [size] bytes. *)
Definition packet_ready (size : Z) (s : state W) : Prop :=
  NetworkMessage.m_position (m_msg (conn s)) = NETWORK_HEADER_SIZE /\
  NetworkMessage.m_size (m_msg (conn s)) = size + NETWORK_HEADER_SIZE /\
  0 < size < NETWORK_MAX_SIZE - 16.

(** As [moves]; a packet is waited for only when the message is ready for it. *)
Record awaits (s : state W) (out : list request) (s' : state W) : Prop := {
  aw_moves : moves s out s';
  aw_read : forall d size, no_packet d -> next_read out d = AwaitPacket size -> packet_ready size s'
}.

Lemma requests_of_app r out1 out2 :
  requests_of r (out1 ++ out2) = (requests_of r out1 + requests_of r out2)%nat.
Proof. unfold requests_of. by rewrite filter_app, length_app. Qed.

Lemma next_read_app out1 out2 d : next_read (out1 ++ out2) d = next_read out2 (next_read out1 d).
Proof. apply fold_left_app. Qed.

Class Reach (R : state W -> list request -> state W -> Prop) : Prop := {
  reach_refl s : R s [] s;
  reach_trans s1 out1 s2 out2 s3 : R s1 out1 s2 -> R s2 out2 s3 -> R s1 (out1 ++ out2) s3
}.

#[export] Instance moves_reach : Reach moves.
Proof.
  split.
  - intros s. split; auto.
  - intros s1 out1 s2 out2 s3 [H1 R1 S1 C1 W1 P1] [H2 R2 S2 C2 W2 P2].
    split; rewrite ?requests_of_app, ?R1, ?R2, ?S1, ?S2; [|done|done|congruence| |auto].
    2:{ intros Hn. rewrite <- W1 by done. apply W2. destruct H1 as [[-> _]|(? & _)]; done. }
    destruct H1 as [[E1 N1]|(E1 & E1' & N1)], H2 as [[E2 N2]|(E2 & E2' & N2)];
      rewrite N1, N2; [left|right|right|]; split_and?; try done; congruence.
Qed.

#[export] Instance keeps_reach : Reach keeps.
Proof.
  split.
  - intros s. split; [apply reach_refl|done|done].
  - intros s1 out1 s2 out2 s3 [M1 E1 N1] [M2 E2 N2].
    split; [by eapply reach_trans|congruence|]. intros d. by rewrite next_read_app, N1, N2.
Qed.

#[export] Instance waits_reach : Reach waits.
Proof.
  split.
  - intros s. split; [apply reach_refl|done].
  - intros s1 out1 s2 out2 s3 [M1 N1] [M2 N2]. split; [by eapply reach_trans|].
    intros d Hd. rewrite next_read_app. auto.
Qed.

Lemma keeps_waits s out s' : keeps s out s' -> waits s out s'.
Proof. intros [M _ N]. split; [done|]. intros d. by rewrite N. Qed.

Lemma waits_awaits s out s' : waits s out s' -> awaits s out s'.
Proof. intros [M N]. split; [done|]. intros d size Hd Hr. by destruct (N d Hd size). Qed.

Lemma waits_then_awaits s1 out1 s2 out2 s3 :
  waits s1 out1 s2 -> awaits s2 out2 s3 -> awaits s1 (out1 ++ out2) s3.
Proof.
  intros [M1 N1] [M2 N2]. split; [by eapply reach_trans|].
  intros d size Hd. rewrite next_read_app. apply N2. by apply N1.
Qed.

(** ** Total correctness of handlers, relative to [ok] and a reachability *)

Definition safe {A} (R : state W -> list request -> state W -> Prop) (s : state W)
    (m : proc (state W) request A) (post : A -> state W -> Prop) : Prop :=
  ok s -> exists a s' out, m s = Some (a, s', out) /\ ok s' /\ R s out s' /\ post a s'.

Definition any {A} (a : A) (s : state W) : Prop := True.

Lemma safe_sequence R1 R2 R3 {A B} s (m : proc (state W) request A) (k : A -> proc (state W) request B) mid post :
  (forall s1 out1 s2 out2 s3, R1 s1 out1 s2 -> R2 s2 out2 s3 -> R3 s1 (out1 ++ out2) s3) ->
  safe R1 s m mid ->
  (forall a s', ok s' -> mid a s' -> safe R2 s' (k a) post) ->
  safe R3 s (m ≫= k) post.
Proof.
  intros Hc Hm Hk Hs. destruct (Hm Hs) as (a & s1 & o1 & E1 & H1 & R1' & P1).
  destruct (Hk a s1 H1 P1 H1) as (b & s2 & o2 & E2 & H2 & R2' & P2).
  exists b, s2, (o1 ++ o2). unfold mbind, proc_bind. rewrite E1, E2. eauto.
Qed.

Lemma safe_subrel (R R' : state W -> list request -> state W -> Prop) {A} s
    (m : proc (state W) request A) post :
  (forall s out s', R s out s' -> R' s out s') -> safe R s m post -> safe R' s m post.
Proof. intros HR Hm Hs. destruct (Hm Hs) as (a & s' & o & ? & ? & ? & ?). eauto 9. Qed.

Section Rules.
Context (R : state W -> list request -> state W -> Prop) `{!Reach R}.

Lemma safe_bind {A B} s (m : proc (state W) request A) (k : A -> proc (state W) request B) mid post :
  safe R s m mid ->
  (forall a s', ok s' -> mid a s' -> safe R s' (k a) post) ->
  safe R s (m ≫= k) post.
Proof. apply safe_sequence. intros *. apply reach_trans. Qed.

Lemma safe_ret {A} s (a : A) (post : A -> state W -> Prop) :
  post a s -> safe R s (mret a) post.
Proof. intros Hp Hs. exists a, s, []. split_and!; try done. apply reach_refl. Qed.

Lemma safe_gets {A B} s (f : state W -> A) (k : A -> proc (state W) request B) post :
  safe R s (k (f s)) post -> safe R s (gets f ≫= k) post.
Proof.
  intros Hk Hs. destruct (Hk Hs) as (b & s' & o & E & H). exists b, s', o.
  unfold mbind, proc_bind, gets. by rewrite E.
Qed.

Lemma safe_lift {A} s (o : option A) a (post : A -> state W -> Prop) :
  o = Some a -> post a s -> safe R s (lift o) post.
Proof.
  intros -> Hp Hs. exists a, s, []. split_and!; try done. apply reach_refl.
Qed.

Lemma safe_modify s (f : state W -> state W) (post : unit -> state W -> Prop) :
  (ok s -> ok (f s)) -> R s [] (f s) -> post tt (f s) -> safe R s (modify f) post.
Proof. intros Hok HR Hp Hs. exists tt, (f s), []. split_and!; auto. Qed.

Lemma safe_emit s r (post : unit -> state W -> Prop) :
  R s [r] s -> post tt s -> safe R s (emit r) post.
Proof. intros HR Hp Hs. exists tt, s, [r]. split_and!; auto. Qed.

Lemma safe_weaken {A} s (m : proc (state W) request A) (post post' : A -> state W -> Prop) :
  safe R s m post -> (forall a s', ok s' -> post a s' -> post' a s') -> safe R s m post'.
Proof. intros Hm Hp Hs. destruct (Hm Hs) as (a & s' & o & ? & ? & ? & ?). eauto 9. Qed.

End Rules.

(** ** The handlers *)

Definition same_conn (s s' : state W) : Prop :=
  m_connectionState (conn s') = m_connectionState (conn s) /\
  m_refCount (conn s') = m_refCount (conn s) /\
  (m_connectionState (conn s) <> CONNECTION_STATE_OPEN -> world s' = world s) /\
  (forall p, m_protocol (conn s) = Some p -> m_protocol (conn s') = Some p).

Lemma moves_quiet s out s' :
  same_conn s s' -> requests_of AddTask_closeConnection out = 0%nat ->
  requests_of AddEvent_releaseConnection out = 0%nat -> requests_of Post_onStop out = 0%nat ->
  moves s out s'.
Proof. intros (? & ? & ? & ?) ???. split; auto. Qed.

Lemma waits_quiet s out s' :
  same_conn s s' -> (forall d, no_packet d -> no_packet (next_read out d)) ->
  requests_of AddTask_closeConnection out = 0%nat ->
  requests_of AddEvent_releaseConnection out = 0%nat -> requests_of Post_onStop out = 0%nat ->
  waits s out s'.
Proof. intros ?????. split; [by apply moves_quiet|done]. Qed.

Lemma keeps_quiet s out s' :
  same_conn s s' -> m_msg (conn s') = m_msg (conn s) -> (forall d, next_read out d = d) ->
  requests_of AddTask_closeConnection out = 0%nat ->
  requests_of AddEvent_releaseConnection out = 0%nat -> requests_of Post_onStop out = 0%nat ->
  keeps s out s'.
Proof. intros ??????. split; [by apply moves_quiet|done|done]. Qed.

Ltac quiet := first [apply keeps_quiet; solve [done|split; done]
                    | apply waits_quiet; solve [done|split; done|by intros]
                    | apply waits_awaits, waits_quiet; solve [done|split; done|by intros]].
Ltac keep_ok := intros [?????????]; split; cbn in *; solve [done|lia|auto].
Ltac start := unfold is_state, get, update, onWorld, skip.
Ltac handler_step :=
  match goal with
  | |- safe _ _ (mbind _ (gets _)) _ => apply safe_gets
  | |- safe _ _ (mbind _ (modify _)) _ =>
      apply safe_bind with (mid := any); [apply _|apply safe_modify; [keep_ok|quiet|done]|intros [] ? _ _]
  | |- safe _ _ (mbind _ (emit _)) _ =>
      apply safe_bind with (mid := any); [apply _|apply safe_emit; [quiet|done]|intros [] ? _ _]
  | |- safe _ _ (mbind _ (mret _)) _ =>
      apply safe_bind with (mid := any); [apply _|apply safe_ret; [apply _|done]|intros [] ? _ _]
  | |- safe _ _ (mret _) _ => apply safe_ret; [apply _|done]
  | |- safe _ _ (emit _) _ => apply safe_emit; [quiet|done]
  | |- safe _ _ (modify _) _ => apply safe_modify; [keep_ok|quiet|done]
  | |- safe _ _ (if ?b then _ else _) _ => destruct b eqn:?
  end.
Ltac handler := start; repeat handler_step.

Lemma close_safe s : safe keeps s close any.
Proof.
  intros Hs. unfold close, is_state, get. destruct (m_connectionState (conn s)) eqn:E;
    unfold mbind, proc_bind, gets, update, modify, emit, skip; rewrite E; cbn;
    (eexists tt, _, _; split; [done|]; split_and!; [|split; [split|..]|done]); try done; auto.
  destruct Hs. split; cbn; try done; auto. intros []; done.
Qed.

Lemma logged_safe s k : (forall s', safe keeps s' k any) -> safe keeps s (logged k) any.
Proof. intros Hk. unfold logged. handler. apply Hk. Qed.

Lemma closeSocket_safe e s : safe keeps s (closeSocket e) any.
Proof.
  unfold closeSocket. start. apply safe_gets.
  destruct (m_socket (conn s)) eqn:E; [|by handler|intros []; done].
  handler. apply logged_safe. intros. handler.
Qed.

Lemma getHandle_same s : safe keeps s getHandle (fun _ s' => s' = s).
Proof.
  intros Hs. pose proof (ok_socket _ Hs).
  exists tt, s, []. split_and!; try done; [|apply reach_refl].
  unfold getHandle, get, gets, mbind, proc_bind. by destruct (m_socket (conn s)).
Qed.

Lemma getHandle_safe s : safe keeps s getHandle any.
Proof. eapply safe_weaken; [apply getHandle_same|done]. Qed.

Lemma internalSend_safe e msg s : safe keeps s (internalSend e msg) any.
Proof.
  unfold internalSend. handler. destruct (fault e); handler; try (apply logged_safe; intros; handler).
  eapply safe_bind; [apply _|apply getHandle_safe|]. intros. handler.
Qed.

Lemma encode_safe msg s : m_connectionState (conn s) = CONNECTION_STATE_OPEN -> safe keeps s (encode msg) any.
Proof.
  intros Hopen Hs. destruct (onSendMessage_ok msg (world s) (ok_world s Hs)) as (w' & Hw & Hw' & Hi & Ho).
  revert Hs. unfold encode, callWorld. apply safe_gets. eapply safe_bind; [apply _| |].
  - apply safe_lift with (a := w') (post := fun a s' => a = w' /\ s' = s); [apply _|done|done].
  - intros a s' _ [-> ->]. start. apply safe_modify; [| |done].
    + intros []. split; cbn; auto.
    + by apply keeps_quiet.
Qed.

Lemma is_open (s : state W) (b : bool) :
  negb (bool_decide (m_connectionState (conn s) ∈ [CONNECTION_STATE_OPEN])) || b = false ->
  m_connectionState (conn s) = CONNECTION_STATE_OPEN.
Proof.
  intros [Eo _]%orb_false_iff. apply negb_false_iff, bool_decide_eq_true_1 in Eo.
  by apply list_elem_of_singleton in Eo.
Qed.

Lemma send_safe e msg s : safe keeps s (send e msg) any.
Proof.
  unfold send. handler.
  eapply safe_bind with (mid := any); [apply _| |intros; handler].
  handler; [|apply close_safe].
  eapply safe_bind; [apply _|apply encode_safe; by eapply is_open|]. intros. apply internalSend_safe.
Qed.

Lemma run_callback_safe e cb s : safe keeps s (run_callback e cb) any.
Proof.
  destruct cb; cbn [run_callback]; [apply close_safe|].
  eapply safe_bind; [apply _|apply send_safe|]. intros. handler.
Qed.

Lemma for_each_safe {X} (f : X -> proc (state W) request unit) xs s :
  (forall x s, safe keeps s (f x) any) -> safe keeps s (for_each f xs) any.
Proof.
  intros Hf. revert s. induction xs as [|x xs IH]; intros s; cbn [for_each]; [by handler|].
  eapply safe_bind; [apply _|apply Hf|]. intros. apply IH.
Qed.

Lemma safe_keeps_waits {A} s (m : proc (state W) request A) post :
  safe keeps s m post -> safe waits s m post.
Proof. apply safe_subrel, keeps_waits. Qed.

Lemma readHeader_safe e s : safe waits s (readHeader e) any.
Proof.
  unfold readHeader, startRead. handler.
  destruct (fault e); handler; try (apply safe_keeps_waits, logged_safe; intros; apply close_safe);
    (eapply safe_bind; [apply _|apply safe_keeps_waits, getHandle_safe|]); intros; handler.
  apply safe_keeps_waits, logged_safe. intros. apply close_safe.
Qed.

Lemma startRead_packet_safe e m off size s :
  NetworkMessage.wf m -> NetworkMessage.m_position m = NETWORK_HEADER_SIZE ->
  NetworkMessage.m_size m = size + NETWORK_HEADER_SIZE -> 0 < size < NETWORK_MAX_SIZE - 16 ->
  safe awaits s (startRead e (update (setMsg m)) (Read_packet off size)) any.
Proof.
  intros Hwf Hp Hs Hr. unfold startRead. start. do 2 apply safe_gets.
  eapply safe_sequence with (mid := any); [apply waits_then_awaits|apply safe_modify; [keep_ok|quiet|done]|].
  intros [] s1 _ _.
  assert (forall s, safe awaits s (logged close) any) as Hclose.
  { intros. eapply safe_subrel; [apply waits_awaits|].
    apply safe_keeps_waits, logged_safe. intros. apply close_safe. }
  destruct (fault e); [|apply Hclose|].
  all: eapply safe_sequence with (mid := any); [apply waits_then_awaits|apply safe_emit; [quiet|done]|].
  all: intros [] s2 _ _.
  all: eapply safe_sequence with (mid := fun _ s => packet_ready size s);
    [apply waits_then_awaits|apply safe_modify; [keep_ok|quiet|done]|].
  all: intros [] s3 _ H3; eapply safe_sequence with (mid := fun _ s' => s' = s3);
    [apply waits_then_awaits|apply safe_keeps_waits, getHandle_same|intros [] s4 _ ->].
  - apply safe_emit; [|done]. split; [by apply moves_quiet|].
    intros d size' _ [= <-]. done.
  - apply Hclose.
Qed.

Lemma handleReadError_safe error s : safe keeps s (handleReadError error) any.
Proof.
  unfold handleReadError. eapply safe_bind with (mid := any); [apply _| |intros; handler].
  destruct error; handler; apply close_safe.
Qed.

Lemma handleWriteError_safe error s : safe keeps s (handleWriteError error) any.
Proof.
  unfold handleWriteError. eapply safe_bind with (mid := any); [apply _| |intros; handler].
  destruct error; handler; apply close_safe.
Qed.

Lemma decodeHeader_total m :
  NetworkMessage.wf m -> exists size m', NetworkMessage.decodeHeader m = Some (size, m') /\
    NetworkMessage.wf m'.
Proof.
  intros Hwf. unfold NetworkMessage.decodeHeader.
  destruct (buf_read (NetworkMessage.m_buffer m) 0 2) as [b|] eqn:Hr.
  - cbn [mbind option_bind]. eexists _, _. split; [done|]. by apply NetworkMessage.setSize_wf.
  - apply buf_read_None in Hr. pose proof (NetworkMessage.wf_length _ Hwf).
    NetworkMessage.consts. lia.
Qed.

Lemma finishRead_safe s : safe keeps s finishRead any.
Proof. unfold finishRead. handler. Qed.

Lemma parseHeader_safe e error s : safe awaits s (parseHeader e error) any.
Proof.
  unfold parseHeader. eapply safe_sequence with (mid := any); [apply waits_then_awaits|start; apply safe_emit; [quiet|done]|].
  intros [] s1 Hok1 _. start. apply safe_gets.
  destruct (decodeHeader_total (m_msg (conn s1)) (ok_msg _ Hok1)) as (size & m & Hd & Hwf).
  eapply safe_sequence with (mid := fun a s' => a = (size, m));
    [apply waits_then_awaits|apply safe_lift with (a := (size, m)); [apply _|done|done]|].
  intros a s2 _ ->. cbv iota beta.
  eapply safe_sequence with (mid := any); [apply waits_then_awaits|apply safe_modify; [keep_ok|quiet|done]|].
  intros [] s3 _ _.
  eapply safe_sequence with (mid := fun _ s' => 0 < size < NETWORK_MAX_SIZE - 16 \/ m_readError (conn s') = true);
    [apply waits_then_awaits| |].
  { destruct (_ || _) eqn:E.
    - intros Hs. destruct (handleReadError_safe error s3 Hs) as (a & s4 & o & E4 & H4 & K4 & _).
      exists a, s4, o. split_and!; [done|done|by apply keeps_waits|]. right.
      revert E4. unfold handleReadError, mbind at 1, proc_bind at 1. unfold update, modify.
      destruct (_ s3) as [[[[] ?] ?]|]; [|done]. by intros [= <- <- <-].
    - apply safe_ret; [apply _|]. apply orb_false_iff in E as [[_ E1]%orb_false_iff E2].
      left. lia. }
  intros [] s4 _ Hsize. apply safe_gets, safe_gets.
  destruct (_ || _) eqn:E.
  { eapply safe_subrel; [apply waits_awaits|]. apply safe_keeps_waits, close_safe. }
  apply orb_false_iff in E as [_ E]. destruct Hsize as [Hsize|Hsize]; [|congruence].
  eapply safe_sequence with (mid := any); [apply waits_then_awaits|apply safe_keeps_waits, finishRead_safe|].
  intros [] s5 _ _. cbn [NetworkMessage.writeBuffer].
  NetworkMessage.consts.
  apply startRead_packet_safe; [|done| |done].
  - by apply NetworkMessage.setPosition_wf, NetworkMessage.setSize_wf.
  - cbn. rewrite wrapu_small; [done|]. lia.
Qed.

Lemma packetRate_total e c :
  env_ok e -> 0 <= m_time c < 2 ^ 32 - 2 ->
  exists within time packets, packetRate e c = Some (within, setRate time packets c) /\
    0 <= time < 2 ^ 32 - 2.
Proof.
  intros He Hc. unfold env_ok in He. unfold packetRate. rewrite wrapu_small by lia.
  destruct (Z.eqb_spec (Z.max 1 (now e - m_time c + 1)) 0); [lia|].
  destruct (_ <? _); [by eexists _, _, _|].
  destruct (_ <? _); [by exists true, (now e), 0|by eexists _, _, _].
Qed.

Lemma verifyChecksum_total m size :
  NetworkMessage.wf m -> NetworkMessage.m_position m = NETWORK_HEADER_SIZE ->
  NetworkMessage.m_size m = size + NETWORK_HEADER_SIZE -> 0 < size < NETWORK_MAX_SIZE - 16 ->
  exists ck m', verifyChecksum m = Some (ck, m') /\ packet m'.
Proof.
  intros Hwf Hp Hs Hr. pose proof (NetworkMessage.wf_length _ Hwf) as Hl. NetworkMessage.consts.
  assert (NetworkMessage.readable m) as Hrd by (split; NetworkMessage.consts; [done|lia]).
  unfold verifyChecksum, NetworkMessage.get. NetworkMessage.consts. rewrite Hp, Hs.
  change (u32 (16384 - 2) <=? 4) with false. cbv iota.
  rewrite buf_read_Some by lia. cbn [mbind option_bind]. rewrite Hp.
  assert (exists checksum, (if 0 <? u32 (size + 2 - 2 - 4)
    then Checksum.adlerChecksumAt (NetworkMessage.m_buffer m) (2 + 4) (u32 (size + 2 - 2 - 4))
    else Some 0) = Some checksum) as [checksum ->].
  { destruct (0 <? _) eqn:E0; [|eauto]. apply Z.ltb_lt in E0. unfold Checksum.adlerChecksumAt.
    NetworkMessage.consts. destruct (_ || _) eqn:E; [eauto|].
    apply orb_false_iff in E as [E _]. apply Z.ltb_ge in E.
    assert (u32 (size + 2 - 2 - 4) = size - 4 /\ 0 < size - 4) as [-> ?] by width_lia.
    rewrite buf_read_Some by lia. cbn [mbind option_bind]. eauto. }
  cbn [mbind option_bind]. destruct (_ =? _);
    (eexists _, _; split; [done|]; split; cbn [NetworkMessage.m_position NetworkMessage.m_size]);
    NetworkMessage.consts; rewrite ?Hp, ?Hs; try done; try lia.
  - split; [by apply NetworkMessage.setPosition_wf|]. unfold NetworkMessage.skip. by rewrite Hp.
  - unfold NetworkMessage.skip. rewrite Hp. by vm_compute.
  - unfold NetworkMessage.skip, NetworkMessage.setPosition. cbn. lia.
Qed.

Lemma skip1_first m : packet m -> first_packet (NetworkMessage.skip 1 m).
Proof.
  intros [[Hwf Hp] Hpos Hs]. NetworkMessage.consts. split; [split|..];
    NetworkMessage.consts; unfold NetworkMessage.skip; cbn; rewrite ?wrapu_small by lia; try lia.
  by apply NetworkMessage.setPosition_wf.
Qed.

(** The first packet: either a protocol is there to take it, or the connection is
    closed. *)
Lemma firstPacket_safe ck (k : proc (state W) request unit) s :
  m_connectionState (conn s) = CONNECTION_STATE_OPEN ->
  packet (m_msg (conn s)) ->
  (forall s', m_connectionState (conn s') = CONNECTION_STATE_OPEN -> m_protocol (conn s') <> None ->
     first_packet (m_msg (conn s')) -> safe waits s' k any) ->
  safe waits s (made ← firstPacket ck; if negb made then close else k) any.
Proof.
  intros Hopen Hpk Hk Hs.
  assert (forall s1, firstPacket ck s = Some (true, s1, []) -> ok s1 -> same_conn s s1 ->
    m_protocol (conn s1) <> None -> first_packet (m_msg (conn s1)) ->
    exists a s' out, (made ← firstPacket ck; if negb made then close else k) s = Some (a, s', out) /\
      ok s' /\ waits s out s' /\ any a s') as Hgo.
  { intros s1 E Hs1 Hc Hp Hr. assert (m_connectionState (conn s1) = CONNECTION_STATE_OPEN) as Ho1 by (destruct Hc; congruence).
    destruct (Hk s1 Ho1 Hp Hr Hs1) as (a & s2 & o & E2 & H2 & W2 & _).
    exists a, s2, ([] ++ o). unfold mbind, proc_bind at 1. rewrite E. cbn [negb]. rewrite E2.
    split_and!; try done. eapply reach_trans; [|exact W2]. apply waits_quiet; done. }
  destruct Hs as [Hwf Hsk Hpr Hrel Ht Hrf Hw Hown Hidle].
  destruct (m_protocol (conn s)) as [p|] eqn:E.
  { pose proof (skip1_first _ Hpk) as Hf. eapply Hgo.
    - unfold firstPacket, get, gets, update, modify, mret, proc_ret, mbind, proc_bind. cbn. by rewrite E.
    - split; cbn; rewrite ?E; try done. apply Hf.
    - done.
    - cbn. by rewrite E.
    - exact Hf. }
  destruct (makeProtocol_ok ck (m_msg (conn s)) (world s) Hpk Hw) as ([p|] & m & w & Em & Hm & Hw' & Hidw & Ha).
  { destruct (bind_ok p w Hw') as (w' & Ew & Hw'' & Ho); [auto..|].
    eapply Hgo.
    - unfold firstPacket, callWorld, get, gets, update, modify, onWorld, lift, modify, mret, proc_ret, mbind, proc_bind.
      cbn. rewrite E. cbn. rewrite Em. cbn. by rewrite Ew.
    - split; cbn; try done; [apply Hm|rewrite Hopen; by intros [?|?]|]. by intros q [= <-].
    - split_and!; try done. intros q Hq. congruence.
    - done.
    - done. }
  eexists tt, _, _. split.
  { unfold firstPacket, close, is_state, get, gets, update, modify, onWorld, lift, modify, emit, mret,
      proc_ret, mbind, proc_bind. cbn. rewrite E. cbn. rewrite Em. cbn. rewrite Hopen. cbn. done. }
  split_and!; [|split; [split|]|done]; cbn; auto; try done; [|intros p Hp; congruence].
  split; cbn; try done; [apply Hm|auto].
Qed.

(** A handler of the connection's protocol, on a message it accepts. *)
Definition accepts (good : NetworkMessage.t -> Prop)
    (f : nat -> NetworkMessage.t -> W -> option (list callback * NetworkMessage.t * W)) : Prop :=
  forall p m w, good m -> world_ok w -> owns p w ->
    exists cbs m' w', f p m w = Some (cbs, m', w') /\ NetworkMessage.wf m' /\ world_ok w' /\ owns p w'.

Lemma deliver_safe e good f s :
  m_connectionState (conn s) = CONNECTION_STATE_OPEN ->
  good (m_msg (conn s)) -> m_protocol (conn s) <> None -> accepts good f ->
  safe waits s (deliver e f) any.
Proof.
  intros Hopen Hg Hp Hf Hs. destruct (m_protocol (conn s)) as [p|] eqn:Ep; [|done].
  destruct (Hf p (m_msg (conn s)) (world s) Hg (ok_world _ Hs) (ok_owns _ Hs p Ep))
    as (cbs & m & w & E & Hm & Hw & Ho).
  pose proof (ok_time _ Hs). revert Hs. unfold deliver. start. apply safe_gets. rewrite Ep.
  unfold call_protocol. start. do 2 apply safe_gets.
  eapply safe_bind with (mid := fun r s' => r = (cbs, m, w) /\ s' = s);
    [apply _|by eapply safe_lift; [apply _|exact E|]|].
  intros r s1 _ [-> ->]. cbv iota beta.
  change (modify (fun s0 : state W => mkState (setMsg m (conn s0)) (m_logError s0) (world s0)))
    with (update (W := W) (setMsg m)).
  intros Hs. unfold update, modify at 1 2, mbind at 1 2, proc_bind at 1 2.
  set (s2 := mkState (setMsg m (conn s)) (m_logError s) w).
  assert (ok s2) as H2.
  { destruct Hs. split; cbn; try done; [|congruence]. intros q Hq. rewrite Ep in Hq. by injection Hq as <-. }
  destruct (safe_keeps_waits s2 _ _ (for_each_safe (run_callback e) cbs s2
    (fun cb s => run_callback_safe e cb s)) H2) as (a & s3 & o & E3 & H3 & R3 & _).
  exists a, s3, ([] ++ ([] ++ o)). unfold s2 in *. cbn. rewrite E3. split_and!; try done.
  eapply (reach_trans (R := waits) s []); [|exact R3]. by apply waits_quiet.
Qed.

Lemma parsePacket_safe e error size s :
  env_ok e -> packet_ready size s -> safe waits s (parsePacket e error) any.
Proof.
  intros He Hpk. unfold parsePacket.
  eapply safe_bind with (mid := fun _ s' => m_msg (conn s') = m_msg (conn s));
    [apply _|apply safe_emit; [quiet|done]|].
  intros [] s1 _ E1.
  eapply safe_bind with (mid := fun _ s' => m_msg (conn s') = m_msg (conn s)); [apply _| |].
  { destruct (failed error); [|by apply safe_ret; [apply _|]].
    intros Hs. destruct (handleReadError_safe error s1 Hs) as (a & s' & o & E & H & K & _).
    exists a, s', o. split_and!; [done|done|by apply keeps_waits|]. by rewrite (kp_msg _ _ _ K). }
  intros [] s2 Hok2 E2. start. do 2 apply safe_gets.
  destruct (_ || _) eqn:Eo; [by apply safe_keeps_waits, close_safe|].
  apply orb_false_iff in Eo as [Eo _]. apply negb_false_iff, bool_decide_eq_true_1 in Eo.
  apply list_elem_of_singleton in Eo.
  apply safe_gets. cbn [id].
  destruct (packetRate_total e (conn s2) He (ok_time _ Hok2)) as (within & time & packets & Er & Ht).
  eapply safe_bind with (mid := fun r s' => r = (within, setRate time packets (conn s2)) /\ s' = s2);
    [apply _|eapply safe_lift; [apply _|exact Er|done]|].
  intros r s3 _ [-> ->]. cbv iota beta.
  eapply safe_bind with (mid := fun _ s' => conn s' = setRate time packets (conn s2));
    [apply _|apply safe_modify; [keep_ok|quiet|done]|].
  intros [] s3 _ E3.
  destruct within; cbn [negb]; [|by apply safe_keeps_waits, close_safe].
  eapply safe_bind with (mid := fun _ s' => m_msg (conn s') = m_msg (conn s) /\
      m_connectionState (conn s') = CONNECTION_STATE_OPEN); [apply _| |].
  { unfold finishRead. start. do 2 apply safe_gets. apply safe_modify; [keep_ok|quiet|].
    cbn. by rewrite E3. }
  intros [] s4 Hok4 [E4 Eo4]. apply safe_gets.
  destruct Hpk as (Hp & Hsz & Hr).
  destruct (verifyChecksum_total (m_msg (conn s4)) size) as (ck & m & Ev & Hm);
    [apply ok_msg, Hok4|by rewrite E4|by rewrite E4|done|].
  eapply safe_bind with (mid := fun r s' => r = (ck, m) /\ s' = s4);
    [apply _|eapply safe_lift; [apply _|exact Ev|done]|].
  intros r s5 _ [-> ->]. cbv iota beta.
  eapply safe_bind with (mid := fun _ s' => m_msg (conn s') = m /\
      m_connectionState (conn s') = CONNECTION_STATE_OPEN);
    [apply _|apply safe_modify; [destruct Hm as [[] _ _]; keep_ok|quiet|done]|].
  intros [] s5 Hok5 [E5 Eo5]. apply safe_gets.
  destruct (m_receivedFirst (conn s5)) eqn:Ef; cbn [negb].
  - eapply safe_bind with (mid := any); [apply _| |intros; apply readHeader_safe].
    apply (deliver_safe e packet); [done|by rewrite E5|by apply (ok_protocol _ Hok5)|].
    intros p. apply onRecvMessage_ok.
  - apply firstPacket_safe; [done|by rewrite E5|].
    intros s6 Ho6 Hp6 Hr6. eapply safe_bind with (mid := any); [apply _| |intros; apply readHeader_safe].
    apply (deliver_safe e first_packet); [done|done|done|]. intros p. apply onRecvFirstMessage_ok.
Qed.

Lemma onWrite_safe e error s : safe keeps s (onWrite e error) any.
Proof.
  unfold onWrite. start. eapply safe_bind with (mid := any); [apply _|apply safe_emit; [quiet|done]|].
  intros [] s1 _ _. eapply safe_bind with (mid := any); [apply _| |].
  { destruct (failed error); [apply handleWriteError_safe|handler]. }
  intros [] s2 _ _. handler. eapply safe_bind; [apply _|apply closeSocket_safe|]. intros. apply close_safe.
Qed.

Lemma handleReadTimeout_safe e expired error s : safe keeps s (handleReadTimeout e expired error) any.
Proof.
  unfold handleReadTimeout, onReadTimeout. handler.
  eapply safe_bind; [apply _|apply closeSocket_safe|]. intros. apply close_safe.
Qed.

Lemma handleWriteTimeout_safe e expired error s : safe keeps s (handleWriteTimeout e expired error) any.
Proof.
  unfold handleWriteTimeout, onWriteTimeout. handler.
  eapply safe_bind; [apply _|apply closeSocket_safe|]. intros. apply close_safe.
Qed.

(** ** The end of a connection *)

(** What the closing steps request, and what they leave alone. *)
Record finishes (s : state W) (out : list request) (s' : state W) : Prop := {
  fn_close : requests_of AddTask_closeConnection out = 0%nat;
  fn_read : forall d, next_read out d = d;
  fn_msg : m_msg (conn s') = m_msg (conn s);
  fn_refs : m_refCount (conn s') = m_refCount (conn s)
}.

Definition endings (out : list request) : nat :=
  (requests_of AddEvent_releaseConnection out + requests_of Post_onStop out)%nat.

Lemma releaseConnection_result e s :
  0 <= m_refCount (conn s) ->
  exists s' out, releaseConnection e s = Some (tt, s', out) /\ conn s' = conn s /\
    world s' = world s /\ finishes s out s' /\ (endings out <= 1)%nat /\
    (0 < m_refCount (conn s) -> out = [AddEvent_releaseConnection]) /\
    (m_refCount (conn s) = 0 -> postFault e = false -> out = [Post_onStop]).
Proof.
  intros Hr. unfold releaseConnection, deleteConnection, logged, get, gets, emit, modify, skip, mret,
    proc_ret, mbind, proc_bind.
  destruct (Z.ltb_spec 0 (m_refCount (conn s))) as [Hlt|Hle].
  - eexists _, _. split; [done|]. split_and!; try done; solve [vm_compute; lia|lia].
  - assert (m_refCount (conn s) = 0) as E by lia. rewrite E. cbn.
    destruct (postFault e); [destruct (m_logError s)|];
      (eexists _, _; split; [done|]; split_and!; try done; solve [vm_compute; lia|lia]).
Qed.

(** The connection lets go of its protocol. *)
Definition let_go (s : state W) : option W :=
  match m_protocol (conn s) with
  | Some p => w ← setConnection p false (world s); releaseProtocol p w
  | None => Some (world s)
  end.

Lemma let_go_ok s :
  ok s -> bounded (world s) ->
  exists w1, let_go s = Some w1 /\
    ok (mkState (setState CONNECTION_STATE_CLOSING (setProtocol None (conn s))) (m_logError s) w1).
Proof.
  intros [] Hb. unfold let_go. destruct (m_protocol (conn s)) as [p|] eqn:Ep.
  - destruct (letgo_ok p (world s)) as (w & w1 & Ew & E1 & Hw1); [done|by apply owns_alive; auto|done|].
    exists w1. rewrite Ew. cbn. split; [done|]. split; try done. by intros _ [?|?].
  - exists (world s). split; [done|]. split; try done. by intros _ [?|?].
Qed.

(** [closeConnection] on a requested closure: without writes in flight the
    connection is closed and its end is on the way; otherwise it is left closing. *)
Lemma closeConnection_result e s :
  ok s -> bounded (world s) -> m_connectionState (conn s) = CONNECTION_STATE_REQUEST_CLOSE ->
  exists s' out, closeConnection e s = Some (tt, s', out) /\ ok s' /\ finishes s out s' /\
    m_protocol (conn s') = None /\ let_go s = Some (world s') /\
    if (m_pendingWrite (conn s) =? 0) || m_writeError (conn s)
    then m_connectionState (conn s') = CONNECTION_STATE_CLOSED /\ (endings out <= 1)%nat /\
      (m_refCount (conn s) = 0 -> postFault e = false -> requests_of Post_onStop out = 1%nat)
    else m_connectionState (conn s') = CONNECTION_STATE_CLOSING /\ endings out = 0%nat.
Proof.
  intros Hs Hb Hst.
  destruct (let_go_ok s Hs Hb) as (w1 & Ew & H1).
  set (s1 := mkState (setState CONNECTION_STATE_CLOSING (setProtocol None (conn s))) (m_logError s) w1) in *.
  assert (closeConnection e s =
    (if (m_pendingWrite (conn s) =? 0) || m_writeError (conn s)
     then _ ← closeSocket e; _ ← releaseConnection e; update (setState CONNECTION_STATE_CLOSED)
     else skip) s1) as ->.
  { unfold closeConnection, is_state, get, update, callWorld, onWorld, skip. rewrite bind_gets, Hst.
    rewrite bool_decide_eq_true_2 by by apply list_elem_of_singleton. cbn [negb].
    autorewrite with proc. subst s1. unfold let_go in Ew.
    destruct (m_protocol (conn s)) as [p|] eqn:Ep.
    - destruct (setConnection p false (world s)) as [w0|] eqn:E0; [|done]. cbn in Ew.
      repeat (autorewrite with proc; rewrite ?E0, ?Ew; cbn [world conn m_logError]). done.
    - injection Ew as <-. autorewrite with proc. destruct s as [[] ? ?]; cbn in *. by rewrite Ep. }
  destruct ((_ =? _) || _).
  2:{ exists s1, []. split_and!; try done. }
  destruct (closeSocket_safe e s1 H1) as ([] & s2 & o2 & E2 & H2 & [[M2 R2 S2 C2 W2 _] G2 N2] & _).
  destruct (releaseConnection_result e s2 (ok_refs _ H2)) as (s3 & o3 & E3 & Hc3 & Hw3 & [F1 F2 F3 F4] & Hn & _ & Hpost).
  eexists _, _. split; [unfold mbind, proc_bind; rewrite E2, E3; reflexivity|].
  assert (m_protocol (conn s2) = None) as Hp2.
  { apply (ok_released _ H2). destruct M2 as [[-> _]|[? _]]; [by left|done]. }
  assert (requests_of AddTask_closeConnection o2 = 0%nat) as Hz by (by destruct M2 as [[_ ?]|[? _]]).
  split_and!; cbn.
  - destruct H2. split; cbn; rewrite ?Hc3, ?Hw3; try done. by intros _ [?|?].
  - split; cbn.
    + by rewrite !requests_of_app, Hz, F1.
    + intros d. by rewrite !next_read_app, N2, F2.
    + by rewrite F3, G2.
    + by rewrite F4, C2.
  - by rewrite Hc3.
  - rewrite Hw3, W2; done.
  - done.
  - unfold endings in *. rewrite !requests_of_app, R2, S2.
    change (requests_of AddEvent_releaseConnection []) with 0%nat.
    change (requests_of Post_onStop []) with 0%nat. lia.
  - intros Hrf Hpf. rewrite !requests_of_app, S2. rewrite C2 in Hpost. by rewrite (Hpost Hrf Hpf).
Qed.

(** ** The invariant *)

Definition null_socket (s : sys W) : nat :=
  match m_socket (connection_of s) with SocketNull => 1 | _ => 0 end.

Definition conn_state (s : sys W) : ConnectionState_t := m_connectionState (connection_of s).

(** A closure task is posted exactly while a closure is requested; at most one step
    towards the end of the connection has been taken, and none before it is closed; a
    packet is read only into a message made ready for it. *)
Record inv (s : sys W) : Prop := {
  inv_ok : has_socket s = true -> ok (st s);
  inv_gone : has_socket s = false ->
    conn_state s = CONNECTION_STATE_CLOSED /\ 0 <= m_refCount (connection_of s) /\
    m_protocol (connection_of s) = None;
  inv_close : closeTasks s = if decide (conn_state s = CONNECTION_STATE_REQUEST_CLOSE) then 1%nat else 0%nat;
  inv_end : (releaseEvents s + stopPosts s + null_socket s <=
    if decide (conn_state s = CONNECTION_STATE_CLOSED) then 1 else 0)%nat;
  inv_reading : forall size, reading s = AwaitPacket size -> packet_ready size (st s);
  inv_world : world_ok (world (st s))
}.

Lemma has_socket_null s : null_socket s = if has_socket s then 0%nat else 1%nat.
Proof. unfold null_socket, has_socket. by destruct (m_socket (connection_of s)). Qed.

Lemma ok_has_socket s : ok (st s) -> has_socket s = true.
Proof. intros Hs. pose proof (ok_socket _ Hs). unfold has_socket, connection_of. by destruct (m_socket _). Qed.

(** The abstract state machine. *)
Inductive advances : ConnectionState_t -> ConnectionState_t -> Prop :=
| adv_stay st : advances st st
| adv_request : advances CONNECTION_STATE_OPEN CONNECTION_STATE_REQUEST_CLOSE
| adv_closing : advances CONNECTION_STATE_REQUEST_CLOSE CONNECTION_STATE_CLOSING
| adv_closed : advances CONNECTION_STATE_REQUEST_CLOSE CONNECTION_STATE_CLOSED.

(** A step of the system: the invariant, the state machine, and, outside the closure
    itself, the connection keeps its protocol and leaves the protocols alone when it is
    not open. *)
Definition good_step (ev : event) (s s' : sys W) : Prop :=
  inv s' /\ advances (conn_state s) (conn_state s') /\
  (ev <> EvCloseTask ->
     (conn_state s <> CONNECTION_STATE_OPEN -> world (st s') = world (st s)) /\
     (forall p, m_protocol (connection_of s) = Some p -> m_protocol (connection_of s') = Some p)).

Lemma moves_advances s out s' :
  moves s out s' -> advances (m_connectionState (conn s)) (m_connectionState (conn s')).
Proof. intros [[[-> _]|(-> & -> & _)] _ _ _ _ _]; constructor. Qed.

(** The posted work after a handler that only [moves]. *)
Lemma absorb_inv s st' out d w :
  inv s -> has_socket s = true -> ok st' -> moves (st s) out st' ->
  (forall size, d = AwaitPacket size -> packet_ready size st') ->
  inv (mkSys st' (closeTasks s + requests_of AddTask_closeConnection out)
    (releaseEvents s + requests_of AddEvent_releaseConnection out)
    (stopPosts s + requests_of Post_onStop out) d w).
Proof.
  intros [_ _ Hc He _ _] Hsk Hok [M R S _ _ _] Hd.
  assert (has_socket (mkSys st' (closeTasks s + requests_of AddTask_closeConnection out)
    (releaseEvents s + requests_of AddEvent_releaseConnection out)
    (stopPosts s + requests_of Post_onStop out) d w) = true) as Hsk' by by apply ok_has_socket.
  rewrite has_socket_null, Hsk in He.
  split; rewrite ?has_socket_null, ?Hsk'; unfold conn_state, connection_of in *; cbn; try done.
  - rewrite Hc. destruct M as [[-> ->]|(-> & -> & ->)]; [lia|done].
  - rewrite R, S. destruct M as [[-> _]|(E & -> & _)]; [lia|]. rewrite E in He. rewrite decide_False in He by done. rewrite decide_False by done. lia.
  - apply Hok.
Qed.

Lemma run_keeps ev s m :
  inv s -> has_socket s = true -> safe keeps (st s) m any ->
  exists s', absorb s (m (st s)) = Some s' /\ good_step ev s s'.
Proof.
  intros Hi Hsk Hm. destruct (Hm (inv_ok _ Hi Hsk)) as ([] & st' & out & E & H & [M G N] & _).
  rewrite E. eexists. split; [done|]. split; [|split; [exact (moves_advances _ _ _ M)|intros _; split; apply M]].
  apply absorb_inv; [done|done|done|done|].
  intros size. rewrite N. intros Hr. pose proof (inv_reading _ Hi size Hr) as Hp.
  unfold packet_ready in *. by rewrite G.
Qed.

Lemma run_awaits ev s m :
  inv s -> has_socket s = true -> reading s = Idle -> safe awaits (st s) m any ->
  exists s', absorb s (m (st s)) = Some s' /\ good_step ev s s'.
Proof.
  intros Hi Hsk Hr Hm. destruct (Hm (inv_ok _ Hi Hsk)) as ([] & st' & out & E & H & [M N] & _).
  rewrite E. eexists. split; [done|]. split; [|split; [exact (moves_advances _ _ _ M)|intros _; split; apply M]].
  apply absorb_inv; [done|done|done|done|].
  intros size Hn. rewrite Hr in Hn. by eapply N; [|exact Hn].
Qed.

Lemma inv_idle s : inv s -> inv (set_reading Idle s).
Proof. intros [?????]. by split. Qed.

Lemma inv_writing s n : inv s -> inv (set_writing n s).
Proof. intros [?????]. by split. Qed.

(** A requested closure. *)
Lemma closeTask_requested s :
  inv s -> (0 < closeTasks s)%nat ->
  has_socket s = true /\ conn_state s = CONNECTION_STATE_REQUEST_CLOSE.
Proof.
  intros [_ Hg Hc _ _ _] Hpos. rewrite Hc in Hpos. case_decide as E; [|lia]. split; [|done].
  destruct (has_socket s) eqn:Hsk; [done|]. destruct (Hg eq_refl). congruence.
Qed.

Lemma fill_safe off bytes s :
  bytes_ok bytes -> 0 <= off -> off + zlen bytes <= NETWORK_MAX_SIZE ->
  safe waits s (fill off bytes) (fun _ s' =>
    NetworkMessage.m_position (m_msg (conn s')) = NetworkMessage.m_position (m_msg (conn s)) /\
    NetworkMessage.m_size (m_msg (conn s')) = NetworkMessage.m_size (m_msg (conn s))).
Proof.
  intros Hb Ho Hl Hs. unfold fill, get, update. pose proof (ok_msg _ Hs) as [Hsz Hp Hlen Hby].
  destruct (buf_write (NetworkMessage.m_buffer (m_msg (conn s))) off bytes) as [b|] eqn:Hw.
  2:{ rewrite buf_write_Some in Hw by (rewrite ?Hlen; lia). done. }
  rewrite bind_gets, Hw, bind_lift. eexists tt, _, []. split; [done|]. split_and!.
  - destruct Hs. split; cbn; try done. split; cbn; try done.
    + rewrite (zlen_buf_write _ _ _ _ Hw). exact Hlen.
    + exact (buf_write_bytes _ _ _ _ Hby Hb Hw).
  - by apply waits_quiet.
  - done.
  - done.
Qed.

(** The steps that end a connection. *)
Lemma run_finishes s0 s st' out :
  inv s0 -> st s = st s0 -> reading s = reading s0 -> ok st' -> finishes (st s0) out st' ->
  closeTasks s = 0%nat ->
  ((m_connectionState (conn st') = CONNECTION_STATE_CLOSED /\
    (releaseEvents s + stopPosts s + endings out <= 1)%nat) \/
   (m_connectionState (conn st') = CONNECTION_STATE_CLOSING /\
    (releaseEvents s + stopPosts s + endings out = 0)%nat)) ->
  exists s', absorb s (Some (tt, st', out)) = Some s' /\ inv s' /\ st s' = st'.
Proof.
  intros Hi Hst Hr Hok [F1 F2 F3 F4] Hc He. eexists. split; [done|]. split; [|done].
  split; rewrite ?has_socket_null; unfold conn_state, connection_of; cbn.
  - done.
  - intros Hf. exfalso. revert Hf. unfold has_socket, connection_of. cbn.
    pose proof (ok_socket _ Hok). by destruct (m_socket (conn st')).
  - rewrite Hc, F1. destruct He as [[-> _]|[-> _]]; done.
  - match goal with |- context [has_socket ?x] => rewrite (ok_has_socket x Hok) end.
    unfold endings in He. destruct He as [[-> ?]|[-> ?]].
    + rewrite decide_True by done. lia.
    + rewrite decide_False by done. lia.
  - intros size. rewrite F2, Hr. intros Ha. pose proof (inv_reading _ Hi size Ha) as Hp.
    unfold packet_ready in *. by rewrite F3.
  - apply Hok.
Qed.

Lemma run_closeTask e s :
  inv s -> bounded (world (st s)) -> enabled EvCloseTask s = true -> exists s', run e EvCloseTask s = Some s' /\ good_step EvCloseTask s s'.
Proof.
  intros Hi Hbd Hen%Nat.ltb_lt. destruct (closeTask_requested s Hi Hen) as [Hsk Hst].
  pose proof (inv_close _ Hi) as Hc. rewrite decide_True in Hc by done.
  pose proof (inv_end _ Hi) as He. rewrite decide_False in He by (rewrite Hst; done).
  destruct (closeConnection_result e (st s) (inv_ok _ Hi Hsk) Hbd Hst) as (st' & out & E & Hok & Hf & _ & _ & Hres).
  cbn [run]. rewrite E.
  edestruct (run_finishes s (set_closeTasks (Init.Nat.pred (closeTasks s)) s)) as (s' & Hs' & Hi' & Hst');
    [exact Hi|done|done|exact Hok|exact Hf|cbn; lia| |].
  - cbn. destruct (_ || _); [left; destruct Hres as (-> & ? & _)|right; destruct Hres as [-> ?]];
      (split; [done|lia]).
  - exists s'. split; [exact Hs'|]. split; [done|]. split; [|done]. unfold conn_state, connection_of in *.
    rewrite Hst, Hst'. destruct (_ || _); destruct Hres as [-> ?]; constructor.
Qed.

Lemma run_release e s :
  inv s -> enabled EvRelease s = true -> exists s', run e EvRelease s = Some s' /\ good_step EvRelease s s'.
Proof.
  intros Hi Hen%Nat.ltb_lt. pose proof (inv_end _ Hi) as He. case_decide as Hst; [|lia].
  rewrite has_socket_null in He. destruct (has_socket s) eqn:Hsk; [|lia].
  pose proof (inv_ok _ Hi Hsk) as Hok.
  pose proof (inv_close _ Hi) as Hc. rewrite decide_False in Hc by (rewrite Hst; done).
  destruct (releaseConnection_result e (st s) (ok_refs _ Hok)) as (st' & out & E & Hcn & Hw & Hf & Hn & _).
  cbn [run]. rewrite E. unfold conn_state, connection_of in Hst.
  edestruct (run_finishes s (set_releaseEvents (Init.Nat.pred (releaseEvents s)) s)) as (s' & Hs' & Hi' & Hst');
    [exact Hi|done|done| |exact Hf|done| |].
  - destruct Hok. split; rewrite ?Hcn, ?Hw; done.
  - left. cbn. rewrite Hcn. split; [done|lia].
  - exists s'. split; [exact Hs'|]. split; [done|]. unfold conn_state, connection_of.
    rewrite Hst', Hcn, Hw. split; [constructor|done].
Qed.

Lemma onStop_result (s : state W) :
  m_socket (conn s) <> SocketNull ->
  exists out, onStop s = Some (tt, mkState (setSocket SocketNull (conn s)) (m_logError s) (world s), out) /\
    requests_of AddTask_closeConnection out = 0%nat /\ endings out = 0%nat /\
    Manager_releaseConnection ∈ out /\ (forall d, next_read out d = d).
Proof.
  intros Hns. unfold onStop, get, update, skip. rewrite !bind_emit, bind_gets.
  destruct (m_socket (conn s)); [| |done]; eexists; (split; [reflexivity|]);
    split_and!; try done; set_solver.
Qed.

Lemma run_stop e s :
  inv s -> enabled EvStop s = true -> exists s', run e EvStop s = Some s' /\ good_step EvStop s s' /\
    has_socket s = true /\ has_socket s' = false.
Proof.
  intros Hi Hen%Nat.ltb_lt. pose proof (inv_end _ Hi) as He. case_decide as Hst; [|lia].
  rewrite has_socket_null in He. destruct (has_socket s) eqn:Hsk; [|lia].
  pose proof (inv_ok _ Hi Hsk) as Hok.
  pose proof (inv_close _ Hi) as Hc. rewrite decide_False in Hc by (rewrite Hst; done).
  destruct (onStop_result (st s) (ok_socket _ Hok)) as (out & E & Hcl & Hen' & _ & Hr).
  cbn [run]. rewrite E. eexists. split; [done|]. split; [split; [|split; [constructor|done]]|done]. unfold endings in Hen'.
  unfold conn_state, connection_of in *.
  split; unfold conn_state, connection_of, null_socket, connection_of; cbn; rewrite ?Hst; try done.
  - intros _. split; [done|]. split; [apply Hok|]. apply (ok_released _ Hok). by right.
  - rewrite Hc, Hcl. done.
  - rewrite decide_True by done. lia.
  - intros size. rewrite Hr. apply (inv_reading _ Hi).
  - apply Hok.
Qed.


Lemma close_closed (s : state W) :
  m_connectionState (conn s) = CONNECTION_STATE_CLOSED -> close s = Some (tt, s, []).
Proof. intros E. unfold close, is_state, get. rewrite bind_gets, E. done. Qed.

Lemma send_closed e msg (s : state W) :
  m_connectionState (conn s) <> CONNECTION_STATE_OPEN -> send e msg s = Some (false, s, []).
Proof.
  intros E. unfold send, is_state, get. rewrite !bind_gets.
  rewrite bool_decide_eq_false_2; [done|]. by rewrite list_elem_of_singleton.
Qed.

Lemma absorb_nothing ev s : inv s -> exists s', absorb s (Some (tt, st s, [])) = Some s' /\ good_step ev s s'.
Proof.
  intros [?????]. eexists. split; [done|]. split; [|split; [constructor|done]]. cbn.
  rewrite !Nat.add_0_r. split; done.
Qed.

Lemma run_refCount ev s f :
  inv s -> (forall c, exists n, f c = setRefCount n c) ->
  exists s', absorb s (update f (st s)) = Some s' /\ good_step ev s s'.
Proof.
  intros [Ho Hg Hc He Hr Hw] Hf. eexists. split; [done|]. destruct (Hf (conn (st s))) as (n & E).
  unfold good_step, conn_state, connection_of. cbn. rewrite E. split; [|split; [constructor|done]].
  rewrite !Nat.add_0_r.
  split; unfold has_socket, conn_state, connection_of, null_socket in *; cbn in *; try done.
  - intros Hs. destruct (Ho Hs). split; cbn; try done. by apply wrapu_range.
  - intros Hs. destruct (Hg Hs) as (? & ? & ?). split; [done|]. split; [|done]. by apply wrapu_range.
Qed.

Lemma read_complete_spec error bytes size :
  read_complete error bytes size = true -> bytes_ok bytes /\ zlen bytes <= size.
Proof.
  intros [Hb Hl]%andb_true_iff. apply bool_decide_eq_true_1 in Hb. split; [done|].
  destruct (failed error); lia.
Qed.

Lemma run_total e ev s :
  inv s -> env_ok e -> bounded (world (st s)) -> enabled ev s = true ->
  exists s', run e ev s = Some s' /\ good_step ev s s'.
Proof.
  intros Hi He Hbd Hen. destruct ev; cbn [run].
  - destruct (has_socket s) eqn:Hsk; [apply run_keeps; [done|done|apply close_safe]|].
    destruct (inv_gone _ Hi Hsk) as [Hst _]. rewrite close_closed by done. by apply absorb_nothing.
  - destruct (has_socket s) eqn:Hsk.
    + apply run_keeps; [done|done|]. eapply safe_bind; [apply _|apply send_safe|].
      intros. apply safe_ret; [apply _|done].
    + destruct (inv_gone _ Hi Hsk) as [Hst _]. unfold mbind, proc_bind.
      rewrite send_closed by (unfold conn_state, connection_of in Hst; by rewrite Hst).
      by apply absorb_nothing.
  - by apply run_closeTask.
  - by apply run_release.
  - destruct (run_stop e s Hi Hen) as (s' & ? & ? & _). eauto.
  - apply andb_true_iff in Hen as [Hsk Hen]. destruct (reading s); try done.
    destruct (read_complete_spec _ _ _ Hen) as [Hb Hl]. NetworkMessage.consts.
    apply (run_awaits _ (set_reading Idle s) (_ ← fill 0 bytes; parseHeader e error));
      [by apply inv_idle|done|done|].
    eapply safe_sequence; [apply waits_then_awaits|apply fill_safe; [done|lia|]|intros; apply parseHeader_safe].
    NetworkMessage.consts. lia.
  - apply andb_true_iff in Hen as [Hsk Hen]. destruct (reading s) as [| |size] eqn:Er; try done.
    destruct (read_complete_spec _ _ _ Hen) as [Hb Hl].
    pose proof (inv_reading _ Hi size Er) as Hp.
    apply (run_awaits _ (set_reading Idle s) (_ ← fill NETWORK_HEADER_SIZE bytes; parsePacket e error));
      [by apply inv_idle|done|done|].
    destruct Hp as (Hp & Hz & Hr).
    eapply safe_subrel; [apply waits_awaits|].
    eapply safe_bind; [apply _|apply fill_safe; [done|done|]|].
    + NetworkMessage.consts. lia.
    + intros a s1 _ [E1 E2]. eapply parsePacket_safe; [done|].
      split; [by rewrite E1|]. split; [|exact Hr]. by rewrite E2.
  - apply andb_true_iff in Hen as [Hsk _].
    apply (run_keeps _ (set_writing _ s)); [by apply inv_writing|done|apply onWrite_safe].
  - apply run_keeps; [done|done|apply handleReadTimeout_safe].
  - apply run_keeps; [done|done|apply handleWriteTimeout_safe].
  - apply run_refCount; [done|]. by eexists.
  - apply run_refCount; [done|]. by eexists.
Qed.

Lemma fresh_inv memory time log w :
  zlen memory = NETWORK_MAX_SIZE -> bytes_ok memory -> 0 <= time < 2 ^ 32 - 2 -> world_ok w -> idle w ->
  inv (fresh memory time log w).
Proof.
  intros Hl Hb Ht Hw Hi. by split.
Qed.

Lemma handle_safe e p s :
  m_connectionState (conn s) = CONNECTION_STATE_OPEN -> m_protocol (conn s) = None -> owns p (world s) ->
  safe waits s (handle e p) any.
Proof.
  intros Ho Hn Hp Hs. destruct (onConnect_ok p (world s) (ok_world _ Hs) Hp) as (cbs & w & E & Hw & Hpw).
  unfold handle, update, onWorld. rewrite bind_modify, bind_gets. cbn [world]. rewrite E, bind_lift, bind_modify.
  match goal with |- context [mkState ?c ?l w] => set (s1 := mkState c l w) end.
  assert (ok s1) as H1.
  { destruct Hs. split; cbn; try done; [rewrite Ho; by intros [?|?]|]. by intros q [= <-]. }
  assert (safe waits s1 (_ ← for_each (run_callback e) cbs; accept e) any) as Hk.
  { eapply safe_bind; [apply _| |intros; apply readHeader_safe].
    apply safe_keeps_waits, for_each_safe. intros. apply run_callback_safe. }
  destruct (Hk H1) as (a & s2 & o & E2 & H2 & W2 & _). exists a, s2, o. split_and!; try done.
  eapply (reach_trans (R := waits) s []); [|exact W2]. apply waits_quiet; try done. split_and!; try done. intros q Hq. congruence.
Qed.

(** The states a connection reaches under its protocols' promises. *)
Abbreviation reached := (reachable world_ok idle owns bounded).

Lemma reachable_inv s : reached s -> inv s.
Proof.
  induction 1 as [memory time log w e s Hl Hb Ht He Hw Hid Hr|memory time log w e p s Hl Hb Ht He Hw Hid Ho Hr
                 |e ev s s' _ IH He Hen Hbd Hr].
  - destruct (run_awaits EvClose (fresh memory time log w) (accept e)) as (s' & E & Hi & _);
      [by apply fresh_inv|done|done| |congruence].
    eapply safe_subrel; [apply waits_awaits|]. apply readHeader_safe.
  - destruct (run_awaits EvClose (fresh memory time log w) (handle e p)) as (s' & E & Hi & _);
      [by apply fresh_inv|done|done| |congruence].
    eapply safe_subrel; [apply waits_awaits|]. by apply handle_safe.
  - destruct (run_total e ev s IH He Hbd Hen) as (s'' & E & Hi & _). congruence.
Qed.

(** ** Properties *)

Definition step (s s' : sys W) : Prop :=
  exists e ev, env_ok e /\ enabled ev s = true /\ bounded (world (st s)) /\ run e ev s = Some s'.

Lemma step_good s s' : reached s -> step s s' -> reached s' /\ advances (conn_state s) (conn_state s').
Proof.
  intros Hr (e & ev & He & Hen & Hbd & Hs'). split; [by eapply reach_event|].
  destruct (run_total e ev s (reachable_inv s Hr) He Hbd Hen) as (s'' & E & _ & Ha & _). congruence.
Qed.

(** C15: the work posted for a connection follows its state.  In every state a connection
    can reach, a closeConnection task is queued exactly when a closure has been
    requested, and then exactly one; at most one of "a release is scheduled", "onStop
    is posted", "the socket is deleted" holds, and none before the connection is
    CLOSED, so the socket is deleted at most once; the protocol has been let go of as
    soon as the closure has run; and a packet is awaited only into a message whose
    position and size make room for it. *)
Theorem connection_lifecycle s :
  reached s ->
  closeTasks s = (if decide (conn_state s = CONNECTION_STATE_REQUEST_CLOSE) then 1 else 0)%nat /\
  (releaseEvents s + stopPosts s + null_socket s <=
     if decide (conn_state s = CONNECTION_STATE_CLOSED) then 1 else 0)%nat /\
  (has_socket s = true -> conn_state s = CONNECTION_STATE_CLOSING \/ conn_state s = CONNECTION_STATE_CLOSED ->
     m_protocol (connection_of s) = None) /\
  (forall size, reading s = AwaitPacket size -> packet_ready size (st s)).
Proof.
  intros Hr. pose proof (reachable_inv s Hr) as Hi. split_and!; [apply Hi|apply Hi| |apply Hi].
  intros Hsk Hst. by apply (ok_released _ (inv_ok _ Hi Hsk)).
Qed.

(** No event is met by undefined behaviour.  In every state a connection can reach,
    every event the environment can deliver is handled: no handler dereferences the
    deleted socket or a NULL protocol, reads or writes outside the message buffer,
    divides by zero in the packet rate, or runs with a violated assertion. *)
Theorem connection_never_stuck s e ev :
  reached s -> env_ok e -> bounded (world (st s)) -> enabled ev s = true -> exists s', run e ev s = Some s'.
Proof.
  intros Hr He Hbd Hen. destruct (run_total e ev s (reachable_inv s Hr) He Hbd Hen) as (s' & E & _). eauto.
Qed.

(** C17: the connection refines the state machine OPEN, REQUEST_CLOSE, then CLOSING or
    CLOSED: no event moves its state in any other way. *)
Theorem connection_refines s e ev s' :
  reached s -> env_ok e -> bounded (world (st s)) -> enabled ev s = true -> run e ev s = Some s' ->
  advances (conn_state s) (conn_state s').
Proof.
  intros Hr He Hbd Hen Hs'. apply (step_good s s' Hr). by exists e, ev.
Qed.

(** C35: CLOSING has no way out.  A connection whose closure ran while a write was in
    flight stays CLOSING for ever: no sequence of events closes it, schedules its
    release, deletes its socket object or takes it off the manager's list. *)
Theorem closing_is_final s s' :
  reached s -> conn_state s = CONNECTION_STATE_CLOSING -> rtc step s s' ->
  conn_state s' = CONNECTION_STATE_CLOSING /\ has_socket s' = true /\
  closeTasks s' = 0%nat /\ releaseEvents s' = 0%nat /\ stopPosts s' = 0%nat.
Proof.
  intros Hr Hst Hs. induction Hs as [s|s s1 s2 Hs1 _ IH].
  - pose proof (reachable_inv s Hr) as [_ _ Hc He _]. rewrite Hst in Hc, He.
    rewrite decide_False in Hc by done. rewrite decide_False in He by done.
    rewrite has_socket_null in He. destruct (has_socket s); split_and!; try done; lia.
  - destruct (step_good s s1 Hr Hs1) as [Hr1 Ha]. apply IH; [done|].
    rewrite Hst in Ha. by inversion Ha.
Qed.

(** C34: a closure completes when nothing is in flight.  From an open connection without
    a pending write (or with a failed one) that nobody refers to, close() and the three
    tasks it leads to close the connection and delete its socket. *)
Theorem close_completes s e :
  reached s -> conn_state s = CONNECTION_STATE_OPEN ->
  m_pendingWrite (connection_of s) = 0 \/ m_writeError (connection_of s) = true ->
  m_refCount (connection_of s) = 0 -> env_ok e -> postFault e = false -> bounded (world (st s)) ->
  exists s1 s2 s3, run e EvClose s = Some s1 /\ enabled EvCloseTask s1 = true /\
    run e EvCloseTask s1 = Some s2 /\ enabled EvStop s2 = true /\
    run e EvStop s2 = Some s3 /\ conn_state s3 = CONNECTION_STATE_CLOSED /\ has_socket s3 = false.
Proof.
  intros Hr Hst Hpend Hrf He Hpf Hbd. pose proof (reachable_inv s Hr) as Hi.
  destruct (run_total e EvClose s Hi He Hbd eq_refl) as (s1 & E1 & Hi1 & _).
  assert (conn (st s1) = setState CONNECTION_STATE_REQUEST_CLOSE (conn (st s)) /\
    world (st s1) = world (st s)) as [Hc1 Hw1].
  { revert E1. cbn [run]. unfold close, is_state, get, update.
    unfold conn_state, connection_of in Hst. rewrite bind_gets, Hst. by intros [= <-]. }
  assert (enabled EvCloseTask s1 = true) as Hen1.
  { cbn. rewrite (inv_close _ Hi1). unfold conn_state, connection_of. by rewrite Hc1. }
  rewrite <- Hw1 in Hbd. destruct (run_closeTask e s1 Hi1 Hbd Hen1) as (s2 & E2 & Hi2 & _).
  destruct (closeTask_requested s1 Hi1) as [Hsk1 Hst1]; [by apply Nat.ltb_lt|].
  destruct (closeConnection_result e (st s1) (inv_ok _ Hi1 Hsk1) Hbd Hst1) as (st2 & o2 & Er & _ & _ & _ & _ & Hres).
  replace ((m_pendingWrite (conn (st s1)) =? 0) || m_writeError (conn (st s1))) with true in Hres.
  2:{ rewrite Hc1. symmetry. apply orb_true_iff. cbn. rewrite Z.eqb_eq. apply Hpend. }
  destruct Hres as (Hcl & _ & Hpost). rewrite Hc1 in Hpost. specialize (Hpost Hrf Hpf).
  assert (enabled EvStop s2 = true) as Hen2.
  { revert E2. cbn [run]. rewrite Er. intros [= <-]. cbn [enabled stopPosts]. apply Nat.ltb_lt. cbn. lia. }
  destruct (run_stop e s2 Hi2 Hen2) as (s3 & E3 & [Hi3 _] & _ & Hsk3).
  exists s1, s2, s3. split_and!; try done. by apply (inv_gone _ Hi3).
Qed.

End Life.

(** ** A small protocol, and a life that ends closing *)

(** One service, with identifier 1, whose protocol closes the connection on its first
    packet. *)
#[local] Instance example_ops : ProtocolOps unit := {
  onConnect _ w := Some ([], w);
  setConnection _ _ w := Some w;
  releaseProtocol _ w := Some w;
  makeProtocol _ m w :=
    '(id, m) ← NetworkMessage.get 1 false m; Some (if id =? 1 then Some 0%nat else None, m, w);
  onRecvFirstMessage _ m w := Some ([Callback_send 0; Callback_close], m, w);
  onRecvMessage _ m w := Some ([], m, w);
  onSendMessage _ w := Some w
}.

#[local] Instance example_laws : ProtocolLaws unit.
Proof.
  refine {| world_ok := fun _ => True; idle := fun _ => True; alive := fun _ _ => True; owns := fun _ _ => True;
            bounded := fun _ => True |}; try done.
  - cbn. eauto 6.
  - intros p [] _ _ _. exists tt. auto.
  - intros p [] _ _ _. exists tt, tt. auto.
  - intros ck m [] Hm _. destruct (get1_first m Hm) as (v & m' & E & Hm').
    cbn. rewrite E. cbn. eauto 8.
  - intros p m [] [[Hm _] _ _] _ _. cbn. eauto 8.
  - intros p m [] [[Hm _] _ _] _ _. cbn. eauto 8.
  - cbn. eauto.
Defined.

Definition example_env : env := mkEnv NoFault false false 1000 25 false.

Definition example_events : list event :=
  [EvHeader NoError [6; 0]; EvPacket NoError [1; 1; 1; 1; 1; 1]; EvCloseTask].

Fixpoint run_events (evs : list event) (s : sys unit) : option (sys unit) :=
  match evs with
  | [] => Some s
  | ev :: evs => if enabled ev s then s ← run example_env ev s; run_events evs s else None
  end.

Definition example_memory : list Z := replicate (Z.to_nat NETWORK_MAX_SIZE) 0.

Definition example_start : option (sys unit) :=
  let s := fresh example_memory 1000 true tt in absorb s (accept example_env (st s)).

Lemma run_events_reachable evs (s s' : sys unit) :
  reachable (world_ok (W := unit)) idle owns bounded s -> run_events evs s = Some s' ->
  reachable (world_ok (W := unit)) idle owns bounded s'.
Proof.
  revert s. induction evs as [|ev evs IH]; intros s Hs Hr; [by injection Hr as <-|].
  cbn [run_events] in Hr. destruct (enabled ev s) eqn:Hen; [|done].
  destruct (run example_env ev s) as [s1|] eqn:E; [|done].
  apply (IH s1); [|done]. eapply reach_event; try done. by unfold env_ok.
Qed.

Lemma example_start_reachable s : example_start = Some s -> reachable (world_ok (W := unit)) idle owns bounded s.
Proof.
  unfold example_start. cbv zeta. intros E.
  eapply reach_accept with (memory := example_memory) (time := 1000) (e := example_env); try done.
  by apply Forall_replicate.
Qed.

Definition example_open : sys unit := default (fresh example_memory 0 true tt) example_start.

Definition example_closing : sys unit :=
  default example_open (run_events example_events example_open).

Lemma example_open_reachable : reachable (world_ok (W := unit)) idle owns bounded example_open.
Proof. by apply example_start_reachable. Qed.

Lemma example_closing_reachable : reachable (world_ok (W := unit)) idle owns bounded example_closing.
Proof. apply (run_events_reachable example_events example_open); [apply example_open_reachable|]. vm_compute. reflexivity. Qed.

Lemma connection_lifecycle_witness :
  closeTasks example_closing = 0%nat /\ m_protocol (connection_of example_closing) = None.
Proof.
  destruct (connection_lifecycle example_closing example_closing_reachable) as (H1 & _ & H2 & _).
  split; [rewrite H1; vm_compute; reflexivity|].
  apply H2; [vm_compute; reflexivity|left; vm_compute; reflexivity].
Defined.

Lemma connection_never_stuck_witness :
  exists s, run example_env (EvHeader NoError [255; 255]) example_open = Some s.
Proof.
  apply (connection_never_stuck example_open example_env (EvHeader NoError [255; 255])).
  - apply example_open_reachable.
  - split; vm_compute; congruence.
  - exact I.
  - vm_compute. reflexivity.
Defined.

Lemma connection_refines_witness :
  advances CONNECTION_STATE_OPEN CONNECTION_STATE_REQUEST_CLOSE.
Proof.
  assert (exists s, run example_env EvClose example_open = Some s /\
    conn_state s = CONNECTION_STATE_REQUEST_CLOSE) as (s & E & Es)
    by (eexists; split; vm_compute; reflexivity).
  rewrite <- Es. replace CONNECTION_STATE_OPEN with (conn_state example_open) by (vm_compute; reflexivity).
  apply (connection_refines example_open example_env EvClose s).
  - apply example_open_reachable.
  - split; vm_compute; congruence.
  - exact I.
  - reflexivity.
  - exact E.
Defined.

Lemma closing_is_final_witness :
  conn_state example_closing = CONNECTION_STATE_CLOSING /\ has_socket example_closing = true.
Proof.
  destruct (closing_is_final example_closing example_closing) as (H1 & H2 & _).
  - apply example_closing_reachable.
  - vm_compute. reflexivity.
  - apply rtc_refl.
  - split; [exact H1|exact H2].
Defined.

Lemma close_completes_witness : exists s1, run example_env EvClose example_open = Some s1.
Proof.
  destruct (close_completes example_open example_env) as (s1 & s2 & s3 & H & _).
  - apply example_open_reachable.
  - vm_compute. reflexivity.
  - left. vm_compute. reflexivity.
  - vm_compute. reflexivity.
  - split; vm_compute; congruence.
  - reflexivity.
  - exact I.
  - exists s1. exact H.
Defined.

End ConnectionLife.
