(* ===== verification/Wire.v ===== *)
(** * From one end of the wire to the other

    The message part of receiving a packet, as [parseHeader] and [parsePacket] do it,
    and what it makes of the frames [onSendMessage] produces. *)
From S2P Require Import Prelude Proc Bytes Definitions NetMessage Checksum Cipher OutMessage Proto Conn.

Module Wire.

(** [parseHeader] on a complete header: the size of the packet to read, and the
    message ready to take it; [None] also when the size is refused. *)
Definition receive_header (header : list Z) (m : NetworkMessage.t) : option (Z * NetworkMessage.t) :=
  b ← buf_write (NetworkMessage.m_buffer m) 0 header;
  '(size, m) ← NetworkMessage.decodeHeader (NetworkMessage.setBuffer b m);
  if (size <=? 0) || (NETWORK_MAX_SIZE - 16 <=? size) then None
  else
    let '(_, m) := NetworkMessage.writeBuffer (NetworkMessage.setSize (size + NETWORK_HEADER_SIZE) m) in
    Some (size, m).

(** [parsePacket] on a complete packet, up to the protocol: whether the checksum was
    there, and the message handed on. *)
Definition receive_packet (packet : list Z) (m : NetworkMessage.t) : option (bool * NetworkMessage.t) :=
  b ← buf_write (NetworkMessage.m_buffer m) NETWORK_HEADER_SIZE packet;
  Connection.verifyChecksum (NetworkMessage.setBuffer b m).

Lemma lor_header a b : is_byte a -> is_byte b -> Z.lor a (Z.shiftl b 8) = a + 256 * b.
Proof.
  unfold is_byte. intros Ha Hb. rewrite Z.shiftl_mul_pow2 by lia.
  pose proof (Z.add_lor_land a (b * 2 ^ 8)) as Hadd. enough (Z.land a (b * 2 ^ 8) = 0) by lia.
  apply Z.bits_inj'. intros i Hi. rewrite Z.land_spec, Z.bits_0.
  destruct (decide (i < 8)) as [Hlt|Hge].
  - rewrite (Z.mul_pow2_bits_low b 8 i) by lia. apply andb_false_r.
  - rewrite (Z.bits_above_log2 a i); [done|lia|].
    destruct (decide (a = 0)) as [->|]; [change (0 < i); lia|].
    apply Z.log2_lt_pow2; [lia|]. 
      assert (2 ^ 8 <= 2 ^ i) by (apply Z.pow_le_mono_r; lia). lia.
Qed.

Lemma receive_header_size size m :
  NetworkMessage.wf m -> 0 < size < NETWORK_MAX_SIZE - 16 ->
  exists m', receive_header (le_bytes 2 size) m = Some (size, m') /\ NetworkMessage.wf m' /\
    NetworkMessage.m_position m' = NETWORK_HEADER_SIZE /\
    NetworkMessage.m_size m' = size + NETWORK_HEADER_SIZE.
Proof.
  intros Hwf Hr. pose proof Hwf as [Hs Hp Hl Hb]. NetworkMessage.consts.
  unfold receive_header. set (h := le_bytes 2 size).
  assert (zlen h = 2) as Hh by apply zlen_le_bytes.
  destruct (buf_write (NetworkMessage.m_buffer m) 0 h) as [b|] eqn:Hw.
  2:{ rewrite buf_write_Some in Hw by lia. done. }
  cbn [mbind option_bind]. unfold NetworkMessage.decodeHeader.
  pose proof (buf_read_write _ _ _ _ Hw) as Hrd. rewrite Hh in Hrd.
  cbn [NetworkMessage.m_buffer NetworkMessage.setBuffer]. rewrite Hrd. cbn [mbind option_bind].
  assert (Z.lor (nth 0 h 0) (Z.shiftl (nth 1 h 0) 8) = size) as ->.
  { subst h. cbn [le_bytes nth]. rewrite lor_header.
    - rewrite (Z.mod_small (size / 256)); [|split; [apply Z.div_pos; lia|apply Z.div_lt_upper_bound; lia]].
      pose proof (Z.div_mod size 256). lia.
    - unfold is_byte. apply Z.mod_pos_bound. lia.
    - unfold is_byte. apply Z.mod_pos_bound. lia. }
  destruct (Z.leb_spec size 0); [lia|]. cbn [orb].
  destruct (Z.leb_spec (NETWORK_MAX_SIZE - 16) size); [NetworkMessage.consts; lia|].
  cbn [NetworkMessage.writeBuffer]. eexists. split; [done|]. split_and!.
  - apply NetworkMessage.setPosition_wf, NetworkMessage.setSize_wf, NetworkMessage.setSize_wf.
    split; cbn; [done|done| |].
    + rewrite (zlen_buf_write _ _ _ _ Hw). exact Hl.
    + refine (buf_write_bytes _ _ _ _ Hb _ Hw). apply le_bytes_ok.
  - done.
  - cbn. apply wrapu_small. lia.
Qed.

(** A packet that begins with the checksum of the rest. *)
Lemma receive_packet_checked body m :
  NetworkMessage.wf m -> bytes_ok body -> 0 < zlen body ->
  NetworkMessage.m_position m = NETWORK_HEADER_SIZE ->
  NetworkMessage.m_size m = 4 + zlen body + NETWORK_HEADER_SIZE ->
  4 + zlen body < NETWORK_MAX_SIZE - 16 ->
  exists m', receive_packet (le_bytes 4 (Checksum.adler32 body) ++ body) m = Some (true, m') /\
    NetworkMessage.wf m' /\ NetworkMessage.m_position m' = 6 /\
    NetworkMessage.m_size m' = 6 + zlen body /\ NetworkMessage.contains m' body.
Proof.
  intros Hwf Hbody Hpos Hp Hs Hfit. pose proof Hwf as [_ _ Hl Hb]. NetworkMessage.consts.
  unfold receive_packet. set (ck := le_bytes 4 (Checksum.adler32 body)).
  assert (zlen ck = 4) as Hck by apply zlen_le_bytes. NetworkMessage.consts.
  destruct (buf_write (NetworkMessage.m_buffer m) 2 (ck ++ body)) as [b|] eqn:Hw.
  2:{ rewrite buf_write_Some in Hw by (rewrite ?zlen_app; lia). done. }
  cbn [mbind option_bind].
  set (m1 := NetworkMessage.setBuffer b m).
  assert (NetworkMessage.wf m1) as Hwf1.
  { destruct Hwf. split; cbn; [done|done| |].
    - rewrite (zlen_buf_write _ _ _ _ Hw). exact Hl.
    - refine (buf_write_bytes _ _ _ _ Hb _ Hw). apply Forall_app_2; [apply le_bytes_ok|done]. }
  pose proof (buf_read_write _ _ _ _ Hw) as Hrd. rewrite zlen_app, Hck in Hrd.
  apply buf_read_app_inv in Hrd as (bs1 & bs2 & Hr1 & Hr2 & Happ); [|lia|lia].
  assert (bs1 = ck /\ bs2 = body) as [-> ->].
  { symmetry in Happ. apply app_inj_1 in Happ; [done|].
    apply buf_read_inv in Hr1 as (_ & _ & _ & _ & Hz). unfold zlen in *. lia. }
  unfold Connection.verifyChecksum, NetworkMessage.get. NetworkMessage.consts.
  cbn [m1 NetworkMessage.m_position NetworkMessage.m_size NetworkMessage.m_buffer NetworkMessage.setBuffer].
  rewrite Hp, Hs. change (u32 (16384 - 2) <=? 4) with false. cbv iota. rewrite Hr1. cbn [mbind option_bind].
  replace (4 + zlen body + 2 - 2 - 4) with (zlen body) by lia. rewrite wrapu_small by lia.
  destruct (Z.ltb_spec 0 (zlen body)); [|lia].
  cbn [m1 NetworkMessage.m_position NetworkMessage.m_size NetworkMessage.m_buffer NetworkMessage.setBuffer].
  rewrite Hp, (Checksum.adlerChecksumAt_read _ _ body) by (done || (NetworkMessage.consts; lia)).
  cbn [mbind option_bind]. unfold ck. rewrite le_value_small by apply Checksum.adler32_range.
  rewrite Z.eqb_refl. eexists. split; [done|]. unfold NetworkMessage.skip, NetworkMessage.contains.
  split_and!.
  - by apply NetworkMessage.setPosition_wf.
  - cbn. by rewrite Hp.
  - cbn. lia.
  - cbn. rewrite Hp. exact Hr2.
Qed.

Lemma frame_decoded p payload m :
  NetworkMessage.wf m -> bytes_ok payload -> Protocol.m_encryptionEnabled p = true ->
  let fr := Protocol.frame (Protocol.m_key p) payload in
  zlen fr < NETWORK_MAX_SIZE - 14 ->
  exists m1 m2 m3,
    receive_header (take 2 fr) m = Some (zlen (drop 2 fr), m1) /\
    receive_packet (drop 2 fr) m1 = Some (true, m2) /\
    Protocol.onRecvMessage p m2 = Some (true, m3) /\
    NetworkMessage.m_size m3 = zlen payload /\ NetworkMessage.contains m3 payload.
Proof.
  intros Hwf Hpl Henc. cbv zeta. unfold Protocol.frame.
  set (body := Protocol.encrypted_body (Protocol.m_key p) payload).
  rewrite take_app_length', drop_app_length' by (symmetry; apply length_le_bytes).
  rewrite !zlen_app, !zlen_le_bytes. change (Z.of_nat 2) with 2. change (Z.of_nat 4) with 4. intros Hfit.
  assert (0 < zlen body) as Hpos.
  { unfold body. rewrite Protocol.zlen_encrypted_body, (proj1 (Protocol.plain_body_len payload)).
    pose proof (Protocol.pad_len_spec (2 + zlen payload)). pose proof (zlen_nonneg payload). lia. }
  NetworkMessage.consts.
  destruct (receive_header_size (4 + zlen body) m Hwf) as (m1 & E1 & Hwf1 & Hp1 & Hs1);
    [NetworkMessage.consts; lia|].
  destruct (receive_packet_checked body m1 Hwf1) as (m2 & E2 & Hwf2 & Hp2 & Hs2 & Hc2);
    [apply Protocol.encrypted_body_bytes|done|done|done|NetworkMessage.consts; lia|].
  destruct (Protocol.XTEA_decrypt_body (Protocol.m_key p) payload m2) as (m3 & E3 & _ & _ & Hs3 & Hc3);
    [done|done|done|done|done|fold body; NetworkMessage.consts; lia|].
  exists m1, m2, m3. split_and!; try done. unfold Protocol.onRecvMessage. by rewrite Henc.
Qed.

(** C14: what one end sends the other end receives.  Cut into its header and its packet,
    the frame of any payload that fits is accepted: the header announces the packet's
    length, the checksum is recognised, and the decoder of a protocol with the same
    XTEA key hands on exactly the payload, whatever the message buffer held before. *)
Theorem frame_received p payload m :
  NetworkMessage.wf m -> bytes_ok payload -> Protocol.m_encryptionEnabled p = true ->
  let fr := Protocol.frame (Protocol.m_key p) payload in
  zlen fr < NETWORK_MAX_SIZE - 14 ->
  exists m1 m2 m3,
    receive_header (take 2 fr) m = Some (zlen (drop 2 fr), m1) /\
    receive_packet (drop 2 fr) m1 = Some (true, m2) /\
    Protocol.onRecvMessage p m2 = Some (true, m3) /\
    NetworkMessage.m_size m3 = zlen payload /\ NetworkMessage.contains m3 payload.
Proof. exact (frame_decoded p payload m). Qed.

Lemma frame_received_witness :
  let p := Protocol.setEncryption true (Protocol.setXTEAKey [1; 2; 3; 4] (Protocol.new None)) in
  let fr := Protocol.frame (Protocol.m_key p) $"hello" in
  exists m1, receive_header (take 2 fr) (NetworkMessage.new Protocol.example_memory) =
    Some (zlen (drop 2 fr), m1).
Proof.
  intros p fr.
  destruct (frame_received p $"hello" (NetworkMessage.new Protocol.example_memory))
    as (m1 & m2 & m3 & H & _).
  - apply NetworkMessage.writing_wf, Protocol.example_message_writing.
  - apply lit_bytes_ok.
  - reflexivity.
  - vm_compute. reflexivity.
  - exists m1. exact H.
Defined.

End Wire.
