(* ===== verification/ConnMgr.v ===== *)
(** * The connection manager (src/net/connection.h, src/net/connection.cpp)

    The tables of login attempts and of accepted connections per IP, and the list of
    live connections. *)
From S2P Require Import Prelude Definitions.

Module ConnectionManager.

Record LoginBlock := mkLogin {
  lastLogin : Z;       (* int32_t *)
  lastProtocol : Z;
  loginsAmount : Z
}.

Record ConnectBlock := mkConnect {
  count : Z;           (* uint32_t *)
  startTime : Z;       (* uint64_t *)
  blockTime : Z        (* uint64_t *)
}.

Record t := mk {
  ipLoginMap : gmap Z LoginBlock;
  ipConnectMap : gmap Z ConnectBlock;
  m_connections : list nat
}.

Definition new : t := mk ∅ ∅ [].

(** The configured values, as [g_config.getNumber] returns them: int64_t. *)
Record config := mkConfig { LOGIN_TRIES : Z; LOGIN_TIMEOUT : Z; RETRY_TIMEOUT : Z }.

Definition setLogin ip b (m : t) : t := mk (<[ip := b]> (ipLoginMap m)) (ipConnectMap m) (m_connections m).
Definition setConnect ip b (m : t) : t := mk (ipLoginMap m) (<[ip := b]> (ipConnectMap m)) (m_connections m).

(** [isDisabled(clientIp, protocolId)] at time [now] (seconds). *)
Definition isDisabled (cfg : config) (now : Z) (clientIp protocolId : Z) (m : t) : bool :=
  let maxLoginTries := i32 (LOGIN_TRIES cfg) in
  if (maxLoginTries =? 0) || (clientIp =? 0) then false
  else
    match ipLoginMap m !! clientIp with
    | None => false
    | Some b =>
        negb (lastProtocol b =? protocolId) && (maxLoginTries <? loginsAmount b) &&
        (i32 now <? i64 (lastLogin b + Z.quot (LOGIN_TIMEOUT cfg) 1000))
    end.

(** [addAttempt(clientIp, protocolId, success)] at time [now] (seconds). *)
Definition addAttempt (cfg : config) (now : Z) (clientIp protocolId : Z) (success : bool) (m : t) : t :=
  if clientIp =? 0 then m
  else
    let b := default (mkLogin 0 0 0) (ipLoginMap m !! clientIp) in
    let amount := if LOGIN_TRIES cfg <? loginsAmount b then 0 else loginsAmount b in
    let currentTime := i32 now in
    let amount :=
      if negb success || (currentTime <? i32 (lastLogin b + Z.quot (i32 (RETRY_TIMEOUT cfg)) 1000))
      then i32 (amount + 1) else 0 in
    setLogin clientIp (mkLogin currentTime protocolId amount) m.

(** [acceptConnection(clientIp)] at time [now] (milliseconds). *)
Definition acceptConnection (now : Z) (clientIp : Z) (m : t) : bool * t :=
  if clientIp =? 0 then (false, m)
  else
    let currentTime := u64 now in
    match ipConnectMap m !! clientIp with
    | None => (true, setConnect clientIp (mkConnect 1 currentTime 0) m)
    | Some b =>
        let b := mkConnect (u32 (count b + 1)) (startTime b) (blockTime b) in
        if currentTime <? blockTime b then (false, setConnect clientIp b m)
        else if 1000 <? u64 (currentTime - startTime b) then
          if 10 <? count b
          then (false, setConnect clientIp (mkConnect 0 currentTime (u64 (currentTime + 10000))) m)
          else (true, setConnect clientIp (mkConnect 0 currentTime 0) m)
        else (true, setConnect clientIp b m)
    end.

Definition setConnections cs (m : t) : t := mk (ipLoginMap m) (ipConnectMap m) cs.

(** [createConnection]: [id] is the new connection. *)
Definition createConnection (id : nat) (m : t) : t := setConnections (m_connections m ++ [id]) m.

(** Erase the first occurrence. *)
Fixpoint erase_first (id : nat) (cs : list nat) : option (list nat) :=
  match cs with
  | [] => None
  | c :: cs => if decide (c = id) then Some cs else cs' ← erase_first id cs; Some (c :: cs')
  end.

(** [releaseConnection]: whether the connection was found. *)
Definition releaseConnection (id : nat) (m : t) : bool * t :=
  match erase_first id (m_connections m) with
  | Some cs => (true, setConnections cs m)
  | None => (false, m)
  end.

(** [shutdown()]: the sockets closed, in order; the list is emptied. *)
Definition shutdown (m : t) : list nat * t := (m_connections m, setConnections [] m).

(** ** Lemmas *)

Lemma lookup_addAttempt cfg now ip pid ok m :
  ip <> 0 -> exists n, ipLoginMap (addAttempt cfg now ip pid ok m) = <[ip := mkLogin (i32 now) pid n]> (ipLoginMap m).
Proof. intros Hip. unfold addAttempt. destruct (Z.eqb_spec ip 0); [done|]. by eexists. Qed.

(** The attempts made so far, oldest first. *)
Record attempt := mkAttempt { at_time : Z; at_ip : Z; at_success : bool }.

Definition addAttempts (cfg : config) (pid : Z) (ats : list attempt) (m : t) : t :=
  fold_left (fun m a => addAttempt cfg (at_time a) (at_ip a) pid (at_success a) m) ats m.

Lemma addAttempts_protocol cfg pid ats m ip b :
  (forall ip b, ipLoginMap m !! ip = Some b -> lastProtocol b = pid) ->
  ipLoginMap (addAttempts cfg pid ats m) !! ip = Some b -> lastProtocol b = pid.
Proof.
  unfold addAttempts. revert m. induction ats as [|a ats IH]; intros m Hm; cbn [fold_left]; [apply Hm|].
  apply IH. intros ip' b'. destruct (decide (at_ip a = 0)) as [->|Hip].
  - unfold addAttempt. cbn. apply Hm.
  - destruct (lookup_addAttempt cfg (at_time a) (at_ip a) pid (at_success a) m Hip) as (n & ->).
    rewrite lookup_insert_Some. intros [[_ <-]|[_ Hl]]; [done|by eapply Hm].
Qed.

(** ** The login lockout *)

(** The lockout never triggers for the protocol that records the attempts.  Whatever
    the attempts a protocol has recorded, failed or not, and whenever it asks,
    isDisabled answers no to it: the block applies only to a protocol other than the
    last one to record an attempt, and the server has a single one. *)
Theorem same_protocol_never_disabled cfg pid ats now ip :
  isDisabled cfg now ip pid (addAttempts cfg pid ats new) = false.
Proof.
  unfold isDisabled. destruct (_ || _); [done|].
  destruct (ipLoginMap _ !! ip) as [b|] eqn:E; [|done].
  rewrite (addAttempts_protocol cfg pid ats new ip b) by done.
  by rewrite Z.eqb_refl.
Qed.

(** A run of failed attempts from one address. *)
Fixpoint failures (cfg : config) (now ip pid : Z) (n : nat) (m : t) : t :=
  match n with
  | O => m
  | S n => failures cfg now ip pid n (addAttempt cfg now ip pid false m)
  end.

Lemma failures_amount cfg now ip pid n m k :
  ip <> 0 -> 0 < LOGIN_TRIES cfg < 2 ^ 31 - 1 -> (0 < n)%nat ->
  0 <= k -> k + Z.of_nat n <= LOGIN_TRIES cfg + 1 ->
  (k = 0 /\ ipLoginMap m !! ip = None \/ exists l p, ipLoginMap m !! ip = Some (mkLogin l p k)) ->
  ipLoginMap (failures cfg now ip pid n m) !! ip = Some (mkLogin (i32 now) pid (k + Z.of_nat n)).
Proof.
  intros Hip Hcfg Hn. revert k m. induction n as [|n IH]; intros k m Hk Hkn Hm; [lia|].
  cbn [failures].
  assert (ipLoginMap (addAttempt cfg now ip pid false m) !! ip = Some (mkLogin (i32 now) pid (k + 1))) as Hl.
  { unfold addAttempt. destruct (Z.eqb_spec ip 0); [done|]. cbn [setLogin ipLoginMap].
    rewrite lookup_insert_eq. destruct Hm as [[-> ->]|(l & p & ->)]; cbn [default from_option id loginsAmount lastLogin negb orb].
    - destruct (Z.ltb_spec (LOGIN_TRIES cfg) 0); [lia|]. done.
    - destruct (Z.ltb_spec (LOGIN_TRIES cfg) k); [lia|].
      by rewrite (wraps_small 32 (k + 1)) by lia. }
  destruct n as [|n].
  - cbn [failures]. rewrite Hl. do 2 f_equal.
  - rewrite (IH ltac:(lia) (k + 1)); [do 2 f_equal; lia|lia|lia|eauto].
Qed.

(** What the lockout does when two protocols record attempts.  After LOGIN_TRIES + 1
    failed attempts of an address at one moment through one protocol, any other
    protocol is refused to it from then on for LOGIN_TIMEOUT / 1000 seconds, and no
    longer. *)
Theorem lockout_after_failures cfg now now' ip pid pid' :
  ip <> 0 -> 0 < LOGIN_TRIES cfg < 2 ^ 31 - 1 -> 0 <= LOGIN_TIMEOUT cfg < 2 ^ 31 ->
  0 <= now < 2 ^ 31 -> 0 <= now' < 2 ^ 31 -> pid' <> pid ->
  isDisabled cfg now' ip pid' (failures cfg now ip pid (Z.to_nat (LOGIN_TRIES cfg + 1)) new) =
    bool_decide (now' < now + LOGIN_TIMEOUT cfg / 1000).
Proof.
  intros Hip Hcfg Hto Hnow Hnow' Hpid. unfold isDisabled.
  rewrite (failures_amount cfg now ip pid _ new 0) by (try done; try lia; by left).
  rewrite !(wraps_small 32) by lia.
  destruct (Z.eqb_spec (LOGIN_TRIES cfg) 0); [lia|]. destruct (Z.eqb_spec ip 0); [done|]. cbn [orb].
  cbn [lastProtocol loginsAmount lastLogin].
  destruct (Z.eqb_spec pid pid'); [congruence|]. cbn [negb andb].
  destruct (Z.ltb_spec (LOGIN_TRIES cfg) (0 + Z.of_nat (Z.to_nat (LOGIN_TRIES cfg + 1)))); [|lia]. cbn [andb].
  rewrite Z.quot_div_nonneg by lia.
  assert (0 <= LOGIN_TIMEOUT cfg / 1000 < 2 ^ 31).
  { split; [apply Z.div_pos; lia|]. apply Z.div_lt_upper_bound; lia. }
  rewrite wraps_small by lia.
  destruct (Z.ltb_spec now' (now + LOGIN_TIMEOUT cfg / 1000)); symmetry; [by apply bool_decide_eq_true_2|].
  apply bool_decide_eq_false_2. lia.
Qed.

Definition example_config : config := mkConfig 3 5000 30000.

Lemma lockout_after_failures_witness :
  isDisabled example_config 104 42 2 (failures example_config 100 42 1 4 new) = true /\
  isDisabled example_config 105 42 2 (failures example_config 100 42 1 4 new) = false.
Proof.
  pose proof (fun now' => lockout_after_failures example_config 100 now' 42 1 2) as H.
  change (Z.to_nat (LOGIN_TRIES example_config + 1)) with 4%nat in H.
  split; rewrite H; cbn; (reflexivity || lia).
Defined.

(** ** The connection rate *)

(** A sequence of connections from one address: the answers, and the tables after. *)
Fixpoint connections (ip : Z) (ts : list Z) (m : t) : list bool * t :=
  match ts with
  | [] => ([], m)
  | now :: ts =>
      let '(ok, m) := acceptConnection now ip m in
      let '(oks, m) := connections ip ts m in (ok :: oks, m)
  end.

Definition clock_ok (now : Z) : Prop := 0 <= now < 2 ^ 62.

Lemma connections_window ip start n ts m :
  ip <> 0 -> clock_ok start -> 0 <= n -> n + zlen ts < 2 ^ 32 ->
  ipConnectMap m !! ip = Some (mkConnect n start 0) ->
  Forall (fun now => start <= now <= start + 1000) ts ->
  exists m', connections ip ts m = (replicate (length ts) true, m') /\
    ipConnectMap m' !! ip = Some (mkConnect (n + zlen ts) start 0).
Proof.
  intros Hip Hst Hn Hb Hm Hts. revert n m Hn Hb Hm. unfold clock_ok in Hst.
  induction Hts as [|now ts Hnow _ IH]; intros n m Hn Hb Hm.
  { exists m. split; [done|]. rewrite Hm. change (zlen []) with 0. by rewrite Z.add_0_r. }
  rewrite zlen_cons in *. pose proof (zlen_nonneg ts).
  cbn [connections length replicate]. unfold acceptConnection.
  destruct (Z.eqb_spec ip 0); [done|]. rewrite Hm. cbn [count startTime blockTime].
  rewrite (wrapu_small 64 now) by lia. destruct (Z.ltb_spec now 0); [lia|].
  rewrite (wrapu_small 64 (now - start)) by lia. destruct (Z.ltb_spec 1000 (now - start)); [lia|].
  rewrite (wrapu_small 32) by lia.
  destruct (IH (n + 1) (setConnect ip (mkConnect (n + 1) start 0) m)) as (m' & -> & Hm');
    [lia|lia|apply lookup_insert_eq|].
  exists m'. split; [done|]. rewrite Hm'. by rewrite Z.add_assoc.
Qed.

(** The first second of an address is unlimited.  However many connections an address
    opens within 1000 ms of its first one, all are accepted: the limit of ten is looked
    at only by a connection that comes later than that. *)
Theorem burst_accepted ip start ts m :
  ip <> 0 -> clock_ok start -> zlen ts < 2 ^ 31 ->
  ipConnectMap m !! ip = None ->
  Forall (fun now => start <= now <= start + 1000) ts ->
  (connections ip (start :: ts) m).1 = replicate (S (length ts)) true.
Proof.
  intros Hip Hst Hn Hm Hts. cbn [connections]. unfold acceptConnection at 1.
  destruct (Z.eqb_spec ip 0); [done|]. rewrite Hm.
  destruct (connections_window ip start 1 ts (setConnect ip (mkConnect 1 (u64 start) 0) m))
    as (m' & -> & _); [done|done|lia|lia| |done|done].
  unfold clock_ok in Hst. cbn. rewrite (wrapu_small 64 start) by lia. apply lookup_insert_eq.
Qed.

Lemma burst_accepted_witness :
  (connections 7 (0 :: replicate 500 1000) new).1 = replicate 501 true.
Proof.
  rewrite (burst_accepted 7 0 (replicate 500 1000) new).
  - reflexivity.
  - discriminate.
  - split; vm_compute; congruence.
  - vm_compute. reflexivity.
  - reflexivity.
  - apply Forall_replicate. lia.
Defined.

Lemma connections_blocked ip start n ts m :
  ip <> 0 -> clock_ok start -> 0 <= n -> n + zlen ts < 2 ^ 32 ->
  ipConnectMap m !! ip = Some (mkConnect n start (start + 10000)) ->
  Forall (fun now => start <= now < start + 10000) ts ->
  exists m', connections ip ts m = (replicate (length ts) false, m') /\
    ipConnectMap m' !! ip = Some (mkConnect (n + zlen ts) start (start + 10000)).
Proof.
  intros Hip Hst Hn Hb Hm Hts. revert n m Hn Hb Hm. unfold clock_ok in Hst.
  induction Hts as [|now ts Hnow _ IH]; intros n m Hn Hb Hm.
  { exists m. split; [done|]. rewrite Hm. change (zlen []) with 0. by rewrite Z.add_0_r. }
  rewrite zlen_cons in *. pose proof (zlen_nonneg ts).
  cbn [connections length replicate]. unfold acceptConnection.
  destruct (Z.eqb_spec ip 0); [done|]. rewrite Hm. cbn [count startTime blockTime].
  rewrite (wrapu_small 64 now) by lia. destruct (Z.ltb_spec now (start + 10000)); [|lia].
  rewrite (wrapu_small 32) by lia.
  destruct (IH (n + 1) (setConnect ip (mkConnect (n + 1) start (start + 10000)) m)) as (m' & -> & Hm');
    [lia|lia|apply lookup_insert_eq|].
  exists m'. split; [done|]. rewrite Hm'. by rewrite Z.add_assoc.
Qed.

(** The block.  An address that comes back more than a second after its window began,
    as its eleventh connection or a later one, is refused, and so is everything it
    tries in the next ten seconds.  The refused tries count: the first one after the
    ten seconds is accepted if there were fewer than ten, and starts a new block
    otherwise. *)
Theorem block_duration ip m b now ts later :
  ip <> 0 -> clock_ok now -> 0 <= startTime b -> 0 <= count b < 2 ^ 31 -> zlen ts < 2 ^ 31 ->
  ipConnectMap m !! ip = Some b -> blockTime b <= now -> 1000 < now - startTime b -> 10 <= count b ->
  Forall (fun t => now <= t < now + 10000) ts -> now + 10000 <= later < 2 ^ 63 ->
  (connections ip (now :: ts ++ [later]) m).1 =
    false :: replicate (length ts) false ++ [bool_decide (length ts < 10)%nat].
Proof.
  intros Hip Hnow Hst Hcn Hlen Hm Hbl Hwin Hten Hts Hlater. unfold clock_ok in Hnow.
  pose proof (zlen_nonneg ts). cbn [connections]. unfold acceptConnection at 1.
  destruct (Z.eqb_spec ip 0); [done|]. rewrite Hm. cbn [count startTime blockTime].
  rewrite (wrapu_small 64 now) by lia. destruct (Z.ltb_spec now (blockTime b)); [lia|].
  rewrite (wrapu_small 64 (now - startTime b)) by lia.
  destruct (Z.ltb_spec 1000 (now - startTime b)); [|lia].
  rewrite (wrapu_small 32) by lia. destruct (Z.ltb_spec 10 (count b + 1)); [|lia].
  rewrite (wrapu_small 64) by lia.
  set (m1 := setConnect ip (mkConnect 0 now (now + 10000)) m).
  assert (forall ts1 ts2 m, connections ip (ts1 ++ ts2) m =
    let '(o1, m1) := connections ip ts1 m in
    let '(o2, m2) := connections ip ts2 m1 in (o1 ++ o2, m2)) as Happ.
  { clear. induction ts1 as [|x ts1 IH]; intros ts2 m; cbn [app connections].
    - by destruct (connections ip ts2 m).
    - destruct (acceptConnection x ip m). rewrite IH.
      destruct (connections ip ts1 t0), (connections ip ts2 t1). done. }
  rewrite Happ. destruct (connections_blocked ip now 0 ts m1) as (m2 & -> & Hm2);
    [done|done|lia|lia|apply lookup_insert_eq|done|].
  cbn [connections]. unfold acceptConnection.
  destruct (Z.eqb_spec ip 0); [done|]. rewrite Hm2. cbn [count startTime blockTime].
  rewrite (wrapu_small 64 later) by lia. destruct (Z.ltb_spec later (now + 10000)); [lia|].
  rewrite (wrapu_small 64 (later - now)) by lia. destruct (Z.ltb_spec 1000 (later - now)); [|lia].
  rewrite (wrapu_small 32) by lia. unfold zlen in *.
  destruct (Z.ltb_spec 10 (0 + Z.of_nat (length ts) + 1)); cbn [fst]; do 3 f_equal; symmetry.
  - apply bool_decide_eq_false_2. lia.
  - apply bool_decide_eq_true_2. lia.
Qed.

Lemma block_duration_witness :
  (connections 7 [5000; 6000; 15000] (setConnect 7 (mkConnect 10 1000 0) new)).1 = [false; false; true].
Proof.
  apply (block_duration 7 (setConnect 7 (mkConnect 10 1000 0) new) (mkConnect 10 1000 0) 5000 [6000] 15000).
  all: try (vm_compute; split; congruence).
  all: try (vm_compute; congruence).
  repeat constructor; vm_compute; congruence.
Defined.

End ConnectionManager.
