(* ===== verification/Tools.v ===== *)
(** * Utilities (src/tools.h, src/tools.cpp, src/otsystem.h)

    String handling, character classes, validation, password digests, formatting and
    random ranges.  The hash functions are OpenSSL's and the broken-down time is the C
    library's: both are parameters. *)
From S2P Require Import Prelude CString Definitions.

Module Tools.

(** ** Characters: a [char] is signed, a byte of a string is not *)

Definition upchar (c : Z) : Z :=
  let character := schar c in
  if ((97 <=? character) && (character <=? 122)) || ((character <=? -1) && (-32 <=? character))
  then u8 (character - 32) else c.

(** [tolower] of the C library, in the "C" locale. *)
Definition tolower (c : Z) : Z := if (65 <=? c) && (c <=? 90) then c + 32 else c.

Definition isNumber (c : Z) : bool := (48 <=? schar c) && (schar c <=? 57).
Definition isLowercaseLetter (c : Z) : bool := (97 <=? schar c) && (schar c <=? 122).
Definition isUppercaseLetter (c : Z) : bool := (65 <=? schar c) && (schar c <=? 90).
Definition isPasswordCharacter (c : Z) : bool :=
  let character := schar c in
  ((33 <=? character) && (character <=? 47)) || ((58 <=? character) && (character <=? 64)) ||
  ((91 <=? character) && (character <=? 96)) || ((123 <=? character) && (character <=? 126)).

(** ** Strings *)

Definition toLowerCaseString (source : cstring) : cstring := map tolower source.
Definition toUpperCaseString (source : cstring) : cstring := map upchar source.
Definition asLowerCaseString (source : cstring) : cstring := toLowerCaseString source.
Definition asUpperCaseString (source : cstring) : cstring := toUpperCaseString source.

Definition trim_right (t source : cstring) : cstring := erase_last_of t source.
Definition trim_left (t source : cstring) : cstring := erase_first_of t source.
Definition trimString (str : cstring) : cstring := trim_left [32] (trim_right [32] str).

(** [replaceString(text, key, value)]: whether the key was there, and the text; [None]
    when the fuel does not suffice. *)
Fixpoint replace_loop (fuel : nat) (text key value : cstring) (pos : nat) : option cstring :=
  match sfind text key pos with
  | None => Some text
  | Some start =>
      match fuel with
      | O => None
      | S fuel =>
          replace_loop fuel (take start text ++ value ++ drop (start + length key) text)
            key value (start + length value)
      end
  end.

Definition replaceString (fuel : nat) (text key value : cstring) : option (bool * cstring) :=
  match sfind text key 0 with
  | None => Some (false, text)
  | Some _ => text ← replace_loop fuel text key value 0; Some (true, text)
  end.

Definition booleanString (source : cstring) : bool :=
  let source := toLowerCaseString source in
  cstring_eqb source $"yes" || cstring_eqb source $"true" || (0 <? atoi source).

(** The counters of [ucfirst] and [ucwords] are 16 bits wide. *)
Fixpoint ucfirst_loop (source : cstring) : cstring :=
  match source with
  | [] => []
  | c :: source => if c =? 32 then c :: ucfirst_loop source else upchar c :: source
  end.

Definition ucfirst (source : cstring) : cstring :=
  let n := Z.to_nat (u16 (zlen source)) in ucfirst_loop (take n source) ++ drop n source.

Fixpoint ucwords_loop (tmp : bool) (source : cstring) : cstring :=
  match source with
  | [] => []
  | c :: source =>
      if c =? 32 then c :: ucwords_loop true source
      else if tmp then upchar c :: ucwords_loop false source
      else c :: ucwords_loop false source
  end.

Definition ucwords (source : cstring) : cstring :=
  let n := Z.to_nat (u16 (zlen source)) in ucwords_loop true (take n source) ++ drop n source.

(** [explodeString(string, separator, trim, limit)]; [None] when the fuel does not
    suffice. *)
Fixpoint explode_loop (fuel : nat) (string separator : cstring) (trim : bool) (limit i : Z)
    (start : nat) : option (list cstring) :=
  match sfind string separator start with
  | None => Some [substr_from string start]
  | Some last =>
      let piece := substr string start (last - start) in
      let piece := if trim then trimString piece else piece in
      let start := (last + length separator)%nat in
      let i := u16 (i + 1) in
      if (0 <? limit) && (limit <? i) then Some [piece; substr_from string start]
      else
        match fuel with
        | O => None
        | S fuel =>
            pieces ← explode_loop fuel string separator trim limit i start;
            Some (piece :: pieces)
        end
  end.

Definition explodeString (fuel : nat) (string separator : cstring) (trim : bool) (limit : Z) :
    option (list cstring) :=
  explode_loop fuel string separator trim limit 1 0.

Definition vectorAtoi (stringVector : list cstring) : list Z :=
  omap (fun s => let number := atoi s in
    if negb (number =? 0) || cstring_eqb s $"0" then Some number else None) stringVector.

(** [parseIntegerVec(str, intVector)]: the vector after; [None] when the loop reads the
    first element of an empty vector (or the fuel does not suffice). *)
Fixpoint parse_ranges (fuel : nat) (strVector : list cstring) (intVector : list Z) : option (list Z) :=
  match strVector with
  | [] => Some intVector
  | s :: strVector =>
      pieces ← explodeString fuel s $"-" true 0;
      match vectorAtoi pieces with
      | [] => None
      | first :: rest =>
          if (first =? 0) && negb (cstring_eqb (substr s 0 1) $"0")
          then parse_ranges fuel strVector intVector
          else
            let range := match rest with
                         | second :: _ => if first <? second then seqZ (first + 1) (second - first) else []
                         | [] => []
                         end in
            parse_ranges fuel strVector (intVector ++ first :: range)
      end
  end.

Definition parseIntegerVec (fuel : nat) (str : cstring) (intVector : list Z) : option (list Z) :=
  strVector ← explodeString fuel str $";" true 0;
  parse_ranges fuel strVector intVector.

Definition hasBitSet (flag flags : Z) : bool := Z.land flags flag =? flag.

(** ** Validation *)

Definition isValidAccountName (text : cstring) : bool :=
  forallb (fun c => isLowercaseLetter c || isNumber c) (toLowerCaseString text).

Definition isValidPassword (text : cstring) : bool :=
  forallb (fun c => isLowercaseLetter c || isNumber c || isPasswordCharacter c) (toLowerCaseString text).

Definition isNumbers (text : cstring) : bool := forallb isNumber text.

(** The counters of [isValidName]'s loop. *)
Record name_state := mkName {
  lenBeforeSpace : Z;
  lenBeforeQuote : Z;
  lenBeforeDash : Z;
  repeatedCharacter : Z;
  lastChar : Z
}.

(** A quote or a dash: the counter before it, and whether what follows is allowed. *)
Definition name_mark (mark c len : Z) (rest : cstring) : option Z :=
  if negb (c =? mark) then Some (len + 1)
  else
    match rest with
    | [] => None
    | next :: _ => if (len <=? 1) || (next =? 32) then None else Some 0
    end.

Definition name_char (s : name_state) (c : Z) (rest : cstring) : option name_state :=
  if negb (c =? 32) then
    quote ← name_mark 39 c (lenBeforeQuote s) rest;
    dash ← name_mark 45 c (lenBeforeDash s) rest;
    let repeated := if c =? lastChar s then repeatedCharacter s + 1 else 0 in
    if 2 <? repeated then None
    else Some (mkName (lenBeforeSpace s + 1) quote dash repeated c)
  else
    match rest with
    | [] => None
    | next :: _ =>
        if (lenBeforeSpace s <=? 1) || (next =? 32) then None
        else Some (mkName 0 0 0 (repeatedCharacter s) (lastChar s))
    end.

Fixpoint name_loop (s : name_state) (previous : Z) (text : cstring) : bool :=
  match text with
  | [] => true
  | c :: rest =>
      match name_char s c rest with
      | None => false
      | Some s =>
          if isLowercaseLetter c || (c =? 32) || (c =? 39) || (c =? 45) ||
             (isUppercaseLetter c && (previous =? 32))
          then name_loop s c rest else false
      end
  end.

(** [isValidName(text, force)]: the first character of an empty string reads as NUL. *)
Definition isValidName (text : cstring) (force : bool) : bool :=
  match text with
  | [] => false
  | c :: text =>
      if (if force then isUppercaseLetter c else isLowercaseLetter c || isUppercaseLetter c)
      then name_loop (mkName 1 1 1 0 32) c text else false
  end.

Definition checkText (text str : cstring) : bool :=
  cstring_eqb (asLowerCaseString (trimString text)) str.

(** ** Digests *)

Definition hex_digit (n : Z) : Z := if n <? 10 then 48 + n else 55 + n.

(** [sprintf("%.2X")] of each byte. *)
Definition hex_string (md : list Z) : cstring :=
  concat (map (fun b => [hex_digit (b / 16); hex_digit (b mod 16)]) md).

Section Digests.
Variables MD5 SHA1 SHA256 SHA512 : list Z -> list Z.

Definition transformTo (digest : list Z -> list Z) (plainText : cstring) (upperCase : bool) : cstring :=
  let output := hex_string (digest plainText) in
  if upperCase then output else asLowerCaseString output.

Definition transformToMD5 := transformTo MD5.
Definition transformToSHA1 := transformTo SHA1.
Definition transformToSHA256 := transformTo SHA256.
Definition transformToSHA512 := transformTo SHA512.

(** [_encrypt(str, upperCase)]; [encryption] is the configured number. *)
Definition _encrypt (encryption : Z) (str : cstring) (upperCase : bool) : cstring :=
  if encryption =? ENCRYPTION_MD5 then transformToMD5 str upperCase
  else if encryption =? ENCRYPTION_SHA1 then transformToSHA1 str upperCase
  else if encryption =? ENCRYPTION_SHA256 then transformToSHA256 str upperCase
  else if encryption =? ENCRYPTION_SHA512 then transformToSHA512 str upperCase
  else if upperCase then map upchar str else str.

(** [encryptTest(plain, hash)]: the answer, and the hash as it is left. *)
Definition encryptTest (encryption : Z) (plain hash : cstring) : bool * cstring :=
  let hash := map upchar hash in
  (cstring_eqb (_encrypt encryption plain true) hash, hash).

End Digests.

(** ** Numbers, addresses, files *)

(** [convertIPAddress(ip)]: network byte order, so the first number is the low byte. *)
Definition convertIPAddress (ip : Z) : cstring :=
  dec (Z.land ip 255) ++ $"." ++ dec (Z.land (Z.shiftr ip 8) 255) ++ $"." ++
  dec (Z.land (Z.shiftr ip 16) 255) ++ $"." ++ dec (Z.shiftr ip 24).

(** [swap_uint32(val)] *)
Definition swap_uint32 (val : Z) : Z :=
  let val := Z.lor (Z.land (u32 (Z.shiftl val 8)) 0xFF00FF00) (Z.land (Z.shiftr val 8) 0xFF00FF) in
  Z.lor (u32 (Z.shiftl val 16)) (Z.shiftr val 16).

(** [rand24b()] of two results of [rand()]. *)
Definition rand24b (r1 r2 : Z) : Z := Z.land (Z.lxor (u32 (Z.shiftl r1 12)) r2) 0xFFFFFF.

(** [random_range(lowest, highest, DISTRO_UNIFORM)], [r] the result of [rand24b()];
    [None] when the width of the range overflows. *)
Definition random_range (r lowestNumber highestNumber : Z) : option Z :=
  if highestNumber =? lowestNumber then Some lowestNumber
  else
    let '(lo, hi) := if highestNumber <? lowestNumber then (highestNumber, lowestNumber)
                     else (lowestNumber, highestNumber) in
    if 2 ^ 31 - 1 <? hi - lo + 1 then None
    else Some (lo + Z.rem (i32 r) (hi - lo + 1)).

Inductive FileType_t := FILE_TYPE_LOG | FILE_TYPE_OTHER | FILE_TYPE_CONFIG.

Definition getFilePath (type : FileType_t) (name : cstring) : cstring :=
  match type with
  | FILE_TYPE_OTHER => name
  | FILE_TYPE_LOG => $"logs/" ++ name
  | FILE_TYPE_CONFIG => name
  end.

(** ** Dates: [tms] is the result of [localtime] *)

Record tm := mkTm { tm_sec : Z; tm_min : Z; tm_hour : Z; tm_mday : Z; tm_mon : Z; tm_year : Z }.

Definition unix_time (time : Z) : cstring := $"UNIX Time: " ++ dec (i32 time).

Definition formatDate (time : Z) (tms : option tm) : cstring :=
  match tms with
  | Some tms =>
      dec (tm_mday tms) ++ $"/" ++ dec (tm_mon tms + 1) ++ $"/" ++ dec (tm_year tms + 1900) ++ $" " ++
      dec (tm_hour tms) ++ $":" ++ dec (tm_min tms) ++ $":" ++ dec (tm_sec tms)
  | None => unix_time time
  end.

(** [formatDateEx(_time, format)] with the text that strftime makes; one that does not fit
    in the 25 bytes given leaves the buffer indeterminate. *)
Definition formatDateEx (strftime : cstring -> tm -> cstring) (time : Z) (format : cstring) (tms : option tm) : option cstring :=
  match tms with
  | Some tms =>
      let text := strftime (c_str format) tms in
      if zlen text + 1 <=? 25 then Some (c_str text) else None
  | None => Some (unix_time time)
  end.

(** [formatTime(_time, ms)]: [millitm] is read of the clock; milliseconds are printed
    only for the current time, [_time = 0]. *)
Definition formatTime (_time now : Z) (ms : bool) (millitm : Z) (tms : option tm) : cstring :=
  let time := if _time =? 0 then now else _time in
  let ms := if _time =? 0 then ms else false in
  match tms with
  | Some tms =>
      dec (tm_hour tms) ++ $":" ++ dec (tm_min tms) ++ $":" ++
      (if tm_sec tms <? 10 then $"0" else []) ++ dec (tm_sec tms) ++
      (if ms then
         $"." ++ (if millitm <? 10 then $"0" else []) ++ (if millitm <? 100 then $"0" else []) ++ dec millitm
       else [])
  | None => unix_time time
  end.

(** ** Splitting and joining *)

Fixpoint join (separator : cstring) (pieces : list cstring) : cstring :=
  match pieces with
  | [] => []
  | [piece] => piece
  | piece :: pieces => piece ++ separator ++ join separator pieces
  end.

Definition contains (key s : cstring) : Prop := exists l r, s = l ++ key ++ r.

(** The pieces of [s] between the occurrences of [key], leftmost first. *)
Inductive splits (key : cstring) : cstring -> list cstring -> Prop :=
| splits_last s : sfind s key 0 = None -> splits key s [s]
| splits_more s i pieces :
    sfind s key 0 = Some i -> splits key (drop (i + length key) s) pieces ->
    splits key s (take i s :: pieces).

Lemma find_from_shift key s i : find_from key s i = (fun j => (i + j)%nat) <$> find_from key s 0.
Proof.
  revert i. induction s as [|c s IH]; intros i; cbn [find_from];
    destruct (is_prefix key _); cbn; try done; try (f_equal; lia).
  rewrite (IH (S i)), (IH 1%nat). destruct (find_from key s 0); cbn; [|done]. f_equal. lia.
Qed.

Lemma sfind_drop s key pos : (pos <= length s)%nat ->
  sfind s key pos = (fun j => (pos + j)%nat) <$> sfind (drop pos s) key 0.
Proof.
  intros Hl. unfold sfind. destruct (Nat.ltb_spec (length s) pos); [lia|].
  rewrite find_from_shift, drop_0.
  by rewrite (proj2 (Nat.ltb_ge _ 0)) by lia.
Qed.

Lemma splits_exists key s : key <> [] -> exists pieces, splits key s pieces.
Proof.
  intros Hk. remember (length s) as n eqn:Hn. assert (length s <= n)%nat as Hle by lia. clear Hn.
  revert s Hle. induction n as [|n IH]; intros s Hle; (destruct (sfind s key 0) as [i|] eqn:E;
    [|eexists; by apply splits_last]); apply sfind_spec in E as E'; destruct E' as (_ & Hb & _);
    (assert (0 < length key)%nat by (destruct key; [done|cbn; lia])); [lia|].
  destruct (IH (drop (i + length key) s)) as [pieces Hp]; [rewrite length_drop; lia|].
  eexists. by eapply splits_more.
Qed.

Lemma splits_nonempty key s pieces : splits key s pieces -> pieces <> [].
Proof. by destruct 1. Qed.

Lemma sfind_drop_key s key i :
  sfind s key 0 = Some i -> drop i s = key ++ drop (i + length key) s.
Proof.
  intros (_ & _ & r & Hr)%sfind_spec.
  assert (drop i s = key ++ r) as Hd by (apply (app_inv_head (take i s)); by rewrite take_drop).
  by rewrite <- drop_drop, Hd, drop_app_length.
Qed.

Lemma splits_join key s pieces : splits key s pieces -> join key pieces = s.
Proof.
  induction 1 as [s E|s i pieces E Hp IH]; [done|].
  pose proof (splits_nonempty _ _ _ Hp) as Hne. apply sfind_drop_key in E as E'.
  cbn [join]. destruct pieces as [|p ps]; [done|]. rewrite IH.
  by rewrite <- E', take_drop.
Qed.

Lemma find_from_leftmost key s i j p :
  find_from key s i = Some j -> (i + p < j)%nat -> ~ exists r, drop p s = key ++ r.
Proof.
  revert i p. induction s as [|c s IH]; intros i p; cbn [find_from];
    destruct (is_prefix key _) eqn:Hp; try done; intros Hf Hlt.
  - injection Hf as <-. lia.
  - injection Hf as <-. lia.
  - destruct p as [|p]; cbn.
    + intros Hr. apply is_prefix_spec in Hr. congruence.
    + apply (IH (S i)); [done|lia].
Qed.

Lemma splits_free key s pieces :
  key <> [] -> splits key s pieces -> Forall (fun piece => ~ contains key piece) pieces.
Proof.
  intros Hk. induction 1 as [s E|s i pieces E Hp IH]; constructor; try done.
  - intros (l & r & Hs). apply (find_from_None key s 0 (length l)).
    + revert E. unfold sfind. by rewrite drop_0.
    + exists r. by rewrite Hs, drop_app_length.
  - intros (l & r & Hs). pose proof (sfind_spec _ _ _ _ E) as (_ & Hb & _).
    assert (length (take i s) = i) as Hi by (rewrite length_take; lia).
    apply (find_from_leftmost key s 0 i (length l)).
    + revert E. unfold sfind. by rewrite drop_0.
    + rewrite <- Hi, Hs, !length_app. destruct key; [done|cbn; lia].
    + exists (r ++ drop i s). rewrite <- (take_drop i s) at 1. rewrite Hs.
      by rewrite <- !app_assoc, drop_app_length.
Qed.

Lemma splits_length key s pieces :
  key <> [] -> splits key s pieces -> (length pieces <= S (length s))%nat.
Proof.
  intros Hk. induction 1 as [s E|s i pieces E Hp IH]; cbn; [lia|].
  apply sfind_spec in E as (_ & Hb & _). rewrite length_drop in IH.
  assert (0 < length key)%nat by (destruct key; [done|cbn; lia]). lia.
Qed.

(** Every piece but the last is trimmed. *)
Fixpoint trim_init (trim : bool) (pieces : list cstring) : list cstring :=
  match pieces with
  | [] => []
  | [piece] => [piece]
  | piece :: pieces => (if trim then trimString piece else piece) :: trim_init trim pieces
  end.

Lemma explode_loop_splits fuel string separator trim i start pieces :
  (start <= length string)%nat -> splits separator (drop start string) pieces ->
  (length pieces <= S fuel)%nat ->
  explode_loop fuel string separator trim 0 i start = Some (trim_init trim pieces).
Proof.
  intros Hst Hp. remember (drop start string) as s eqn:Hs. revert fuel i start Hst Hs.
  induction Hp as [s E|s j pieces E Hp IH]; intros fuel i start Hst Hs Hf; subst s.
  - assert (sfind string separator start = None) as En by (rewrite sfind_drop by done; by rewrite E).
    destruct fuel; cbn [explode_loop]; by rewrite En.
  - assert (sfind string separator start = Some (start + j)%nat) as Ej by (rewrite sfind_drop by done; by rewrite E).
    pose proof (splits_nonempty _ _ _ Hp) as Hne.
    destruct fuel as [|fuel]; [destruct pieces; [done|cbn in Hf; lia]|].
    cbn [explode_loop]. rewrite Ej. change (0 <? 0) with false. cbn [andb].
    apply sfind_spec in Ej as (_ & Hb & _).
    rewrite (IH fuel (u16 (i + 1)) (start + j + length separator)%nat); [|lia| |cbn in Hf; lia].
    + cbn [mbind option_bind trim_init]. destruct pieces; [done|]. unfold substr.
      by replace (start + j - start)%nat with j by lia.
    + rewrite drop_drop. f_equal. lia.
Qed.

Lemma replace_loop_splits fuel prefix rest key value pieces :
  splits key rest pieces -> (length pieces <= S fuel)%nat ->
  replace_loop fuel (prefix ++ rest) key value (length prefix) = Some (prefix ++ join value pieces).
Proof.
  intros Hp. revert fuel prefix.
  induction Hp as [s E|s j pieces E Hp IH]; intros fuel prefix Hf.
  - assert (sfind (prefix ++ s) key (length prefix) = None) as En
      by (rewrite sfind_drop, drop_app_length by (rewrite length_app; lia); by rewrite E).
    destruct fuel; cbn [replace_loop]; by rewrite En.
  - assert (sfind (prefix ++ s) key (length prefix) = Some (length prefix + j)%nat) as Ej
      by (rewrite sfind_drop, drop_app_length by (rewrite length_app; lia); by rewrite E).
    pose proof (splits_nonempty _ _ _ Hp) as Hne. apply sfind_spec in E as (_ & Hb & _).
    destruct fuel as [|fuel]; [destruct pieces; [done|cbn in Hf; lia]|].
    cbn [replace_loop]. rewrite Ej, take_app_add, drop_app_ge by lia.
    replace (length prefix + j + length key - length prefix)%nat with (j + length key)%nat by lia.
    replace (length prefix + j + length value)%nat with (length ((prefix ++ take j s) ++ value))
      by (rewrite !length_app, length_take; lia).
    rewrite app_assoc, IH by (cbn in Hf; lia).
    cbn [join]. destruct pieces; [done|]. by rewrite <- !app_assoc.
Qed.

(** C28: explodeString and replaceString split alike.  For a separator that is not empty
    both loops end, within as many rounds as the string has characters; the pieces
    contain no separator and joined with it give the string back; explodeString returns
    them, all but the last trimmed when asked to; and replaceString returns the same
    pieces joined with the new value. *)
Theorem explode_replace_spec fuel string separator value trim :
  separator <> [] -> (length string <= fuel)%nat ->
  exists pieces, join separator pieces = string /\
    Forall (fun piece => ~ contains separator piece) pieces /\
    explodeString fuel string separator trim 0 = Some (trim_init trim pieces) /\
    replaceString fuel string separator value = Some (bool_decide (1 < length pieces)%nat, join value pieces).
Proof.
  intros Hk Hf. destruct (splits_exists separator string Hk) as [pieces Hp].
  pose proof (splits_length _ _ _ Hk Hp) as Hl. exists pieces. split_and!.
  - by eapply splits_join.
  - by eapply splits_free.
  - apply explode_loop_splits; [lia|by rewrite drop_0|lia].
  - unfold replaceString. destruct (sfind string separator 0) eqn:E.
    + pose proof (replace_loop_splits fuel [] string separator value pieces Hp) as Hr.
      cbn [app length] in Hr. rewrite Hr by lia. cbn [mbind option_bind].
      rewrite bool_decide_eq_true_2; [done|]. destruct Hp as [s E'|s i ps E' Hp']; [congruence|].
      apply splits_nonempty in Hp'. destruct ps; [done|cbn; lia].
    + destruct Hp as [s E'|]; [done|congruence].
Qed.

Lemma explode_replace_spec_witness :
  explodeString 11 ($"a, b ,,c d ") ($",") true 0 = Some [$"a"; $"b"; []; $"c d "] /\
  exists pieces, replaceString 11 ($"a, b ,,c d ") ($",") ($"--") = Some (bool_decide (1 < length pieces)%nat, join ($"--") pieces).
Proof.
  split; [vm_compute; reflexivity|].
  destruct (explode_replace_spec 11 ($"a, b ,,c d ") ($",") ($"--") true) as (pieces & _ & _ & _ & H);
    [discriminate|vm_compute; lia|].
  exists pieces. exact H.
Defined.

(** An empty separator is not survived.  With an empty key both loops go on for
    ever, whatever the fuel: explodeString (without a limit) and replaceString do not
    return. *)
Theorem empty_separator_diverges fuel string value trim :
  explodeString fuel string [] trim 0 = None /\ replaceString fuel string [] value = None.
Proof.
  assert (forall s (pos : nat), (pos <= length s)%nat -> sfind s [] pos = Some pos) as Hf.
  { intros s pos Hl. unfold sfind. destruct (Nat.ltb_spec (length s) pos); [lia|].
    by destruct (drop pos s). }
  split.
  - assert (forall start i, (start <= length string)%nat ->
      explode_loop fuel string [] trim 0 i start = None) as H; [|apply H; lia].
    induction fuel as [|fuel IH]; intros start i Hst; cbn [explode_loop];
      rewrite Hf by done; change (0 <? 0) with false; cbn [andb]; [done|].
    rewrite IH; [done|]. cbn. lia.
  - unfold replaceString. rewrite Hf by lia.
    assert (forall s pos, (pos <= length s)%nat -> replace_loop fuel s [] value pos = None) as Hr.
    { induction fuel as [|fuel IH]; intros s pos Hl; cbn [replace_loop]; rewrite Hf by done; [done|].
      apply IH. rewrite !length_app, length_take, length_drop. cbn. lia. }
    by rewrite Hr by lia.
Qed.

(** ** Digests *)

Lemma upchar_idemp c : is_byte c -> upchar (upchar c) = upchar c.
Proof.
  intros Hc. apply Z.eqb_eq. revert c Hc.
  apply (byte_forall (fun c => upchar (upchar c) =? upchar c)). by vm_compute.
Qed.

(** The two digits of a byte, in either case, read back in upper case. *)
Definition hex_byte (b : Z) : cstring := [hex_digit (b / 16); hex_digit (b mod 16)].

Lemma hex_string_cons b md : hex_string (b :: md) = hex_byte b ++ hex_string md.
Proof. done. Qed.

Lemma hex_byte_upper b : is_byte b ->
  map upchar (hex_byte b) = hex_byte b /\ map upchar (map tolower (hex_byte b)) = hex_byte b.
Proof.
  intros Hb. apply (bool_decide_eq_true_1 _). revert b Hb.
  apply (byte_forall (fun b => bool_decide (map upchar (hex_byte b) = hex_byte b /\
    map upchar (map tolower (hex_byte b)) = hex_byte b))). by vm_compute.
Qed.

Lemma hex_byte_inj a b : is_byte a -> is_byte b -> hex_byte a = hex_byte b -> a = b.
Proof.
  unfold is_byte. intros Ha Hb [= H1 H2].
  assert (0 <= a / 16 < 16 /\ 0 <= b / 16 < 16 /\ 0 <= a mod 16 < 16 /\ 0 <= b mod 16 < 16) as (?&?&?&?).
  { Z.div_mod_to_equations. lia. }
  assert (a / 16 = b / 16 /\ a mod 16 = b mod 16) as [E1 E2].
  { unfold hex_digit in *. destruct (Z.ltb_spec (a / 16) 10), (Z.ltb_spec (b / 16) 10),
      (Z.ltb_spec (a mod 16) 10), (Z.ltb_spec (b mod 16) 10); lia. }
  rewrite (Z.div_mod a 16), (Z.div_mod b 16) by lia. by rewrite E1, E2.
Qed.

Lemma hex_string_upper md : bytes_ok md ->
  map upchar (hex_string md) = hex_string md /\
  map upchar (asLowerCaseString (hex_string md)) = hex_string md.
Proof.
  unfold asLowerCaseString, toLowerCaseString.
  induction 1 as [|b md Hb _ [IH1 IH2]]; [done|].
  destruct (hex_byte_upper b Hb) as [H1 H2].
  by rewrite hex_string_cons, !map_app, H1, H2, IH1, IH2.
Qed.

Lemma hex_string_inj md1 md2 : bytes_ok md1 -> bytes_ok md2 -> hex_string md1 = hex_string md2 -> md1 = md2.
Proof.
  intros H1 H2. revert md2 H2. induction H1 as [|a md1 Ha _ IH]; intros md2 H2 E;
    destruct H2 as [|b md2 Hb H2]; try done.
  rewrite !hex_string_cons in E. apply app_inj_1 in E as [E1 E2]; [|done].
  f_equal; [by apply hex_byte_inj|by apply IH].
Qed.

(** C33: what a stored password hash accepts.  With one of the four digests configured, a
    password passes against the stored hash of another exactly when their digests agree,
    whether the hash was stored in upper or lower case; with plain storage, exactly when
    they agree up to letter case. *)
Theorem encryptTest_iff MD5 SHA1 SHA256 SHA512 encryption plain other upperCase :
  (forall s, bytes_ok (MD5 s) /\ bytes_ok (SHA1 s) /\ bytes_ok (SHA256 s) /\ bytes_ok (SHA512 s)) ->
  bytes_ok other ->
  (encryptTest MD5 SHA1 SHA256 SHA512 encryption plain
    (_encrypt MD5 SHA1 SHA256 SHA512 encryption other upperCase)).1 = true <->
  (if encryption =? ENCRYPTION_MD5 then MD5 plain = MD5 other
   else if encryption =? ENCRYPTION_SHA1 then SHA1 plain = SHA1 other
   else if encryption =? ENCRYPTION_SHA256 then SHA256 plain = SHA256 other
   else if encryption =? ENCRYPTION_SHA512 then SHA512 plain = SHA512 other
   else map upchar plain = map upchar other).
Proof.
  intros Hd Hb. unfold encryptTest, _encrypt. cbn [fst]. rewrite cstring_eqb_eq.
  assert (forall digest, (forall s, bytes_ok (digest s)) ->
    transformTo digest plain true = map upchar (transformTo digest other upperCase) <->
    digest plain = digest other) as Hdig.
  { intros digest Hok. destruct (hex_string_upper _ (Hok other)) as [Hu Hl]. unfold transformTo.
    replace (map upchar (if upperCase then _ else _)) with (hex_string (digest other)) by (by destruct upperCase).
    split; [by apply hex_string_inj|by intros ->]. }
  unfold transformToMD5, transformToSHA1, transformToSHA256, transformToSHA512.
  repeat (destruct (encryption =? _); [apply Hdig; intros s; apply (Hd s)|]).
  assert (map upchar (map upchar other) = map upchar other) as Hi.
  { rewrite map_map. apply map_ext_in. intros c Hc. apply upchar_idemp.
    rewrite Forall_forall in Hb. apply Hb. by apply list_elem_of_In. }
  destruct upperCase; [by rewrite Hi|done].
Qed.

(** A stand-in for a digest: the text itself, as bytes. *)
Definition example_digest (s : list Z) : list Z := map u8 s.

Lemma encryptTest_iff_witness :
  (encryptTest example_digest example_digest example_digest example_digest ENCRYPTION_SHA1
    ($"secret") ($"736563726574")).1 = true.
Proof.
  refine (proj2 (encryptTest_iff example_digest example_digest example_digest example_digest
    ENCRYPTION_SHA1 ($"secret") ($"secret") true _ _) _).
  - assert (forall s, bytes_ok (example_digest s)) as H; [|auto].
    intros s. apply Forall_forall. intros x Hx. apply list_elem_of_fmap in Hx as (y & -> & _).
    apply wrapu_range. lia.
  - apply lit_bytes_ok.
  - reflexivity.
Defined.

(** ** Addresses *)

Lemma dec_u_split a b x y :
  0 <= a -> 0 <= b -> dec_u a ++ $"." ++ x = dec_u b ++ $"." ++ y -> a = b /\ x = y.
Proof.
  intros Ha Hb E.
  assert (forall s t x y, Forall (fun c => is_digit c = true) s -> Forall (fun c => is_digit c = true) t ->
    s ++ 46 :: x = t ++ 46 :: y -> s = t /\ x = y) as Hsplit.
  { clear. induction s as [|c s IH]; intros t x y Hs Ht E; destruct t as [|d t].
    - by injection E as ->.
    - inversion Ht; subst. by injection E as <- _.
    - inversion Hs; subst. by injection E as -> _.
    - inversion Hs; inversion Ht; subst. injection E as -> E.
      destruct (IH t x y) as [-> ->]; done. }
  change ($"." ++ x) with (46 :: x) in E. change ($"." ++ y) with (46 :: y) in E.
  apply Hsplit in E as [E ->]; [|by apply dec_u_digits|by apply dec_u_digits].
  split; [|done]. rewrite <- (dec_u_value a), <- (dec_u_value b) by done. by rewrite E.
Qed.

Lemma land_byte z : 0 <= z -> Z.land z 255 = z mod 256.
Proof. intros. change 255 with (Z.ones 8). by rewrite Z.land_ones by lia. Qed.

(** The printed address determines the address. *)
Lemma convertIPAddress_inj ip ip' :
  0 <= ip < 2 ^ 32 -> 0 <= ip' < 2 ^ 32 -> convertIPAddress ip = convertIPAddress ip' -> ip = ip'.
Proof.
  intros H H'. unfold convertIPAddress.
  rewrite !land_byte by (rewrite ?Z.shiftr_div_pow2 by lia; try apply Z.div_pos; lia).
  rewrite !Z.shiftr_div_pow2 by lia.
  assert (forall z, 0 <= z -> dec z = dec_u z) as Hdec.
  { intros z Hz. unfold dec. by destruct (Z.ltb_spec z 0); [lia|]. }
  rewrite !Hdec by (try apply Z.mod_pos_bound; try apply Z.div_pos; lia).
  change (2 ^ 8) with 256. change (2 ^ 16) with 65536. change (2 ^ 24) with 16777216.
  intros E. apply dec_u_split in E as [E1 E]; [|apply Z.mod_pos_bound; lia|apply Z.mod_pos_bound; lia].
  apply dec_u_split in E as [E2 E]; [|apply Z.mod_pos_bound; lia|apply Z.mod_pos_bound; lia].
  apply dec_u_split in E as [E3 E]; [|apply Z.mod_pos_bound; lia|apply Z.mod_pos_bound; lia].
  assert (ip / 16777216 = ip' / 16777216) as E4.
  { rewrite <- (dec_u_value (ip / _)), <- (dec_u_value (ip' / _)) by (apply Z.div_pos; lia). by rewrite E. }
  clear E. Z.div_mod_to_equations. lia.
Qed.

(** ** Random ranges *)

(** A random number lies in the range asked for, whichever end comes first; it is
    computed unless the width of the range overflows an int32_t. *)
Theorem random_range_bounds r a b :
  0 <= r < 2 ^ 24 -> - 2 ^ 31 <= a < 2 ^ 31 -> - 2 ^ 31 <= b < 2 ^ 31 ->
  if decide (Z.abs (a - b) + 1 < 2 ^ 31)
  then exists v, random_range r a b = Some v /\ Z.min a b <= v <= Z.max a b
  else random_range r a b = None.
Proof.
  intros Hr Ha Hb. unfold random_range. rewrite wraps_small by lia.
  destruct (Z.eqb_spec b a) as [->|Hne].
  { rewrite Z.sub_diag, decide_True by done. exists a. split; [done|lia]. }
  destruct (Z.ltb_spec b a); case_decide; zbool;
    (eexists; split; [done|]); rewrite Z.rem_mod_nonneg by lia.
  - pose proof (Z.mod_pos_bound r (a - b + 1)). lia.
  - pose proof (Z.mod_pos_bound r (b - a + 1)). lia.
Qed.

Lemma random_range_bounds_witness : exists v, random_range 12345 10 (-10) = Some v /\ -10 <= v <= 10.
Proof.
  pose proof (random_range_bounds 12345 10 (-10)) as H. rewrite decide_True in H by reflexivity.
  apply H; lia.
Defined.

End Tools.
