(* ===== verification/Floats.v ===== *)
(** * Floating point, and the random numbers made of it (src/tools.cpp)

    A [float] and a [double] are IEEE binary32 and binary64 numbers rounded to nearest, as
    the Standard Library specifies them ([SpecFloat]); an operation on [float]s is done in
    that precision, and one with a [double] in the double's.  A conversion to an integer
    the type does not hold is undefined behaviour and has no result.  The file models
    roundValue, box_muller and every distribution of random_range, and proves that a range
    of less than 2^24 is never left, whatever the random numbers are. *)
From Stdlib Require Import SpecFloat.
From S2P Require Import Prelude Proc Tools.

Module Floats.

(** ** The types *)

Abbreviation float_add := (SFadd 24 128).
Abbreviation float_sub := (SFsub 24 128).
Abbreviation float_mul := (SFmul 24 128).
Abbreviation float_div := (SFdiv 24 128).
Abbreviation double_sub := (SFsub 53 1024).
Abbreviation double_mul := (SFmul 53 1024).
Abbreviation double_div := (SFdiv 53 1024).

(** An integer, and a dyadic number, as a [float] or a [double]. *)
Definition float_of_Z (n : Z) : spec_float := binary_normalize 24 128 n 0 false.
Definition double_of_Z (n : Z) : spec_float := binary_normalize 53 1024 n 0 false.
Definition float_half : spec_float := binary_normalize 24 128 1 (-1) false.
Definition float_quarter : spec_float := binary_normalize 24 128 1 (-2) false.
Definition double_half : spec_float := binary_normalize 53 1024 1 (-1) false.

(** The conversions between the two types. *)
Definition to_float (x : spec_float) : spec_float :=
  match x with S754_finite s m e => binary_round 24 128 s m e | _ => x end.
Definition to_double (x : spec_float) : spec_float :=
  match x with S754_finite s m e => binary_round 53 1024 s m e | _ => x end.

(** [(int32_t)x]: the fraction is dropped. *)
Definition trunc (x : spec_float) : option Z :=
  match x with
  | S754_zero _ => Some 0
  | S754_finite s m e => Some (cond_Zopp s (Z.shiftl (Zpos m) e))
  | _ => None
  end.
Definition to_int32 (x : spec_float) : option Z :=
  t ← trunc x; if (- 2 ^ 31 <=? t) && (t <? 2 ^ 31) then Some t else None.

(** [std::floor(x)] of a [float]. *)
Definition floor (x : spec_float) : spec_float :=
  match x with
  | S754_finite s m e => if 0 <=? e then x else binary_normalize 24 128 (Z.shiftl (cond_Zopp s (Zpos m)) e) 0 s
  | _ => x
  end.

(** [std::min(a, b)], [std::max(a, b)] *)
Definition std_min (a b : spec_float) : spec_float := if SFltb b a then b else a.
Definition std_max (a b : spec_float) : spec_float := if SFltb a b then b else a.

(** ** roundValue *)

Definition roundValue (v : spec_float) : option Z :=
  t ← to_int32 (floor v);
  Some (if SFltb double_half (to_double (float_sub v (float_of_Z t))) then t + 1 else t).

(** ** The generator *)

(** What [rand()] will return, and the static variables of [box_muller]. *)
Record rng := mkRng { rands : list Z; useLast : bool; y2 : spec_float }.

Abbreviation M := (proc rng Empty_set).

Definition setRands (l : list Z) (s : rng) : rng := mkRng l (useLast s) (y2 s).

Definition rand : M Z :=
  l ← gets rands;
  match l with [] => stuck | r :: l => _ ← modify (setRands l); mret r end.

Definition rand24b : M Z := r1 ← rand; r2 ← rand; mret (Tools.rand24b r1 r2).

(** [2.0 * r - 1.0] with [r] one [rand()] over RAND_MAX. *)
Definition coordinate (r : Z) : spec_float :=
  let r := to_double (float_div (float_of_Z r) (float_of_Z (2 ^ 31 - 1))) in
  to_float (double_sub (double_mul (double_of_Z 2) r) (double_of_Z 1)).

(** [w] of a pair, and the condition under which the loop draws another. *)
Definition weight (r1 r2 : Z) : spec_float :=
  float_add (float_mul (coordinate r1) (coordinate r1)) (float_mul (coordinate r2) (coordinate r2)).
Definition outside (r1 r2 : Z) : bool := SFleb (double_of_Z 1) (to_double (weight r1 r2)).

(** The loop: pairs are drawn until one is inside the unit disc. *)
Fixpoint disc (l : list Z) : option (spec_float * spec_float * spec_float * list Z) :=
  match l with
  | r1 :: r2 :: l =>
      if outside r1 r2 then disc l else Some (coordinate r1, coordinate r2, weight r1 r2, l)
  | _ => None
  end.

Inductive DistributionType_t := DISTRO_UNIFORM | DISTRO_SQUARE | DISTRO_NORMAL.

Section Distributions.

(** The natural logarithm of a [float], as a [double]: the library's is not rounded the
    same everywhere. *)
Variable log : spec_float -> spec_float.

(** Which overload [sqrt] of a [float] is, [float]'s or [double]'s, is the headers' choice. *)
Variable sqrt_float : bool.

Definition sqrt (x : spec_float) : spec_float :=
  if sqrt_float then to_double (SFsqrt 24 128 x) else SFsqrt 53 1024 (to_double x).

Definition box_muller (m s : spec_float) : M spec_float :=
  last ← gets useLast;
  if last : bool then
    y1 ← gets y2;
    _ ← modify (fun g => mkRng (rands g) false (y2 g));
    mret (float_add m (float_mul y1 s))
  else
    l ← gets rands;
    d ← lift (disc l);
    let '(x1, x2, w, l) := d in
    let w := to_float (SFsqrt 53 1024 (double_div (double_mul (double_of_Z (-2)) (log w)) (to_double w))) in
    _ ← modify (fun _ => mkRng l true (float_mul x2 w));
    mret (float_add m (float_mul (float_mul x1 w) s)).

(** The factor between 0 and 1 that the range is multiplied by. *)
Definition factor_normal : M spec_float :=
  b ← box_muller float_half float_quarter;
  mret (std_min (float_of_Z 1) (std_max (float_of_Z 0) b)).

(** The subtraction is done in [double]: where [sqrt] is a [float], its difference to 1
    has few enough bits to be exact there, and is rounded once all the same. *)
Definition factor_square : M spec_float :=
  r ← rand24b;
  mret (to_float (double_sub (double_of_Z 1)
    (sqrt (float_div (float_mul (float_of_Z 1) (float_of_Z r)) (float_of_Z 16777216))))).

(** [lowest + int32_t(float(highest - lowest) * factor)]; an [int32_t] that overflows has
    no result. *)
Definition scaled (lo hi : Z) (factor : spec_float) : option Z :=
  if 2 ^ 31 - 1 <? hi - lo then None
  else
    t ← to_int32 (float_mul (float_of_Z (hi - lo)) factor);
    if (- 2 ^ 31 <=? lo + t) && (lo + t <? 2 ^ 31) then Some (lo + t) else None.

Definition random_range (lowestNumber highestNumber : Z) (type : DistributionType_t) : M Z :=
  if highestNumber =? lowestNumber then mret lowestNumber
  else
    let '(lo, hi) := if highestNumber <? lowestNumber then (highestNumber, lowestNumber)
                     else (lowestNumber, highestNumber) in
    match type with
    | DISTRO_UNIFORM => r ← rand24b; lift (Tools.random_range r lo hi)
    | DISTRO_NORMAL => f ← factor_normal; lift (scaled lo hi f)
    | DISTRO_SQUARE => f ← factor_square; lift (scaled lo hi f)
    end.

End Distributions.

(** ** Rounding does not pass an integer *)

(** [m * 2 ^ e <= n], without fractions. *)
Definition le_scaled (m e n : Z) : Prop := m * 2 ^ Z.max e 0 <= n * 2 ^ Z.max (- e) 0.

(** The least integer not below a mantissa with the bits that were shifted out. *)
Definition up (r : shr_record) : Z := if shr_r r || shr_s r then shr_m r + 1 else shr_m r.

(** A number that is neither negative nor above [n]. *)
Definition at_most (n : Z) (x : spec_float) : Prop :=
  match x with
  | S754_zero _ => 0 <= n
  | S754_finite false m e => le_scaled (Zpos m) e n
  | _ => False
  end.

(** The mantissa has no more than the precision's bits. *)
Definition fits (prec : Z) (x : spec_float) : Prop :=
  match x with S754_finite _ m _ => Zpos m < 2 ^ prec | _ => True end.

Lemma pow_max_pos e : 0 < 2 ^ Z.max e 0.
Proof. apply Z.pow_pos_nonneg; lia. Qed.

Lemma le_scaled_mono m m' e n n' : m' <= m -> n <= n' -> le_scaled m e n -> le_scaled m' e n'.
Proof.
  unfold le_scaled. intros Hm Hn H.
  pose proof (pow_max_pos e). pose proof (pow_max_pos (- e)). nia.
Qed.

Lemma le_scaled_nonneg m n : le_scaled m 0 n <-> m <= n.
Proof. unfold le_scaled. rewrite !Z.mul_1_r. done. Qed.

Lemma le_scaled_frac m k n : 0 <= k -> le_scaled m (- k) n <-> m <= n * 2 ^ k.
Proof. intros. unfold le_scaled. rewrite Z.max_r, Z.opp_involutive, Z.max_l by lia. by rewrite Z.mul_1_r. Qed.

(** The same, in units of any [2 ^ c] that divides both. *)
Lemma le_scaled_at c m e n : c <= e -> c <= 0 -> le_scaled m e n <-> m * 2 ^ (e - c) <= n * 2 ^ (- c).
Proof.
  intros Hc H0. unfold le_scaled.
  replace (e - c) with (Z.max e 0 + (Z.min e 0 - c)) by lia.
  replace (- c) with (Z.max (- e) 0 + (Z.min e 0 - c)) by lia.
  rewrite !Z.pow_add_r, !Z.mul_assoc by lia.
  apply Z.mul_le_mono_pos_r, Z.pow_pos_nonneg; lia.
Qed.

Lemma le_scaled_mul m1 e1 n1 m2 e2 n2 : 0 <= m1 -> 0 <= m2 ->
  le_scaled m1 e1 n1 -> le_scaled m2 e2 n2 -> le_scaled (m1 * m2) (e1 + e2) (n1 * n2).
Proof.
  unfold le_scaled. intros Hm1 Hm2 H1 H2.
  set (c := Z.max e1 0 + Z.max e2 0 - Z.max (e1 + e2) 0).
  apply (Z.mul_le_mono_pos_r _ _ (2 ^ c)); [apply Z.pow_pos_nonneg; lia|].
  rewrite <- !Z.mul_assoc, <- !Z.pow_add_r by lia.
  replace (Z.max (e1 + e2) 0 + c) with (Z.max e1 0 + Z.max e2 0) by lia.
  replace (Z.max (- (e1 + e2)) 0 + c) with (Z.max (- e1) 0 + Z.max (- e2) 0) by lia.
  rewrite !Z.pow_add_r by lia.
  pose proof (pow_max_pos e1). pose proof (pow_max_pos e2).
  transitivity ((m1 * 2 ^ Z.max e1 0) * (m2 * 2 ^ Z.max e2 0)); [lia|].
  etransitivity; [apply Z.mul_le_mono_nonneg; [|exact H1| |exact H2]; apply Z.mul_nonneg_nonneg; lia|lia].
Qed.

Lemma digits_bounds p : 2 ^ (Zpos (digits2_pos p) - 1) <= Zpos p < 2 ^ Zpos (digits2_pos p).
Proof.
  induction p as [p IH|p IH|]; cbn [digits2_pos]; [..|done];
    rewrite Pos2Z.inj_succ, Z.pow_succ_r, Z.sub_1_r, Z.pred_succ by lia;
    replace (2 ^ Zpos (digits2_pos p)) with (2 * 2 ^ (Zpos (digits2_pos p) - 1)) in *
      by (rewrite <- Z.pow_succ_r by lia; f_equal; lia); lia.
Qed.

Lemma digits_upper m : 0 <= m -> m < 2 ^ Zdigits2 m.
Proof. destruct m as [|p|p]; [done| |lia]. intros _. apply digits_bounds. Qed.

Lemma iter_pos_spec {A} (f : A -> A) (P : Z -> A -> Prop) n : forall k x,
  P k x -> (forall k x, P k x -> P (k + 1) (f x)) -> P (k + Zpos n) (SpecFloat.iter_pos f n x).
Proof.
  induction n as [n IH|n IH|]; intros k x H Hf; cbn [SpecFloat.iter_pos]; [..|by apply Hf].
  - replace (k + Zpos n~1) with (k + 1 + Zpos n + Zpos n) by lia. apply IH; [apply IH; [by apply Hf|done]|done].
  - replace (k + Zpos n~0) with (k + Zpos n + Zpos n) by lia. apply IH; [by apply IH|done].
Qed.

Lemma shr_1_spec r : 0 <= shr_m r ->
  shr_m (shr_1 r) = shr_m r / 2 /\ forall N, up r <= 2 * N -> up (shr_1 r) <= N.
Proof.
  destruct r as [m r t]. unfold up. cbn [shr_m shr_r shr_s]. intros Hm.
  destruct m as [|[p|p|]|]; cbn [shr_1 shr_m shr_r shr_s]; [| | | |lia];
    destruct r, t; cbn; (split; [|intros N HN; lia]); try done;
    rewrite ?(Pos2Z.inj_xI p), ?(Pos2Z.inj_xO p); Z.div_mod_to_equations; lia.
Qed.

(** [k] bits shifted out below the units. *)
Lemma shr_spec n : forall r, 0 <= shr_m r ->
  shr_m (SpecFloat.iter_pos shr_1 n r) = shr_m r / 2 ^ Zpos n /\
  forall e N, e + Zpos n <= 0 -> le_scaled (up r) e N -> le_scaled (up (SpecFloat.iter_pos shr_1 n r)) (e + Zpos n) N.
Proof.
  intros r Hr.
  pose (P k x := 0 <= k /\ shr_m x = shr_m r / 2 ^ k /\
    forall e N, e + k <= 0 -> le_scaled (up r) e N -> le_scaled (up x) (e + k) N).
  assert (P (0 + Zpos n) (SpecFloat.iter_pos shr_1 n r)) as (_ & H1 & H2); [|done].
  apply iter_pos_spec.
  - split; [done|]. rewrite Z.pow_0_r, Z.div_1_r. split; [done|]. intros e N _. by rewrite Z.add_0_r.
  - intros k x (Hk & Hm & Hu).
    destruct (shr_1_spec x) as [H1 H2]; [rewrite Hm; apply Z.div_pos; [done|by apply Z.pow_pos_nonneg]|].
    split; [lia|]. split.
    + rewrite H1, Hm, Z.div_div, Z.pow_add_r by (try apply Z.pow_nonzero; lia). by rewrite Z.pow_1_r.
    + intros e N He H. specialize (Hu e N ltac:(lia) H).
      set (j := - (e + k)). replace (e + k) with (- j) in Hu by lia. replace (e + (k + 1)) with (- (j - 1)) by lia.
      rewrite le_scaled_frac in Hu |- * by lia. apply H2. etransitivity; [exact Hu|].
      apply Z.eq_le_incl. replace j with (Z.succ (j - 1)) at 1 by lia. rewrite Z.pow_succ_r by lia. lia.
Qed.

Section Rounding.
Variables prec emax : Z.
Hypothesis prec_pos : 0 < prec.
Hypothesis prec_emax : 2 * prec <= emax.

Abbreviation shr_fexp := (SpecFloat.shr_fexp prec emax).
Abbreviation binary_round_aux := (SpecFloat.binary_round_aux prec emax).

Lemma shr_m_of_loc m l : shr_m (shr_record_of_loc m l) = m.
Proof. by destruct l as [|[]]. Qed.

(** What is left of a mantissa is not negative and has the precision's bits. *)
Lemma shr_fexp_fits m e l : 0 <= m -> 0 <= shr_m (shr_fexp m e l).1 < 2 ^ prec.
Proof.
  intros Hm. unfold SpecFloat.shr_fexp, shr. pose proof (digits_upper m Hm) as Hd.
  set (k := fexp prec emax (Zdigits2 m + e) - e).
  assert (Zdigits2 m - prec <= k) as Hk by (subst k; unfold fexp; lia).
  destruct k as [|k|k]; cbn [fst].
  1, 3: rewrite shr_m_of_loc; split; [done|]; apply (Z.lt_le_trans _ _ _ Hd), Z.pow_le_mono_r; lia.
  destruct (shr_spec k (shr_record_of_loc m l)) as [-> _]; rewrite shr_m_of_loc; [done|].
  split; [apply Z.div_pos; [done|by apply Z.pow_pos_nonneg]|].
  apply Z.div_lt_upper_bound; [by apply Z.pow_pos_nonneg|].
  apply (Z.lt_le_trans _ _ _ Hd). rewrite <- Z.pow_add_r by lia. apply Z.pow_le_mono_r; lia.
Qed.

(** The bits are shifted out below the units of a number that is below [2 ^ prec]. *)
Lemma shr_fexp_up m e l n : 0 <= m -> n < 2 ^ prec -> le_scaled (up (shr_record_of_loc m l)) e n ->
  le_scaled (up (shr_fexp m e l).1) (shr_fexp m e l).2 n.
Proof.
  intros Hm Hn H. unfold SpecFloat.shr_fexp, shr.
  set (k := fexp prec emax (Zdigits2 m + e) - e).
  destruct k as [|j|j] eqn:Ek; cbn [fst snd]; [done| |done].
  apply shr_spec; [by rewrite shr_m_of_loc| |done].
  subst k. unfold fexp, emin in Ek. destruct m as [|p|p]; cbn [Zdigits2] in Ek; [lia| |lia].
  pose proof (digits_bounds p) as [Hd _].
  assert (le_scaled (Zpos p) e n) as Hle.
  { eapply le_scaled_mono; [|done|exact H]. unfold up. rewrite shr_m_of_loc. destruct (_ || _); lia. }
  enough (Zpos (digits2_pos p) + e <= prec) by lia. unfold le_scaled in Hle.
  destruct (Z.le_gt_cases (Zpos (digits2_pos p) + e) prec) as [|Hgt]; [done|exfalso].
  assert (2 ^ (Zpos (digits2_pos p) - 1 + Z.max e 0) <= n * 2 ^ Z.max (- e) 0) as Hp.
  { rewrite Z.pow_add_r by lia. etransitivity; [|exact Hle]. apply Z.mul_le_mono_nonneg_r; [|done].
    by apply Z.lt_le_incl, pow_max_pos. }
  assert (2 ^ (prec + Z.max (- e) 0) <= 2 ^ (Zpos (digits2_pos p) - 1 + Z.max e 0)) as Hq
    by (apply Z.pow_le_mono_r; lia).
  rewrite Z.pow_add_r in Hq by lia. pose proof (pow_max_pos (- e)). nia.
Qed.

Lemma round_up r : 0 <= shr_m r -> shr_m r <= round_nearest_even (shr_m r) (loc_of_shr_record r) <= up r.
Proof. intros _. unfold up. destruct r as [m [] []]; cbn; [lia|destruct (Z.even m)| |]; lia. Qed.

Lemma binary_round_aux_at_most m e l n : 0 <= m -> 0 <= n < 2 ^ prec ->
  le_scaled (up (shr_record_of_loc m l)) e n -> at_most n (binary_round_aux false m e l).
Proof.
  intros Hm Hn H. unfold SpecFloat.binary_round_aux.
  pose proof (shr_fexp_fits m e l Hm) as [Hr _]. pose proof (shr_fexp_up m e l n Hm ltac:(lia) H) as Hu.
  destruct (shr_fexp m e l) as [r1 e1]. cbn [fst snd] in *.
  pose proof (round_up r1 Hr) as [Hlo Hhi]. set (m1 := round_nearest_even _ _) in *.
  pose proof (shr_fexp_fits m1 e1 loc_Exact ltac:(lia)) as [Hr2 _].
  assert (le_scaled (up (shr_record_of_loc m1 loc_Exact)) e1 n) as Hu1 by (by eapply le_scaled_mono).
  pose proof (shr_fexp_up m1 e1 loc_Exact n ltac:(lia) ltac:(lia) Hu1) as Hu2.
  destruct (shr_fexp m1 e1 loc_Exact) as [r2 e2]. cbn [fst snd] in *.
  assert (le_scaled (shr_m r2) e2 n) as Hle.
  { eapply le_scaled_mono; [|done|exact Hu2]. unfold up. destruct (_ || _); lia. }
  destruct (shr_m r2) as [|p|p]; [cbn; lia| |lia].
  destruct (Z.leb_spec e2 (emax - prec)) as [|Hbig]; [done|exfalso]. unfold le_scaled in Hle.
  assert (2 ^ prec <= 2 ^ Z.max e2 0) by (apply Z.pow_le_mono_r; lia).
  rewrite (Z.max_r (- e2) 0) in Hle by lia. nia.
Qed.

Lemma binary_round_aux_fits s m e l : 0 <= m -> fits prec (binary_round_aux s m e l).
Proof.
  intros Hm. unfold SpecFloat.binary_round_aux.
  pose proof (shr_fexp_fits m e l Hm) as [Hr _].
  destruct (shr_fexp m e l) as [r1 e1]. cbn [fst snd] in *.
  pose proof (round_up r1 Hr) as [Hlo _]. set (m1 := round_nearest_even _ _) in *.
  pose proof (shr_fexp_fits m1 e1 loc_Exact ltac:(lia)) as Hr2.
  destruct (shr_fexp m1 e1 loc_Exact) as [r2 e2]. cbn [fst snd] in *.
  destruct (shr_m r2); [done| |done]. destruct (_ <=? _); cbn; [lia|done].
Qed.

Lemma shl_align_spec m e e' :
  Zpos (shl_align m e e').1 = Zpos m * 2 ^ (e - (shl_align m e e').2) /\ (shl_align m e e').2 = Z.min e e'.
Proof.
  unfold shl_align. destruct (e' - e) as [|d|d] eqn:E; cbn [fst snd].
  1, 2: rewrite Z.sub_diag, Z.pow_0_r; split; lia.
  split; [|lia]. replace (e - e') with (Zpos d) by lia.
  clear E. induction d as [|d IH] using Pos.peano_ind; [cbn; lia|].
  rewrite Pos.iter_succ, Pos2Z.inj_xO, Pos2Z.inj_succ, Z.pow_succ_r, IH by lia. lia.
Qed.

Lemma shl_align_le m e e' n :
  le_scaled (Zpos m) e n -> le_scaled (Zpos (shl_align m e e').1) (shl_align m e e').2 n.
Proof.
  destruct (shl_align_spec m e e') as [-> E]. set (k := (shl_align m e e').2) in *.
  intros H. rewrite !(le_scaled_at (Z.min k 0)) in * by lia.
  rewrite <- Z.mul_assoc, <- Z.pow_add_r by lia. by replace (e - k + (k - Z.min k 0)) with (e - Z.min k 0) by lia.
Qed.

Lemma binary_round_at_most m e n : 0 <= n < 2 ^ prec ->
  le_scaled (Zpos m) e n -> at_most n (binary_round prec emax false m e).
Proof.
  intros Hn H. unfold binary_round. apply (shl_align_le m e (fexp prec emax (Zpos (digits2_pos m) + e))) in H.
  destruct (shl_align _ _ _) as [mz ez]. by apply binary_round_aux_at_most.
Qed.

Lemma binary_round_fits s m e : fits prec (binary_round prec emax s m e).
Proof. unfold binary_round. destruct (shl_align _ _ _). by apply binary_round_aux_fits. Qed.

Lemma binary_normalize_at_most m e n z : 0 <= m -> 0 <= n < 2 ^ prec ->
  le_scaled m e n -> at_most n (binary_normalize prec emax m e z).
Proof. intros Hm Hn H. destruct m; [cbn; lia|by apply binary_round_at_most|lia]. Qed.

Lemma SFadd_fits x y : fits prec x -> fits prec y -> fits prec (SFadd prec emax x y).
Proof.
  intros Hx Hy. destruct x as [[]|[]| |sx mx ex], y as [[]|[]| |sy my ey]; try done.
  cbn. unfold binary_normalize. destruct (_ + _); [done|apply binary_round_fits..].
Qed.

Lemma SFmul_at_most x y n k : 0 <= n -> 0 <= k -> n * k < 2 ^ prec ->
  at_most n x -> at_most k y -> at_most (n * k) (SFmul prec emax x y).
Proof.
  intros Hn Hk Hb Hx Hy.
  destruct x as [sx|sx| |[] mx ex], y as [sy|sy| |[] my ey]; cbn in Hx, Hy |- *; try done; try nia.
  apply binary_round_aux_at_most; [done|nia|]. cbn. by apply (le_scaled_mul (Zpos mx) ex n (Zpos my) ey k).
Qed.

Lemma one_fits : 0 <= 1 < 2 ^ prec.
Proof. split; [lia|]. apply (Z.pow_lt_mono_r 2 0 prec); lia. Qed.

(** A mantissa shifted left, as the division and the square root do it. *)
Lemma shiftl_scaled m s : 0 <= s ->
  match s with Z0 => m | Zpos _ => Z.shiftl m s | Zneg _ => 0 end = m * 2 ^ s.
Proof. intros Hs. rewrite <- Z.shiftl_mul_pow2 by done. destruct s; [by rewrite Z.shiftl_0_r|done|lia]. Qed.

(** [1 - y]; 1 is [2 ^ k] units. *)
Lemma SFsub_one m k y : Zpos m = 2 ^ k -> 0 <= k -> at_most 1 (S754_finite false m (- k)) -> at_most 1 y ->
  at_most 1 (SFsub prec emax (S754_finite false m (- k)) y).
Proof.
  intros Em Hk H1 Hy. destruct y as [sy|sy| |[] my ey]; cbn in Hy; try done.
  cbn [SFsub cond_Zopp]. set (c := Z.min (- k) ey).
  destruct (shl_align_spec m (- k) c) as [E1 E1']. destruct (shl_align_spec my ey c) as [E2 E2'].
  rewrite E1, E2, E1', E2', Em. replace (Z.min (- k) c) with c by lia. replace (Z.min ey c) with c by lia.
  rewrite <- Z.pow_add_r by lia. replace (k + (- k - c)) with (- c) by lia.
  rewrite (le_scaled_at c) in Hy by lia.
  assert (0 <= Zpos my * 2 ^ (ey - c)) by (apply Z.mul_nonneg_nonneg; [lia|apply Z.pow_nonneg; lia]).
  apply binary_normalize_at_most; [lia|apply one_fits|].
  rewrite (le_scaled_at c) by lia. rewrite Z.sub_diag, Z.pow_0_r. lia.
Qed.

Lemma SFsqrt_at_most x : at_most 1 x -> at_most 1 (SFsqrt prec emax x).
Proof.
  intros Hx. destruct x as [sx|sx| |[] m e]; cbn in Hx; try done.
  cbn [SFsqrt]. unfold SFsqrt_core_binary. set (e' := Z.min _ _).
  assert (2 * e' <= e) as He by (pose proof (Z.div2_odd e); subst e'; destruct (Z.odd e); cbn in *; lia).
  assert (e <= 0) as He0.
  { destruct (Z.le_gt_cases e 0); [done|]. unfold le_scaled in Hx.
    assert (1 < 2 ^ Z.max e 0) by (apply Z.pow_gt_1; lia). rewrite (Z.max_r (- e) 0) in Hx by lia. nia. }
  rewrite shiftl_scaled by lia. set (m' := Zpos m * 2 ^ (e - 2 * e')).
  assert (m' <= 2 ^ (- e') * 2 ^ (- e')) as Hm.
  { rewrite (le_scaled_at (2 * e')), Z.mul_1_l in Hx by lia. subst m'; rewrite <- Z.pow_add_r by lia.
    by replace (- e' + - e') with (- (2 * e')) by lia. }
  assert (0 <= m') as Hm0 by (apply Z.mul_nonneg_nonneg; [lia|apply Z.pow_nonneg; lia]).
  pose proof (Z.sqrtrem_spec m' Hm0) as Hs. destruct (Z.sqrtrem m') as [q r]. destruct Hs as [Hq Hr].
  assert (0 <= q) as Hq0 by lia.
  pose proof (Z.pow_pos_nonneg 2 (- e')).
  apply binary_round_aux_at_most; [done|apply one_fits|].
  rewrite (le_scaled_at e') by lia. rewrite Z.sub_diag, Z.pow_0_r.
  destruct (Z.eqb_spec r 0) as [->|]; [cbn; nia|]. destruct (_ <=? _); cbn; nia.
Qed.

Lemma SFmul_fits x y : fits prec (SFmul prec emax x y).
Proof. destruct x as [|[]| |], y as [|[]| |]; try done. by apply binary_round_aux_fits. Qed.

Lemma div_exponent m e n my ey : le_scaled (Zpos m) e n -> 0 <= ey -> n <= Zpos my * 2 ^ ey ->
  Z.min (fexp prec emax (Zpos (digits2_pos m) + e - (Zpos (digits2_pos my) + ey))) (e - ey) <= 0.
Proof.
  intros H He Hn. destruct (Z.le_gt_cases e ey) as [|Hgt]; [lia|].
  enough (Zpos (digits2_pos m) + e <= Zpos (digits2_pos my) + ey) by (unfold fexp, emin; lia).
  unfold le_scaled in H. rewrite Z.max_l, Z.max_r, Z.mul_1_r in H by lia.
  destruct (digits_bounds m) as [H1 _], (digits_bounds my) as [_ H2].
  enough (2 ^ (Zpos (digits2_pos m) - 1 + e) < 2 ^ (Zpos (digits2_pos my) + ey)) as Hlt
    by (apply Z.pow_lt_mono_r_iff in Hlt; lia).
  rewrite !Z.pow_add_r by lia. pose proof (Z.pow_pos_nonneg 2 e). pose proof (Z.pow_pos_nonneg 2 ey). nia.
Qed.

Lemma SFdiv_at_most x my ey n : at_most n x -> 0 <= ey -> n <= Zpos my * 2 ^ ey ->
  at_most 1 (SFdiv prec emax x (S754_finite false my ey)).
Proof.
  intros Hx He Hn. destruct x as [sx|sx| |[] m e]; cbn in Hx; try done.
  cbn [SFdiv]. unfold SFdiv_core_binary. cbn [Zdigits2].
  pose proof (div_exponent m e n my ey Hx He Hn) as He'. set (e' := Z.min _ _) in *.
  rewrite shiftl_scaled by lia. set (m' := Zpos m * 2 ^ (e - ey - e')).
  pose proof (Z.pow_pos_nonneg 2 ey ltac:(lia) ltac:(lia)) as Hp.
  assert (m' <= 2 ^ (- e') * Zpos my) as Hm.
  { apply (Z.mul_le_mono_pos_r _ _ (2 ^ ey)); [done|].
    subst m'. rewrite <- Z.mul_assoc, <- Z.pow_add_r by lia. replace (e - ey - e' + ey) with (e - e') by lia.
    rewrite (le_scaled_at e') in Hx by lia. pose proof (Z.pow_pos_nonneg 2 (- e')). nia. }
  assert (0 <= m') as Hm0 by (apply Z.mul_nonneg_nonneg; [lia|apply Z.pow_nonneg; lia]).
  pose proof (Z_div_mod m' (Zpos my) ltac:(lia)) as Hq. destruct (Z.div_eucl m' (Zpos my)) as [q r].
  destruct Hq as [Hq Hr]. assert (0 <= q) as Hq0 by nia.
  apply binary_round_aux_at_most; [done|apply one_fits|].
  rewrite (le_scaled_at e') by lia. rewrite Z.sub_diag, Z.pow_0_r.
  enough (q + (if r =? 0 then 0 else 1) <= 2 ^ (- e')) as Hup.
  { unfold new_location, new_location_even, new_location_odd.
    destruct (Z.even (Zpos my)), (Z.eqb_spec r 0); cbn in *; try lia; destruct (_ ?= _); cbn; lia. }
  destruct (Z.eqb_spec r 0); nia.
Qed.

End Rounding.

(** ** The ranges *)

Lemma trunc_at_most n x : at_most n x -> exists t, trunc x = Some t /\ 0 <= t <= n.
Proof.
  destruct x as [sx|sx| |[] m e]; cbn [at_most trunc cond_Zopp]; intros H; try done.
  - by exists 0.
  - eexists. split; [done|]. destruct (Z.le_gt_cases 0 e) as [He|He].
    + rewrite Z.shiftl_mul_pow2 by done. unfold le_scaled in H.
      rewrite Z.max_l, Z.max_r, Z.mul_1_r in H by lia. pose proof (Z.pow_pos_nonneg 2 e). nia.
    + replace e with (- (- e)) in * by lia. rewrite Z.shiftl_opp_r, Z.shiftr_div_pow2 by lia.
      rewrite le_scaled_frac in H by lia. pose proof (Z.pow_pos_nonneg 2 (- e) ltac:(lia) ltac:(lia)) as Hp.
      split; [by apply Z.div_pos|]. apply Z.div_le_upper_bound; [done|lia].
Qed.

Lemma to_int32_at_most n x : n < 2 ^ 31 -> at_most n x -> exists t, to_int32 x = Some t /\ 0 <= t <= n.
Proof.
  intros Hn [t [E Ht]]%trunc_at_most. exists t. split; [|done]. unfold to_int32. rewrite E. cbn. zbool.
Qed.

Lemma float_of_Z_at_most n : 0 <= n < 2 ^ 24 -> at_most n (float_of_Z n).
Proof. intros Hn. apply binary_normalize_at_most; [done|done|lia|done|]. by apply le_scaled_nonneg. Qed.

Lemma to_float_at_most x n : 0 <= n < 2 ^ 24 -> at_most n x -> at_most n (to_float x).
Proof. intros Hn Hx. destruct x as [|[]| |[]]; try done. by apply binary_round_at_most. Qed.

Lemma to_double_at_most x n : 0 <= n < 2 ^ 53 -> at_most n x -> at_most n (to_double x).
Proof. intros Hn Hx. destruct x as [|[]| |[]]; try done. by apply binary_round_at_most. Qed.

Lemma rand24b_range r1 r2 : 0 <= Tools.rand24b r1 r2 < 2 ^ 24.
Proof. unfold Tools.rand24b. change 0xFFFFFF with (Z.ones 24). rewrite Z.land_ones by done. by apply Z.mod_pos_bound. Qed.

(** The clamp of the normal distribution, NaN included. *)
Lemma clamp_at_most b : fits 24 b -> at_most 1 (std_min (float_of_Z 1) (std_max (float_of_Z 0) b)).
Proof.
  assert (at_most 1 (S754_finite false 8388608 (-23))) as Hone by done.
  change (float_of_Z 1) with (S754_finite false 8388608 (-23)). change (float_of_Z 0) with (S754_zero false).
  intros Hb. destruct b as [[]|[]| |[] m e]; try exact Hone; try (cbn; lia).
  unfold std_max, SFltb. cbn [SFcompare]. unfold std_min, SFltb. cbn [SFcompare].
  destruct (Z.compare_spec e (-23)) as [->|He|He]; [|change (le_scaled (Zpos m) e 1)|exact Hone].
  - destruct (Pos.compare_cont Eq m 8388608) eqn:E; try exact Hone.
    apply (le_scaled_frac _ 23); [done|]. change (Pos.compare m 8388608 = Lt) in E. rewrite Pos.compare_lt_iff in E. lia.
  - replace e with (- (- e)) by lia. apply le_scaled_frac; [lia|]. cbn in Hb.
    assert (2 ^ 24 <= 2 ^ (- e)) by (apply Z.pow_le_mono_r; lia). lia.
Qed.

Section Ranges.
Variable log : spec_float -> spec_float.
Variable sqrt_float : bool.

(** The random numbers a distribution draws are there. *)
Definition enough_rands (type : DistributionType_t) (g : rng) : Prop :=
  match type with
  | DISTRO_NORMAL => useLast g = true \/ is_Some (disc (rands g))
  | _ => exists r1 r2 l, rands g = r1 :: r2 :: l
  end.

Lemma box_muller_fits m s g : fits 24 m -> enough_rands DISTRO_NORMAL g ->
  wp (box_muller log m s) (fun b _ _ => fits 24 b) g.
Proof.
  intros Hm Hg.
  assert (forall y, fits 24 (float_add m (float_mul y s))) as Hfit
    by (intros y; by apply SFadd_fits; [..|apply SFmul_fits]).
  unfold box_muller. apply wp_bind, wp_gets. destruct (useLast g) eqn:E.
  - apply wp_bind, wp_gets. apply wp_bind, wp_modify. by apply wp_ret.
  - destruct Hg as [|[[[[x1 x2] w] l] Hd]]; [congruence|]. apply wp_bind, wp_gets.
    apply wp_bind. eapply wp_lift; [exact Hd|]. apply wp_bind, wp_modify. by apply wp_ret.
Qed.

Lemma factor_normal_unit g : enough_rands DISTRO_NORMAL g -> wp (factor_normal log) (fun f _ _ => at_most 1 f) g.
Proof.
  intros Hg. apply wp_bind. eapply wp_mono; [by apply box_muller_fits|].
  intros b g' out Hb. by apply wp_ret, clamp_at_most.
Qed.

Lemma rand24b_wp (Q : Z -> rng -> list Empty_set -> Prop) r1 r2 l g : rands g = r1 :: r2 :: l ->
  Q (Tools.rand24b r1 r2) (setRands l g) [] -> wp rand24b Q g.
Proof. intros E H. exists (Tools.rand24b r1 r2), (setRands l g), []. split; [|done]. destruct g. cbn in E. by subst. Qed.

Lemma sqrt_unit x : at_most 1 x -> at_most 1 (sqrt sqrt_float x).
Proof.
  intros Hx. unfold sqrt. destruct sqrt_float.
  - apply to_double_at_most; [done|]. by apply SFsqrt_at_most.
  - apply SFsqrt_at_most; [done|done|]. by apply to_double_at_most.
Qed.

Lemma factor_square_unit g : enough_rands DISTRO_SQUARE g -> wp (factor_square sqrt_float) (fun f _ _ => at_most 1 f) g.
Proof.
  intros (r1 & r2 & l & E). apply wp_bind. apply (rand24b_wp _ _ _ _ _ E). apply wp_ret.
  pose proof (rand24b_range r1 r2) as Hr. set (r := Tools.rand24b r1 r2) in *.
  apply to_float_at_most; [done|]. apply (SFsub_one 53 1024 ltac:(done) ltac:(done) _ 52); [done|done|by cbn|].
  apply sqrt_unit. change (float_of_Z 16777216) with (S754_finite false 8388608 1).
  apply SFdiv_at_most with (n := 1 * r); [done|done| |done|lia].
  apply SFmul_at_most; [done|done|lia|lia|lia|by apply float_of_Z_at_most|by apply float_of_Z_at_most].
Qed.

Lemma scaled_bounds lo hi f : - 2 ^ 31 <= lo -> hi < 2 ^ 31 -> 0 <= hi - lo < 2 ^ 24 -> at_most 1 f ->
  exists v, scaled lo hi f = Some v /\ lo <= v <= hi.
Proof.
  intros Hl Hh Hw Hf. unfold scaled. rewrite (proj2 (Z.ltb_ge _ _)) by lia.
  destruct (to_int32_at_most (hi - lo) (float_mul (float_of_Z (hi - lo)) f)) as (t & -> & Ht); [lia| |].
  { replace (hi - lo) with ((hi - lo) * 1) at 1 by lia.
    apply SFmul_at_most; [done|done|lia|lia|lia|by apply float_of_Z_at_most|done]. }
  cbn. exists (lo + t). split; [zbool|lia].
Qed.

(** A random number lies in the range asked for, whichever end comes first: for every
    distribution, logarithm and square root, for every random number and state the
    generator is in, for a range of less than [2 ^ 24]; and no conversion is undefined. *)
Theorem random_range_in_range a b type g :
  - 2 ^ 31 <= a < 2 ^ 31 -> - 2 ^ 31 <= b < 2 ^ 31 -> Z.abs (a - b) < 2 ^ 24 ->
  a = b \/ enough_rands type g ->
  exists v g', random_range log sqrt_float a b type g = Some (v, g', []) /\ Z.min a b <= v <= Z.max a b.
Proof.
  intros Ha Hb Hw Hg.
  enough (wp (random_range log sqrt_float a b type) (fun v _ _ => Z.min a b <= v <= Z.max a b) g) as (v & g' & out & E & H)
    by (exists v, g'; destruct out as [|[]]; done).
  unfold random_range. destruct (Z.eqb_spec b a) as [->|Hne]; [apply wp_ret; lia|].
  destruct Hg as [|Hg]; [done|].
  assert (exists lo hi, (if b <? a then (b, a) else (a, b)) = (lo, hi) /\ lo = Z.min a b /\ hi = Z.max a b) as
    (lo & hi & -> & Hlo & Hhi) by (destruct (Z.ltb_spec b a); do 2 eexists; split; [done|lia|done|lia]).
  assert (forall f s, at_most 1 f -> wp (lift (scaled lo hi f) : M Z) (fun v _ _ => lo <= v <= hi) s) as Hs.
  { intros f s Hf. destruct (scaled_bounds lo hi f) as (v & Ev & Hv); [lia..|done|]. by eapply wp_lift. }
  rewrite <- Hlo, <- Hhi. destruct type; apply wp_bind.
  - destruct Hg as (r1 & r2 & l & E). apply (rand24b_wp _ _ _ _ _ E).
    pose proof (Tools.random_range_bounds _ lo hi (rand24b_range r1 r2) ltac:(lia) ltac:(lia)) as Hu.
    rewrite decide_True in Hu by lia. destruct Hu as (v & Ev & Hv). eapply wp_lift; [exact Ev|lia].
  - eapply wp_mono; [by apply factor_square_unit|]. intros f s out Hf. by apply Hs.
  - eapply wp_mono; [by apply factor_normal_unit|]. intros f s out Hf. by apply Hs.
Qed.

End Ranges.

(** The loop of box_muller ends at the first pair inside the disc. *)
Lemma disc_returns pairs r1 r2 l : Forall (fun p => outside p.1 p.2 = true) pairs -> outside r1 r2 = false ->
  disc (concat (map (fun p => [p.1; p.2]) pairs) ++ r1 :: r2 :: l) =
  Some (coordinate r1, coordinate r2, weight r1 r2, l).
Proof. intros Hp Hr. induction Hp as [|p ps Ho _ IH]; cbn -[outside]; [by rewrite Hr|by rewrite Ho]. Qed.

(** From [2 ^ 24] on, the width is rounded, and the largest factor leaves the range; a
    width of [2 ^ 31 - 1] becomes [2 ^ 31], which is not an int32_t. *)
Lemma random_range_leaves_range log sqrt_float :
  (exists v g, random_range log sqrt_float 0 (2 ^ 24 + 3) DISTRO_SQUARE (mkRng [0; 0] false (S754_zero false)) = Some (v, g, []) /\
    v = 2 ^ 24 + 4) /\
  random_range log sqrt_float 0 (2 ^ 31 - 1) DISTRO_SQUARE (mkRng [0; 0] false (S754_zero false)) = None.
Proof. destruct sqrt_float; (split; [by eexists _, _|done]). Qed.

(** A [float] just above a half below zero is rounded away from it: the difference to its
    floor is rounded to a half. *)
Lemma roundValue_below_zero : roundValue (binary_normalize 24 128 (- (2 ^ 25 - 2)) (-26) false) = Some (-1).
Proof. done. Qed.

End Floats.
