(* ===== verification/Tasks.v ===== *)
(** * The dispatcher and the database workers (src/tasks.h, src/tasks.cpp,
    src/database.cpp)

    Two task queues with one life: they accept work while running, drop it once
    closing, and are drained by their shutdown.  A task is its identity and its
    expiration; what its callback does is in the components that post it. *)
From S2P Require Import Prelude Definitions.

(** A queue operation of the environment, and what was started, in order. *)
Module Dispatcher.

Record task := mkTask {
  callback : nat;
  m_expiration : option Z        (* system time; [None] is not_a_date_time *)
}.

#[export] Instance task_eq_dec : EqDecision task.
Proof. solve_decision. Defined.

(** [createTask(f)], and [createTask(expiration, f)] at time [now]. *)
Definition createTask (f : nat) : task := mkTask f None.
Definition createTask_in (now expiration : Z) (f : nat) : task := mkTask f (Some (now + expiration)).

Definition unsetExpiration (t : task) : task := mkTask (callback t) None.
Definition hasExpired (now : Z) (t : task) : bool :=
  match m_expiration t with None => false | Some e => e <? now end.

Record t := mk { m_taskList : list task; m_threadState : ThreadState_t }.

Definition new : t := mk [] STATE_RUNNING.

(** [addTask(task, front)]: whether the task was kept, and whether the thread is
    signalled. *)
Definition addTask (task : task) (front : bool) (d : t) : bool * bool * t :=
  match m_threadState d with
  | STATE_RUNNING =>
      (true, bool_decide (m_taskList d = []),
       mk (if front then task :: m_taskList d else m_taskList d ++ [task]) STATE_RUNNING)
  | _ => (false, false, d)
  end.

(** One round of [tasksThread()] after its wait, at time [now]: the task taken, and
    whether it is executed ([true]) or only deleted because it has expired. *)
Definition tasksThread (now : Z) (d : t) : option (task * bool) * t :=
  match m_taskList d, m_threadState d with
  | _, STATE_TERMINATED => (None, d)
  | [], _ => (None, d)
  | task :: tasks, st => (Some (task, negb (hasExpired now task)), mk tasks st)
  end.

(** [flush()] under the lock of [shutdown()]: the tasks executed, in order.  The lock is
    not recursive: a task that adds another one ([adds], itself or through the messages
    [sendAll] lets go of) never returns, and neither does the shutdown, [None]. *)
Fixpoint flush (adds : task -> bool) (tasks : list task) : option (list task) :=
  match tasks with
  | [] => Some []
  | task :: tasks => if adds task then None else ran ← flush adds tasks; Some (task :: ran)
  end.

Definition stop (d : t) : t := mk (m_taskList d) STATE_CLOSING.

Definition shutdown (adds : task -> bool) (d : t) : option (list task * t) :=
  ran ← flush adds (m_taskList d); Some (ran, mk [] STATE_TERMINATED).

(** ** A run of the dispatcher *)

Inductive op := Add (task : task) (front : bool) | Round (now : Z) | Stop.

(** The tasks kept, the tasks taken, and the dispatcher after the operations. *)
Fixpoint run (ops : list op) (d : t) : list (task * bool) * list (task * bool) * t :=
  match ops with
  | [] => ([], [], d)
  | Add task front :: ops =>
      let '(kept, _, d) := addTask task front d in
      let '(added, taken, d) := run ops d in
      (if kept : bool then (task, front) :: added else added, taken, d)
  | Round now :: ops =>
      let '(r, d) := tasksThread now d in
      let '(added, taken, d) := run ops d in
      (added, match r with Some t => t :: taken | None => taken end, d)
  | Stop :: ops => run ops (stop d)
  end.

Lemma run_order ops d added taken d' :
  run ops d = (added, taken, d') -> Forall (fun a => a.2 = false) added ->
  m_taskList d ++ added.*1 = taken.*1 ++ m_taskList d'.
Proof.
  revert d added taken d'. induction ops as [|[task front|now|] ops IH]; intros d added taken d' E Hf.
  - injection E as <- <- <-. by rewrite app_nil_r.
  - cbn [run] in E. unfold addTask in E.
    destruct (m_threadState d) eqn:Es; [|destruct (run ops _) as [[a1 t1] d1] eqn:E1; injection E as <- <- <-; by apply (IH d)..].
    destruct (run ops _) as [[a1 t1] d1] eqn:E1. injection E as <- <- <-.
    inversion Hf as [|? ? Hfr Hf']; subst. cbn in Hfr. subst front.
    pose proof (IH _ _ _ _ E1 Hf') as H. cbn in H |- *. by rewrite <- H, <- app_assoc.
  - cbn [run] in E. destruct (tasksThread now d) as [r d1] eqn:Er.
    destruct (run ops d1) as [[a1 t1] d2] eqn:E1. injection E as <- <- <-.
    pose proof (IH _ _ _ _ E1 Hf) as H. revert Er. unfold tasksThread.
    destruct (m_taskList d) as [|task tasks] eqn:El, (m_threadState d); intros [= <- <-];
      cbn in *; rewrite ?El in H; cbn in *; by rewrite ?H.
  - cbn [run] in E. by apply (IH (stop d)).
Qed.

Lemma run_permutation ops d added taken d' :
  run ops d = (added, taken, d') -> m_taskList d ++ added.*1 ≡ₚ taken.*1 ++ m_taskList d'.
Proof.
  revert d added taken d'. induction ops as [|[task front|now|] ops IH]; intros d added taken d' E.
  - injection E as <- <- <-. by rewrite app_nil_r.
  - cbn [run] in E. unfold addTask in E.
    destruct (m_threadState d) eqn:Es; [|destruct (run ops _) as [[a1 t1] d1] eqn:E1; injection E as <- <- <-; by apply (IH d)..].
    destruct (run ops _) as [[a1 t1] d1] eqn:E1. injection E as <- <- <-.
    rewrite <- (IH _ _ _ _ E1). cbn. destruct front; cbn; [by rewrite Permutation_middle|].
    by rewrite <- app_assoc.
  - cbn [run] in E. destruct (tasksThread now d) as [r d1] eqn:Er.
    destruct (run ops d1) as [[a1 t1] d2] eqn:E1. injection E as <- <- <-.
    pose proof (IH _ _ _ _ E1) as H. revert Er. unfold tasksThread.
    destruct (m_taskList d) as [|task tasks] eqn:El, (m_threadState d); intros [= <- <-];
      cbn in *; rewrite ?El in H; cbn in *; by rewrite ?H.
  - cbn [run] in E. by apply (IH (stop d)).
Qed.

Lemma run_executed ops d added taken d' :
  run ops d = (added, taken, d') ->
  Forall (fun r => m_expiration r.1 = None -> r.2 = true) taken.
Proof.
  revert d added taken d'. induction ops as [|[task front|now|] ops IH]; intros d added taken d' E.
  - injection E as <- <- <-. constructor.
  - cbn [run] in E. destruct (addTask task front d) as [[k s] d1].
    destruct (run ops d1) as [[a1 t1] d2] eqn:E1. injection E as <- <- <-. by eapply IH.
  - cbn [run] in E. destruct (tasksThread now d) as [r d1] eqn:Er.
    destruct (run ops d1) as [[a1 t1] d2] eqn:E1. injection E as <- <- <-.
    apply IH in E1. revert Er. unfold tasksThread.
    destruct (m_taskList d) as [|task tasks] eqn:El, (m_threadState d); intros [= <- <-]; try done;
      (constructor; [|done]); unfold hasExpired; cbn; by intros ->.
  - cbn [run] in E. by apply (IH (stop d)) in E.
Qed.

(** What is offered to a dispatcher that is running: the additions before the stop. *)
Fixpoint offered (ops : list op) : list (task * bool) :=
  match ops with
  | [] | Stop :: _ => []
  | Add task front :: ops => (task, front) :: offered ops
  | Round _ :: ops => offered ops
  end.

Definition stopped (ops : list op) : bool := existsb (fun o => match o with Stop => true | _ => false end) ops.

Lemma tasksThread_state now d r d' : tasksThread now d = (r, d') -> m_threadState d' = m_threadState d.
Proof. unfold tasksThread. destruct (m_taskList d), (m_threadState d) eqn:E; intros [= <- <-]; done. Qed.

Lemma run_closing ops d added taken d' : run ops d = (added, taken, d') -> m_threadState d = STATE_CLOSING ->
  added = [] /\ m_threadState d' = STATE_CLOSING.
Proof.
  revert d added taken. induction ops as [|[task front|now|] ops IH]; intros d added taken E Hd; cbn [run] in E.
  - by injection E as <- <- <-.
  - unfold addTask in E. rewrite Hd in E. destruct (run ops d) as [[a1 t1] d1] eqn:E1. injection E as <- <- <-. by eapply IH.
  - destruct (tasksThread now d) as [r d0] eqn:Er. destruct (run ops d0) as [[a1 t1] d1] eqn:E1. injection E as <- <- <-.
    eapply IH; [exact E1|]. by rewrite (tasksThread_state _ _ _ _ Er).
  - by eapply IH.
Qed.

Lemma run_offered ops d added taken d' : run ops d = (added, taken, d') -> m_threadState d = STATE_RUNNING ->
  added = offered ops /\ m_threadState d' = if stopped ops then STATE_CLOSING else STATE_RUNNING.
Proof.
  revert d added taken. induction ops as [|[task front|now|] ops IH]; intros d added taken E Hd; cbn [run offered] in *.
  - by injection E as <- <- <-.
  - unfold addTask in E. rewrite Hd in E. destruct (run ops _) as [[a1 t1] d1] eqn:E1. injection E as <- <- <-.
    by destruct (IH _ _ _ E1 eq_refl) as [-> ->].
  - destruct (tasksThread now d) as [r d0] eqn:Er. destruct (run ops d0) as [[a1 t1] d1] eqn:E1. injection E as <- <- <-.
    eapply IH; [exact E1|]. by rewrite (tasksThread_state _ _ _ _ Er).
  - by eapply run_closing.
Qed.

(** C21: the dispatcher loses no task and runs none twice.  Over any interleaving of
    additions, rounds of its thread and a stop:
    - every task added before the stop is kept, and none after it; those kept are, as a
      multiset, exactly those taken and those still queued; when none was added in front,
      they are taken in the order of their addition;
    - a task is taken by the next round from the front of the queue, whether the
      dispatcher has been stopped or not, and is executed unless it has expired;
    - a further task goes to the end of the queue asked for, or, after the stop, nowhere. *)
Theorem dispatcher_conserves ops added taken d' :
  run ops new = (added, taken, d') ->
  added = offered ops /\
  added.*1 ≡ₚ taken.*1 ++ m_taskList d' /\
  (Forall (fun a => a.2 = false) added -> added.*1 = taken.*1 ++ m_taskList d') /\
  Forall (fun r => m_expiration r.1 = None -> r.2 = true) taken /\
  (forall now, tasksThread now d' =
     match m_taskList d' with
     | [] => (None, d')
     | task :: tasks =>
         (Some (task, match m_expiration task with None => true | Some last => now <=? last end),
          mk tasks (m_threadState d'))
     end) /\
  forall task front, m_taskList (addTask task front d').2 =
    if stopped ops then m_taskList d' else if front : bool then task :: m_taskList d' else m_taskList d' ++ [task].
Proof.
  intros E. destruct (run_offered _ _ _ _ _ E eq_refl) as [Ha Hst]. split_and!.
  - exact Ha.
  - apply (run_permutation _ _ _ _ _ E).
  - intros Hf. apply (run_order _ _ _ _ _ E Hf).
  - by eapply run_executed.
  - intros now. unfold tasksThread, hasExpired. rewrite Hst.
    destruct (m_taskList d') as [|task tasks], (stopped ops); try done;
      (destruct (m_expiration task); [by rewrite Z.leb_antisym|done]).
  - intros task front. unfold addTask. rewrite Hst. by destruct (stopped ops).
Qed.

Lemma dispatcher_conserves_witness :
  [createTask 1; createTask 2] ≡ₚ [createTask 1] ++ [createTask 2] /\
  m_taskList (addTask (createTask 4) true (mk [createTask 2] STATE_CLOSING)).2 = [createTask 2].
Proof.
  pose proof (dispatcher_conserves [Add (createTask 1) false; Add (createTask 2) false; Round 0; Stop; Add (createTask 3) false]
    [(createTask 1, false); (createTask 2, false)] [(createTask 1, true)] (mk [createTask 2] STATE_CLOSING) eq_refl)
    as (_ & Hp & _ & _ & _ & Hn).
  split; [exact Hp|exact (Hn (createTask 4) true)].
Defined.

(** The shutdown of the dispatcher runs everything queued, in order, and leaves it
    empty and terminated; if a queued task adds a task, it never returns. *)
Theorem dispatcher_shutdown adds d :
  shutdown adds d =
    if existsb adds (m_taskList d) then None else Some (m_taskList d, mk [] STATE_TERMINATED).
Proof.
  unfold shutdown. assert (forall tasks, flush adds tasks = if existsb adds tasks then None else Some tasks) as ->.
  { induction tasks as [|task tasks IH]; [done|]. cbn. destruct (adds task); [done|]. rewrite IH.
    by destruct (existsb adds tasks). }
  by destruct (existsb adds (m_taskList d)).
Qed.

End Dispatcher.

(** The worker pool: [Database::s_taskQueue] and [s_workerState]. *)
Module Workers.

Record t := mk { s_taskQueue : list nat; s_workerState : ThreadState_t }.

Definition startWorkers (w : t) : t := mk (s_taskQueue w) STATE_RUNNING.

Definition asyncTask (task : nat) (w : t) : t :=
  match s_workerState w with
  | STATE_RUNNING => mk (s_taskQueue w ++ [task]) STATE_RUNNING
  | _ => w
  end.

(** One round of [workerLoop()] after its wait: the task taken. *)
Definition workerLoop (w : t) : option nat * t :=
  match s_taskQueue w, s_workerState w with
  | _, STATE_TERMINATED => (None, w)
  | [], _ => (None, w)
  | task :: tasks, st => (Some task, mk tasks st)
  end.

Definition stopWorkers (w : t) : t := mk (s_taskQueue w) STATE_CLOSING.

(** [shutdownWorkers()] runs the queue under the lock: [adds task] when the task calls
    [asyncTask], which locks the same mutex. *)
Fixpoint drain (adds : nat -> bool) (tasks : list nat) : option (list nat) :=
  match tasks with
  | [] => Some []
  | task :: tasks => if adds task then None else ran ← drain adds tasks; Some (task :: ran)
  end.

Definition shutdownWorkers (adds : nat -> bool) (w : t) : option (list nat * t) :=
  ran ← drain adds (s_taskQueue w); Some (ran, mk [] STATE_TERMINATED).

End Workers.
