(* ===== verification/Threads.v ===== *)
(** * The threads that take tasks (src/tasks.cpp, src/database.cpp)

    The dispatcher and the database workers have the same loop: look at the state, lock,
    wait on a condition variable when the queue is empty, take a task when there is one,
    unlock, run it.  Here the loops are threads of a transition system, with the
    notifications that are still to be delivered: a task that was queued is taken, however
    the threads are scheduled, and the end of the workers loses a wake-up. *)
From stdpp Require Import relations.
From S2P Require Import Prelude Definitions Tasks.

(** What the threads need of a queue: [post] says whether a thread is notified, [take] is
    the part of the loop between the wait and the unlocking, at some time. *)
Class TaskQueue (Q P X : Type) := {
  size : Q -> nat;
  terminated : Q -> bool;
  post : P -> Q -> bool * Q;
  take : Z -> Q -> option X * Q;
  stop : Q -> Q;
  shutdown : Q -> Q -> Prop;
  broadcasts : bool
}.

(** What a queue promises its threads. *)
Class QueueLaws (Q P X : Type) `{TaskQueue Q P X} := {
  take_none now q : size q = 0%nat \/ terminated q = true -> take now q = (None, q);
  take_some now q : size q <> 0%nat -> terminated q = false ->
    exists x q', take now q = (Some x, q') /\ size q = S (size q') /\ terminated q' = false;
  post_spec p q signal q' : post p q = (signal, q') ->
    signal = false /\ q' = q \/
    terminated q = false /\ terminated q' = false /\ size q' = S (size q) /\ (size q = 0%nat -> signal = true);
  stop_spec q : size (stop q) = size q /\ terminated (stop q) = false;
  shutdown_spec q q' : shutdown q q' -> size q' = 0%nat /\ terminated q' = true
}.

Module Threads.

(** ** The transition system *)

Section System.
Context {Q P X : Type} `{!TaskQueue Q P X}.

(** Where a thread is: at the head of its loop, between the test and the lock, in the
    wait, notified and about to lock again, running a task, at the end. *)
Inductive pc := Looping | Entering | Waiting | Woken | Running (x : X) | Done.

(** [signals] and [broadcast] are the calls of notify_one and notify_all that are still to
    come: they are made after the lock is released. *)
Record t := mk { queue : Q; threads : list pc; signals : nat; broadcast : bool }.

Definition start (n : nat) (q : Q) : t := mk q (replicate n Looping) 0 false.

Definition go (i : nat) (c : pc) (s : t) : t := mk (queue s) (<[i := c]> (threads s)) (signals s) (broadcast s).

(** After the wait, or without one: take a task if there is one, and unlock. *)
Definition section (now : Z) (i : nat) (s : t) : t :=
  let '(x, q) := take now (queue s) in
  mk q (<[i := match x with Some x => Running x | None => Looping end]> (threads s)) (signals s) (broadcast s).

Definition awake (c : pc) : pc := match c with Waiting => Woken | c => c end.

(** What the threads do by themselves, and the delivery of notifications. *)
Inductive turn : relation t :=
| turn_test i s : threads s !! i = Some Looping ->
    turn s (go i (if terminated (queue s) then Done else Entering) s)
| turn_enter now i s : threads s !! i = Some Entering ->
    turn s (if decide (size (queue s) = 0%nat) then go i Waiting s else section now i s)
| turn_resume now i s : threads s !! i = Some Woken -> turn s (section now i s)
| turn_finish i x s : threads s !! i = Some (Running x) -> turn s (go i Looping s)
| turn_notify_one n i s : signals s = S n -> threads s !! i = Some Waiting ->
    turn s (mk (queue s) (<[i := Woken]> (threads s)) n (broadcast s))
| turn_notify_nobody n s : signals s = S n -> Waiting ∉ threads s ->
    turn s (mk (queue s) (threads s) n (broadcast s))
| turn_notify_all s : broadcast s = true ->
    turn s (mk (queue s) (awake <$> threads s) (signals s) false).

(** What others do: they post, stop the queue and shut it down, once. *)
Inductive call : relation t :=
| call_post p s : call s (mk (post p (queue s)).2 (threads s) (Nat.b2n (post p (queue s)).1 + signals s)%nat (broadcast s))
| call_stop s : terminated (queue s) = false -> call s (mk (stop (queue s)) (threads s) (signals s) (broadcast s))
| call_shutdown q s : terminated (queue s) = false -> shutdown (queue s) q ->
    call s (mk q (threads s) (signals s) (broadcasts || broadcast s)).

(** A wait may end without a notification. *)
Inductive spurious : relation t :=
| spurious_wake i s : threads s !! i = Some Waiting -> spurious s (go i Woken s).

Definition step : relation t := fun s s' => turn s s' \/ call s s' \/ spurious s s'.

(** Without the wake-ups that nothing promises. *)
Definition plain : relation t := fun s s' => turn s s' \/ call s s'.

End System.
Arguments pc : clear implicits.
Arguments t : clear implicits.

(** ** The two queues *)

#[export] Instance dispatcher_queue : TaskQueue Dispatcher.t (Dispatcher.task * bool) (Dispatcher.task * bool) := {
  size d := length (Dispatcher.m_taskList d);
  terminated d := match Dispatcher.m_threadState d with STATE_TERMINATED => true | _ => false end;
  post p d := let '(_, signal, d) := Dispatcher.addTask p.1 p.2 d in (signal, d);
  take := Dispatcher.tasksThread;
  stop := Dispatcher.stop;
  shutdown d d' := exists adds ran, Dispatcher.shutdown adds d = Some (ran, d');
  broadcasts := false
}.

#[export] Instance workers_queue : TaskQueue Workers.t nat nat := {
  size w := length (Workers.s_taskQueue w);
  terminated w := match Workers.s_workerState w with STATE_TERMINATED => true | _ => false end;
  post task w := (match Workers.s_workerState w with STATE_RUNNING => true | _ => false end, Workers.asyncTask task w);
  take _ := Workers.workerLoop;
  stop := Workers.stopWorkers;
  shutdown w w' := exists adds ran, Workers.shutdownWorkers adds w = Some (ran, w');
  broadcasts := true
}.

#[export] Instance dispatcher_laws : QueueLaws Dispatcher.t (Dispatcher.task * bool) (Dispatcher.task * bool).
Proof.
  split; cbn.
  - intros now [[|x l] []] [H|H]; done.
  - intros now [[|x l] []]; cbn; try done; intros _ _; by eexists _, _.
  - intros [x front] [l []] signal q'; cbn; unfold Dispatcher.addTask; cbn; intros [= <- <-]; [right|by left..].
    split_and!; [done|done| |by destruct l]. destruct front; cbn; [done|]. rewrite length_app. cbn. lia.
  - done.
  - intros d d' (adds & ran & H). unfold Dispatcher.shutdown in H. by destruct (Dispatcher.flush _ _); simplify_eq/=.
Qed.

#[export] Instance workers_laws : QueueLaws Workers.t nat nat.
Proof.
  split; cbn.
  - intros _ [[|x l] []] [H|H]; done.
  - intros _ [[|x l] []]; cbn; try done; intros _ _; by eexists _, _.
  - intros x [l []] signal q'; cbn; intros [= <- <-]; [right|by left..].
    split_and!; [done|done| |done]. cbn. rewrite length_app. cbn. lia.
  - done.
  - intros w w' (adds & ran & H). unfold Workers.shutdownWorkers in H. by destruct (Workers.drain _ _); simplify_eq/=.
Qed.

(** ** The invariant *)

Section Invariant.
Context {Q P X : Type} `{QueueLaws Q P X}.

Implicit Types s : t Q X.

Definition active (c : pc X) : bool := match c with Waiting | Done => false | _ => true end.

(** There is a thread, none has ended before the queue, a queue that has ended is empty;
    and when a task is queued a thread is on its way to it, or is about to be notified. *)
Record inv (s : t Q X) : Prop := {
  inv_threads : is_Some (threads s !! 0%nat);
  inv_done i : threads s !! i = Some Done -> terminated (queue s) = true;
  inv_empty : terminated (queue s) = true -> size (queue s) = 0%nat;
  inv_taken : size (queue s) <> 0%nat -> (0 < signals s)%nat \/ exists i c, threads s !! i = Some c /\ active c = true
}.

Lemma inv_start n q : terminated q = false -> inv (start (S n) q).
Proof.
  intros Hq. split; cbn [start queue threads signals].
  - by exists Looping.
  - intros i [? _]%lookup_replicate. done.
  - congruence.
  - intros _. right. by exists 0%nat, Looping.
Qed.

(** A thread moves on to [c'], over a queue that may have changed. *)
Lemma inv_move i c c' q s : inv s -> threads s !! i = Some c ->
  (size q <= size (queue s))%nat -> terminated q = terminated (queue s) ->
  (c' = Done -> terminated q = true) -> active c' = true \/ size q = 0%nat ->
  inv (mk q (<[i := c']> (threads s)) (signals s) (broadcast s)).
Proof.
  intros [Ht Hd He Hk] Hi Hs Hq Hc Ha. pose proof (lookup_lt_Some _ _ _ Hi) as Hlt.
  split; cbn [queue threads signals].
  - apply lookup_lt_is_Some. rewrite length_insert. by apply lookup_lt_is_Some.
  - intros j [(<- & -> & _)|[Hne Hj]]%list_lookup_insert_Some; [by apply Hc|]. rewrite Hq. by eapply Hd.
  - intros E. rewrite Hq in E. specialize (He E). lia.
  - intros Hn. right. exists i, c'. destruct Ha; [|done]. by rewrite list_lookup_insert_eq.
Qed.

Lemma inv_go i c c' s : inv s -> threads s !! i = Some c -> (c' = Done -> terminated (queue s) = true) ->
  active c' = true \/ size (queue s) = 0%nat -> inv (go i c' s).
Proof. intros. by eapply inv_move. Qed.

(** What the thread finds in the queue. *)
Lemma take_spec now (q : Q) : exists x q', take now q = (x, q') /\ terminated q' = terminated q /\
  size q = (match x with Some _ => 1 | None => 0 end + size q')%nat /\
  (x = None -> size q' = 0%nat \/ terminated q' = true).
Proof.
  destruct (decide (size q = 0%nat)) as [E|E]; [|destruct (terminated q) eqn:Et].
  - exists None, q. rewrite (take_none now q ltac:(auto)). auto.
  - exists None, q. rewrite (take_none now q ltac:(auto)). auto.
  - destruct (take_some now q E Et) as (x & q' & -> & Hs & Ht). exists (Some x), q'. split_and!; try done; congruence.
Qed.

Lemma inv_section now i c s : inv s -> threads s !! i = Some c -> inv (section now i s).
Proof.
  intros Hs Hi. unfold section. destruct (take_spec now (queue s)) as (x & q & -> & Ht & Hq & _).
  eapply inv_move; eauto; destruct x; try lia; try done; by left.
Qed.

Lemma inv_turn s s' : inv s -> turn s s' -> inv s'.
Proof.
  intros Hs Hst. destruct Hst as [i s Hi|now i s Hi|now i s Hi|i x s Hi|n i s Hn Hi|n s Hn Hw|s Hb].
  - destruct (terminated (queue s)) eqn:E; (apply (inv_go i Looping); [done|done|done|]); [right; by apply inv_empty|by left].
  - case_decide; [|by eapply inv_section]. apply (inv_go i Entering); [done|done|done|by right].
  - by eapply inv_section.
  - apply (inv_go i (Running x)); [done|done|done|by left].
  - destruct (inv_go i Waiting Woken s Hs Hi) as [Ht Hd He Hk]; [done|by left|].
    split; try done. cbn. intros _. right. exists i, Woken. split; [|done]. apply list_lookup_insert_eq.
    by eapply lookup_lt_Some.
  - destruct Hs as [Ht Hd He Hk]. split; try done. cbn. intros Hq. right.
    destruct Ht as [c Hc]. exists 0%nat, c. split; [done|]. destruct c; try done.
    + destruct Hw. by eapply list_elem_of_lookup_2.
    + by specialize (He (Hd _ Hc)).
  - destruct Hs as [Ht Hd He Hk]. split; cbn; try done.
    + by rewrite list_lookup_fmap, fmap_is_Some.
    + intros i. rewrite list_lookup_fmap, fmap_Some. intros ([] & Hi & ?); try done. by eapply Hd.
    + intros Hq. destruct (Hk Hq) as [|(i & c & Hi & Hc)]; [by left|]. right. exists i, c.
      rewrite list_lookup_fmap, Hi. by destruct c.
Qed.

Lemma inv_call s s' : inv s -> call s s' -> inv s'.
Proof.
  intros [Ht Hd He Hk] Hst. destruct Hst as [p s|s Hn|q s Hn Hq].
  - destruct (post p (queue s)) as [signal q] eqn:E. cbn [fst snd].
    destruct (post_spec _ _ _ _ E) as [[-> ->]|(Et & Et' & Hs & Hsig)]; [by split|].
    split; cbn [queue threads signals]; try done.
    + intros i Hi. by rewrite (Hd i Hi) in Et.
    + congruence.
    + intros _. destruct (decide (size (queue s) = 0%nat)) as [E0|E0]; [left; rewrite Hsig by done; cbn; lia|].
      destruct (Hk E0) as [|]; [left; lia|by right].
  - destruct (stop_spec (queue s)) as [E Et]. split; cbn; rewrite ?E, ?Et; try done.
    intros i Hi. by rewrite (Hd i Hi) in Hn.
  - destruct (shutdown_spec _ _ Hq) as [E Et]. split; cbn; try done.
Qed.

Lemma inv_one_step s s' : inv s -> step s s' -> inv s'.
Proof.
  intros Hs [Hst|[Hst|Hst]]; [by eapply inv_turn|by eapply inv_call|].
  destruct Hst as [i s Hi]. apply (inv_go i Waiting); [done|done|done|by left].
Qed.

Lemma inv_turns s s' : inv s -> rtc turn s s' -> inv s'.
Proof. intros Hs. induction 1 as [|s1 s2 s3 Hst _ IH]; [done|]. by apply IH, (inv_turn s1). Qed.

Lemma inv_steps s s' : inv s -> rtc step s s' -> inv s'.
Proof. intros Hs. induction 1 as [|s1 s2 s3 Hst _ IH]; [done|]. by apply IH, (inv_one_step s1). Qed.

(** ** Every run of the threads ends *)

Definition pc_weight (c : pc X) : nat :=
  match c with Waiting | Done => 0 | Entering => 1 | Looping => 2 | Woken | Running _ => 3 end.

(** How many turns there can still be. *)
Definition weight (s : t Q X) : nat :=
  3 * size (queue s) + 4 * signals s + (if broadcast s then S (3 * length (threads s)) else 0) +
  sum_list_with pc_weight (threads s).

Lemma sum_insert (l : list (pc X)) i c c' : l !! i = Some c ->
  (sum_list_with pc_weight (<[i := c']> l) + pc_weight c = sum_list_with pc_weight l + pc_weight c')%nat.
Proof.
  revert i. induction l as [|d l IH]; intros [|i] Hi; simplify_eq/=; [lia|]. specialize (IH _ Hi). cbn in *. lia.
Qed.

Lemma sum_awake (l : list (pc X)) :
  (sum_list_with pc_weight (awake <$> l) <= sum_list_with pc_weight l + 3 * length l)%nat.
Proof. induction l as [|[] l IH]; cbn in *; lia. Qed.

Lemma turn_weight s s' : inv s -> turn s s' -> (weight s' < weight s)%nat.
Proof.
  assert (forall i c c' s, threads s !! i = Some c -> (pc_weight c' < pc_weight c)%nat ->
    (weight (go i c' s) < weight s)%nat) as Hgo.
  { intros i c c' r Hi Hc. unfold weight, go. cbn [queue threads signals broadcast].
    rewrite length_insert. pose proof (sum_insert _ _ _ c' Hi). lia. }
  assert (forall now i c s, threads s !! i = Some c -> size (queue s) <> 0%nat /\ c = Entering /\ terminated (queue s) = false \/ c = Woken ->
    (weight (section now i s) < weight s)%nat) as Hsec.
  { intros now i c r Hi Hc. unfold section. destruct (take_spec now (queue r)) as (x & q & -> & Ht & Hq & Hx).
    unfold weight. cbn [queue threads signals broadcast]. rewrite length_insert.
    destruct x as [x|]; [pose proof (sum_insert _ _ _ (Running x) Hi)|pose proof (sum_insert _ _ _ Looping Hi)];
      destruct Hc as [(? & -> & ?)| ->]; cbn in *; try lia.
    destruct (Hx eq_refl); [lia|congruence]. }
  intros Hs Hst. destruct Hst as [i s Hi|now i s Hi|now i s Hi|i x s Hi|n i s Hn Hi|n s Hn Hw|s Hb].
  - apply (Hgo _ Looping); [done|]. destruct (terminated _); cbn; lia.
  - case_decide as Hq; [apply (Hgo _ Entering); [done|cbn; lia]|]. eapply Hsec; [done|]. left. split_and!; try done.
    destruct (terminated (queue s)) eqn:E; [|done]. by rewrite (inv_empty _ Hs E) in Hq.
  - eapply Hsec; [done|by right].
  - apply (Hgo _ (Running x)); [done|cbn; lia].
  - unfold weight. cbn [queue threads signals broadcast]. rewrite length_insert, Hn.
    pose proof (sum_insert _ _ _ Woken Hi). cbn in *. lia.
  - unfold weight. cbn [queue threads signals broadcast]. rewrite Hn. lia.
  - unfold weight. cbn [queue threads signals broadcast]. rewrite Hb. pose proof (sum_awake (threads s)). lia.
Qed.

Lemma turns_bounded k s s' : inv s -> nsteps turn k s s' -> (k + weight s' <= weight s)%nat.
Proof.
  intros Hs. induction 1 as [s|k s1 s2 s3 Hst _ IH]; [lia|].
  pose proof (turn_weight _ _ Hs Hst). specialize (IH (inv_turn _ _ Hs Hst)). lia.
Qed.

(** ** Where they end *)

(** Nothing is to be delivered, and every thread waits or has ended. *)
Definition at_rest (s : t Q X) : Prop :=
  signals s = 0%nat /\ broadcast s = false /\ forall i c, threads s !! i = Some c -> active c = false.

Lemma find_pc (f : pc X -> bool) (l : list (pc X)) :
  (exists i c, l !! i = Some c /\ f c = true) \/ forall i c, l !! i = Some c -> f c = false.
Proof.
  induction l as [|c l [(i & d & Hi & Hd)|IH]].
  - by right.
  - left. by exists (S i), d.
  - destruct (f c) eqn:E; [left; by exists 0%nat, c|right]. intros [|i] d Hi; [by simplify_eq/=|by eapply IH].
Qed.

Lemma rest_or_turn s : at_rest s \/ exists s', turn s s'.
Proof.
  destruct (find_pc active (threads s)) as [(i & c & Hi & Hc)|Hrest].
  - right. destruct c; try done; eexists; [by apply turn_test|by apply (turn_enter 0)|by apply (turn_resume 0)|by eapply turn_finish].
  - destruct (broadcast s) eqn:Hb; [right; eexists; by apply turn_notify_all|].
    destruct (signals s) as [|n] eqn:Hn; [by left|]. right.
    destruct (find_pc (fun c => match c with Waiting => true | _ => false end) (threads s)) as [(i & c & Hi & Hc)|Hw].
    + destruct c; try done. eexists. by eapply turn_notify_one.
    + eexists. apply (turn_notify_nobody n); [done|]. intros [i Hi]%list_elem_of_lookup_1. by specialize (Hw _ _ Hi).
Qed.

Lemma rest_empty s : inv s -> at_rest s -> size (queue s) = 0%nat.
Proof.
  intros Hs (Hn & _ & Hr). destruct (decide (size (queue s) = 0%nat)) as [|E]; [done|].
  destruct (inv_taken _ Hs E) as [|(i & c & Hi & Hc)]; [lia|]. by rewrite (Hr _ _ Hi) in Hc.
Qed.

(** ** The end of the queue *)

(** The queue has ended, no thread is between its test and the lock, and those that wait
    are still to be notified. *)
Record closing (s : t Q X) : Prop := {
  closing_terminated : terminated (queue s) = true;
  closing_entering i : threads s !! i <> Some Entering;
  closing_notified : broadcast s = true \/ forall i, threads s !! i <> Some Waiting
}.

(** A thread never enters a wait again once it has seen the end. *)
Lemma closing_go i c' s : closing s -> c' <> Entering -> c' <> Waiting -> closing (go i c' s).
Proof.
  intros [Ht He Hw] H1 H2. split; cbn [go queue threads broadcast]; [done| |].
  - intros j [(-> & ? & _)|[_ Hj]]%list_lookup_insert_Some; [by simplify_eq|by eapply He].
  - destruct Hw as [|Hw]; [by left|right]. intros j [(-> & ? & _)|[_ Hj]]%list_lookup_insert_Some; [by simplify_eq|by eapply Hw].
Qed.

Lemma section_terminated now i s : terminated (queue s) = true -> section now i s = go i Looping s.
Proof. intros Ht. unfold section. by rewrite (take_none now (queue s) (or_intror Ht)). Qed.

Lemma closing_turn s s' : closing s -> turn s s' -> closing s'.
Proof.
  intros Hs Hst. pose proof (closing_terminated _ Hs) as Ht.
  destruct Hst as [i s Hi|now i s Hi|now i s Hi|i x s Hi|n i s Hn Hi|n s Hn Hw|s Hb].
  - rewrite Ht. by apply closing_go.
  - by destruct (closing_entering _ Hs i).
  - rewrite section_terminated by done. by apply closing_go.
  - by apply closing_go.
  - pose proof (closing_go i Woken s Hs) as [? ? ?]; [done..|]. by split.
  - by destruct Hs; split.
  - destruct Hs as [_ He _]. split; cbn; [done|..]; [|right]; intros i; rewrite list_lookup_fmap, fmap_Some.
    + intros ([] & Hi & ?); try done. by eapply He.
    + by intros ([] & Hi & ?).
Qed.

Lemma closing_turns s s' : closing s -> rtc turn s s' -> closing s'.
Proof. intros Hs. induction 1 as [|s1 s2 s3 Hst _ IH]; [done|]. by apply IH, (closing_turn s1). Qed.

Lemma closing_rest s : closing s -> at_rest s -> forall i c, threads s !! i = Some c -> c = Done.
Proof.
  intros [_ _ Hw] (_ & Hb & Hr) i c Hi. specialize (Hr i c Hi).
  destruct Hw as [|Hw]; [congruence|]. destruct c; try done. by destruct (Hw i).
Qed.

(** A thread that waits when the queue has ended and nothing is to be delivered. *)
Definition stranded (i : nat) (s : t Q X) : Prop :=
  terminated (queue s) = true /\ signals s = 0%nat /\ broadcast s = false /\ threads s !! i = Some Waiting.

Lemma stranded_plain i s s' : stranded i s -> plain s s' -> stranded i s'.
Proof.
  intros (Ht & Hn & Hb & Hi) [Hst|Hst].
  - assert (forall j c c', threads s !! j = Some c -> c <> Waiting -> stranded i (go j c' s)) as Hgo.
    { intros j c c' Hj Hc. split_and!; try done. cbn. rewrite list_lookup_insert_ne; [done|]. intros ->. congruence. }
    destruct Hst as [j s Hj|now j s Hj|now j s Hj|j x s Hj|n j s Hm Hj|n s Hm Hw|s Hb']; try congruence.
    + by eapply Hgo.
    + case_decide; [|rewrite section_terminated by done]; by eapply Hgo.
    + rewrite section_terminated by done. by eapply Hgo.
    + by eapply Hgo.
  - destruct Hst as [p s|s Hs|q s Hs Hq]; try congruence.
    destruct (post p (queue s)) as [signal q] eqn:E.
    destruct (post_spec _ _ _ _ E) as [[-> ->]|(? & _)]; [done|congruence].
Qed.

Lemma stranded_forever i s s' : stranded i s -> rtc plain s s' -> stranded i s'.
Proof. intros Hs. induction 1 as [|s1 s2 s3 Hst _ IH]; [done|]. by apply IH, (stranded_plain i s1). Qed.

(** The notifications come while nobody waits, and then the thread goes to its wait. *)
Lemma entering_stranded i s : inv s -> terminated (queue s) = true -> broadcast s = true ->
  threads s !! i = Some Entering -> exists s', rtc turn s s' /\ stranded i s'.
Proof.
  intros Hs Ht Hb Hi. pose proof (inv_empty _ Hs Ht) as Hq.
  set (ts := awake <$> threads s). assert (Waiting ∉ ts) as Hw.
  { intros ([] & ? & ?)%list_elem_of_fmap; done. }
  assert (rtc turn s (mk (queue s) ts 0 false)) as Hrun.
  { eapply rtc_l; [by apply turn_notify_all|]. clear Hb Hi Hq Ht Hs. fold ts.
    induction (signals s) as [|n IH]; [done|]. eapply rtc_l; [by apply turn_notify_nobody|done]. }
  assert (ts !! i = Some Entering) as Hi' by (subst ts; by rewrite list_lookup_fmap, Hi).
  exists (go i Waiting (mk (queue s) ts 0 false)). split.
  - eapply rtc_r; [exact Hrun|]. pose proof (turn_enter 0 i (mk (queue s) ts 0 false) Hi') as H'.
    by rewrite decide_True in H' by done.
  - split_and!; try done. cbn. apply list_lookup_insert_eq. by eapply lookup_lt_Some.
Qed.

End Invariant.

(** ** The dispatcher's thread *)

Abbreviation dispatcher_turn := (turn (Q := Dispatcher.t) (P := Dispatcher.task * bool) (X := Dispatcher.task * bool)).
Abbreviation dispatcher_call := (call (Q := Dispatcher.t) (P := Dispatcher.task * bool) (X := Dispatcher.task * bool)).
Abbreviation dispatcher_step := (step (Q := Dispatcher.t) (P := Dispatcher.task * bool) (X := Dispatcher.task * bool)).

Lemma run_app ops ops' d a t d1 a' t' d2 : Dispatcher.run ops d = (a, t, d1) -> Dispatcher.run ops' d1 = (a', t', d2) ->
  Dispatcher.run (ops ++ ops') d = (a ++ a', t ++ t', d2).
Proof.
  revert d a t. induction ops as [|[task front|now|] ops IH]; intros d a t E E'; cbn [app Dispatcher.run] in *.
  - by injection E as <- <- <-.
  - destruct (Dispatcher.addTask _ _ _) as [[kept signal] d0]. destruct (Dispatcher.run ops d0) as [[a0 t0] d3] eqn:E0.
    injection E as <- <- <-. rewrite (IH _ _ _ E0 E'). by destruct kept.
  - destruct (Dispatcher.tasksThread _ _) as [r d0]. destruct (Dispatcher.run ops d0) as [[a0 t0] d3] eqn:E0.
    injection E as <- <- <-. rewrite (IH _ _ _ E0 E'). by destruct r.
  - by eapply IH.
Qed.

(** What a step does to the queue is an operation of [Dispatcher.run], or its shutdown. *)
Lemma dispatcher_step_run s s' : dispatcher_step s s' ->
  (exists ops a t, Dispatcher.run ops (queue s) = (a, t, queue s')) \/ terminated (queue s') = true.
Proof.
  assert (forall d, exists ops a t, Dispatcher.run ops d = (a, t, d)) as Hid by (intros d; by exists [], [], []).
  assert (forall now i (s : t Dispatcher.t (Dispatcher.task * bool)),
    exists ops a t, Dispatcher.run ops (queue s) = (a, t, queue (section now i s))) as Hsec.
  { intros now i r. exists [Dispatcher.Round now]. unfold section, take. cbn.
    destruct (Dispatcher.tasksThread now (queue r)) as [x d]. eauto. }
  intros [Hst|[Hst|Hst]]; destruct Hst; cbn [queue go]; auto.
  - left. case_decide; [apply Hid|apply Hsec].
  - left. destruct p as [task front]. exists [Dispatcher.Add task front]. unfold post. cbn.
    destruct (Dispatcher.addTask _ _ _) as [[kept signal] d]. eauto.
  - left. exists [Dispatcher.Stop]. cbn. eauto.
  - right. by eapply shutdown_spec.
Qed.

Lemma terminated_step s s' : dispatcher_step s s' -> terminated (queue s) = true -> terminated (queue s') = true.
Proof.
  intros [Hst|[Hst|Hst]] Ht; destruct Hst; cbn [queue go]; try done; try congruence;
    try case_decide; rewrite ?section_terminated by done; try done.
  destruct (post p (queue s)) as [signal q] eqn:E. by destruct (post_spec _ _ _ _ E) as [[-> ->]|(? & _)]; [|congruence].
Qed.

Lemma dispatcher_steps_run s s' : rtc dispatcher_step s s' -> terminated (queue s') = false ->
  exists ops a t, Dispatcher.run ops (queue s) = (a, t, queue s').
Proof.
  induction 1 as [s|s1 s2 s3 Hst Hsteps IH]; intros Ht; [by exists [], [], []|].
  destruct (IH Ht) as (ops2 & a2 & t2 & E2).
  destruct (dispatcher_step_run _ _ Hst) as [(ops1 & a1 & t1 & E1)|Hend].
  - by eexists _, _, _; eapply run_app.
  - exfalso. clear IH E2 Hst. induction Hsteps as [|s2 s3 s4 Hst _ IH]; [congruence|].
    by apply IH; [|eapply terminated_step].
Qed.

(** C22: the dispatcher's thread takes what is queued, however the threads that post are
    interleaved with it and whatever waits end by themselves.  From every state it can be
    in, its own turns and the notifications come to an end; as long as they have not, the
    thread can go on; and when they have, the queue is empty and the thread waits.  What
    happened to the queue until then is a run of [Dispatcher.run], so that no task was
    lost, and none taken twice. *)
Theorem dispatcher_serves s : rtc dispatcher_step (start 1 Dispatcher.new) s ->
  (forall k s', nsteps dispatcher_turn k s s' -> (k <= weight s)%nat) /\
  (forall s', rtc dispatcher_turn s s' ->
     (exists s'', dispatcher_turn s' s'') \/ Dispatcher.m_taskList (queue s') = [] /\ at_rest s') /\
  (Dispatcher.m_threadState (queue s) <> STATE_TERMINATED ->
     exists ops added taken, Dispatcher.run ops Dispatcher.new = (added, taken, queue s)).
Proof.
  intros Hs. assert (inv s) as Hinv by (apply (inv_steps (start 1 Dispatcher.new)); [by apply inv_start|done]). split_and!.
  - intros k s' Hk. pose proof (turns_bounded _ _ _ Hinv Hk). lia.
  - intros s' Hturns. destruct (rest_or_turn s') as [Hr|]; [right|by left]. split; [|done].
    assert (inv s') as Hinv' by (by eapply inv_turns). by apply length_zero_iff_nil, (rest_empty s' Hinv').
  - intros Ht. apply (dispatcher_steps_run _ _ Hs). cbn. by destruct (Dispatcher.m_threadState _).
Qed.

Lemma dispatcher_serves_witness :
  Dispatcher.addTask (Dispatcher.createTask 7) false Dispatcher.new =
    (true, true, Dispatcher.mk [Dispatcher.createTask 7] STATE_RUNNING) /\
  (forall k s', nsteps dispatcher_turn k (mk (Dispatcher.mk [Dispatcher.createTask 7] STATE_RUNNING) [Looping] 1 false) s' ->
     (k <= 9)%nat).
Proof.
  split; [reflexivity|]. refine (proj1 (dispatcher_serves _ _)). apply rtc_once. right. left.
  exact (call_post (Dispatcher.createTask 7, false) (start 1 Dispatcher.new)).
Defined.

(** ** The database workers *)

Abbreviation workers_turn := (turn (Q := Workers.t) (P := nat) (X := nat)).
Abbreviation workers_plain := (plain (Q := Workers.t) (P := nat) (X := nat)).
Abbreviation workers_step := (step (Q := Workers.t) (P := nat) (X := nat)).

(** [joinWorkers()] returns when every thread has. *)
Definition joinWorkers (s : t Workers.t nat) : Prop := Forall (fun c => c = Done) (threads s).

(** C23: whether the workers can be joined after [shutdownWorkers()], before its notify_all is
    delivered, is decided by where they are.  When none of them is between the test of its
    loop and the lock, they all end, in a bounded number of turns and whatever the
    schedule.  A worker that is there may find the queue empty after the notification has
    passed: it waits, nothing wakes it, and [joinWorkers()] does not return. *)
Theorem workers_joined n w s : Workers.s_workerState w = STATE_RUNNING ->
  rtc workers_step (start (S n) w) s ->
  Workers.s_workerState (queue s) = STATE_TERMINATED -> broadcast s = true ->
  ((forall i, threads s !! i <> Some Entering) ->
     (forall k s', nsteps workers_turn k s s' -> (k <= weight s)%nat) /\
     (forall s', rtc workers_turn s s' -> (exists s'', workers_turn s' s'') \/ joinWorkers s')) /\
  (forall i, threads s !! i = Some Entering ->
     exists s', rtc workers_turn s s' /\ forall s'', rtc workers_plain s' s'' -> ~ joinWorkers s'').
Proof.
  intros Hw Hs Ht Hb.
  assert (inv s) as Hinv by (apply (inv_steps (start (S n) w)); [apply inv_start; cbn; by rewrite Hw|done]).
  assert (terminated (queue s) = true) as Ht' by (cbn; by rewrite Ht). split.
  - intros He. split.
    + intros k s' Hk. pose proof (turns_bounded _ _ _ Hinv Hk). lia.
    + intros s' Hturns. destruct (rest_or_turn s') as [Hr|]; [right|by left].
      apply Forall_lookup_2. intros i c Hi. eapply closing_rest; [|done|done].
      eapply closing_turns; [|done]. split; auto.
  - intros i Hi. destruct (entering_stranded _ _ Hinv Ht' Hb Hi) as (s' & Hrun & Hst). exists s'. split; [done|].
    intros s'' Hp Hj. destruct (stranded_forever _ _ _ Hst Hp) as (_ & _ & _ & Hi').
    unfold joinWorkers in Hj. rewrite Forall_lookup in Hj. by specialize (Hj _ _ Hi').
Qed.

(** Two workers that have just been started, one of them past its test, when the server
    ends. *)
Lemma workers_joined_witness : exists s',
  rtc workers_turn (mk (Workers.mk [] STATE_TERMINATED) [Entering; Looping] 0 true) s' /\
  forall s'', rtc workers_plain s' s'' -> ~ joinWorkers s''.
Proof.
  refine (proj2 (workers_joined 1 (Workers.mk [] STATE_RUNNING) _ _ _ _ _) 0%nat _); try reflexivity.
  eapply rtc_l; [left; exact (turn_test 0 (start 2 (Workers.mk [] STATE_RUNNING)) eq_refl)|].
  apply rtc_once. right. left.
  refine (call_shutdown (Workers.mk [] STATE_TERMINATED) _ _ _); [reflexivity|].
  exists (fun _ => false), []. reflexivity.
Defined.

End Threads.
