(* ===== verification/Sched.v ===== *)
(** * The scheduler (src/scheduler.h, src/scheduler.cpp)

    Events with a time, their identifiers, and the scheduler's thread as a state
    machine: it enters a wait, is woken (by a signal, a timeout or spuriously), and then
    runs the body of its loop. *)
From S2P Require Import Prelude Definitions.

Module Scheduler.

Definition SCHEDULER_MINTICKS := 50.

Record task := mkTask {
  m_eventId : Z;          (* uint32_t, 0 when not given yet *)
  cycle : Z;              (* the time it is due *)
  callback : nat
}.

(** [createSchedulerTask(delay, f)] at time [now]. *)
Definition createSchedulerTask (now delay : Z) (f : nat) : task :=
  mkTask 0 (now + (if delay <? SCHEDULER_MINTICKS then SCHEDULER_MINTICKS else delay)) f.

Definition setEventId (id : Z) (t : task) : task := mkTask id (cycle t) (callback t).

(** Where the thread is: about to lock, waiting on an empty queue, or waiting for the
    top event's time. *)
Inductive phase := Looping | WaitingEmpty | WaitingUntil (deadline : Z).

Record t := mk {
  m_lastEvent : Z;                (* uint32_t *)
  m_eventIds : gset Z;
  m_eventList : list task;        (* the priority queue; [top] below *)
  m_threadState : ThreadState_t;
  thread : phase
}.

Definition new : t := mk 0 ∅ [] STATE_RUNNING Looping.

Definition setThread p s := mk (m_lastEvent s) (m_eventIds s) (m_eventList s) (m_threadState s) p.
Definition setIds ids s := mk (m_lastEvent s) ids (m_eventList s) (m_threadState s) (thread s).

(** [top()] and [pop()]: an event of least cycle, and the others.  Among events of the
    same cycle std::priority_queue promises nothing; the first is taken here. *)
Fixpoint pop_top (l : list task) : option (task * list task) :=
  match l with
  | [] => None
  | x :: l =>
      match pop_top l with
      | None => Some (x, [])
      | Some (y, rest) => if cycle y <? cycle x then Some (y, x :: rest) else Some (x, y :: rest)
      end
  end.

(** [addEvent(task)]: the identifier (0 when refused), and whether the thread is
    signalled. *)
Definition addEvent (ev : task) (s : t) : Z * bool * t :=
  match m_threadState s with
  | STATE_RUNNING =>
      let '(ev, last) :=
        if m_eventId ev =? 0 then
          let last := if 0xFFFFFFFF <=? m_lastEvent s then 1 else m_lastEvent s + 1 in
          (setEventId last ev, last)
        else (ev, m_lastEvent s) in
      let list := m_eventList s ++ [ev] in
      (m_eventId ev,
       match pop_top list with Some (top, _) => bool_decide (m_eventId top = m_eventId ev) | None => false end,
       mk last ({[m_eventId ev]} ∪ m_eventIds s) list STATE_RUNNING (thread s))
  | _ => (0, false, s)
  end.

Definition stopEvent (eventId : Z) (s : t) : bool * t :=
  if eventId =? 0 then (false, s)
  else if decide (eventId ∈ m_eventIds s) then (true, setIds (m_eventIds s ∖ {[eventId]}) s)
  else (false, s).

Definition stop (s : t) : t :=
  mk (m_lastEvent s) (m_eventIds s) (m_eventList s) STATE_CLOSING (thread s).

Definition shutdown (s : t) : t := mk (m_lastEvent s) ∅ [] STATE_TERMINATED (thread s).

(** The thread enters its wait. *)
Definition enter (s : t) : t :=
  match thread s, m_threadState s with
  | Looping, STATE_TERMINATED => s
  | Looping, _ =>
      match pop_top (m_eventList s) with
      | None => setThread WaitingEmpty s
      | Some (top, _) => setThread (WaitingUntil (cycle top)) s
      end
  | _, _ => s
  end.

(** The body of the loop: the event handed to the dispatcher, in front of its queue;
    [None] when [top()] is called on an empty queue. *)
Definition body (action : bool) (s : t) : option (option task * t) :=
  let s := setThread Looping s in
  match action, m_threadState s with
  | true, _ => Some (None, s)
  | _, STATE_TERMINATED => Some (None, s)
  | false, st =>
      '(ev, rest) ← pop_top (m_eventList s);
      let run := bool_decide (m_eventId ev ∈ m_eventIds s) in
      Some (if run then Some ev else None,
            mk (m_lastEvent s) (if run then m_eventIds s ∖ {[m_eventId ev]} else m_eventIds s) rest st Looping)
  end.

(** The thread wakes: [signalled], or spuriously or by timeout at time [now].
    [timed_wait] answers whether the wait ended before the deadline; the wait on an
    empty queue answers nothing and leaves [action] false. *)
Definition wake (signalled : bool) (now : Z) (s : t) : option (option task * t) :=
  match thread s with
  | Looping => Some (None, s)
  | WaitingEmpty => body false s
  | WaitingUntil deadline => body (signalled || (now <? deadline)) s
  end.

(** ** Runs *)

Inductive op :=
| AddEvent (now delay : Z) (f : nat)
| StopEvent (id : Z)
| Enter
| Wake (signalled : bool) (now : Z)
| StopThread
| Shutdown.

Definition step (o : op) (s : t) : option (option task * t) :=
  match o with
  | AddEvent now delay f => Some (None, (addEvent (createSchedulerTask now delay f) s).2)
  | StopEvent id => Some (None, (stopEvent id s).2)
  | Enter => Some (None, enter s)
  | Wake signalled now => wake signalled now s
  | StopThread => Some (None, stop s)
  | Shutdown => Some (None, shutdown s)
  end.

(** The identifiers run by some operations, and the scheduler after them. *)
Fixpoint run (ops : list op) (s : t) : option (list Z * t) :=
  match ops with
  | [] => Some ([], s)
  | o :: ops =>
      '(ev, s) ← step o s;
      '(ids, s) ← run ops s;
      Some (match ev with Some ev => m_eventId ev :: ids | None => ids end, s)
  end.

(** ** Lemmas *)

Lemma pop_top_perm l x rest : pop_top l = Some (x, rest) -> l ≡ₚ x :: rest.
Proof.
  revert x rest. induction l as [|y l IH]; intros x rest; cbn [pop_top]; [done|].
  destruct (pop_top l) as [[z r]|] eqn:E.
  - destruct (_ <? _); intros [= <- <-].
    + rewrite (IH z r eq_refl). apply Permutation_swap.
    + by rewrite (IH z r eq_refl).
  - intros [= <- <-]. destruct l as [|w l]; [done|]. cbn in E.
    destruct (pop_top l) as [[??]|]; [|done]. by destruct (_ <? _).
Qed.

(** The top event is due first. *)
Lemma pop_top_least l x rest : pop_top l = Some (x, rest) -> Forall (fun y => cycle x <= cycle y) l.
Proof.
  revert x rest. induction l as [|y l IH]; intros x rest; cbn [pop_top]; [done|].
  destruct (pop_top l) as [[z r]|] eqn:E.
  - specialize (IH z r eq_refl). destruct (Z.ltb_spec (cycle z) (cycle y)); intros [= <- <-];
      (constructor; [lia|]); [done|]. eapply Forall_impl; [exact IH|]. cbn. lia.
  - intros [= <- <-]. destruct l as [|w l]; [repeat constructor; lia|]. cbn in E.
    destruct (pop_top l) as [[??]|]; [|done]. by destruct (_ <? _).
Qed.

(** Events in the queue have different identifiers, all given out; those that may still
    run are in the queue.  [n] more events can be added before the identifiers wrap. *)
Record wf (n : Z) (s : t) : Prop := {
  wf_last : 0 <= m_lastEvent s /\ m_lastEvent s + n <= 0xFFFFFFFF;
  wf_ids : Forall (fun ev => 0 < m_eventId ev <= m_lastEvent s) (m_eventList s);
  wf_nodup : NoDup (m_eventId <$> m_eventList s);
  wf_active : forall id, id ∈ m_eventIds s -> id ∈ m_eventId <$> m_eventList s
}.

Definition added (o : op) : Z := match o with AddEvent _ _ _ => 1 | _ => 0 end.

Lemma wf_setThread n p s : wf n s -> wf n (setThread p s).
Proof. by intros []. Qed.

Lemma body_wf n action s ev s' :
  wf n s -> body action s = Some (ev, s') ->
  wf n s' /\ m_lastEvent s' = m_lastEvent s /\ m_eventIds s' ⊆ m_eventIds s /\
  match ev with Some ev => m_eventId ev ∈ m_eventIds s /\ m_eventId ev ∉ m_eventIds s' | None => True end.
Proof.
  intros Hwf. unfold body. cbn [setThread m_threadState m_eventList m_eventIds m_lastEvent].
  destruct action; [intros [= <- <-]; by split_and!; [apply wf_setThread|..]|].
  assert (forall st, ('(ev, rest) ← pop_top (m_eventList s);
      Some (if bool_decide (m_eventId ev ∈ m_eventIds s) then Some ev else None,
        mk (m_lastEvent s) (if bool_decide (m_eventId ev ∈ m_eventIds s) then m_eventIds s ∖ {[m_eventId ev]}
          else m_eventIds s) rest st Looping)) = Some (ev, s') ->
    wf n s' /\ m_lastEvent s' = m_lastEvent s /\ m_eventIds s' ⊆ m_eventIds s /\
    match ev with Some ev => m_eventId ev ∈ m_eventIds s /\ m_eventId ev ∉ m_eventIds s' | None => True end) as H.
  { intros st. destruct (pop_top (m_eventList s)) as [[x rest]|] eqn:E; [|done]. cbn [mbind option_bind].
    destruct Hwf as [Hl Hi Hn Ha]. pose proof (pop_top_perm _ _ _ E) as Hp.
    rewrite Hp in Hi. rewrite Hp in Hn. inversion Hi as [|? ? Hx Hi']; subst.
    cbn in Hn. inversion Hn as [|? ? Hx' Hn']; subst.
    assert (forall id, id ∈ m_eventIds s -> id = m_eventId x \/ id ∈ m_eventId <$> rest) as Ha'.
    { intros id Hid%Ha. rewrite Hp in Hid. cbn in Hid. by rewrite elem_of_cons in Hid. }
    case_bool_decide as Hin; intros [= <- <-]; cbn;
      (split; [|split; [done|split; [set_solver|first [done|split; [done|set_solver]]]]]);
      (split; cbn; [done|done|done|]); intros id Hid.
    - apply elem_of_difference in Hid as [Hid Hne]. destruct (Ha' id Hid) as [->|?]; [set_solver|done].
    - destruct (Ha' id Hid) as [->|?]; done. }
  destruct (m_threadState s); [apply H|apply H|intros [= <- <-]; by split_and!; [apply wf_setThread|..]].
Qed.

Lemma step_wf n o s ev s' :
  wf n s -> added o <= n -> step o s = Some (ev, s') ->
  wf (n - added o) s' /\ m_lastEvent s <= m_lastEvent s' /\
  (forall id, id <= m_lastEvent s -> id ∈ m_eventIds s' -> id ∈ m_eventIds s) /\
  match ev with Some ev => m_eventId ev ∈ m_eventIds s /\ m_eventId ev ∉ m_eventIds s' | None => True end.
Proof.
  intros Hwf Hn. pose proof Hwf as [Hl Hi Hnd Ha]. destruct o; cbn [step added] in *; rewrite ?Z.sub_0_r.
  - unfold addEvent, createSchedulerTask. cbn [m_eventId].
    destruct (m_threadState s) eqn:Es; intros [= <- <-]; cbn [snd];
      [|(split_and!; [split; try done; lia|done|done|done])..].
    change (0 =? 0) with true. cbn iota. destruct (Z.leb_spec 0xFFFFFFFF (m_lastEvent s)); [lia|].
    cbn [m_eventId setEventId m_lastEvent m_eventIds m_eventList].
    split_and!; [|lia| |done].
    + split; cbn [m_lastEvent m_eventList m_eventIds]; [lia| | |].
      * apply Forall_app_2; [|repeat constructor; cbn; lia].
        eapply Forall_impl; [exact Hi|]. cbn. lia.
      * rewrite fmap_app. apply NoDup_app. split_and!; [done| |apply NoDup_singleton].
        intros id Hid. cbn. rewrite list_elem_of_singleton. intros ->.
        apply list_elem_of_fmap in Hid as (y & Hy & Hin). rewrite Forall_forall in Hi.
        specialize (Hi y Hin). lia.
      * intros id. rewrite elem_of_union, elem_of_singleton, fmap_app, elem_of_app. cbn.
        rewrite list_elem_of_singleton. intros [->|?]; [by right|left; auto].
    + intros id Hid. rewrite elem_of_union, elem_of_singleton. intros [->|?]; [lia|done].
  - unfold stopEvent. destruct (id =? 0); [intros [= <- <-]; by split_and!|].
    case_decide; intros [= <- <-]; [|by split_and!]. split_and!; [|done|set_solver|done].
    split; cbn; try done. intros x Hx. apply Ha. set_solver.
  - intros [= <- <-]. unfold enter.
    assert (forall p, wf n (setThread p s) /\ m_lastEvent s <= m_lastEvent (setThread p s) /\
      (forall id, id <= m_lastEvent s -> id ∈ m_eventIds (setThread p s) -> id ∈ m_eventIds s) /\ True) as H.
    { intros p. by split_and!; [apply wf_setThread|..]. }
    destruct (thread s); [|by split_and!..]. 
    destruct (m_threadState s); [| |by split_and!]; destruct (pop_top _) as [[??]|]; apply H.
  - unfold wake. destruct (thread s); [intros [= <- <-]; by split_and!|..];
      intros Hb; destruct (body_wf n _ _ _ _ Hwf Hb) as (H1 & H2 & H3 & H4);
      (split; [done|split; [lia|split; [set_solver|done]]]).
  - intros [= <- <-]. by split_and!.
  - intros [= <- <-]. split; [split; cbn; [exact Hl|constructor|constructor|set_solver]|].
    split; [done|split; [cbn; set_solver|done]].
Qed.

(** An event runs at most once, and a stopped one not at all.  Whatever happens after
    an event's identifier is no longer active (it has run, or stopEvent took it out), no
    operation runs it again, as long as fewer than 2^32 events are ever added. *)
Theorem inactive_never_runs n id ops s ids s' :
  wf n s -> id <= m_lastEvent s -> id ∉ m_eventIds s ->
  foldr Z.add 0 (map added ops) <= n -> run ops s = Some (ids, s') -> id ∉ ids.
Proof.
  revert n s ids. induction ops as [|o ops IH]; intros n s ids Hwf Hid Hna Hn E; cbn in E.
  - injection E as <- <-. set_solver.
  - cbn [map foldr] in Hn.
    assert (forall ops, 0 <= foldr Z.add 0 (map added ops)) as Hpos.
    { clear. induction ops as [|[] ops IH]; cbn; lia. }
    destruct (step o s) as [[ev s1]|] eqn:Es; [|done]. cbn [mbind option_bind] in E.
    destruct (run ops s1) as [[ids1 s2]|] eqn:Er; [|done]. injection E as <- <-.
    destruct (step_wf n o s ev s1 Hwf) as (Hwf1 & Hle & Hsub & Hev); [specialize (Hpos ops); lia|done|].
    assert (id ∉ m_eventIds s1) as Hna1 by (intros H; apply Hna, Hsub; [lia|done]).
    pose proof (IH _ _ _ Hwf1 ltac:(lia) Hna1 ltac:(lia) Er) as Hrest.
    destruct ev as [ev|]; [|done]. rewrite elem_of_cons. intros [->|?]; [|done].
    by destruct Hev.
Qed.

(** An event that has been stopped, still in the queue. *)
Definition example_stopped : t := mk 1 ∅ [mkTask 1 1000 7] STATE_RUNNING Looping.

Definition example_ops : list op :=
  [Enter; Wake false 1000; AddEvent 2000 60 8; Enter; Wake false 2060].

Lemma inactive_never_runs_witness :
  exists ids s', run example_ops example_stopped = Some (ids, s') /\ ids = [2] /\ 1 ∉ ids.
Proof.
  eexists _, _. split; [vm_compute; reflexivity|]. split; [reflexivity|].
  refine (inactive_never_runs 1 1 example_ops example_stopped _ _ _ _ _ _ _).
  - split; cbn; [lia|repeat constructor; cbn; lia|apply NoDup_singleton|set_solver].
  - cbn. lia.
  - cbn. set_solver.
  - cbn. lia.
  - vm_compute. reflexivity.
Defined.

(** The first event of an empty queue does not wait.  When the scheduler's thread is
    waiting on an empty queue, an event added with any delay is handed to the dispatcher
    as soon as the thread wakes up for it, whatever the time. *)
Theorem first_event_runs_at_once now delay f s later :
  thread s = WaitingEmpty -> m_threadState s = STATE_RUNNING -> m_eventList s = [] ->
  let '(id, signalled, s1) := addEvent (createSchedulerTask now delay f) s in
  signalled = true /\
  exists s2, wake true later s1 = Some (Some (setEventId id (createSchedulerTask now delay f)), s2).
Proof.
  intros Ht Hs Hl. unfold addEvent. rewrite Hs, Hl. cbn [createSchedulerTask m_eventId].
  change (0 =? 0) with true. cbn iota. cbn [app pop_top].
  split; [by apply bool_decide_eq_true_2|].
  unfold wake, body. cbn [thread]. rewrite Ht. cbn [setThread m_threadState m_eventList m_eventIds].
  cbn [pop_top mbind option_bind]. rewrite bool_decide_eq_true_2 by set_solver. by eexists.
Qed.

Lemma first_event_runs_at_once_witness :
  exists s2, wake true 0 (addEvent (createSchedulerTask 0 5000 9) (setThread WaitingEmpty new)).2 =
    Some (Some (mkTask 1 5000 9), s2).
Proof.
  pose proof (first_event_runs_at_once 0 5000 9 (setThread WaitingEmpty new) 0 eq_refl eq_refl eq_refl) as H.
  apply H.
Defined.

End Scheduler.
