(* ===== verification/SchedSpec.v ===== *)
(** * The scheduler: what it promises

    A timer, and the proof that the scheduler's thread and its operations are one: every
    run of [Scheduler] is a run of the timer.  Then that it delivers: when events are due,
    the thread hands over those that were not stopped, in the order of their times. *)
From Stdlib Require Import Sorting.Sorted.
From S2P Require Import Prelude Definitions Sched.

Module Timer.

(** ** The timer *)

Record t := mk {
  pending : gmap Z (Z * nat);     (* by identifier: when it is due, and what to call *)
  given : Z;                      (* the last identifier *)
  accepting : bool;
  drowsy : bool                   (* it went to sleep with nothing to wait for *)
}.

Inductive label :=
| Asked (due : Z) (f : nat) (id : Z)      (* an event is asked for; 0 when it is refused *)
| Stopped (id : Z) (ok : bool)
| Ran (now id : Z) (f : nat)
| Idle
| Closed
| Cleared.

Inductive step : label -> t -> t -> Prop :=
| asked due f m last d :
    m !! (last + 1) = None ->
    step (Asked due f (last + 1)) (mk m last true d) (mk (<[last + 1 := (due, f)]> m) (last + 1) true d)
| refused due f m last d :
    step (Asked due f 0) (mk m last false d) (mk m last false d)
| stopped id m last b d :
    is_Some (m !! id) -> step (Stopped id true) (mk m last b d) (mk (delete id m) last b d)
| unknown id m last b d :
    m !! id = None -> step (Stopped id false) (mk m last b d) (mk m last b d)
| ran now id due f m last b d :
    m !! id = Some (due, f) ->
    (forall id' due' f', m !! id' = Some (due', f') -> due <= due') ->
    due <= now \/ d = true ->
    step (Ran now id f) (mk m last b d) (mk (delete id m) last b false)
| idle m last b d : step Idle (mk m last b d) (mk m last b false)
| dozed m last b d : (d = true -> m = ∅) -> step Idle (mk m last b false) (mk m last b d)
| stayed a : step Idle a a
| closed m last b d : step Closed (mk m last b d) (mk m last false d)
| cleared m last b d : step Cleared (mk m last b d) (mk ∅ last false d).

Inductive steps : list label -> t -> t -> Prop :=
| steps_nil a : steps [] a a
| steps_cons l ls a b c : step l a b -> steps ls b c -> steps (l :: ls) a c.

End Timer.

Module SchedulerSpec.
Import Scheduler.

(** ** What the scheduler is taken for *)

Definition active (s : t) (ev : task) : Prop := m_eventId ev ∈ m_eventIds s.
#[global] Typeclasses Opaque active.
#[export] Instance active_dec s ev : Decision (active s ev).
Proof. unfold active. apply _. Defined.

Definition entry (ev : task) : Z * (Z * nat) := (m_eventId ev, (cycle ev, callback ev)).

(** The events that will run, if nothing stops them. *)
Definition events (s : t) : gmap Z (Z * nat) := list_to_map (entry <$> filter (active s) (m_eventList s)).

Definition timer (s : t) : Timer.t :=
  Timer.mk (events s) (m_lastEvent s) (bool_decide (m_threadState s = STATE_RUNNING))
    (match thread s with WaitingEmpty => true | _ => false end).

(** What an operation shows. *)
Definition shows (o : op) (s : t) (ran : option task) : Timer.label :=
  match o with
  | AddEvent now delay f =>
      let ev := createSchedulerTask now delay f in Timer.Asked (cycle ev) f (addEvent ev s).1.1
  | StopEvent id => Timer.Stopped id (stopEvent id s).1
  | Wake _ now => match ran with Some ev => Timer.Ran now (m_eventId ev) (callback ev) | None => Timer.Idle end
  | Enter => Timer.Idle
  | StopThread => Timer.Closed
  | Shutdown => Timer.Cleared
  end.

Fixpoint trace (ops : list op) (s : t) : option (list Timer.label * t) :=
  match ops with
  | [] => Some ([], s)
  | o :: ops => '(ran, s1) ← step o s; '(ls, s2) ← trace ops s1; Some (shows o s ran :: ls, s2)
  end.

(** ** The invariant *)

(** A thread that waits for a time has an event that is due by then, unless the scheduler
    has been shut down meanwhile. *)
Record good (n : Z) (s : t) : Prop := {
  good_wf : wf n s;
  good_wait d : thread s = WaitingUntil d ->
    m_threadState s <> STATE_RUNNING /\ m_eventList s = [] \/ exists ev, ev ∈ m_eventList s /\ cycle ev <= d
}.

Lemma good_new : good 0xFFFFFFFF new.
Proof. split; [|done]. split; cbn; [lia|constructor|constructor|set_solver]. Qed.

(** ** The pending events *)

(** Elements with different images are told apart by them. *)
Lemma NoDup_fmap_apart {A B} (f : A -> B) l x y : NoDup (f <$> l) -> x ∈ l -> y ∈ l -> f x = f y -> x = y.
Proof.
  induction l as [|z l IH]; cbn; [by intros _ Hx%elem_of_nil|].
  intros [Hz Hn]%NoDup_cons. rewrite !elem_of_cons.
  intros [->|Hx] [->|Hy] E; [done| | |by apply IH]; destruct Hz; apply list_elem_of_fmap; eauto.
Qed.

Lemma events_spec n s id v :
  wf n s -> events s !! id = Some v <-> exists ev, ev ∈ m_eventList s /\ active s ev /\ entry ev = (id, v).
Proof.
  intros Hw. unfold events. rewrite <- elem_of_list_to_map.
  - rewrite list_elem_of_fmap. split.
    + intros (ev & E & [H1 H2]%list_elem_of_filter). eauto.
    + intros (ev & H1 & H2 & E). exists ev. by rewrite list_elem_of_filter.
  - rewrite <- list_fmap_compose. apply NoDup_fmap_2_strong.
    + intros x y [_ Hx]%list_elem_of_filter [_ Hy]%list_elem_of_filter E.
      by apply (NoDup_fmap_apart m_eventId (m_eventList s)); [apply (wf_nodup _ _ Hw)|..].
    + apply NoDup_filter, (NoDup_fmap_1 m_eventId), (wf_nodup _ _ Hw).
Qed.

(** A map with the same entries is the same. *)
Lemma events_are n s (m : gmap Z (Z * nat)) :
  wf n s -> (forall id v, m !! id = Some v <-> exists ev, ev ∈ m_eventList s /\ active s ev /\ entry ev = (id, v)) -> m = events s.
Proof.
  intros Hw Hm. apply map_eq. intros id. apply option_eq. intros v. by rewrite Hm, (events_spec n).
Qed.

Lemma events_active n s id : wf n s -> is_Some (events s !! id) <-> id ∈ m_eventIds s.
Proof.
  intros Hw. split.
  - intros [v (ev & _ & Ha & E)%(events_spec n)]; [|done]. by injection E as <- _.
  - intros Hid. destruct (proj1 (list_elem_of_fmap _ _ _) (wf_active _ _ Hw id Hid)) as (ev & -> & Hev).
    exists (cycle ev, callback ev). apply (events_spec n); [done|]. exists ev. by split_and!.
Qed.

(** ** Each operation *)

Definition made (now delay : Z) (f : nat) (s : t) : task := setEventId (m_lastEvent s + 1) (createSchedulerTask now delay f).

Lemma addEvent_running now delay f s :
  m_threadState s = STATE_RUNNING -> m_lastEvent s < 0xFFFFFFFF ->
  exists signalled, addEvent (createSchedulerTask now delay f) s = (m_lastEvent s + 1, signalled,
    mk (m_lastEvent s + 1) ({[m_lastEvent s + 1]} ∪ m_eventIds s) (m_eventList s ++ [made now delay f s]) STATE_RUNNING (thread s)).
Proof.
  intros Es Hl. unfold addEvent. rewrite Es. cbn [createSchedulerTask m_eventId]. change (0 =? 0) with true. cbn iota.
  rewrite (proj2 (Z.leb_gt _ _)) by lia. by eexists.
Qed.

Lemma addEvent_refused ev s : m_threadState s <> STATE_RUNNING -> addEvent ev s = (0, false, s).
Proof. unfold addEvent. by destruct (m_threadState s). Qed.

Lemma asked_step n now delay f s :
  good n s -> 1 <= n ->
  let ev := createSchedulerTask now delay f in let s' := (addEvent ev s).2 in
  good (n - 1) s' /\ Timer.step (Timer.Asked (cycle ev) f (addEvent ev s).1.1) (timer s) (timer s').
Proof.
  intros [Hw Hwt] Hn ev s'.
  destruct (step_wf n (AddEvent now delay f) s None s' Hw Hn eq_refl) as [Hw' _]. cbn [added] in Hw'. subst s' ev.
  pose proof (wf_last _ _ Hw) as Hl. destruct (decide (m_threadState s = STATE_RUNNING)) as [Es|Es]; cycle 1.
  - rewrite addEvent_refused in Hw' |- * by done. cbn [fst snd] in *. split; [by split|]. unfold timer. rewrite bool_decide_eq_false_2 by done. apply Timer.refused.
  - destruct (addEvent_running now delay f s Es) as [signalled E]; [lia|]. rewrite E in Hw' |- *. cbn [fst snd] in *.
    split; [split; [done|]|].
    { cbn. intros d Ht. destruct (Hwt d Ht) as [[H1 H2]|(x & H1 & H2)]; [done|]. right. exists x. rewrite elem_of_app. by auto. }
    unfold timer at 1. rewrite Es. match goal with |- Timer.step _ _ ?b => set (b' := b) end.
    assert (forall x, x ∈ m_eventList s -> m_eventId x <> m_lastEvent s + 1) as Hold.
    { intros x Hx. pose proof (proj1 (Forall_forall _ _) (wf_ids _ _ Hw) x Hx). cbn in *. lia. }
    assert (b' = Timer.mk (<[m_lastEvent s + 1 := (now + (if delay <? SCHEDULER_MINTICKS then SCHEDULER_MINTICKS else delay), f)]> (events s))
      (m_lastEvent s + 1) true (match thread s with WaitingEmpty => true | _ => false end)) as ->.
    + unfold b', timer. cbn [m_lastEvent m_threadState thread]. f_equal. symmetry. apply (events_are (n - 1)); [done|].
      intros id v. unfold active. cbn [m_eventList m_eventIds]. rewrite lookup_insert_Some, (events_spec n _ _ _ Hw). split.
      * intros [[<- <-]|[Hne (x & H1 & H2 & H3)]].
        { exists (made now delay f s). rewrite elem_of_app, list_elem_of_singleton.
          split_and!; [by right|cbn; set_solver|done]. }
        exists x. rewrite elem_of_app. split_and!; [by left| |done]. unfold active in H2. set_solver.
      * intros (x & [Hx| ->%list_elem_of_singleton]%elem_of_app & Ha & Ex); [right|left; by injection Ex as <- <-].
        pose proof (Hold x Hx). assert (m_eventId x ∈ m_eventIds s) by set_solver. injection Ex as <- <-. split; [done|]. by exists x.
    + apply Timer.asked. apply eq_None_not_Some. intros Hs%(events_active n _ _ Hw).
      destruct (proj1 (list_elem_of_fmap _ _ _) (wf_active _ _ Hw _ Hs)) as (x & Ex & Hx). by apply (Hold x Hx).
Qed.

Lemma stopped_step n id s :
  good n s -> 0 <= n -> good n (stopEvent id s).2 /\ Timer.step (Timer.Stopped id (stopEvent id s).1) (timer s) (timer (stopEvent id s).2).
Proof.
  intros [Hw Hwt] Hn. destruct (step_wf n (StopEvent id) s None (stopEvent id s).2 Hw Hn eq_refl) as [Hw' _]. cbn [added] in Hw'. rewrite Z.sub_0_r in Hw'.
  assert (id ∉ m_eventIds s -> events s !! id = None) as Hno.
  { intros Hid. apply eq_None_not_Some. by rewrite (events_active n). }
  split; [split; [done|]|].
  - unfold stopEvent. destruct (id =? 0); [done|]. by case_decide.
  - revert Hw'. unfold stopEvent. destruct (Z.eqb_spec id 0) as [->|Hz]; cbn [fst snd].
    + intros _. apply Timer.unknown, Hno. intros H0. destruct (proj1 (list_elem_of_fmap _ _ _) (wf_active _ _ Hw _ H0)) as (x & E & Hx).
      pose proof (proj1 (Forall_forall _ _) (wf_ids _ _ Hw) x Hx). cbn in *. lia.
    + case_decide as Hid; cbn [fst snd]; [|intros _; by apply Timer.unknown, Hno]. intros Hw'.
      unfold timer at 2. replace (events (setIds _ s)) with (delete id (events s)).
      { apply Timer.stopped. by apply (events_active n). }
      apply (events_are n); [done|]. intros i v. unfold active. cbn [setIds m_eventList m_eventIds].
      rewrite lookup_delete_Some, (events_spec n _ _ _ Hw). split.
      * intros [Hne (x & H1 & H2 & H3)]. exists x. injection H3 as <- <-. split_and!; [done| |done]. unfold active in H2. set_solver.
      * intros (x & H1 & H2 & E). injection E as <- <-. assert (m_eventId x <> id) by set_solver. split; [done|]. exists x.
        split_and!; [done| |done]. unfold active. set_solver.
Qed.

Lemma remove_absent (id : Z) (X : gset Z) : id ∉ X -> X ∖ {[id]} = X.
Proof. set_solver. Qed.

(** The body of the loop takes the event of least time out of the queue. *)
Lemma body_pops n s ev rest :
  wf n s -> m_threadState s <> STATE_TERMINATED -> pop_top (m_eventList s) = Some (ev, rest) ->
  exists s', body false s = Some (if bool_decide (m_eventId ev ∈ m_eventIds s) then Some ev else None, s') /\ wf n s' /\
    thread s' = Looping /\ m_threadState s' = m_threadState s /\ m_lastEvent s' = m_lastEvent s /\ m_eventList s' = rest /\
    m_eventIds s' = m_eventIds s ∖ {[m_eventId ev]} /\ events s' = delete (m_eventId ev) (events s).
Proof.
  intros Hw Ht Hp. assert (exists s', body false s = Some (if bool_decide (m_eventId ev ∈ m_eventIds s) then Some ev else None, s') /\
    s' = mk (m_lastEvent s) (m_eventIds s ∖ {[m_eventId ev]}) rest (m_threadState s) Looping) as (s' & E & ->).
  { unfold body. cbn [setThread m_threadState m_eventList m_eventIds m_lastEvent]. rewrite Hp. cbn [mbind option_bind].
    eexists. split; [|done]. destruct (m_threadState s); try done; case_bool_decide as Ha; try done;
      by rewrite (remove_absent (m_eventId ev)). }
  destruct (body_wf n false s _ _ Hw E) as [Hw' _]. eexists. split; [exact E|]. split_and!; try done. symmetry.
  apply (events_are n); [done|]. intros i v. unfold active. cbn [m_eventList m_eventIds].
  rewrite lookup_delete_Some, (events_spec n _ _ _ Hw). pose proof (pop_top_perm _ _ _ Hp) as Hperm.
  pose proof (wf_nodup _ _ Hw) as Hnd. rewrite Hperm in Hnd. cbn in Hnd. apply NoDup_cons in Hnd as [Hne _]. split.
  - intros [Hi (x & H1 & H2 & H3)]. injection H3 as <- <-. rewrite Hperm, elem_of_cons in H1. destruct H1 as [->|H1]; [done|].
    exists x. split_and!; [done| |done]. unfold active in H2. set_solver.
  - intros (x & H1 & H2 & E'). injection E' as <- <-. split; [set_solver|]. exists x. rewrite Hperm, elem_of_cons. split_and!; [by right| |done].
    unfold active. set_solver.
Qed.

Lemma body_stuck s : m_threadState s <> STATE_TERMINATED -> pop_top (m_eventList s) = None -> body false s = None.
Proof.
  intros Ht Hp. unfold body. cbn [setThread m_threadState m_eventList]. rewrite Hp. by destruct (m_threadState s).
Qed.

Lemma pop_top_none l : pop_top l = None <-> l = [].
Proof. destruct l as [|x l]; cbn; [done|]. destruct (pop_top l) as [[y r]|]; [by destruct (_ <? _)|done]. Qed.

Lemma ran_step n now s s' ev rest :
  wf n s -> wf n s' -> pop_top (m_eventList s) = Some (ev, rest) -> thread s' = Looping -> m_threadState s' = m_threadState s ->
  m_lastEvent s' = m_lastEvent s -> events s' = delete (m_eventId ev) (events s) -> cycle ev <= now \/ thread s = WaitingEmpty ->
  Timer.step (match (if bool_decide (m_eventId ev ∈ m_eventIds s) then Some ev else None) with
              | Some ev => Timer.Ran now (m_eventId ev) (callback ev) | None => Timer.Idle end) (timer s) (timer s').
Proof.
  intros Hw Hw' Hp Hl Hst Hlast Hev Hdue. unfold timer. rewrite Hl, Hst, Hlast, Hev. case_bool_decide as Ha.
  - pose proof (pop_top_least _ _ _ Hp) as Hleast. apply (Timer.ran now (m_eventId ev) (cycle ev) (callback ev)).
    + apply (events_spec n); [done|]. exists ev. split_and!; [|done..]. rewrite (pop_top_perm _ _ _ Hp). left.
    + intros id' due' f' (x & H1 & _ & E)%(events_spec n); [|done]. injection E as _ <- _.
      by apply (proj1 (Forall_forall _ _) Hleast).
    + destruct Hdue as [Hd|Hd]; [by left|right; by rewrite Hd].
  - rewrite delete_id; [apply Timer.idle|]. apply eq_None_not_Some. by rewrite (events_active n).
Qed.

Lemma woken_step n signalled now s ran s' :
  good n s -> wake signalled now s = Some (ran, s') ->
  good n s' /\ Timer.step (shows (Wake signalled now) s ran) (timer s) (timer s').
Proof.
  intros [Hw Hwt] E. cbn [shows].
  assert (forall d, m_threadState s = STATE_TERMINATED \/ signalled || (now <? d) = true -> thread s = WaitingUntil d ->
    body (signalled || (now <? d)) s = Some (None, setThread Looping s)) as Hquiet.
  { intros d H _. unfold body. change (m_threadState (setThread Looping s)) with (m_threadState s).
    destruct (signalled || _); [done|]. destruct H as [H|H]; [|done]. by rewrite H. }
  assert (good n (setThread Looping s) /\ Timer.step Timer.Idle (timer s) (timer (setThread Looping s))) as Hidle.
  { split; [split; [by apply wf_setThread|done]|]. apply Timer.idle. }
  unfold wake in E. destruct (thread s) as [| |d] eqn:Et.
  - injection E as <- <-. split; [split; [done|by rewrite Et]|apply Timer.stayed].
  - destruct (decide (m_threadState s = STATE_TERMINATED)) as [Est|Est].
    { unfold body in E. change (m_threadState (setThread Looping s)) with (m_threadState s) in E. rewrite Est in E. injection E as <- <-. exact Hidle. }
    destruct (pop_top (m_eventList s)) as [[ev rest]|] eqn:Hp.
    + destruct (body_pops n s ev rest Hw Est Hp) as (s1 & E1 & Hw1 & Hl1 & Hst1 & Hlast & _ & _ & Hev). rewrite E1 in E. injection E as <- <-.
      split; [split; [done|by rewrite Hl1]|]. eapply ran_step; eauto.
    + by rewrite body_stuck in E.
  - destruct (decide (m_threadState s = STATE_TERMINATED \/ signalled || (now <? d) = true)) as [Hq|Hq].
    { rewrite Hquiet in E by done. injection E as <- <-. exact Hidle. }
    assert (m_threadState s <> STATE_TERMINATED) as Est by tauto.
    destruct (signalled || (now <? d)) eqn:Eb; [tauto|]. apply orb_false_iff in Eb as [-> Hnow%Z.ltb_ge].
    destruct (pop_top (m_eventList s)) as [[ev rest]|] eqn:Hp.
    + destruct (body_pops n s ev rest Hw Est Hp) as (s1 & E1 & Hw1 & Hl1 & Hst1 & Hlast & _ & _ & Hev). rewrite E1 in E. injection E as <- <-.
      split; [split; [done|by rewrite Hl1]|]. eapply ran_step; eauto. left.
      destruct (Hwt d eq_refl) as [[_ Hn]|(x & Hx & Hc)]; [by rewrite Hn in Hp|].
      pose proof (proj1 (Forall_forall _ _) (pop_top_least _ _ _ Hp) x Hx). cbn in *. lia.
    + by rewrite body_stuck in E.
Qed.

Lemma entered_step n s : good n s -> good n (enter s) /\ Timer.step Timer.Idle (timer s) (timer (enter s)).
Proof.
  intros Hg. pose proof Hg as [Hw Hwt]. unfold enter. destruct (thread s) eqn:Et; [|split; [done|apply Timer.stayed]..].
  assert (m_threadState s <> STATE_TERMINATED -> forall x, pop_top (m_eventList s) = x ->
    let s' := match x with None => setThread WaitingEmpty s | Some (top, _) => setThread (WaitingUntil (cycle top)) s end in
    good n s' /\ Timer.step Timer.Idle (timer s) (timer s')) as H.
  { intros _ [[top rest]|] Hp; cbn zeta iota.
    - split; [split; [by apply wf_setThread|]|unfold timer; rewrite Et; apply Timer.stayed].
      cbn. intros d [= <-]. right. exists top. rewrite (pop_top_perm _ _ _ Hp). split; [left|done].
    - apply pop_top_none in Hp. split; [split; [by apply wf_setThread|done]|].
      unfold timer. rewrite Et. apply Timer.dozed. intros _. change (events s = ∅). unfold events. by rewrite Hp. }
  destruct (m_threadState s); [by apply H|by apply H|split; [done|apply Timer.stayed]].
Qed.

Lemma step_refines n o s ran s' :
  good n s -> added o <= n -> 0 <= n -> step o s = Some (ran, s') ->
  good (n - added o) s' /\ Timer.step (shows o s ran) (timer s) (timer s').
Proof.
  intros Hg Ho Hn. destruct o as [now delay f|id| |signalled now| |]; cbn [step added] in *; rewrite ?Z.sub_0_r.
  - intros [= <- <-]. by apply asked_step.
  - intros [= <- <-]. by apply stopped_step.
  - intros [= <- <-]. by apply entered_step.
  - by apply woken_step.
  - intros [= <- <-]. destruct Hg as [Hw Hwt]. split; [|apply Timer.closed]. split.
    + by destruct Hw.
    + intros d Ht. destruct (Hwt d Ht) as [[_ He]|He]; [by left|by right].
  - intros [= <- <-]. destruct Hg as [Hw Hwt]. split; [|apply Timer.cleared]. split.
    + destruct Hw as [Hl _ _ _]. split; cbn; [exact Hl|constructor|constructor|set_solver].
    + intros d Ht. by left.
Qed.

Lemma step_stuck n o s :
  good n s -> step o s = None ->
  (exists signalled now, o = Wake signalled now) /\ m_eventList s = [] /\ (thread s = WaitingEmpty \/ m_threadState s = STATE_CLOSING).
Proof.
  intros [Hw Hwt]. destruct o as [now delay f|id| |signalled now| |]; try done. cbn [step]. intros E. split; [by eexists _, _|].
  assert (m_threadState s <> STATE_TERMINATED /\ exists b, body b s = None /\ b = false) as (Ht & b & Eb & ->).
  { assert (exists b, body b s = None) as [b Eb] by (unfold wake in E; destruct (thread s); [done|by eexists..]).
    split; [|exists b; by destruct b]. intros Ht. unfold body in Eb.
    change (m_threadState (setThread Looping s)) with (m_threadState s) in Eb. rewrite Ht in Eb. by destruct b. }
  destruct (pop_top (m_eventList s)) as [[ev rest]|] eqn:Hp.
  { destruct (body_pops n s ev rest Hw Ht Hp) as (s' & E' & _). congruence. }
  apply pop_top_none in Hp. split; [done|]. unfold wake in E. destruct (thread s) as [| |d]; [done|by left|right].
  destruct (Hwt d eq_refl) as [[Hs _]|(x & Hx & _)]; [by destruct (m_threadState s)|]. rewrite Hp in Hx. by apply elem_of_nil in Hx.
Qed.

Lemma trace_refines ops n s ls s' :
  good n s -> foldr Z.add 0 (map added ops) <= n -> trace ops s = Some (ls, s') ->
  Timer.steps ls (timer s) (timer s') /\ exists n', good n' s'.
Proof.
  assert (forall ops, 0 <= foldr Z.add 0 (map added ops)) as Hpos.
  { clear. induction ops as [|[] ops IH]; cbn; lia. }
  revert n s ls. induction ops as [|o ops IH]; intros n s ls Hg Hn E; cbn in E.
  - injection E as <- <-. split; [constructor|eauto].
  - cbn [map foldr] in Hn. destruct (step o s) as [[ran s1]|] eqn:Es; [|done]. cbn [mbind option_bind] in E.
    destruct (trace ops s1) as [[ls1 s2]|] eqn:Et; [|done]. injection E as <- <-.
    assert (0 <= added o) by (destruct o; cbn; lia). specialize (Hpos ops).
    destruct (step_refines n o s ran s1 Hg) as [Hg1 Hstep]; [lia|lia|done|].
    destruct (IH (n - added o) s1 ls1 Hg1) as [Hsteps Hg2]; [lia|done|]. split; [by econstructor|done].
Qed.

(** C24: the scheduler is a timer.  Whatever is asked of it and however its thread is woken
    (by a signal, a timeout or nothing at all), what it shows is what a timer shows, as
    long as fewer than 2^32 events are asked for: an event gets a fresh identifier, or is
    refused once the scheduler stops; stopEvent says whether the event was still to run;
    an event is handed to the dispatcher once, when no other is due before it, and not
    before its own time, unless the thread went to sleep on an empty queue.  And the
    thread never takes an event out of an empty queue, unless it is woken from that sleep
    before any event has come, or after the scheduler was shut down and then stopped. *)
Theorem scheduler_refines ops ls s :
  foldr Z.add 0 (map added ops) < 2 ^ 32 -> trace ops new = Some (ls, s) ->
  Timer.steps ls (Timer.mk ∅ 0 true false) (timer s) /\
  forall o, step o s = None ->
    (exists signalled now, o = Wake signalled now) /\ m_eventList s = [] /\
    (thread s = WaitingEmpty \/ m_threadState s = STATE_CLOSING).
Proof.
  intros Hn E. destruct (trace_refines ops 0xFFFFFFFF new ls s good_new ltac:(lia) E) as [Hs [n' Hg]].
  split; [exact Hs|]. intros o. by apply (step_stuck n').
Qed.

(** ** Delivery *)

(** Rounds of the thread's loop at a time when it does not have to wait. *)
Fixpoint deliver (now : Z) (rounds : nat) (s : t) : option (list task * t) :=
  match rounds with
  | O => Some ([], s)
  | S rounds =>
      '(_, s) ← step Enter s;
      '(ev, s) ← step (Wake false now) s;
      '(evs, s) ← deliver now rounds s;
      Some (option_list ev ++ evs, s)
  end.

Lemma round n now s ev rest :
  wf n s -> thread s = Looping -> m_threadState s <> STATE_TERMINATED -> pop_top (m_eventList s) = Some (ev, rest) ->
  cycle ev <= now -> wake false now (enter s) = body false s.
Proof.
  intros Hw Hl Ht Hp Hc. unfold enter. rewrite Hl, Hp.
  assert (forall p, body false (setThread p s) = body false s) as Hb by done.
  destruct (m_threadState s); try done; unfold wake; cbn [setThread thread orb]; rewrite (proj2 (Z.ltb_ge _ _)) by lia; apply Hb.
Qed.

Lemma filter_on {A} (P Q : A -> Prop) `{!forall x, Decision (P x), !forall x, Decision (Q x)} (l : list A) :
  (forall x, x ∈ l -> P x <-> Q x) -> filter P l = filter Q l.
Proof.
  induction l as [|x l IH]; intros Hpq; [done|]. rewrite !filter_cons, IH by (intros; apply Hpq; by right).
  pose proof (Hpq x ltac:(left)). by repeat case_decide; try tauto.
Qed.

Lemma deliver_all k n now s :
  length (m_eventList s) = k -> wf n s -> thread s = Looping -> m_threadState s <> STATE_TERMINATED ->
  Forall (fun ev => cycle ev <= now) (m_eventList s) ->
  exists evs s', deliver now k s = Some (evs, s') /\ evs ≡ₚ filter (active s) (m_eventList s) /\
    Sorted (fun x y => cycle x <= cycle y) evs /\ m_eventList s' = [] /\ m_eventIds s' = ∅.
Proof.
  revert s. induction k as [|k IH]; intros s Hk Hw Hl Ht Hdue.
  { apply length_zero_iff_nil in Hk. exists [], s. cbn. rewrite Hk. split_and!; try done.
    apply set_eq. intros id. split; [|set_solver]. intros Hid%(wf_active _ _ Hw). rewrite Hk in Hid. by apply elem_of_nil in Hid. }
  destruct (pop_top (m_eventList s)) as [[ev rest]|] eqn:Hp; [|by apply pop_top_none in Hp; rewrite Hp in Hk].
  pose proof (pop_top_perm _ _ _ Hp) as Hperm. pose proof (pop_top_least _ _ _ Hp) as Hleast.
  rewrite Hperm in Hdue, Hleast. apply Forall_cons in Hdue as [Hc Hdue]. apply Forall_cons in Hleast as [_ Hleast].
  destruct (body_pops n s ev rest Hw Ht Hp) as (s1 & E1 & Hw1 & Hl1 & Hst1 & _ & Hrest & Hids & _).
  destruct (IH s1) as (evs & s' & E & Hevs & Hsort & Hnil & Hno); [|done|done|congruence|by rewrite Hrest|].
  { rewrite Hrest. rewrite Hperm in Hk. cbn in Hk. lia. }
  eexists _, s'. split; [|split; [|split; [|by split]]].
  - cbn [deliver step mbind option_bind]. rewrite (round n now s ev rest), E1 by done. cbn [mbind option_bind]. by rewrite E.
  - pose proof (wf_nodup _ _ Hw) as Hnd. rewrite Hperm in Hnd. cbn in Hnd. apply NoDup_cons in Hnd as [Hne _].
    assert (filter (active s1) rest = filter (active s) rest) as Hf.
    { apply filter_on. intros x Hx. unfold active. rewrite Hids, elem_of_difference, elem_of_singleton.
      split; [tauto|]. split; [done|]. intros E'. apply Hne. rewrite <- E'. by apply list_elem_of_fmap_2. }
    rewrite Hevs, Hrest, Hf, Hperm, filter_cons. unfold active at 2. case_bool_decide; case_decide; try done.
  - assert (Forall (fun x => cycle ev <= cycle x) evs) as Hev.
    { rewrite Hevs, Hrest. apply Forall_forall. intros x [_ Hx]%list_elem_of_filter. by apply (proj1 (Forall_forall _ _) Hleast). }
    case_bool_decide; cbn [option_list app]; [|done]. constructor; [done|]. destruct Hev; by constructor.
Qed.

(** C25: what is due is delivered.  When the time of every event in the queue has come, as
    many rounds of the thread as there are events hand over exactly those that were not
    stopped, in the order of their times, and leave nothing behind. *)
Theorem events_delivered n now s :
  wf n s -> thread s = Looping -> m_threadState s <> STATE_TERMINATED -> Forall (fun ev => cycle ev <= now) (m_eventList s) ->
  exists evs s', deliver now (length (m_eventList s)) s = Some (evs, s') /\
    evs ≡ₚ filter (active s) (m_eventList s) /\ Sorted (fun x y => cycle x <= cycle y) evs /\
    m_eventList s' = [] /\ m_eventIds s' = ∅.
Proof. intros Hw Hl Ht Hdue. by apply (deliver_all _ n). Qed.

(** ** Examples *)

(** An event is asked for, and another that is due before it; the first is stopped. *)
Definition example_trace : list op :=
  [AddEvent 1000 5000 7; AddEvent 1000 60 8; StopEvent 1; Enter; Wake false 1060; Enter; Wake false 6000].

Lemma scheduler_refines_witness :
  exists ls s, trace example_trace new = Some (ls, s) /\ nth_error ls 4 = Some (Timer.Ran 1060 2 8) /\
    Timer.steps ls (Timer.mk ∅ 0 true false) (timer s).
Proof.
  eexists _, _. split; [vm_compute; reflexivity|]. split; [reflexivity|].
  apply (scheduler_refines example_trace); [vm_compute; reflexivity|]. vm_compute. reflexivity.
Defined.

Definition example_due : t := mk 3 {[1; 3]} [mkTask 1 1000 7; mkTask 2 900 8; mkTask 3 800 9] STATE_RUNNING Looping.

Lemma events_delivered_witness :
  exists s', deliver 2000 3 example_due = Some ([mkTask 3 800 9; mkTask 1 1000 7], s') /\ m_eventList s' = [].
Proof.
  destruct (events_delivered 1 2000 example_due) as (evs & s' & E & _ & _ & Hn & _).
  - split; cbn; [lia|repeat constructor; cbn; lia|by apply (bool_decide_unpack _)|set_solver].
  - reflexivity.
  - discriminate.
  - repeat constructor; cbn; lia.
  - exists s'. split; [|exact Hn]. vm_compute in E |- *. by injection E as <- <-.
Defined.

End SchedulerSpec.
