(* ===== verification/StdMap.v ===== *)
(** * Ordered maps: [std::map]

    An association list in strictly increasing order of the keys, which is the order of
    iteration.  The keys the program uses are integers and strings. *)
From S2P Require Import Prelude.

(** The order of a key type: what [std::less] promises. *)
Class KeyOrder (K : Type) := {
  key_lt : K -> K -> bool;
  key_lt_irrefl k : key_lt k k = false;
  key_lt_trans k1 k2 k3 : key_lt k1 k2 = true -> key_lt k2 k3 = true -> key_lt k1 k3 = true;
  key_lt_total k1 k2 : key_lt k1 k2 = false -> key_lt k2 k1 = false -> k1 = k2
}.

#[export] Instance Z_order : KeyOrder Z.
Proof. refine {| key_lt := Z.ltb |}; intros; lia. Defined.

(** [std::string] compares as [memcmp]: bytes are unsigned. *)
Fixpoint string_lt (s t : cstring) : bool :=
  match s, t with
  | _, [] => false
  | [], _ :: _ => true
  | a :: s, b :: t => (a <? b) || ((a =? b) && string_lt s t)
  end.

#[export] Instance string_order : KeyOrder cstring.
Proof.
  refine {| key_lt := string_lt |}.
  - induction k as [|c k IH]; cbn; [done|]. by rewrite IH, Z.ltb_irrefl, andb_false_r.
  - induction k1 as [|a k1 IH]; intros [|b k2] [|c k3]; cbn; try done.
    rewrite !orb_true_iff, !andb_true_iff, !Z.ltb_lt, !Z.eqb_eq.
    intros [?|[? ?]] [?|[? ?]]; [left; lia|left; lia|left; lia|right; split; [lia|by eapply IH]].
  - induction k1 as [|a k1 IH]; intros [|b k2]; cbn; try done.
    rewrite !orb_false_iff, !andb_false_iff, !Z.ltb_ge, !Z.eqb_neq.
    intros [? [?|?]] [? [?|?]]; try lia. f_equal; [lia|by apply IH].
Defined.

Module StdMap.
Section StdMap.
Context {K V : Type} `{!KeyOrder K}.

Definition t := list (K * V).

Definition key_eqb (k1 k2 : K) : bool := negb (key_lt k1 k2) && negb (key_lt k2 k1).

(** [find(k)] *)
Fixpoint find (k : K) (m : t) : option V :=
  match m with
  | [] => None
  | (k', v) :: m => if key_eqb k k' then Some v else find k m
  end.

(** [m[k] = v] *)
Fixpoint insert (k : K) (v : V) (m : t) : t :=
  match m with
  | [] => [(k, v)]
  | (k', v') :: m =>
      if key_lt k k' then (k, v) :: (k', v') :: m
      else if key_lt k' k then (k', v') :: insert k v m
      else (k, v) :: m
  end.

(** Strictly increasing keys, all above [k]. *)
Fixpoint above (k : K) (m : t) : Prop :=
  match m with
  | [] => True
  | (k', _) :: m => key_lt k k' = true /\ above k' m
  end.

Definition sorted (m : t) : Prop :=
  match m with [] => True | (k, _) :: m => above k m end.

Lemma key_eqb_eq k1 k2 : key_eqb k1 k2 = true <-> k1 = k2.
Proof.
  unfold key_eqb. rewrite andb_true_iff, !negb_true_iff. split.
  - intros [??]. by apply key_lt_total.
  - intros ->. by rewrite key_lt_irrefl.
Qed.

Lemma above_insert k0 k v m : above k0 m -> key_lt k0 k = true -> above k0 (insert k v m).
Proof.
  revert k0. induction m as [|[k' v'] m IH]; intros k0; cbn; [done|]. intros [Hlt Ha] Hk.
  destruct (key_lt k k') eqn:E1; [done|]. destruct (key_lt k' k) eqn:E2; cbn.
  - split; [done|]. by apply IH.
  - assert (k = k') as -> by by apply key_lt_total. done.
Qed.

Lemma sorted_insert k v m : sorted m -> sorted (insert k v m).
Proof.
  destruct m as [|[k' v'] m]; cbn; [done|]. intros Ha.
  destruct (key_lt k k') eqn:E1; cbn; [done|]. destruct (key_lt k' k) eqn:E2; cbn.
  - by apply above_insert.
  - by assert (k = k') as -> by by apply key_lt_total.
Qed.

Lemma find_insert k v m : find k (insert k v m) = Some v.
Proof.
  assert (key_eqb k k = true) as Hr by by apply key_eqb_eq.
  induction m as [|[k' v'] m IH]; cbn; [by rewrite Hr|].
  destruct (key_lt k k') eqn:E1; cbn; [by rewrite Hr|].
  destruct (key_lt k' k) eqn:E2; cbn; [|by rewrite Hr].
  unfold key_eqb at 1. by rewrite E1, E2.
Qed.

Lemma find_insert_ne k k0 v m : k0 <> k -> find k0 (insert k v m) = find k0 m.
Proof.
  intros Hne. assert (key_eqb k0 k = false) as Hf.
  { destruct (key_eqb k0 k) eqn:E; [|done]. by apply key_eqb_eq in E. }
  induction m as [|[k' v'] m IH]; cbn; [by rewrite Hf|].
  destruct (key_lt k k') eqn:E1; cbn; [by rewrite Hf|].
  destruct (key_lt k' k) eqn:E2; cbn; [by rewrite IH|].
  assert (k = k') as <- by by apply key_lt_total. by rewrite Hf.
Qed.

(** Entries after an insertion come from it or were there. *)
Lemma elem_insert k v m kv : kv ∈ insert k v m -> kv = (k, v) \/ kv ∈ m.
Proof.
  induction m as [|[k' v'] m IH]; cbn; [rewrite list_elem_of_singleton; auto|].
  destruct (key_lt k k'); [rewrite elem_of_cons; tauto|].
  destruct (key_lt k' k); rewrite !elem_of_cons; tauto.
Qed.

Lemma length_insert k v m : (length (insert k v m) <= S (length m))%nat.
Proof.
  induction m as [|[k' v'] m IH]; cbn; [done|].
  destruct (key_lt k k'); [done|]. destruct (key_lt k' k); cbn; lia.
Qed.

End StdMap.
Arguments t : clear implicits.
End StdMap.
