(* ===== verification/Json.v ===== *)
(** * JSON values: Boost.JSON

    The value type the loaders look at.  The parser is Boost's and stays a parameter of
    the definitions that call it. *)
From S2P Require Import Prelude CString.

Module Json.

Inductive value :=
| JNull
| JBool (b : bool)
| JInt64 (z : Z)
| JUint64 (z : Z)
| JDouble
| JString (s : cstring)
| JArray (elems : list value)
| JObject (members : list (cstring * value)).

(** [obj.find(key)]; the keys of an object are distinct. *)
Fixpoint member (key : cstring) (members : list (cstring * value)) : option value :=
  match members with
  | [] => None
  | (k, v) :: members => if cstring_eqb k key then Some v else member key members
  end.

Definition as_object (v : option value) : option (list (cstring * value)) :=
  match v with Some (JObject m) => Some m | _ => None end.
Definition as_array (v : option value) : option (list value) :=
  match v with Some (JArray l) => Some l | _ => None end.
Definition as_string (v : option value) : option cstring :=
  match v with Some (JString s) => Some s | _ => None end.
Definition as_int64 (v : option value) : option Z :=
  match v with Some (JInt64 z) => Some z | _ => None end.
Definition as_bool (v : option value) : option bool :=
  match v with Some (JBool b) => Some b | _ => None end.

End Json.
