(* ===== verification/Config.v ===== *)
(** * Configuration (src/configmanager.h, src/configmanager.cpp)

    The three arrays of settings, their accessors, the loader of config.json and the
    message of the day.  Boost.JSON's parser and the Discord request are parameters. *)
From S2P Require Import Prelude CString Definitions Json.

Module ConfigManager.

Inductive string_config_t :=
| DUMMY_STR | CONFIG_DIR | DATABASE_DSN | SERVER_NAME | OWNER_NAME | OWNER_EMAIL | URL
| LOCATION | MOTD_TEXT | MOTD_FILE_UNUSED | DISCORD_BOT_TOKEN | DISCORD_MOTD_CHANNEL
| ENCRYPTION_TYPE | RSA_PRIME1 | RSA_PRIME2 | RSA_PUBLIC | RSA_MODULUS | RSA_PRIVATE
| LISTEN_ADDR | RUNFILE | OUTPUT_LOG.

Inductive number_config_t :=
| LOGIN_TRIES | RETRY_TIMEOUT | LOGIN_TIMEOUT | MAX_PLAYERS | ENCRYPTION | NICE_LEVEL
| MOTD_ID | SERVICE_THREADS | GAMEMASTER_GROUP | MAX_PACKETS_PER_SECOND.

Inductive bool_config_t :=
| ON_OR_OFF_CHARLIST | FREE_PREMIUM | INIT_PREMIUM_UPDATE | DAEMONIZE | TRUNCATE_LOG
| FORCE_CLOSE_SLOW_CONNECTION.

#[export] Instance string_config_eq_dec : EqDecision string_config_t.
Proof. solve_decision. Defined.
#[export] Instance number_config_eq_dec : EqDecision number_config_t.
Proof. solve_decision. Defined.
#[export] Instance bool_config_eq_dec : EqDecision bool_config_t.
Proof. solve_decision. Defined.

(** The numbers of the enumerations' constants, which index the arrays. *)
Definition str (c : string_config_t) : Z :=
  match c with
  | DUMMY_STR => 0 | CONFIG_DIR => 1 | DATABASE_DSN => 2 | SERVER_NAME => 3 | OWNER_NAME => 4
  | OWNER_EMAIL => 5 | URL => 6 | LOCATION => 7 | MOTD_TEXT => 8 | MOTD_FILE_UNUSED => 9
  | DISCORD_BOT_TOKEN => 10 | DISCORD_MOTD_CHANNEL => 11 | ENCRYPTION_TYPE => 12
  | RSA_PRIME1 => 13 | RSA_PRIME2 => 14 | RSA_PUBLIC => 15 | RSA_MODULUS => 16
  | RSA_PRIVATE => 17 | LISTEN_ADDR => 18 | RUNFILE => 19 | OUTPUT_LOG => 20
  end.
Definition LAST_STRING_CONFIG := 21.

Definition num (c : number_config_t) : Z :=
  match c with
  | LOGIN_TRIES => 0 | RETRY_TIMEOUT => 1 | LOGIN_TIMEOUT => 2 | MAX_PLAYERS => 3
  | ENCRYPTION => 4 | NICE_LEVEL => 5 | MOTD_ID => 6 | SERVICE_THREADS => 7
  | GAMEMASTER_GROUP => 8 | MAX_PACKETS_PER_SECOND => 9
  end.
Definition LAST_NUMBER_CONFIG := 10.

Definition bln (c : bool_config_t) : Z :=
  match c with
  | ON_OR_OFF_CHARLIST => 0 | FREE_PREMIUM => 1 | INIT_PREMIUM_UPDATE => 2 | DAEMONIZE => 3
  | TRUNCATE_LOG => 4 | FORCE_CLOSE_SLOW_CONNECTION => 5
  end.
Definition LAST_BOOL_CONFIG := 6.

Record t := mk {
  m_loaded : bool;
  m_startup : bool;
  m_confString : list cstring;   (* [LAST_STRING_CONFIG] *)
  m_confBool : list bool;        (* [LAST_BOOL_CONFIG] *)
  m_confNumber : list Z;         (* int64_t[LAST_NUMBER_CONFIG] *)
  m_coresUsed : list Z
}.

(** [m_confString[what] = value] and so on. *)
Definition put_string (what : string_config_t) (value : cstring) (c : t) : t :=
  mk (m_loaded c) (m_startup c) (<[Z.to_nat (str what) := value]> (m_confString c))
    (m_confBool c) (m_confNumber c) (m_coresUsed c).
Definition put_number (what : number_config_t) (value : Z) (c : t) : t :=
  mk (m_loaded c) (m_startup c) (m_confString c)
    (m_confBool c) (<[Z.to_nat (num what) := value]> (m_confNumber c)) (m_coresUsed c).
Definition put_bool (what : bool_config_t) (value : bool) (c : t) : t :=
  mk (m_loaded c) (m_startup c) (m_confString c)
    (<[Z.to_nat (bln what) := value]> (m_confBool c)) (m_confNumber c) (m_coresUsed c).
Definition put_cores (cores : list Z) (c : t) : t :=
  mk (m_loaded c) (m_startup c) (m_confString c) (m_confBool c) (m_confNumber c) cores.
Definition put_loaded (loaded : bool) (c : t) : t :=
  mk loaded (m_startup c) (m_confString c) (m_confBool c) (m_confNumber c) (m_coresUsed c).

(** [m_confString[what]] and so on. *)
Definition string_at (what : string_config_t) (c : t) : cstring :=
  nth (Z.to_nat (str what)) (m_confString c) [].
Definition number_at (what : number_config_t) (c : t) : Z :=
  nth (Z.to_nat (num what)) (m_confNumber c) 0.
Definition bool_at (what : bool_config_t) (c : t) : bool :=
  nth (Z.to_nat (bln what)) (m_confBool c) false.

(** The constructor of the one object, whose storage is static and so zero at first. *)
Definition new : t :=
  put_bool DAEMONIZE false (put_string OUTPUT_LOG [] (put_string RUNFILE []
    (put_string CONFIG_DIR ($".") (put_number ENCRYPTION ENCRYPTION_SHA1
      (mk false true (replicate (Z.to_nat LAST_STRING_CONFIG) [])
         (replicate (Z.to_nat LAST_BOOL_CONFIG) false)
         (replicate (Z.to_nat LAST_NUMBER_CONFIG) 0) []))))).

Definition startup (c : t) : t :=
  mk (m_loaded c) false (m_confString c) (m_confBool c) (m_confNumber c) (m_coresUsed c).
Definition isRunning (c : t) : bool := negb (m_startup c).
Definition isLoaded (c : t) : bool := m_loaded c.
Definition getCoresUsed (c : t) : list Z := m_coresUsed c.

(** ** Accessors; the index is a [uint32_t] *)

Definition getString (_what : Z) (c : t) : cstring :=
  if (m_loaded c && (_what <? LAST_STRING_CONFIG)) || (_what <=? str CONFIG_DIR)
  then nth (Z.to_nat _what) (m_confString c) []
  else string_at DUMMY_STR c.

Definition getBool (_what : Z) (c : t) : bool :=
  if m_loaded c && (_what <? LAST_BOOL_CONFIG) then nth (Z.to_nat _what) (m_confBool c) false else false.

Definition getNumber (_what : Z) (c : t) : Z :=
  if m_loaded c && (_what <? LAST_NUMBER_CONFIG) then nth (Z.to_nat _what) (m_confNumber c) 0 else 0.

Definition setString (_what : Z) (_value : cstring) (c : t) : bool * t :=
  if _what <? LAST_STRING_CONFIG
  then (true, mk (m_loaded c) (m_startup c) (<[Z.to_nat _what := _value]> (m_confString c))
                (m_confBool c) (m_confNumber c) (m_coresUsed c))
  else (false, c).

Definition setNumber (_what : Z) (_value : Z) (c : t) : bool * t :=
  if _what <? LAST_NUMBER_CONFIG
  then (true, mk (m_loaded c) (m_startup c) (m_confString c) (m_confBool c)
                (<[Z.to_nat _what := _value]> (m_confNumber c)) (m_coresUsed c))
  else (false, c).

Definition setBool (_what : Z) (_value : bool) (c : t) : bool * t :=
  if _what <? LAST_BOOL_CONFIG
  then (true, mk (m_loaded c) (m_startup c) (m_confString c)
                (<[Z.to_nat _what := _value]> (m_confBool c)) (m_confNumber c) (m_coresUsed c))
  else (false, c).

(** ** Loading *)

Section Load.
(** [boost::json::parse], [None] on an error; and the request for the last message of a
    channel, with the token: [None] when it throws, or the HTTP status and the body. *)
Variable json_parse : cstring -> option Json.value.
Variable discord : cstring -> cstring -> option (Z * cstring).

Abbreviation object := (list (cstring * Json.value)).

(** The lambdas [getStr], [getNum], [getBool_] and [rsaStr]. *)
Definition getStr (obj : object) (key def : cstring) : cstring :=
  default def (Json.as_string (Json.member key obj)).
Definition getNum (obj : object) (key : cstring) (def : Z) : Z :=
  default def (Json.as_int64 (Json.member key obj)).
Definition getBool_ (obj : object) (key : cstring) (def : bool) : bool :=
  default def (Json.as_bool (Json.member key obj)).

Definition default_dsn : cstring := $"mysql://root:@localhost:3306/theforgottenserver".
Definition default_prime1 : cstring := $"14299623962416399520070177382898895550795403345466153217470516082934737582776038882967213386204600674145392845853859217990626450972452084065728686565928113".
Definition default_prime2 : cstring := $"7630979195970404721891201847792002125535401292779123937207447574596692788513647179235335529307251350570728407373705564708871762033017096809910315212884101".
Definition default_modulus : cstring := $"109120132967399429278860960508995541528237502902798129123468757937266291492576446330739696001110603907230888610072655818825358503429057592827629436413108566029093628212635953836686562675849720620786279431090218017681061521755056710823876476444260558147179707119674283982419152118103759076030616683978566631413".
Definition default_private : cstring := $"46730330223584118622160180015036832148732986808519344675210555262940258739805766860224610646919605860206328024326703361630109888417839241959507572247284807035235569619173792292786907845791904955103601652822519121908367187885509270025388641700821735345222087940578381210879116823013776808975766851829020659073".

Definition load_database (root : object) (c : t) : t :=
  put_string DATABASE_DSN
    (match Json.as_object (Json.member ($"database") root) with
     | Some db => getStr db ($"dsn") default_dsn
     | None => default_dsn
     end) c.

Definition load_auth (root : object) (c : t) : t :=
  put_string ENCRYPTION_TYPE
    (match Json.as_object (Json.member ($"auth") root) with
     | Some auth => getStr auth ($"encryptionType") ($"sha1")
     | None => $"sha1"
     end) c.

Definition load_discord (root : object) (c : t) : t :=
  match Json.as_object (Json.member ($"discord") root) with
  | None => c
  | Some disc =>
      let c := match Json.as_string (Json.member ($"botToken") disc) with
               | Some v => put_string DISCORD_BOT_TOKEN v c | None => c end in
      match Json.as_string (Json.member ($"motdChannel") disc) with
      | Some v => put_string DISCORD_MOTD_CHANNEL v c | None => c end
  end.

Definition load_rsa (leg : object) (c : t) : t :=
  let rsa := default [] (Json.as_object (Json.member ($"rsa") leg)) in
  put_string RSA_PRIVATE (getStr rsa ($"private") default_private)
    (put_string RSA_MODULUS (getStr rsa ($"modulus") default_modulus)
    (put_string RSA_PUBLIC (getStr rsa ($"public") ($"65537"))
    (put_string RSA_PRIME2 (getStr rsa ($"prime2") default_prime2)
    (put_string RSA_PRIME1 (getStr rsa ($"prime1") default_prime1) c)))).

Definition load_cores (leg : object) (c : t) : t :=
  let cores := omap (fun elem => i32 <$> Json.as_int64 (Some elem))
                 (default [] (Json.as_array (Json.member ($"coresUsed") leg))) in
  put_cores (match cores with [] => [-1] | _ => cores end) c.

Definition load_numbers (leg : object) (c : t) : t :=
  let c := put_number LOGIN_TRIES (getNum leg ($"loginTries") 3) c in
  let c := put_number RETRY_TIMEOUT (getNum leg ($"retryTimeout") 30000) c in
  let c := put_number LOGIN_TIMEOUT (getNum leg ($"loginTimeout") 5000) c in
  let c := put_number MAX_PLAYERS (getNum leg ($"maxPlayers") 1000) c in
  let c := put_number NICE_LEVEL (getNum leg ($"niceLevel") 5) c in
  let c := put_number MOTD_ID 1 c in
  let c := put_number SERVICE_THREADS (getNum leg ($"serviceThreads") 1) c in
  let c := put_number GAMEMASTER_GROUP (getNum leg ($"gamemasterGroup") 4) c in
  put_number MAX_PACKETS_PER_SECOND (getNum leg ($"maxPacketsPerSecond") 25) c.

(** [if(m_confString[k].empty()) m_confString[k] = v] *)
Definition keep_argument (k : string_config_t) (v : cstring) (c : t) : t :=
  match string_at k c with [] => put_string k v c | _ => c end.

Definition load_strings (leg : object) (c : t) : t :=
  let c := put_string SERVER_NAME (getStr leg ($"serverName") ($"Forgotten")) c in
  let c := put_string OWNER_NAME (getStr leg ($"ownerName") []) c in
  let c := put_string OWNER_EMAIL (getStr leg ($"ownerEmail") ($"@otland.net")) c in
  let c := put_string URL (getStr leg ($"url") ($"http://otland.net/")) c in
  let c := put_string LOCATION (getStr leg ($"location") ($"Europe")) c in
  let c := put_string MOTD_TEXT [] c in
  let c := put_string LISTEN_ADDR (getStr leg ($"listenAddr") ($"0.0.0.0:7171")) c in
  let c := keep_argument RUNFILE (getStr leg ($"runFile") ($"tfls.pid")) c in
  keep_argument OUTPUT_LOG (getStr leg ($"outputLog") []) c.

Definition load_bools (leg : object) (c : t) : t :=
  let c := put_bool FREE_PREMIUM (getBool_ leg ($"freePremium") false) c in
  let c := put_bool INIT_PREMIUM_UPDATE (getBool_ leg ($"updatePremiumStateAtStartup") true) c in
  let c := put_bool ON_OR_OFF_CHARLIST (getBool_ leg ($"displayOnOrOffAtCharlist") true) c in
  let c := put_bool DAEMONIZE (getBool_ leg ($"daemonize") false) c in
  let c := put_bool TRUNCATE_LOG (getBool_ leg ($"truncateLogsOnStartup") true) c in
  put_bool FORCE_CLOSE_SLOW_CONNECTION (getBool_ leg ($"forceCloseSlowConnection") false) c.

Definition load_legacy (leg : object) (c : t) : t :=
  load_cores leg (load_rsa leg (load_bools leg (load_strings leg (load_numbers leg c)))).

(** The branch without a "legacy" section. *)
Definition load_defaults (c : t) : t :=
  let c := put_number LOGIN_TRIES 3 c in
  let c := put_number RETRY_TIMEOUT 30000 c in
  let c := put_number LOGIN_TIMEOUT 5000 c in
  let c := put_number MAX_PLAYERS 1000 c in
  let c := put_number NICE_LEVEL 5 c in
  let c := put_number MOTD_ID 1 c in
  let c := put_number SERVICE_THREADS 1 c in
  let c := put_number GAMEMASTER_GROUP 4 c in
  let c := put_number MAX_PACKETS_PER_SECOND 25 c in
  let c := put_string SERVER_NAME ($"Forgotten") c in
  let c := put_string MOTD_TEXT [] c in
  let c := put_bool ON_OR_OFF_CHARLIST true c in
  let c := put_bool TRUNCATE_LOG true c in
  put_cores [-1] c.

Definition default_motd (c : t) : t :=
  match string_at MOTD_TEXT c with [] => put_string MOTD_TEXT ($"Welcome to Wypas!") c | _ => c end.

(** The text of the last message in an answer; [None] when reading it throws, or the
    answer is not a message. *)
Definition motd_content (body : cstring) : option cstring :=
  match json_parse body with
  | Some (Json.JArray (Json.JObject msg :: _)) => Json.as_string (Json.member ($"content") msg)
  | _ => None
  end.

Definition reloadMotd (c : t) : t :=
  match string_at DISCORD_BOT_TOKEN c, string_at DISCORD_MOTD_CHANNEL c with
  | [], _ | _, [] => default_motd c
  | botToken, channelId =>
      match discord botToken channelId with
      | None => default_motd c
      | Some (status, body) =>
          if negb (status =? 200) then default_motd c
          else
            match motd_content body with
            | None => default_motd c
            | Some [] => c
            | Some content => put_number MOTD_ID (number_at MOTD_ID c + 1) (put_string MOTD_TEXT content c)
            end
      end
  end.

(** [load(configDir)]; [content] is the file, [None] when it cannot be opened. *)
Definition load (configDir : cstring) (content : option cstring) (c : t) : bool * t :=
  match content with
  | None => (false, c)
  | Some content =>
      match json_parse content with
      | Some (Json.JObject root) =>
          let c := put_string CONFIG_DIR configDir c in
          let c := load_discord root (load_auth root (load_database root c)) in
          let c := match Json.as_object (Json.member ($"legacy") root) with
                   | Some leg => load_legacy leg c
                   | None => load_defaults c
                   end in
          (true, reloadMotd (put_loaded true c))
      | _ => (false, c)
      end
  end.

(** ** The arrays *)

Record wf (c : t) : Prop := {
  wf_strings : length (m_confString c) = Z.to_nat LAST_STRING_CONFIG;
  wf_bools : length (m_confBool c) = Z.to_nat LAST_BOOL_CONFIG;
  wf_numbers : length (m_confNumber c) = Z.to_nat LAST_NUMBER_CONFIG
}.

Create HintDb config discriminated.
#[local] Hint Constants Opaque : config.

Lemma put_string_wf k v c : wf c -> wf (put_string k v c).
Proof. intros [???]. by split; cbn; rewrite ?length_insert. Qed.
Lemma put_number_wf k v c : wf c -> wf (put_number k v c).
Proof. intros [???]. by split; cbn; rewrite ?length_insert. Qed.
Lemma put_bool_wf k v c : wf c -> wf (put_bool k v c).
Proof. intros [???]. by split; cbn; rewrite ?length_insert. Qed.
Lemma put_cores_wf l c : wf c -> wf (put_cores l c).
Proof. by intros [???]. Qed.
Lemma put_loaded_wf b c : wf c -> wf (put_loaded b c).
Proof. by intros [???]. Qed.
#[local] Hint Resolve put_string_wf put_number_wf put_bool_wf put_cores_wf put_loaded_wf : config.

Lemma nth_insert {A} (l : list A) i j (x d : A) :
  (j < length l)%nat -> nth i (<[j := x]> l) d = if decide (i = j) then x else nth i l d.
Proof.
  intros Hj. rewrite !nth_lookup. case_decide as Hij.
  - subst. by rewrite list_lookup_insert_eq by done.
  - by rewrite list_lookup_insert_ne by done.
Qed.

(** The constants of an enumeration have distinct numbers inside its array. *)
Lemma str_range k : 0 <= str k < LAST_STRING_CONFIG.
Proof. by destruct k. Qed.
Lemma num_range k : 0 <= num k < LAST_NUMBER_CONFIG.
Proof. by destruct k. Qed.
Lemma bln_range k : 0 <= bln k < LAST_BOOL_CONFIG.
Proof. by destruct k. Qed.
#[local] Instance str_inj : Inj (=) (=) (fun k => Z.to_nat (str k)).
Proof. intros [] []; done. Qed.
#[local] Instance num_inj : Inj (=) (=) (fun k => Z.to_nat (num k)).
Proof. intros [] []; done. Qed.
#[local] Instance bln_inj : Inj (=) (=) (fun k => Z.to_nat (bln k)).
Proof. intros [] []; done. Qed.

Lemma string_at_put k k' v c :
  wf c -> string_at k (put_string k' v c) = if decide (k = k') then v else string_at k c.
Proof.
  intros [Hs _ _]. unfold string_at. cbn. pose proof (str_range k').
  rewrite nth_insert by (rewrite Hs; lia).
  do 2 case_decide; try done; [by apply str_inj in H0|by subst].
Qed.

Lemma number_at_put k k' v c :
  wf c -> number_at k (put_number k' v c) = if decide (k = k') then v else number_at k c.
Proof.
  intros [_ _ Hs]. unfold number_at. cbn. pose proof (num_range k').
  rewrite nth_insert by (rewrite Hs; lia).
  do 2 case_decide; try done; [by apply num_inj in H0|by subst].
Qed.

Lemma bool_at_put k k' v c :
  wf c -> bool_at k (put_bool k' v c) = if decide (k = k') then v else bool_at k c.
Proof.
  intros [_ Hs _]. unfold bool_at. cbn. pose proof (bln_range k').
  rewrite nth_insert by (rewrite Hs; lia).
  do 2 case_decide; try done; [by apply bln_inj in H0|by subst].
Qed.

Lemma new_wf : wf new.
Proof. done. Qed.

Lemma load_numbers_wf leg c : wf c -> wf (load_numbers leg c).
Proof. unfold load_numbers. auto 20 with config. Qed.
Lemma load_bools_wf leg c : wf c -> wf (load_bools leg c).
Proof. unfold load_bools. auto 20 with config. Qed.
Lemma keep_argument_wf k v c : wf c -> wf (keep_argument k v c).
Proof. intros. unfold keep_argument. case_match; auto with config. Qed.
#[local] Hint Resolve keep_argument_wf : config.
Lemma load_strings_wf leg c : wf c -> wf (load_strings leg c).
Proof. unfold load_strings. auto 20 with config. Qed.
Lemma load_rsa_wf leg c : wf c -> wf (load_rsa leg c).
Proof. unfold load_rsa. auto 20 with config. Qed.
#[local] Hint Resolve load_numbers_wf load_bools_wf load_strings_wf load_rsa_wf : config.
Lemma load_legacy_wf leg c : wf c -> wf (load_legacy leg c).
Proof. unfold load_legacy, load_cores. auto 20 with config. Qed.
Lemma load_defaults_wf c : wf c -> wf (load_defaults c).
Proof. unfold load_defaults. auto 40 with config. Qed.
Lemma load_sections_wf root c : wf c -> wf (load_discord root (load_auth root (load_database root c))).
Proof. unfold load_discord, load_auth, load_database. intros. repeat case_match; auto 20 with config. Qed.
#[local] Hint Resolve load_legacy_wf load_defaults_wf load_sections_wf : config.
Lemma default_motd_wf c : wf c -> wf (default_motd c).
Proof. unfold default_motd. intros. case_match; auto with config. Qed.
#[local] Hint Resolve default_motd_wf : config.
Lemma reloadMotd_wf c : wf c -> wf (reloadMotd c).
Proof. unfold reloadMotd. intros. repeat case_match; auto with config. Qed.
#[local] Hint Resolve reloadMotd_wf : config.

(** ** The settings of the "legacy" section: where each is kept, its key, its default *)

Definition number_settings : list (number_config_t * cstring * Z) :=
  [(LOGIN_TRIES, $"loginTries", 3); (RETRY_TIMEOUT, $"retryTimeout", 30000);
   (LOGIN_TIMEOUT, $"loginTimeout", 5000); (MAX_PLAYERS, $"maxPlayers", 1000);
   (NICE_LEVEL, $"niceLevel", 5); (SERVICE_THREADS, $"serviceThreads", 1);
   (GAMEMASTER_GROUP, $"gamemasterGroup", 4); (MAX_PACKETS_PER_SECOND, $"maxPacketsPerSecond", 25)].

Definition string_settings : list (string_config_t * cstring * cstring) :=
  [(SERVER_NAME, $"serverName", $"Forgotten"); (OWNER_NAME, $"ownerName", []);
   (OWNER_EMAIL, $"ownerEmail", $"@otland.net"); (URL, $"url", $"http://otland.net/");
   (LOCATION, $"location", $"Europe"); (LISTEN_ADDR, $"listenAddr", $"0.0.0.0:7171")].

Definition bool_settings : list (bool_config_t * cstring * bool) :=
  [(FREE_PREMIUM, $"freePremium", false); (INIT_PREMIUM_UPDATE, $"updatePremiumStateAtStartup", true);
   (ON_OR_OFF_CHARLIST, $"displayOnOrOffAtCharlist", true); (DAEMONIZE, $"daemonize", false);
   (TRUNCATE_LOG, $"truncateLogsOnStartup", true);
   (FORCE_CLOSE_SLOW_CONNECTION, $"forceCloseSlowConnection", false)].

(** Settings that may also be given on the command line, which wins. *)
Definition argument_settings : list (string_config_t * cstring * cstring) :=
  [(RUNFILE, $"runFile", $"tfls.pid"); (OUTPUT_LOG, $"outputLog", [])].

(** The RSA key, in an object of the section. *)
Definition rsa_settings : list (string_config_t * cstring * cstring) :=
  [(RSA_PRIME1, $"prime1", default_prime1); (RSA_PRIME2, $"prime2", default_prime2); (RSA_PUBLIC, $"public", $"65537");
   (RSA_MODULUS, $"modulus", default_modulus); (RSA_PRIVATE, $"private", default_private)].

(** The settings of the other sections, each with its section; what names the channel of
    the message of the day stays what it was if the file does not say it. *)
Definition section_settings (c : t) : list (string_config_t * cstring * cstring * cstring) :=
  [(DATABASE_DSN, $"database", $"dsn", default_dsn); (ENCRYPTION_TYPE, $"auth", $"encryptionType", $"sha1");
   (DISCORD_BOT_TOKEN, $"discord", $"botToken", string_at DISCORD_BOT_TOKEN c);
   (DISCORD_MOTD_CHANNEL, $"discord", $"motdChannel", string_at DISCORD_MOTD_CHANNEL c)].

Definition section (name : cstring) (obj : object) : object := default [] (Json.as_object (Json.member name obj)).

(** A member of a table, row by row. *)
Ltac each_row H :=
  repeat (apply elem_of_cons in H as [[= -> -> ->]|H];
    [repeat (rewrite decide_True by done || rewrite decide_False by done); try done|]);
  by apply elem_of_nil in H.

Lemma load_numbers_at leg c k key def :
  wf c -> (k, key, def) ∈ number_settings -> number_at k (load_numbers leg c) = getNum leg key def.
Proof.
  intros Hc Hin. unfold load_numbers. repeat (rewrite number_at_put by auto 20 with config).
  each_row Hin.
Qed.

Lemma load_numbers_kept leg c : wf c -> number_at ENCRYPTION (load_numbers leg c) = number_at ENCRYPTION c.
Proof. intros Hc. unfold load_numbers. by repeat (rewrite number_at_put, decide_False by (done || auto 20 with config)). Qed.

Lemma load_bools_at leg c k key def :
  wf c -> (k, key, def) ∈ bool_settings -> bool_at k (load_bools leg c) = getBool_ leg key def.
Proof.
  intros Hc Hin. unfold load_bools. repeat (rewrite bool_at_put by auto 20 with config).
  each_row Hin.
Qed.

Lemma keep_argument_at k k' v c :
  wf c -> string_at k (keep_argument k' v c) =
    if decide (k = k') then match string_at k c with [] => v | s => s end else string_at k c.
Proof.
  intros Hc. unfold keep_argument. case_decide as Hk; [subst|].
  - destruct (string_at k' c) eqn:E; [by rewrite string_at_put, decide_True|done].
  - case_match; [by rewrite string_at_put, decide_False|done].
Qed.

Lemma load_strings_at leg c k :
  wf c -> string_at k (load_strings leg c) =
    match k with
    | SERVER_NAME => getStr leg ($"serverName") ($"Forgotten")
    | OWNER_NAME => getStr leg ($"ownerName") []
    | OWNER_EMAIL => getStr leg ($"ownerEmail") ($"@otland.net")
    | URL => getStr leg ($"url") ($"http://otland.net/")
    | LOCATION => getStr leg ($"location") ($"Europe")
    | MOTD_TEXT => []
    | LISTEN_ADDR => getStr leg ($"listenAddr") ($"0.0.0.0:7171")
    | RUNFILE => match string_at k c with [] => getStr leg ($"runFile") ($"tfls.pid") | s => s end
    | OUTPUT_LOG => match string_at k c with [] => getStr leg ($"outputLog") [] | s => s end
    | _ => string_at k c
    end.
Proof.
  intros Hc. unfold load_strings.
  repeat (rewrite keep_argument_at by auto 20 with config).
  repeat (rewrite string_at_put by auto 20 with config). by destruct k.
Qed.

Lemma load_strings_others leg c :
  m_confNumber (load_strings leg c) = m_confNumber c /\ m_confBool (load_strings leg c) = m_confBool c /\
  m_loaded (load_strings leg c) = m_loaded c.
Proof. unfold load_strings, keep_argument. by repeat case_match. Qed.

Lemma string_at_same c c' k : m_confString c = m_confString c' -> string_at k c = string_at k c'.
Proof. unfold string_at. by intros ->. Qed.

(** What the other assignments leave alone. *)
Lemma put_string_others k v c :
  m_confNumber (put_string k v c) = m_confNumber c /\ m_confBool (put_string k v c) = m_confBool c.
Proof. done. Qed.

Lemma put_cores_others l c :
  m_confNumber (put_cores l c) = m_confNumber c /\ m_confBool (put_cores l c) = m_confBool c /\
  m_confString (put_cores l c) = m_confString c.
Proof. done. Qed.

Lemma load_rsa_others leg c :
  m_confNumber (load_rsa leg c) = m_confNumber c /\ m_confBool (load_rsa leg c) = m_confBool c.
Proof. unfold load_rsa. generalize (default [] (Json.as_object (Json.member ($"rsa") leg))). done. Qed.

Lemma load_rsa_at leg c k :
  wf c -> string_at k (load_rsa leg c) =
    let rsa := default [] (Json.as_object (Json.member ($"rsa") leg)) in
    match k with
    | RSA_PRIME1 => getStr rsa ($"prime1") default_prime1
    | RSA_PRIME2 => getStr rsa ($"prime2") default_prime2
    | RSA_PUBLIC => getStr rsa ($"public") ($"65537")
    | RSA_MODULUS => getStr rsa ($"modulus") default_modulus
    | RSA_PRIVATE => getStr rsa ($"private") default_private
    | _ => string_at k c
    end.
Proof.
  intros Hw. unfold load_rsa. generalize (default [] (Json.as_object (Json.member ($"rsa") leg))). intros rsa.
  repeat (rewrite string_at_put by auto 20 with config). destruct k; reflexivity.
Qed.

Lemma load_bools_others leg c :
  m_confNumber (load_bools leg c) = m_confNumber c /\ m_confString (load_bools leg c) = m_confString c.
Proof. done. Qed.

Lemma load_numbers_string leg c k : string_at k (load_numbers leg c) = string_at k c.
Proof. done. Qed.



(** The branch without a "legacy" section. *)
Lemma load_defaults_string c k :
  wf c -> string_at k (load_defaults c) =
    match k with SERVER_NAME => $"Forgotten" | MOTD_TEXT => [] | _ => string_at k c end.
Proof.
  intros Hc.
  transitivity (string_at k (put_string MOTD_TEXT [] (put_string SERVER_NAME ($"Forgotten") c))); [done|].
  rewrite !string_at_put by auto with config. by destruct k.
Qed.

Lemma load_defaults_number c k key def :
  wf c -> (k, key, def) ∈ number_settings -> number_at k (load_defaults c) = def.
Proof.
  intros Hc Hin. unfold load_defaults.
  set (c1 := put_number MAX_PACKETS_PER_SECOND 25 _).
  transitivity (number_at k c1); [done|]. unfold c1.
  repeat (rewrite number_at_put by auto 20 with config). each_row Hin.
Qed.

Lemma load_motd_cleared leg c :
  wf c -> (string_at MOTD_TEXT (load_defaults c) = [] /\ number_at MOTD_ID (load_defaults c) = 1) /\
  (string_at MOTD_TEXT (load_strings leg c) = [] /\ number_at MOTD_ID (load_numbers leg c) = 1).
Proof.
  intros Hc. split_and!.
  - by rewrite load_defaults_string.
  - set (c0 := put_number LOGIN_TIMEOUT 5000 (put_number RETRY_TIMEOUT 30000 (put_number LOGIN_TRIES 3 c))).
    set (c1 := put_number MOTD_ID 1 (put_number NICE_LEVEL 5 (put_number MAX_PLAYERS 1000 c0))).
    transitivity (number_at MOTD_ID (put_number MAX_PACKETS_PER_SECOND 25
      (put_number GAMEMASTER_GROUP 4 (put_number SERVICE_THREADS 1 c1)))); [done|].
    unfold c1, c0. by repeat (rewrite number_at_put by auto 20 with config).
  - by rewrite load_strings_at.
  - unfold load_numbers. by repeat (rewrite number_at_put by auto 20 with config).
Qed.

#[local] Opaque load_numbers load_strings load_bools load_rsa.

(** The parts of [load_legacy] that bear on each array. *)
Lemma load_legacy_number leg c k : number_at k (load_legacy leg c) = number_at k (load_numbers leg c).
Proof.
  unfold number_at, load_legacy, load_cores.
  by rewrite (proj1 (put_cores_others _ _)), (proj1 (load_rsa_others _ _)), (proj1 (load_bools_others _ _)), (proj1 (load_strings_others _ _)).
Qed.

Lemma load_legacy_bool leg c k :
  bool_at k (load_legacy leg c) = bool_at k (load_bools leg (load_strings leg (load_numbers leg c))).
Proof.
  unfold bool_at, load_legacy, load_cores.
  by rewrite (proj1 (proj2 (put_cores_others _ _))), (proj2 (load_rsa_others _ _)).
Qed.

Lemma load_legacy_string leg c k :
  wf c -> string_at k (load_legacy leg c) =
    let rsa := default [] (Json.as_object (Json.member ($"rsa") leg)) in
    match k with
    | RSA_PRIME1 => getStr rsa ($"prime1") default_prime1
    | RSA_PRIME2 => getStr rsa ($"prime2") default_prime2
    | RSA_PUBLIC => getStr rsa ($"public") ($"65537")
    | RSA_MODULUS => getStr rsa ($"modulus") default_modulus
    | RSA_PRIVATE => getStr rsa ($"private") default_private
    | _ => string_at k (load_strings leg c)
    end.
Proof.
  intros Hc. unfold load_legacy, load_cores.
  rewrite (string_at_same _ _ k (proj2 (proj2 (put_cores_others _ _)))).
  set (c' := load_bools leg (load_strings leg (load_numbers leg c))).
  assert (wf c') as Hw by (unfold c'; auto with config).
  assert (forall k, string_at k c' = string_at k (load_strings leg c)) as Hs.
  { intros k'. unfold c'. rewrite (string_at_same _ _ k' (proj2 (load_bools_others _ _))).
    rewrite !load_strings_at by auto with config. by rewrite load_numbers_string. }
  rewrite load_rsa_at by done. rewrite Hs. by destruct k.
Qed.

(** The integers of an array, each cut to 32 bits; what else it holds is skipped. *)
Definition integers (elements : list Json.value) : list Z :=
  omap (fun elem => i32 <$> Json.as_int64 (Some elem)) elements.

Lemma load_legacy_cores leg c :
  m_coresUsed (load_legacy leg c) =
    match integers (default [] (Json.as_array (Json.member ($"coresUsed") leg))) with [] => [-1] | cores => cores end.
Proof. unfold load_legacy, load_cores, integers. cbn [m_coresUsed put_cores]. by case_match. Qed.

(** ** The message of the day *)

(** The text of the channel's last message, when there is a channel and it answers. *)
Definition motd_answer (c : t) : option cstring :=
  match string_at DISCORD_BOT_TOKEN c, string_at DISCORD_MOTD_CHANNEL c with
  | [], _ | _, [] => None
  | botToken, channelId =>
      '(status, body) ← discord botToken channelId;
      if status =? 200 then motd_content body else None
  end.

Lemma reloadMotd_eq c :
  reloadMotd c =
    match motd_answer c with
    | None => default_motd c
    | Some [] => c
    | Some content => put_number MOTD_ID (number_at MOTD_ID c + 1) (put_string MOTD_TEXT content c)
    end.
Proof.
  unfold reloadMotd, motd_answer.
  destruct (string_at DISCORD_BOT_TOKEN c) as [|a token]; [done|].
  destruct (string_at DISCORD_MOTD_CHANNEL c) as [|b channel]; [done|].
  destruct (discord _ _) as [[status body]|]; [|done]. cbn.
  by destruct (status =? 200).
Qed.

Lemma reloadMotd_at c :
  wf c ->
  m_loaded (reloadMotd c) = m_loaded c /\ m_confBool (reloadMotd c) = m_confBool c /\
  (forall k, string_at k (reloadMotd c) =
     if decide (k = MOTD_TEXT) then
       match motd_answer c, string_at MOTD_TEXT c with
       | None, [] => $"Welcome to Wypas!"
       | None, s | Some [], s => s
       | Some s, _ => s
       end
     else string_at k c) /\
  (forall k, number_at k (reloadMotd c) =
     if decide (k = MOTD_ID) then
       number_at k c + match motd_answer c with None | Some [] => 0 | Some _ => 1 end
     else number_at k c).
Proof.
  intros Hc. rewrite reloadMotd_eq.
  destruct (motd_answer c) as [[|a text]|].
  - split_and!; try done; intros k; case_decide; subst; [done|done|lia|done].
  - split_and!; try done; intros k.
    + rewrite <- (string_at_put k MOTD_TEXT (a :: text)) by done. done.
    + rewrite number_at_put by auto with config. by case_decide; subst.
  - unfold default_motd. destruct (string_at MOTD_TEXT c) as [|b text] eqn:E.
    + split_and!; try done; intros k.
      * by rewrite string_at_put by done.
      * transitivity (number_at k c); [done|]. case_decide; lia.
    + split_and!; try done; intros k; case_decide; subst; [done|done|lia|done].
Qed.

(** ** What is loaded *)

Abbreviation sections root configDir c :=
  (load_discord root (load_auth root (load_database root (put_string CONFIG_DIR configDir c)))).

Lemma load_discord_at root c k :
  wf c -> string_at k (load_discord root c) =
    match k with
    | DISCORD_BOT_TOKEN => getStr (section ($"discord") root) ($"botToken") (string_at k c)
    | DISCORD_MOTD_CHANNEL => getStr (section ($"discord") root) ($"motdChannel") (string_at k c)
    | _ => string_at k c
    end.
Proof.
  intros Hc. unfold load_discord, section. destruct (Json.as_object _) as [disc|]; [|by destruct k].
  change (default [] (Some disc)) with disc. unfold getStr.
  destruct (Json.as_string (Json.member ($"botToken") disc)), (Json.as_string (Json.member ($"motdChannel") disc));
    rewrite ?string_at_put by auto with config; by destruct k.
Qed.

Lemma sections_number root configDir c k : number_at k (sections root configDir c) = number_at k c.
Proof. unfold load_discord. by repeat case_match. Qed.

Lemma sections_at root configDir c k :
  wf c -> string_at k (sections root configDir c) =
    match k with
    | CONFIG_DIR => configDir
    | DATABASE_DSN => getStr (default [] (Json.as_object (Json.member ($"database") root))) ($"dsn") default_dsn
    | ENCRYPTION_TYPE => getStr (default [] (Json.as_object (Json.member ($"auth") root))) ($"encryptionType") ($"sha1")
    | DISCORD_BOT_TOKEN => getStr (section ($"discord") root) ($"botToken") (string_at DISCORD_BOT_TOKEN c)
    | DISCORD_MOTD_CHANNEL => getStr (section ($"discord") root) ($"motdChannel") (string_at DISCORD_MOTD_CHANNEL c)
    | _ => string_at k c
    end.
Proof.
  intros Hc. set (c1 := put_string CONFIG_DIR configDir c).
  assert (wf c1) as Hw by (unfold c1; auto with config).
  assert (wf (load_auth root (load_database root c1))) as Hw2 by (unfold load_auth, load_database; auto with config).
  rewrite load_discord_at by done.
  destruct k; unfold load_auth, load_database;
    rewrite !string_at_put by auto with config; unfold c1; rewrite ?string_at_put by auto with config.
  all: rewrite ?decide_True, ?decide_False by done.
  all: first [reflexivity|by destruct (Json.as_object _)].
Qed.

#[local] Opaque load_legacy load_defaults load_discord load_auth load_database.

Lemma load_loaded configDir text root c :
  json_parse text = Some (Json.JObject root) ->
  load configDir (Some text) c =
    (true, reloadMotd (put_loaded true
       (match Json.as_object (Json.member ($"legacy") root) with
        | Some leg => load_legacy leg (sections root configDir c)
        | None => load_defaults (sections root configDir c)
        end))).
Proof. unfold load. by intros ->. Qed.

(** The accessors of a loaded configuration are the cells of its arrays. *)
Lemma getString_at k c : m_loaded c = true -> getString (str k) c = string_at k c.
Proof. intros H. unfold getString. rewrite H. pose proof (str_range k). by zbool. Qed.
Lemma getNumber_at k c : m_loaded c = true -> getNumber (num k) c = number_at k c.
Proof. intros H. unfold getNumber. rewrite H. pose proof (num_range k). by zbool. Qed.
Lemma getBool_at k c : m_loaded c = true -> getBool (bln k) c = bool_at k c.
Proof. intros H. unfold getBool. rewrite H. pose proof (bln_range k). by zbool. Qed.

Lemma load_legacy_strings leg c k key def :
  wf c -> (k, key, def) ∈ string_settings -> string_at k (load_legacy leg c) = getStr leg key def.
Proof.
  intros Hc Hin. rewrite load_legacy_string, load_strings_at by done.
  repeat (apply elem_of_cons in Hin as [[= -> -> ->]|Hin]; [reflexivity|]). by apply elem_of_nil in Hin.
Qed.

Lemma load_legacy_arguments leg c k key def :
  wf c -> (k, key, def) ∈ argument_settings ->
  string_at k (load_legacy leg c) = match string_at k c with [] => getStr leg key def | s => s end.
Proof.
  intros Hc Hin. rewrite load_legacy_string, load_strings_at by done.
  repeat (apply elem_of_cons in Hin as [[= -> -> ->]|Hin]; [reflexivity|]). by apply elem_of_nil in Hin.
Qed.

Lemma load_legacy_bools leg c k key def :
  wf c -> (k, key, def) ∈ bool_settings -> bool_at k (load_legacy leg c) = getBool_ leg key def.
Proof. intros. rewrite load_legacy_bool. apply load_bools_at; auto with config. Qed.

Lemma load_legacy_numbers leg c k key def :
  wf c -> (k, key, def) ∈ number_settings -> number_at k (load_legacy leg c) = getNum leg key def.
Proof. intros. rewrite load_legacy_number. by apply load_numbers_at. Qed.

Lemma sections_argument root configDir c k key def :
  wf c -> (k, key, def) ∈ argument_settings -> string_at k (sections root configDir c) = string_at k c.
Proof.
  intros Hc Hin. rewrite sections_at by done.
  repeat (apply elem_of_cons in Hin as [[= -> -> ->]|Hin]; [reflexivity|]). by apply elem_of_nil in Hin.
Qed.

(** The message of the day is in none of the tables. *)
Lemma tables_motd key d1 d2 d3 :
  ~ ((MOTD_TEXT, key, d1) ∈ string_settings) /\ ~ ((MOTD_TEXT, key, d2) ∈ argument_settings) /\
  ~ ((MOTD_ID, key, d3) ∈ number_settings).
Proof.
  split_and!; intros Hin;
    repeat (apply elem_of_cons in Hin as [?|Hin]; [done|]); by apply elem_of_nil in Hin.
Qed.

Lemma motd_answer_same c c' :
  string_at DISCORD_BOT_TOKEN c = string_at DISCORD_BOT_TOKEN c' ->
  string_at DISCORD_MOTD_CHANNEL c = string_at DISCORD_MOTD_CHANNEL c' -> motd_answer c = motd_answer c'.
Proof. unfold motd_answer. by intros -> ->. Qed.

Lemma motd_answer_loaded b c : motd_answer (put_loaded b c) = motd_answer c.
Proof. done. Qed.

(** The settings of a loaded configuration, but for the message of the day, once it has
    been fetched. *)
Lemma reloadMotd_settings c k1 k2 k3 :
  wf c -> k1 <> MOTD_TEXT -> k2 <> MOTD_ID ->
  let c' := reloadMotd (put_loaded true c) in
  getString (str k1) c' = string_at k1 c /\ getNumber (num k2) c' = number_at k2 c /\
  getBool (bln k3) c' = bool_at k3 c.
Proof.
  intros Hc H1 H2 c'. destruct (reloadMotd_at (put_loaded true c) (put_loaded_wf true c Hc)) as (Hl & Hb & Hs & Hn).
  fold c' in Hl, Hb, Hs, Hn. clearbody c'.
  rewrite getString_at, getNumber_at, getBool_at by done. rewrite Hs, Hn, !decide_False by done.
  unfold bool_at. by rewrite Hb.
Qed.

Lemma reloadMotd_cores c : m_coresUsed (reloadMotd c) = m_coresUsed c.
Proof. rewrite reloadMotd_eq. unfold default_motd. by repeat case_match. Qed.

(** The message of the day, when nothing else has set it. *)
Lemma reloadMotd_cleared c :
  wf c -> string_at MOTD_TEXT c = [] -> number_at MOTD_ID c = 1 ->
  let c' := reloadMotd (put_loaded true c) in
  getString (str MOTD_TEXT) c' = default ($"Welcome to Wypas!") (motd_answer c) /\
  getNumber (num MOTD_ID) c' = match motd_answer c with None | Some [] => 1 | Some _ => 2 end /\
  motd_answer c' = motd_answer c.
Proof.
  intros Hc Ht Hn c'. destruct (reloadMotd_at (put_loaded true c) (put_loaded_wf true c Hc)) as (Hl & _ & Hs & Hid).
  fold c' in Hl, Hs, Hid. clearbody c'. rewrite getString_at, getNumber_at by done.
  pose proof (Hs DISCORD_BOT_TOKEN) as H1. pose proof (Hs DISCORD_MOTD_CHANNEL) as H2. 
  rewrite decide_False in H1 by done. rewrite decide_False in H2 by done.
  specialize (Hs MOTD_TEXT). specialize (Hid MOTD_ID). rewrite decide_True in Hs by done. rewrite decide_True in Hid by done. rewrite motd_answer_loaded in Hs, Hid.
  change (string_at MOTD_TEXT (put_loaded true c)) with (string_at MOTD_TEXT c) in Hs.
  change (number_at MOTD_ID (put_loaded true c)) with (number_at MOTD_ID c) in Hid.
  rewrite Hs, Hid, Ht, Hn. split_and!; [by destruct (motd_answer c) as [[|??]|]..|].
  rewrite <- (motd_answer_loaded true c). by apply motd_answer_same.
Qed.

Lemma reloadMotd_loaded c : wf c -> m_loaded (reloadMotd (put_loaded true c)) = true.
Proof. intros Hc. by destruct (reloadMotd_at (put_loaded true c) (put_loaded_wf true c Hc)) as [-> _]. Qed.
#[local] Opaque reloadMotd.

(** The settings that only the "legacy" section defines. *)
Definition legacy_only : list string_config_t :=
  [OWNER_NAME; OWNER_EMAIL; URL; LOCATION; RSA_PRIME1; RSA_PRIME2; RSA_PUBLIC; RSA_MODULUS;
   RSA_PRIVATE; LISTEN_ADDR; RUNFILE; OUTPUT_LOG].

Lemma new_sections_empty root configDir k :
  k ∈ legacy_only -> string_at k (load_defaults (sections root configDir new)) = [].
Proof.
  intros Hin. rewrite load_defaults_string, sections_at by (auto using new_wf with config).
  repeat (apply elem_of_cons in Hin as [->|Hin]; [reflexivity|]). by apply elem_of_nil in Hin.
Qed.

(** Without a "legacy" section the defaults are incomplete.  The first load of such
    a configuration succeeds and the numbers are the documented defaults, but the address
    to listen on, the RSA key, the run file and the other strings of that section are
    left empty instead of set to theirs. *)
Theorem load_without_legacy configDir text root :
  json_parse text = Some (Json.JObject root) ->
  Json.as_object (Json.member ($"legacy") root) = None ->
  exists c', load configDir (Some text) new = (true, c') /\
    (forall k key def, (k, key, def) ∈ number_settings -> getNumber (num k) c' = def) /\
    (forall k, k ∈ legacy_only -> getString (str k) c' = []).
Proof.
  intros Hp Hl. rewrite (load_loaded _ _ _ _ Hp), Hl.
  pose proof (new_sections_empty root configDir) as Hs.
  assert (wf (sections root configDir new)) as H1 by (auto using new_wf with config).
  pose proof (load_defaults_number (sections root configDir new)) as Hn.
  pose proof (load_defaults_wf _ H1) as H2. specialize (fun k key def => Hn k key def H1). clear H1.
  generalize dependent (load_defaults (sections root configDir new)). intros c2 Hs Hn H2.
  pose proof (fun k1 k2 k3 => reloadMotd_settings c2 k1 k2 k3 H2) as Hset.
  eexists. split; [reflexivity|]. split.
  - intros k key def Hin. rewrite <- (Hn k key def Hin). apply (Hset CONFIG_DIR k DAEMONIZE); [done|].
    intros ->. by apply (tables_motd key [] [] def) in Hin.
  - intros k Hin. rewrite <- (Hs k Hin). apply (Hset k NICE_LEVEL DAEMONIZE); [|done].
    intros ->. repeat (apply elem_of_cons in Hin as [?|Hin]; [done|]). by apply elem_of_nil in Hin.
Qed.

Lemma legacy_motd_cleared leg c :
  wf c -> string_at MOTD_TEXT (load_legacy leg c) = [] /\ number_at MOTD_ID (load_legacy leg c) = 1.
Proof.
  intros Hc. rewrite load_legacy_string, load_legacy_number by done. cbn.
  by apply (load_motd_cleared leg c).
Qed.

(** The message of the day after a load.  It is the text of the last message of the
    channel, with number 2, when the configuration names a channel and a token and the
    request is answered by one; a text that is empty is kept, as an empty message of
    number 1; in every other case it is the fixed greeting, of number 1.  Neither the
    file nor the configuration before the load has a say in it. *)
Theorem load_motd configDir text root c :
  wf c -> json_parse text = Some (Json.JObject root) ->
  exists c', load configDir (Some text) c = (true, c') /\
    getString (str MOTD_TEXT) c' = default ($"Welcome to Wypas!") (motd_answer (sections root configDir c)) /\
    getNumber (num MOTD_ID) c' =
      match motd_answer (sections root configDir c) with None | Some [] => 1 | Some _ => 2 end.
Proof.
  intros Hc Hp. rewrite (load_loaded _ _ _ _ Hp).
  assert (wf (sections root configDir c)) as H1 by auto with config.
  generalize dependent (sections root configDir c). intros c1 H1.
  set (c2 := match Json.as_object (Json.member ($"legacy") root) with
             | Some leg => load_legacy leg c1 | None => load_defaults c1 end).
  assert (wf c2 /\ string_at MOTD_TEXT c2 = [] /\ number_at MOTD_ID c2 = 1 /\
    motd_answer c2 = motd_answer c1) as (H2 & Ht & Hn & Ha).
  { unfold c2. destruct (Json.as_object _) as [leg|].
    - pose proof (legacy_motd_cleared leg c1 H1) as [-> ->]. split_and!; [by apply load_legacy_wf|done..|].
      apply motd_answer_same; rewrite load_legacy_string, load_strings_at by done; reflexivity.
    - pose proof (load_motd_cleared [] c1 H1) as [[-> ->] _]. split_and!; [by apply load_defaults_wf|done..|].
      apply motd_answer_same; rewrite load_defaults_string by done; reflexivity. }
  clearbody c2. exists (reloadMotd (put_loaded true c2)). split; [reflexivity|].
  destruct (reloadMotd_cleared c2 H2 Ht Hn) as (-> & -> & _). by rewrite Ha.
Qed.

Lemma load_legacy_sections root leg configDir c k name key def :
  wf c -> (k, name, key, def) ∈ section_settings c ->
  string_at k (load_legacy leg (sections root configDir c)) = getStr (section name root) key def.
Proof.
  intros Hc Hin. rewrite load_legacy_string, load_strings_at by auto with config.
  unfold section_settings in Hin.
  repeat (apply elem_of_cons in Hin as [[= -> -> -> ->]|Hin]; [cbv zeta iota; by rewrite sections_at by done|]).
  by apply elem_of_nil in Hin.
Qed.

Lemma load_legacy_rsa leg c k key def :
  wf c -> (k, key, def) ∈ rsa_settings -> string_at k (load_legacy leg c) = getStr (section ($"rsa") leg) key def.
Proof.
  intros Hc Hin. rewrite load_legacy_string by done. unfold rsa_settings in Hin.
  repeat (apply elem_of_cons in Hin as [[= -> -> ->]|Hin]; [reflexivity|]). by apply elem_of_nil in Hin.
Qed.

(** The message of the day is in none of the tables of strings. *)
Lemma tables_no_motd c name key def :
  ~ ((MOTD_TEXT, key, def) ∈ rsa_settings) /\ ~ ((MOTD_TEXT, name, key, def) ∈ section_settings c).
Proof.
  split; intros Hin; repeat (apply elem_of_cons in Hin as [?|Hin]; [done|]); by apply elem_of_nil in Hin.
Qed.

(** What the "legacy" section and the others leave, before the message of the day. *)
Lemma load_legacy_settled configDir root leg c (c2 := load_legacy leg (sections root configDir c)) :
  wf c -> wf c2 /\
  string_at CONFIG_DIR c2 = configDir /\ string_at MOTD_TEXT c2 = [] /\ number_at MOTD_ID c2 = 1 /\
  number_at ENCRYPTION c2 = number_at ENCRYPTION c.
Proof.
  intros Hc. assert (wf (sections root configDir c)) as H1 by auto with config.
  destruct (legacy_motd_cleared leg _ H1) as [Ht Hid]. unfold c2. split_and!; [by apply load_legacy_wf| |done..|].
  - by rewrite load_legacy_string, load_strings_at, sections_at.
  - rewrite load_legacy_number, load_numbers_kept by done. apply sections_number.
Qed.

(** C32: what a configuration file sets.  Loading a JSON object with a "legacy" section
    succeeds, and every setting is accounted for.  The numbers, strings and switches of
    [number_settings], [string_settings] and [bool_settings] are the values the section
    gives under their keys, where these have the right type, and the defaults of the tables
    otherwise; so are the parts of the RSA key, in the object "rsa" of the section
    ([rsa_settings]), and what the sections "database", "auth" and "discord" say
    ([section_settings]; a token or a channel that is not given stays what it was).  The
    run file and the log ([argument_settings]) keep what was set before the load (on the
    command line), which wins over the file; DAEMONIZE, although it can be set there too,
    does not.  No section has a say in the rest: CONFIG_DIR is the directory of the file;
    MOTD_TEXT is the last message of the channel, and the fixed greeting where there is no
    answer, whatever "motdText" says; MOTD_ID is 2 for a message that is not empty and
    else 1; ENCRYPTION is left as it was, for the start sequence to set. *)
Theorem load_settings configDir text root leg c :
  wf c -> json_parse text = Some (Json.JObject root) ->
  Json.as_object (Json.member ($"legacy") root) = Some leg ->
  exists c', load configDir (Some text) c = (true, c') /\ wf c' /\ m_loaded c' = true /\
    (forall k key def, (k, key, def) ∈ number_settings -> getNumber (num k) c' = getNum leg key def) /\
    (forall k key def, (k, key, def) ∈ string_settings -> getString (str k) c' = getStr leg key def) /\
    (forall k key def, (k, key, def) ∈ bool_settings -> getBool (bln k) c' = getBool_ leg key def) /\
    (forall k key def, (k, key, def) ∈ argument_settings ->
       getString (str k) c' = match string_at k c with [] => getStr leg key def | s => s end) /\
    (forall k key def, (k, key, def) ∈ rsa_settings -> getString (str k) c' = getStr (section ($"rsa") leg) key def) /\
    (forall k name key def, (k, name, key, def) ∈ section_settings c ->
       getString (str k) c' = getStr (section name root) key def) /\
    getCoresUsed c' = match integers (default [] (Json.as_array (Json.member ($"coresUsed") leg))) with
                      | [] => [-1] | cores => cores end /\
    getString (str CONFIG_DIR) c' = configDir /\
    getString (str MOTD_TEXT) c' = default ($"Welcome to Wypas!") (motd_answer c') /\
    getNumber (num MOTD_ID) c' = match motd_answer c' with None | Some [] => 1 | Some _ => 2 end /\
    getNumber (num ENCRYPTION) c' = number_at ENCRYPTION c.
Proof.
  intros Hc Hp Hl. rewrite (load_loaded _ _ _ _ Hp), Hl.
  destruct (load_legacy_settled configDir root leg c Hc) as (H2 & Hdir & Ht & Hid & Henc).
  pose proof (load_legacy_sections root leg configDir c) as Hsec.
  pose proof (sections_argument root configDir c) as Harg.
  assert (wf (sections root configDir c)) as H1 by auto with config.
  generalize dependent (sections root configDir c). intros c1 H2 Hdir Ht Hid Henc Hsec Harg H1.
  pose proof (load_legacy_numbers leg c1) as Hn. pose proof (load_legacy_strings leg c1) as Hs.
  pose proof (load_legacy_bools leg c1) as Hb. pose proof (load_legacy_arguments leg c1) as Ha.
  pose proof (load_legacy_rsa leg c1) as Hrsa. pose proof (load_legacy_cores leg c1) as Hcores.
  generalize dependent (load_legacy leg c1). intros c2 H2 Hdir Ht Hid Henc Hsec Hn Hs Hb Ha Hrsa Hcores.
  pose proof (fun k1 k2 k3 => reloadMotd_settings c2 k1 k2 k3 H2) as Hset.
  destruct (reloadMotd_cleared c2 H2 Ht Hid) as (Hmt & Hmi & Hans).
  exists (reloadMotd (put_loaded true c2)). rewrite Hans.
  split; [reflexivity|]. split; [exact (reloadMotd_wf _ (put_loaded_wf _ _ H2))|].
  split; [exact (reloadMotd_loaded _ H2)|]. split_and!.
  - intros k key def Hin. rewrite <- (Hn k key def H1 Hin). apply (Hset CONFIG_DIR k DAEMONIZE); [done|].
    intros ->. by apply (tables_motd key [] [] def) in Hin.
  - intros k key def Hin. rewrite <- (Hs k key def H1 Hin). apply (Hset k NICE_LEVEL DAEMONIZE); [|done].
    intros ->. by apply (tables_motd key def [] 0) in Hin.
  - intros k key def Hin. rewrite <- (Hb k key def H1 Hin). by apply (Hset CONFIG_DIR NICE_LEVEL k).
  - intros k key def Hin. rewrite <- (Harg k key def Hc Hin), <- (Ha k key def H1 Hin).
    apply (Hset k NICE_LEVEL DAEMONIZE); [|done]. intros ->. by apply (tables_motd key [] def 0) in Hin.
  - intros k key def Hin. rewrite <- (Hrsa k key def H1 Hin). apply (Hset k NICE_LEVEL DAEMONIZE); [|done].
    intros ->. by apply (tables_no_motd c [] key def) in Hin.
  - intros k name key def Hin. rewrite <- (Hsec k name key def Hc Hin). apply (Hset k NICE_LEVEL DAEMONIZE); [|done].
    intros ->. by apply (tables_no_motd c name key def) in Hin.
  - unfold getCoresUsed. by rewrite reloadMotd_cores.
  - rewrite <- Hdir. by apply (Hset CONFIG_DIR NICE_LEVEL DAEMONIZE).
  - exact Hmt.
  - exact Hmi.
  - rewrite <- Henc. by apply (Hset CONFIG_DIR ENCRYPTION DAEMONIZE).
Qed.

End Load.

(** ** A configuration file *)

Definition example_legacy : list (cstring * Json.value) :=
  [($"loginTries", Json.JInt64 5); ($"daemonize", Json.JBool false); ($"runFile", Json.JString ($"x.pid"))].

Definition example_root : list (cstring * Json.value) :=
  [($"discord", Json.JObject [($"botToken", Json.JString ($"t")); ($"motdChannel", Json.JString ($"c"))]);
   ($"legacy", Json.JObject example_legacy)].

Definition example_parse (text : cstring) : option Json.value :=
  if cstring_eqb text ($"file") then Some (Json.JObject example_root)
  else if cstring_eqb text ($"empty") then Some (Json.JObject [])
  else if cstring_eqb text ($"answer") then
    Some (Json.JArray [Json.JObject [($"content", Json.JString ($"Hello"))]])
  else None.

Definition example_discord (token channel : cstring) : option (Z * cstring) := Some (200, $"answer").

Lemma load_settings_witness :
  let c' := (load example_parse example_discord ($".") (Some ($"file")) (setBool (bln DAEMONIZE) true new).2).2 in
  getNumber (num LOGIN_TRIES) c' = 5 /\ getString (str RSA_PUBLIC) c' = $"65537" /\ getString (str MOTD_TEXT) c' = $"Hello".
Proof.
  destruct (load_settings example_parse example_discord ($".") ($"file") example_root example_legacy
      (setBool (bln DAEMONIZE) true new).2)
    as (c' & E & _ & _ & Hn & _ & _ & _ & Hrsa & _ & _ & _ & Hm & _); [done|reflexivity|reflexivity|].
  rewrite E. cbn [snd]. rewrite (Hn LOGIN_TRIES ($"loginTries") 3) by apply list_elem_of_here.
  rewrite (Hrsa RSA_PUBLIC ($"public") ($"65537")) by (unfold rsa_settings; by repeat (apply list_elem_of_here || apply list_elem_of_further)).
  split; [reflexivity|]. split; [reflexivity|]. rewrite Hm.
  apply (f_equal snd) in E. cbn [snd] in E. rewrite <- E. vm_compute. reflexivity.
Defined.

Lemma load_without_legacy_witness :
  getString (str LISTEN_ADDR) (load example_parse example_discord ($".") (Some ($"empty")) new).2 = [].
Proof.
  destruct (load_without_legacy example_parse example_discord ($".") ($"empty") []) as (c' & E & _ & Hs);
    [reflexivity|reflexivity|].
  rewrite E. apply (Hs LISTEN_ADDR). unfold legacy_only. by repeat (apply list_elem_of_here || apply list_elem_of_further).
Defined.

Lemma load_motd_witness :
  getString (str MOTD_TEXT) (load example_parse example_discord ($".") (Some ($"file")) new).2 = $"Hello".
Proof.
  destruct (load_motd example_parse example_discord ($".") ($"file") example_root new new_wf) as (c' & E & Ht & _);
    [reflexivity|].
  rewrite E. cbn [snd]. rewrite Ht. reflexivity.
Defined.

End ConfigManager.
