(* ===== verification/WorldList.v ===== *)
(** * Worlds (src/io/worlds.h, src/io/worlds.cpp)

    The list of game worlds and its loader. *)
From S2P Require Import Prelude CString Definitions StdMap Json.

Module World.
Record t := mk { name : cstring; address : Z; ports : list Z }.

Definition new : t := mk ($"TheForgottenServer") LOCALHOST [].
End World.

Module Worlds.

(** [worldList]: the map owns its worlds. *)
Abbreviation worldMap := (StdMap.t Z World.t).

Section Load.
(** [boost::json::parse], [None] when it throws, and [inet_addr]. *)
Variable json_parse : cstring -> option Json.value.
Variable inet_addr : cstring -> Z.

(** One entry of the array; an entry that cannot be used is skipped. *)
Definition load_entry (entry : Json.value) (worldList : worldMap) : worldMap :=
  match entry with
  | Json.JObject obj =>
      match Json.as_int64 (Json.member ($"id") obj) with
      | None => worldList
      | Some id =>
          let id := u32 id in
          match StdMap.find id worldList with
          | Some _ => worldList
          | None =>
              let name := default ($"Server #" ++ dec id) (Json.as_string (Json.member ($"name") obj)) in
              let address := default ($"localhost") (Json.as_string (Json.member ($"address") obj)) in
              let ports := omap (fun p => i32 <$> Json.as_int64 (Some p))
                             (default [] (Json.as_array (Json.member ($"ports") obj))) in
              let ports := match ports with [] => [7172] | _ => ports end in
              StdMap.insert id (World.mk name (inet_addr address) ports) worldList
          end
      end
  | _ => worldList
  end.

(** [loadFromJson(configDir, verbose)]; [content] is the file, [None] when it cannot be
    opened. *)
Definition loadFromJson (content : option cstring) (worldList : worldMap) : bool * worldMap :=
  match content with
  | None => (false, worldList)
  | Some content =>
      match json_parse content with
      | None => (false, worldList)
      | Some (Json.JArray entries) => (true, foldl (fun m e => load_entry e m) worldList entries)
      | Some _ => (false, worldList)
      end
  end.

Definition getWorldById (id : Z) (worldList : worldMap) : option World.t := StdMap.find id worldList.

(** [getFirstWorld()], when it is not [getLastWorld()]. *)
Definition getFirstWorld (worldList : worldMap) : option World.t :=
  match worldList with [] => None | (_, w) :: _ => Some w end.

(** ** The list that is loaded *)

(** Sorted, with 32-bit keys, and every world has a port. *)
Record wf (worldList : worldMap) : Prop := {
  wf_sorted : StdMap.sorted worldList;
  wf_worlds : Forall (fun '(id, w) => 0 <= id < 2 ^ 32 /\ World.ports w <> [] /\
                Forall (fun p => - 2 ^ 31 <= p < 2 ^ 31) (World.ports w)) worldList
}.

Lemma load_entry_wf entry worldList : wf worldList -> wf (load_entry entry worldList).
Proof.
  intros [Hs Hw]. unfold load_entry. destruct entry as [| | | | | | |obj]; try done.
  destruct (Json.as_int64 _) as [id|]; [|done]. destruct (StdMap.find _ _); [done|].
  set (ports := omap _ _). split; [by apply StdMap.sorted_insert|].
  apply Forall_forall. intros kv [->|Hin]%StdMap.elem_insert.
  - split; [apply wrapu_range; lia|]. cbn.
    assert (Forall (fun p => - 2 ^ 31 <= p < 2 ^ 31) ports) as Hp.
    { apply Forall_forall. intros p Hp. unfold ports in Hp. apply list_elem_of_omap in Hp as (v & _ & Hv).
      destruct (Json.as_int64 (Some v)); [|done]. cbn in Hv. injection Hv as <-.
      by apply (wraps_range 32). }
    destruct ports; [split; [done|repeat constructor; lia]|done].
  - rewrite Forall_forall in Hw. by apply Hw.
Qed.

(** A loaded list serves.  Whatever the file holds, loading into a good list keeps it
    sorted by identifier, with identifiers of 32 bits, and with at least one port (a
    32-bit integer) for every world, so that drawing a port never indexes an empty
    vector; worlds already in the list are never replaced; and only a file that can be
    opened, parsed and is an array is accepted. *)
Theorem loadFromJson_wf content worldList :
  wf worldList ->
  let '(ok, loaded) := loadFromJson content worldList in
  wf loaded /\
  (forall id w, getWorldById id worldList = Some w -> getWorldById id loaded = Some w) /\
  (ok = true <-> exists c entries, content = Some c /\ json_parse c = Some (Json.JArray entries)) /\
  (ok = false -> loaded = worldList).
Proof.
  intros Hw. unfold loadFromJson.
  destruct content as [c|]; [|split_and!; try done; split; [done|by intros (?&?&?&?)]].
  destruct (json_parse c) as [v|] eqn:Ep; [|split_and!; try done; split; [done|by intros (?&?&[= <-]&?); congruence]].
  destruct v as [| | | | | |entries|]; try (split_and!; try done; split; [done|intros (?&?&[= <-]&?); congruence]).
  assert (wf (foldl (fun m e => load_entry e m) worldList entries) /\
    (forall id w, getWorldById id worldList = Some w ->
      getWorldById id (foldl (fun m e => load_entry e m) worldList entries) = Some w)) as [H1 H2].
  { clear Ep. revert worldList Hw. induction entries as [|e entries IH]; intros worldList Hw; cbn; [done|].
    destruct (IH _ (load_entry_wf e worldList Hw)) as [IH1 IH2]. split; [done|].
    intros id w Hf. apply IH2. unfold getWorldById, load_entry in *.
    destruct e as [| | | | | | |obj]; try done. destruct (Json.as_int64 _) as [id'|]; [|done].
    destruct (StdMap.find (u32 id') worldList) eqn:E; [done|].
    rewrite StdMap.find_insert_ne; [done|congruence]. }
  split_and!; try done. split; [eauto|done].
Qed.

End Load.

Lemma loadFromJson_wf_witness :
  wf (loadFromJson (fun _ => Some (Json.JArray [Json.JObject [($"id", Json.JInt64 (-1))]]))
        (fun _ => 0) (Some []) []).2.
Proof.
  apply (loadFromJson_wf (fun _ => Some (Json.JArray [Json.JObject [($"id", Json.JInt64 (-1))]]))
    (fun _ => 0) (Some []) []).
  split; [done|constructor].
Defined.

End Worlds.
