(* ===== verification/Accounts.v ===== *)
(** * Accounts and bans (src/io/io.h, src/io/io.cpp)

    The operations of [IO] over a database connection: loading and saving accounts with
    their characters, premium time, the cache of names, and bans. *)
From S2P Require Import Prelude Proc CString Definitions StdMap Tools Db WorldList.

Inductive Ban_t := BAN_NONE | BAN_IP | BAN_PLAYER | BAN_ACCOUNT | BAN_NOTATION.

Module Character.
Record t := mk {
  name : cstring;
  server : option World.t;       (* World*, NULL at first *)
  status : Z                     (* int8_t *)
}.
End Character.

Module Account.
Record t := mk {
  premiumDays : Z;               (* uint16_t *)
  warnings : Z;                  (* uint16_t *)
  number : Z;                    (* uint32_t *)
  lastDay : Z;                   (* uint32_t *)
  name : cstring;
  password : cstring;
  recoveryKey : cstring;
  salt : cstring;
  charList : StdMap.t cstring Character.t
}.

Definition new : t := mk 0 0 0 0 [] [] [] [] [].

Definition setPremium (days last : Z) (a : t) : t :=
  mk days (warnings a) (number a) last (name a) (password a) (recoveryKey a) (salt a) (charList a).
Definition setCharList (l : StdMap.t cstring Character.t) (a : t) : t :=
  mk (premiumDays a) (warnings a) (number a) (lastDay a) (name a) (password a) (recoveryKey a) (salt a) l.
End Account.

Module Ban.
Record t := mk {
  type : Ban_t;
  id : Z;                        (* uint32_t *)
  bannedBy : Z;                  (* uint32_t *)
  target : cstring;
  reason : cstring;
  banType : cstring;
  createdAt : cstring;
  expiresAt : cstring;
  active : bool
}.

Definition new : t := mk BAN_NONE 0 0 [] [] [] [] [] false.
End Ban.

Module IO.
Section IO.
Context {S : Type} `{!Database.Server S}.

(** The one object, with the connection of the thread that uses it. *)
Record t := mk {
  db : Database.t S;
  nameCacheMap : StdMap.t Z cstring
}.

(** What the operations read: the DSN, the clock in milliseconds and in seconds, the
    worlds, and GAMEMASTER_GROUP. *)
Record env := mkEnv {
  dsn : cstring;
  ms : Z;
  now : Z;
  worldList : StdMap.t Z World.t;
  gamemaster_group : Z           (* int64_t *)
}.

Abbreviation M := (proc t Empty_set).

Definition onDb {A} (f : Database.t S -> A * Database.t S) : M A :=
  fun io => let '(a, d) := f (db io) in Some (a, mk d (nameCacheMap io), []).

(** [Database::local()] of a thread that has a connection object. *)
Definition local (e : env) : M unit := onDb (fun d => (tt, Database.use (ms e) d)).
Definition storeQuery (e : env) (sql : cstring) : M (option Database.DBResult.t) := onDb (Database.storeQuery (dsn e) sql).
Definition query (e : env) (sql : cstring) : M bool := onDb (Database.query (dsn e) sql).
Definition escapeString (s : cstring) : M cstring := gets (fun io => Database.escapeString (Database.m_connected (db io)) s).

Definition getDataInt (key : cstring) (r : Database.DBResult.t) : M Z := lift (Database.DBResult.getDataInt key r).
Definition getDataString (key : cstring) (r : Database.DBResult.t) : M cstring := lift (Database.DBResult.getDataString key r).

(** [do body while(result->next())]; [n] is the number of rows after the current one. *)
Fixpoint do_while {A} (n : nat) (body : Database.DBResult.t -> A -> M A) (r : Database.DBResult.t) (a : A) : M A :=
  a ← body r a;
  match n with
  | O => mret a
  | Datatypes.S n =>
      let '(more, r) := Database.DBResult.next r in
      if more : bool then do_while n body r a else mret a
  end.

Definition rows_left (r : Database.DBResult.t) : nat :=
  length (Database.rows (Database.DBResult.m_result r)) - Database.DBResult.m_currentRow r.

Definition do_rows {A} (body : Database.DBResult.t -> A -> M A) (r : Database.DBResult.t) (a : A) : M A :=
  do_while (rows_left r) body r a.

(** ** Accounts *)

(** [std::max(0, std::min(GRATIS_PREMIUM, days))] *)
Definition premium_days (days : Z) : Z := Z.max 0 (Z.min GRATIS_PREMIUM days).

(** One row of the characters' query. *)
Definition add_character (e : env) (r : Database.DBResult.t) (charList : StdMap.t cstring Character.t) :
    M (StdMap.t cstring Character.t) :=
  name ← getDataString ($"name") r;
  group_id ← getDataInt ($"group_id") r;
  if gamemaster_group e <=? group_id then
    mret (foldl (fun cs '(hax, world) =>
            StdMap.insert (name ++ dec (u16 (Z.of_nat hax))) (Character.mk name (Some world) (-1)) cs)
          charList (imap pair (map snd (worldList e))))
  else
    match Worlds.getFirstWorld (worldList e) with
    | Some defaultWorld =>
        online ← getDataInt ($"online") r;
        mret (StdMap.insert name (Character.mk name (Some defaultWorld) (i8 online)) charList)
    | None => mret charList
    end.

(** [loadAccount(account, name)] *)
Definition loadAccount (e : env) (account : Account.t) (name : cstring) : M (bool * Account.t) :=
  _ ← local e;
  escaped ← escapeString name;
  result ← storeQuery e ($"SELECT `id`, `password`, `salt`, `premium_days`, `lastday`, `key`, `warnings` FROM `accounts` WHERE `name` = " ++ escaped ++ $" LIMIT 1");
  match result with
  | None => mret (false, account)
  | Some r =>
      number ← getDataInt ($"id") r;
      password ← getDataString ($"password") r;
      salt ← getDataString ($"salt") r;
      premiumDays ← getDataInt ($"premium_days") r;
      lastDay ← getDataInt ($"lastday") r;
      recoveryKey ← getDataString ($"key") r;
      warnings ← getDataInt ($"warnings") r;
      let account := Account.mk (premium_days premiumDays) (u16 warnings) (u32 number) (u32 lastDay)
                       name password recoveryKey salt (Account.charList account) in
      result ← storeQuery e ($"SELECT `name`, `group_id`, `online` FROM `players` WHERE `account_id` = " ++ dec (Account.number account) ++ $" AND `deleted` = 0");
      match result with
      | None => mret (true, account)
      | Some r =>
          charList ← do_rows (add_character e) r (Account.charList account);
          mret (true, Account.setCharList charList account)
      end
  end.

(** [loadAccount(accountId)] *)
Definition loadAccount_id (e : env) (accountId : Z) : M Account.t :=
  _ ← local e;
  result ← storeQuery e ($"SELECT `name`, `password`, `salt`, `premium_days`, `lastday`, `key`, `warnings` FROM `accounts` WHERE `id` = " ++ dec accountId ++ $" LIMIT 1");
  match result with
  | None => mret Account.new
  | Some r =>
      name ← getDataString ($"name") r;
      password ← getDataString ($"password") r;
      salt ← getDataString ($"salt") r;
      premiumDays ← getDataInt ($"premium_days") r;
      lastDay ← getDataInt ($"lastday") r;
      recoveryKey ← getDataString ($"key") r;
      warnings ← getDataInt ($"warnings") r;
      mret (Account.mk (premium_days premiumDays) (u16 warnings) accountId (u32 lastDay)
              name password recoveryKey salt [])
  end.

Definition saveAccount (e : env) (account : Account.t) : M bool :=
  _ ← local e;
  query e ($"UPDATE `accounts` SET `premium_days` = " ++ dec (Account.premiumDays account) ++
    $", `warnings` = " ++ dec (Account.warnings account) ++ $", `lastday` = " ++ dec (Account.lastDay account) ++
    $" WHERE `id` = " ++ dec (Account.number account) ++ $" LIMIT 1;").

(** [getNameByGuid(guid, name)]: the answer, and the name as it is left. *)
Definition getNameByGuid (e : env) (guid : Z) (name : cstring) : M (bool * cstring) :=
  cached ← gets (fun io => StdMap.find guid (nameCacheMap io));
  match cached with
  | Some name => mret (true, name)
  | None =>
      _ ← local e;
      result ← storeQuery e ($"SELECT `name` FROM `players` WHERE `id` = " ++ dec guid ++ $" AND `deleted` = 0 LIMIT 1");
      match result with
      | None => mret (false, name)
      | Some r =>
          name ← getDataString ($"name") r;
          _ ← modify (fun io => mk (db io) (StdMap.insert guid name (nameCacheMap io)));
          mret (true, name)
      end
  end.

(** ** Premium time *)

(** The account after the elapsed days, and whether it is to be saved. *)
Definition premium_update (now : Z) (account : Account.t) : bool * Account.t :=
  let lastDay := Account.lastDay account in
  let premiumDays := Account.premiumDays account in
  if (now <? lastDay) || (u64 (now - lastDay) <? 86400) then (false, account)
  else if (0 <? premiumDays) && (premiumDays <? u16 GRATIS_PREMIUM) then
    if lastDay =? 0 then (true, Account.setPremium premiumDays (u32 now) account)
    else
      let days := u32 (u64 (now - lastDay) / 86400) in
      if 0 <? days then
        if days <=? premiumDays
        then (true, Account.setPremium (u16 (premiumDays - days))
                      (u32 (u64 (now - u64 (now - lastDay) mod 86400))) account)
        else (true, Account.setPremium 0 0 account)
      else (false, account)
  else if negb (lastDay =? 0) then (true, Account.setPremium premiumDays 0 account)
  else (false, account).

(** [updatePremium(account)]; a failure to save is only logged. *)
Definition updatePremium (e : env) (account : Account.t) : M Account.t :=
  let '(save, account) := premium_update (now e) account in
  _ ← (if save : bool then saveAccount e account else mret true);
  mret account.

(** [updatePremium()], with the destructor of its transaction. *)
Definition updatePremium_all (e : env) : M bool :=
  _ ← local e;
  '(begun, state) ← onDb (fun d => let '(ok, st, d) := Database.transaction_begin (dsn e) Database.STATE_FRESH d in ((ok, st), d));
  '(ret, state) ←
    (if negb begun then mret (Some false, state)
     else
       result ← storeQuery e ($"SELECT `id` FROM `accounts` WHERE `lastday` <= " ++ dec (now e - 86400));
       match result with
       | None => mret (Some false, state)
       | Some r =>
           _ ← do_rows (fun r _ =>
             id ← getDataInt ($"id") r; account ← loadAccount_id e (u32 id);
             _ ← updatePremium e account; mret tt) r tt;
           onDb (fun d => let '(ok, st, d) := Database.transaction_commit state d in ((ok, st), d))
       end);
  ended ← gets (fun io => Database.transaction_end state (db io));
  d ← lift ended;
  _ ← modify (fun io => mk d (nameCacheMap io));
  lift ret.

(** ** Bans *)

Fixpoint search_rows (n : nat) (test : Database.DBResult.t -> M bool) (r : Database.DBResult.t) : M bool :=
  found ← test r;
  if found : bool then mret true
  else
    match n with
    | O => mret false
    | Datatypes.S n =>
        let '(more, r) := Database.DBResult.next r in
        if more : bool then search_rows n test r else mret false
    end.

Definition ip_bans_query : cstring :=
  $"SELECT `id`, `target`, `expires_at` FROM `bans` WHERE `ban_type` = 'ip' AND `active` = 1" ++
  $" AND (`expires_at` IS NULL OR `expires_at` > NOW())".

(** [isIpBanished(ip)]; the mask is not used. *)
Definition isIpBanished (e : env) (ip : Z) : M bool :=
  if ip =? 0 then mret false
  else
    let ipStr := Tools.convertIPAddress ip in
    _ ← local e;
    result ← storeQuery e ip_bans_query;
    match result with
    | None => mret false
    | Some r =>
        search_rows (rows_left r) (fun r =>
          target ← getDataString ($"target") r; mret (cstring_eqb target ipStr)) r
    end.

Definition checkBanishments (e : env) : M bool :=
  _ ← local e;
  query e ($"UPDATE `bans` SET `active` = 0 WHERE `active` = 1 AND `expires_at` IS NOT NULL AND `expires_at` <= NOW()").

Definition ban_condition (type : Ban_t) : cstring :=
  match type with
  | BAN_IP => $" AND `ban_type` = 'ip'"
  | BAN_PLAYER => $" AND `ban_type` = 'player'"
  | BAN_ACCOUNT => $" AND `ban_type` = 'account'"
  | _ => []
  end.

Definition ban_type_of (banType : cstring) (type : Ban_t) : Ban_t :=
  if cstring_eqb banType ($"ip") then BAN_IP
  else if cstring_eqb banType ($"player") then BAN_PLAYER
  else if cstring_eqb banType ($"account") then BAN_ACCOUNT
  else type.

(** [getBanishment(ban)]: the answer, and the ban as it is left. *)
Definition getBanishment (e : env) (ban : Ban.t) : M (bool * Ban.t) :=
  _ ← local e;
  target ← escapeString (Ban.target ban);
  result ← storeQuery e ($"SELECT * FROM `bans` WHERE `target` = " ++ target ++ ban_condition (Ban.type ban) ++
    $" AND `active` = 1 AND (`expires_at` IS NULL OR `expires_at` > NOW()) LIMIT 1");
  match result with
  | None => mret (false, ban)
  | Some r =>
      id ← getDataInt ($"id") r;
      banType ← getDataString ($"ban_type") r;
      target ← getDataString ($"target") r;
      expiresAt ← getDataString ($"expires_at") r;
      createdAt ← getDataString ($"created_at") r;
      bannedBy ← getDataInt ($"banned_by") r;
      reason ← getDataString ($"reason") r;
      active ← getDataInt ($"active") r;
      mret (true, Ban.mk (ban_type_of banType (Ban.type ban)) (u32 id) (u32 bannedBy) target reason
                    banType createdAt expiresAt (negb (active =? 0)))
  end.

(** ** Premium days *)

(** An account whose premium days are being counted down: it has days left and knows
    when it was last looked at, or has none left; neither lasts for ever. *)
Record counting (a : Account.t) : Prop := {
  counting_days : 0 <= Account.premiumDays a < GRATIS_PREMIUM;
  counting_last : 0 <= Account.lastDay a < 2 ^ 32;
  counting_from : Account.premiumDays a <> 0 -> Account.lastDay a <> 0
}.

(** The days left at a time. *)
Definition days_left (now : Z) (a : Account.t) : Z :=
  Z.max 0 (Account.premiumDays a - Z.max 0 (now - Account.lastDay a) / 86400).

Lemma premium_update_cases now a :
  counting a -> 0 <= now < 2 ^ 32 ->
  let p := Account.premiumDays a in let last := Account.lastDay a in let days := (now - last) / 86400 in
  (premium_update now a = (false, a) /\ (now < last \/ now - last < 86400 \/ p = 0 /\ last = 0)) \/
  (86400 <= now - last /\
   premium_update now a = (true, Account.setPremium (if days <=? p then p - days else 0)
     (if (days <=? p) && negb (p =? 0) then last + 86400 * days else 0) a)).
Proof.
  intros [Hp Hl Hf] Hn. unfold GRATIS_PREMIUM in *. unfold premium_update. cbv zeta.
  generalize dependent (Account.premiumDays a). intros p Hp Hf.
  generalize dependent (Account.lastDay a). intros last Hl Hf. set (days := (now - last) / 86400).
  destruct (Z.ltb_spec now last); cbn [orb]; [left; split; [done|lia]|].
  rewrite !(wrapu_small 64) by (Z.div_mod_to_equations; lia).
  destruct (Z.ltb_spec (now - last) 86400); [left; split; [done|lia]|].
  change (u16 GRATIS_PREMIUM) with 65535.
  destruct (Z.ltb_spec 0 p) as [Hp0|Hp0]; cbn [andb].
  - right. split; [lia|]. destruct (Z.ltb_spec p 65535); [|lia]. cbn [andb].
    destruct (Z.eqb_spec last 0); [lia|].
    assert (1 <= days < 2 ^ 32) as Hd by (unfold days; Z.div_mod_to_equations; lia).
    fold days. rewrite (wrapu_small 32 days) by lia. destruct (Z.ltb_spec 0 days); [|lia].
    destruct (Z.leb_spec days p); cbn [andb negb]; [|done].
    destruct (Z.eqb_spec p 0); [lia|]. cbn [negb].
    rewrite (wrapu_small 16) by lia. do 3 f_equal.
    rewrite wrapu_small; unfold days in *; Z.div_mod_to_equations; lia.
  - assert (p = 0) as Hz by lia. destruct (Z.eqb_spec last 0); cbn [negb]; [left; split; [done|lia]|].
    right. split; [lia|]. rewrite Hz.
    destruct (Z.leb_spec days 0); cbn [andb negb]; [|done].
    unfold days in *. Z.div_mod_to_equations. lia.
Qed.

Lemma premium_update_counting now a :
  counting a -> 0 <= now < 2 ^ 32 -> counting (premium_update now a).2.
Proof.
  intros Ha Hn. destruct (premium_update_cases now a Ha Hn) as [[-> _]|[Hd ->]]; [done|].
  destruct Ha as [Hp Hl Hf]. cbn. set (days := (now - Account.lastDay a) / 86400).
  assert (1 <= days /\ Account.lastDay a + 86400 * days <= now) by (unfold days; Z.div_mod_to_equations; lia).
  split; cbn; destruct (Z.leb_spec days (Account.premiumDays a)), (Z.eqb_spec (Account.premiumDays a) 0);
    cbn [andb negb]; lia.
Qed.

Lemma days_left_update t now a :
  counting a -> 0 <= t <= now -> now < 2 ^ 32 -> days_left now (premium_update t a).2 = days_left now a.
Proof.
  intros Ha Ht Hn. destruct (premium_update_cases t a Ha) as [[-> _]|[Hd ->]]; [lia|done|].
  destruct Ha as [Hp Hl Hf]. unfold days_left. cbn. set (days := (t - Account.lastDay a) / 86400).
  assert (1 <= days) by (unfold days; Z.div_mod_to_equations; lia).
  destruct (Z.leb_spec days (Account.premiumDays a)) as [Hle|Hle]; cbn [andb].
  - destruct (Z.eqb_spec (Account.premiumDays a) 0) as [Hz|Hz]; [lia|]. cbn [negb].
    assert (Account.lastDay a + 86400 * days <= t) by (unfold days; Z.div_mod_to_equations; lia).
    rewrite (Z.max_r 0 (now - (_ + _))), (Z.max_r 0 (now - Account.lastDay a)) by lia.
    replace (now - (Account.lastDay a + 86400 * days)) with (now - Account.lastDay a + (- days) * 86400) by lia.
    rewrite Z.div_add by lia. lia.
  - assert (days <= (now - Account.lastDay a) / 86400) by (apply Z.div_le_mono; lia).
    rewrite (Z.max_r 0 (now - Account.lastDay a)) by lia.
    assert (0 <= Z.max 0 (now - 0) / 86400) by (apply Z.div_pos; lia). lia.
Qed.

(** C29: premium days run out by the clock, however often they are looked at.  An account
    that is counted down and is updated any number of times, at any moments in order, has
    at the end the days it had less the whole days since its last day, and never fewer
    than none: no moment is counted twice, and none is skipped. *)
Theorem premium_days_elapsed a ts now :
  counting a -> Forall (fun t => 0 <= t <= now) ts -> now < 2 ^ 32 -> 0 <= now ->
  Account.premiumDays (premium_update now (foldl (fun a t => (premium_update t a).2) a ts)).2 =
    days_left now a.
Proof.
  intros Ha Hts Hn Hn0. revert a Ha. induction Hts as [|t ts Ht Hts IH]; intros a Ha; cbn [foldl].
  - destruct (premium_update_cases now a Ha) as [[-> Hc]|[Hd ->]]; [lia| |];
      destruct Ha as [Hp Hl Hf]; unfold days_left; cbn.
    + destruct (Z.le_gt_cases (Account.lastDay a) now); [|rewrite (Z.max_l 0 (now - _)) by lia; change (0 / 86400) with 0; lia].
      rewrite (Z.max_r 0 (now - _)) by lia. Z.div_mod_to_equations. lia.
    + rewrite (Z.max_r 0 (now - _)) by lia. destruct (Z.leb_spec ((now - Account.lastDay a) / 86400) (Account.premiumDays a)); lia.
  - rewrite IH; [|by apply premium_update_counting; [|lia]]. by apply days_left_update.
Qed.

(** ** Reading rows *)

Abbreviation dbres := Database.DBResult.t.

Definition at_row (i : nat) (r : dbres) : dbres :=
  Database.DBResult.mk (Database.DBResult.m_listNames r) (Database.DBResult.m_result r) i.

Lemma next_row r :
  Database.DBResult.next r =
    if decide (rows_left r = 0%nat) then (false, r)
    else (true, at_row (Datatypes.S (Database.DBResult.m_currentRow r)) r).
Proof.
  unfold Database.DBResult.next, rows_left. case_decide; destruct (Nat.ltb_spec (Database.DBResult.m_currentRow r)
    (length (Database.rows (Database.DBResult.m_result r)))); try lia; done.
Qed.

Lemma rows_left_next r i :
  Database.DBResult.m_currentRow r = i -> rows_left (at_row (Datatypes.S i) r) = pred (rows_left r).
Proof. unfold rows_left, at_row. cbn. lia. Qed.

(** A search whose test only reads finds a row exactly when there is one. *)
Lemma search_rows_exists (P : nat -> bool) test r io :
  (forall i, test (at_row i r) io = Some (P i, io, [])) ->
  search_rows (rows_left r) test r io =
    Some (existsb P (seq (Database.DBResult.m_currentRow r) (Datatypes.S (rows_left r))), io, []).
Proof.
  intros Ht. remember (rows_left r) as n eqn:En. revert r Ht En.
  induction n as [|n IH]; intros r Ht En; cbn [search_rows seq existsb];
    (assert (test r io = Some (P (Database.DBResult.m_currentRow r), io, [])) as Hr by (destruct r; apply Ht));
    unfold mbind, proc_bind; rewrite Hr; destruct (P (Database.DBResult.m_currentRow r)); cbn [orb]; try done.
  rewrite next_row, decide_False by lia. 
  specialize (IH (at_row (Datatypes.S (Database.DBResult.m_currentRow r)) r)). cbn [at_row Database.DBResult.m_currentRow] in IH.
  rewrite IH; [done|intros j; apply Ht|]. rewrite rows_left_next by done. lia.
Qed.

(** Every row is visited by a loop whose body succeeds and keeps a property. *)
Lemma do_rows_keeps {A} (Q : A -> Prop) (body : dbres -> A -> M A) r a io :
  (forall r' a io b io' out, body r' a io = Some (b, io', out) -> Q a -> Q b) ->
  Q a -> forall b io' out, do_rows body r a io = Some (b, io', out) -> Q b.
Proof.
  unfold do_rows. intros Hb. generalize (rows_left r). intros n. revert r a io.
  induction n as [|n IH]; intros r a io Ha b io' out; cbn [do_while]; unfold mbind, proc_bind;
    destruct (body r a io) as [[[a1 io1] o1]|] eqn:E; try done.
  - intros [= <- <- <-]. by eapply Hb.
  - destruct (Database.DBResult.next r) as [[] r'].
    + destruct (do_while n body r' a1 io1) as [[[a2 io2] o2]|] eqn:E2; [|done].
      intros [= <- <- <-]. eapply IH; [|exact E2]. by eapply Hb.
    + intros [= <- <- <-]. by eapply Hb.
Qed.

(** ** Bans *)

(** The answer of the server to the query for addresses: an identifier, an address and
    the end of the ban. *)
Definition ip_bans (bans : list (Database.field * Z * Database.field)) (id : Z) : Database.results :=
  Database.mkResults [$"id"; $"target"; $"expires_at"]
    (map (fun '(ban, address, ends) =>
       [ban; Database.FString (Tools.convertIPAddress address); ends]) bans) id.

Definition ban_address (bans : list (Database.field * Z * Database.field)) (i : nat) : cstring :=
  match i with
  | O => []
  | Datatypes.S i => match bans !! i with Some (_, address, _) => Tools.convertIPAddress address | None => [] end
  end.

Lemma ip_bans_target bans id i :
  Database.DBResult.getDataString ($"target") (at_row i (Database.DBResult.new (ip_bans bans id))) =
    Some (ban_address bans i).
Proof.
  assert (Database.DBResult.m_listNames (Database.DBResult.new (ip_bans bans id)) !! ($"target") = Some 1%nat) as Hn
    by reflexivity.
  unfold Database.DBResult.getDataString, Database.DBResult.cell. unfold at_row. cbn [Database.DBResult.m_listNames].
  rewrite Hn. cbn [Database.DBResult.m_currentRow Database.DBResult.m_result Database.DBResult.new].
  destruct i as [|i]; [done|]. cbn [Nat.eqb orb pred]. unfold ip_bans. cbn [Database.rows].
  rewrite length_map.
  destruct (Nat.ltb_spec (length bans) (Datatypes.S i)).
  - unfold ban_address. by rewrite (lookup_ge_None_2 bans) by lia.
  - unfold ban_address. rewrite list_lookup_fmap.
    destruct (bans !! i) as [[[ban address] ends]|] eqn:E; [done|]. apply lookup_ge_None in E. lia.
Qed.

Lemma ip_bans_found bans ip :
  0 <= ip < 2 ^ 32 -> Forall (fun b => 0 <= b.1.2 < 2 ^ 32) bans ->
  existsb (fun i => cstring_eqb (ban_address bans i) (Tools.convertIPAddress ip)) (seq 1 (length bans)) =
    bool_decide (ip ∈ map (fun b => b.1.2) bans).
Proof.
  intros Hip Hb. apply eq_true_iff_eq.
  rewrite existsb_exists, bool_decide_eq_true, list_elem_of_In, in_map_iff. split.
  - intros ([|i] & Hi%in_seq & E%cstring_eqb_eq); [lia|]. cbn in E.
    destruct (bans !! i) as [[[ban address] ends]|] eqn:El; [|apply lookup_ge_None in El; lia].
    exists (ban, address, ends). split; [|by eapply list_elem_of_In, list_elem_of_lookup_2].
    apply Tools.convertIPAddress_inj; [|done|done]. by eapply (Forall_lookup_1 _ _ _ _ Hb El).
  - intros ([[ban address] ends] & [= ->] & Hin). apply list_elem_of_In, list_elem_of_lookup in Hin as [i El].
    exists (Datatypes.S i). split; [apply in_seq; apply lookup_lt_Some in El; lia|].
    apply cstring_eqb_eq. cbn. by rewrite El.
Qed.

(** C30: an address is refused exactly when it is banned itself.  For a server that answers
    the query with the rows of its active bans, written as addresses are printed,
    isIpBanished says yes to an address when one of the rows is a ban of that address,
    wherever it stands, and no to every other address. *)
Theorem isIpBanished_exact e ip io bans id s' :
  0 < ip < 2 ^ 32 -> Forall (fun b => 0 <= b.1.2 < 2 ^ 32) bans ->
  Database.m_connected (db io) = true ->
  Database.server_execute ip_bans_query (Database.server (db io)) = (inl (ip_bans bans id), s') ->
  exists io', isIpBanished e ip io = Some (bool_decide (ip ∈ map (fun b => b.1.2) bans), io', []).
Proof.
  intros Hip Hb Hc Hs. unfold isIpBanished. destruct (Z.eqb_spec ip 0); [lia|].
  unfold local, storeQuery, onDb, mbind, proc_bind. cbn [db nameCacheMap].
  unfold Database.storeQuery, Database.execute. cbn [Database.m_connected Database.use Database.server]. rewrite Hc. cbn [negb].
  rewrite Hs. unfold Database.verifyResult. rewrite next_row.
  set (r := Database.DBResult.new (ip_bans bans id)).
  assert (rows_left r = length bans) as Hl by (unfold rows_left, r, ip_bans; cbn; rewrite length_map; lia).
  rewrite Hl. case_decide as Hz.
  { destruct bans; [|done]. eexists. by rewrite bool_decide_eq_false_2 by (by intros ?%elem_of_nil). }
  set (io1 := mk _ _).
  rewrite (search_rows_exists (fun i => cstring_eqb (ban_address bans i) (Tools.convertIPAddress ip))).
  2:{ intros i. unfold getDataString, mbind, proc_bind, lift.
      change (at_row i (at_row _ r)) with (at_row i r). unfold r. by rewrite ip_bans_target. }
  eexists. do 3 f_equal. rewrite rows_left_next by done. rewrite Hl. cbn [at_row Database.DBResult.m_currentRow].
  replace (Datatypes.S (pred (length bans))) with (length bans) by lia.
  apply ip_bans_found; [lia|done].
Qed.

(** ** Loaded accounts *)

(** A character of an account: its world is one of the list, its status fits. *)
Definition character_ok (e : env) (c : Character.t) : Prop :=
  (exists world, Character.server c = Some world /\ world ∈ map snd (worldList e)) /\
  - 2 ^ 7 <= Character.status c < 2 ^ 7.

(** The members of an account keep their types, and its characters are good. *)
Record account_ok (e : env) (a : Account.t) : Prop := {
  ok_premiumDays : 0 <= Account.premiumDays a < 2 ^ 16;
  ok_warnings : 0 <= Account.warnings a < 2 ^ 16;
  ok_number : 0 <= Account.number a < 2 ^ 32;
  ok_lastDay : 0 <= Account.lastDay a < 2 ^ 32;
  ok_charList : Forall (fun c => character_ok e c.2) (Account.charList a)
}.

Lemma new_account_ok e : account_ok e Account.new.
Proof. split; cbn; try lia. constructor. Qed.

Lemma insert_ok {K V} `{KeyOrder K} (P : V -> Prop) (k : K) v m :
  P v -> Forall (fun kv => P kv.2) m -> Forall (fun kv => P kv.2) (StdMap.insert k v m).
Proof.
  rewrite !Forall_forall. intros Hv Hm kv [->|Hin]%StdMap.elem_insert; [done|by apply Hm].
Qed.

Lemma getFirstWorld_elem worlds w : Worlds.getFirstWorld worlds = Some w -> w ∈ map snd worlds.
Proof. destruct worlds as [|[k w'] worlds]; cbn; [done|]. intros [= ->]. apply list_elem_of_here. Qed.

Lemma add_character_ok e r cs io cs' io' out :
  add_character e r cs io = Some (cs', io', out) ->
  Forall (fun c => character_ok e c.2) cs -> Forall (fun c => character_ok e c.2) cs'.
Proof.
  intros E Hcs. unfold add_character in E. proc_inv. destruct (_ <=? _).
  - proc_inv. assert (Forall (fun p => p.2 ∈ map snd (worldList e)) (imap pair (map snd (worldList e)))) as Hw.
    { apply Forall_forall. intros [i w] (j & _ & [= <- <-] & Hj)%elem_of_lookup_imap. by eapply list_elem_of_lookup_2. }
    revert Hw cs Hcs. generalize (imap pair (map snd (worldList e))). intros l Hl.
    induction Hl as [|[i w] l Hw Hl IH]; intros cs Hcs; cbn [foldl]; [done|].
    apply IH, insert_ok; [|done]. split; cbn; [by eauto|lia].
  - destruct (Worlds.getFirstWorld _) as [w|] eqn:Ew; proc_inv; [|done].
    apply insert_ok; [|done]. split; cbn; [eauto using getFirstWorld_elem|by apply (wraps_range 8)].
Qed.

(** The characters that a row of the players' query gives, by their keys: a game master
    is listed once for each world, with a number behind the name and no status; a player
    is in the first world. *)
Inductive listed (e : env) (r : dbres) : list (cstring * Character.t) -> Prop :=
| listed_gamemaster name group :
    Database.DBResult.getDataString ($"name") r = Some name ->
    Database.DBResult.getDataInt ($"group_id") r = Some group -> gamemaster_group e <= group ->
    listed e r (imap (fun hax world => (name ++ dec (u16 (Z.of_nat hax)), Character.mk name (Some world) (-1)))
                  (map snd (worldList e)))
| listed_player name group online key world worlds :
    Database.DBResult.getDataString ($"name") r = Some name ->
    Database.DBResult.getDataInt ($"group_id") r = Some group -> group < gamemaster_group e ->
    worldList e = (key, world) :: worlds -> Database.DBResult.getDataInt ($"online") r = Some online ->
    listed e r [(name, Character.mk name (Some world) (i8 online))]
| listed_nowhere name group :
    Database.DBResult.getDataString ($"name") r = Some name ->
    Database.DBResult.getDataInt ($"group_id") r = Some group -> group < gamemaster_group e ->
    worldList e = [] -> listed e r [].

Definition insert_all (entries cs : StdMap.t cstring Character.t) : StdMap.t cstring Character.t :=
  foldl (fun cs kv => StdMap.insert kv.1 kv.2 cs) cs entries.

Lemma insert_all_app entries entries' cs : insert_all (entries ++ entries') cs = insert_all entries' (insert_all entries cs).
Proof. apply foldl_app. Qed.

(** The values read from a row, in a computation that has ended. *)
Ltac read_inv :=
  unfold getDataString, getDataInt in *; proc_inv;
  repeat match goal with H : lift _ _ = Some _ |- _ => apply lift_inv in H as (H & -> & ->) end.

Lemma add_character_listed e r cs io cs' io' out : add_character e r cs io = Some (cs', io', out) ->
  io' = io /\ exists entries, listed e r entries /\ cs' = insert_all entries cs.
Proof.
  intros E. unfold add_character in E. read_inv. destruct (Z.leb_spec (gamemaster_group e) a0).
  - proc_inv. split; [done|]. eexists. split; [by eapply listed_gamemaster|].
    unfold insert_all.
    set (row := fun '(hax, world) => (a ++ dec (u16 (Z.of_nat hax)), Character.mk a (Some world) (-1))).
    transitivity (foldl (fun cs kv => StdMap.insert kv.1 kv.2 cs) cs (row <$> imap pair (map snd (worldList e))));
      [|by rewrite fmap_imap].
    rewrite foldl_fmap.
    generalize (imap pair (map snd (worldList e))). intros l. revert cs.
    by induction l as [|[i w] l IH]; intros cs; [|apply IH].
  - destruct (worldList e) as [|[k w] worlds] eqn:Ew; cbn [Worlds.getFirstWorld] in E; read_inv.
    + split; [done|]. exists []. split; [by eapply listed_nowhere|done].
    + split; [done|]. eexists. split; [by eapply listed_player|done].
Qed.

(** The rows from the current one to the last, in order, each once. *)
Lemma do_rows_listed e r cs io cs' io' out : do_rows (add_character e) r cs io = Some (cs', io', out) ->
  exists entries, Forall2 (fun i => listed e (at_row i r))
      (seq (Database.DBResult.m_currentRow r) (Datatypes.S (rows_left r))) entries /\
    cs' = insert_all (concat entries) cs.
Proof.
  unfold do_rows. remember (rows_left r) as n eqn:En. revert r cs io cs' io' out En.
  induction n as [|n IH]; intros r cs io cs' io' out En E; cbn [do_while seq] in *.
  - proc_inv. destruct (add_character_listed _ _ _ _ _ _ _ ltac:(eassumption)) as (-> & es & Hes & ->).
    exists [es]. cbn [concat]. rewrite app_nil_r. split; [|done]. repeat constructor. by destruct r.
  - proc_inv. destruct (add_character_listed _ _ _ _ _ _ _ ltac:(eassumption)) as (-> & es & Hes & ->).
    rewrite next_row, decide_False in * by lia.
    destruct (IH (at_row (Datatypes.S (Database.DBResult.m_currentRow r)) r) _ _ _ _ _ ltac:(rewrite rows_left_next; [lia|done]) ltac:(eassumption))
      as (ess & Hess & ->).
    exists (es :: ess). cbn [concat]. rewrite insert_all_app. split; [|done]. constructor; [by destruct r|done].
Qed.

(** An account is the row of the accounts' query: the number and the day cut to their
    members' widths, the premium days brought between 0 and 65535, not cut. *)
Record row_account (name : cstring) (r : dbres) (a : Account.t) : Prop := {
  row_number : exists n, Database.DBResult.getDataInt ($"id") r = Some n /\ Account.number a = n mod 2 ^ 32;
  row_name : Account.name a = name;
  row_password : Database.DBResult.getDataString ($"password") r = Some (Account.password a);
  row_salt : Database.DBResult.getDataString ($"salt") r = Some (Account.salt a);
  row_key : Database.DBResult.getDataString ($"key") r = Some (Account.recoveryKey a);
  row_premium : exists days, Database.DBResult.getDataInt ($"premium_days") r = Some days /\
    Account.premiumDays a = if days <? 0 then 0 else if 65535 <? days then 65535 else days;
  row_lastDay : exists n, Database.DBResult.getDataInt ($"lastday") r = Some n /\ Account.lastDay a = n mod 2 ^ 32;
  row_warnings : exists n, Database.DBResult.getDataInt ($"warnings") r = Some n /\ Account.warnings a = n mod 2 ^ 16
}.

Lemma row_account_mk name r number password salt days lastDay key warnings cs :
  Database.DBResult.getDataInt ($"id") r = Some number ->
  Database.DBResult.getDataString ($"password") r = Some password ->
  Database.DBResult.getDataString ($"salt") r = Some salt ->
  Database.DBResult.getDataInt ($"premium_days") r = Some days ->
  Database.DBResult.getDataInt ($"lastday") r = Some lastDay ->
  Database.DBResult.getDataString ($"key") r = Some key ->
  Database.DBResult.getDataInt ($"warnings") r = Some warnings ->
  row_account name r (Account.mk (premium_days days) (u16 warnings) (u32 number) (u32 lastDay) name password key salt cs).
Proof.
  intros. split; cbn; try done; try (by eexists). exists days. split; [done|].
  unfold premium_days, GRATIS_PREMIUM. zbool.
Qed.

Lemma loadAccount_members e name io loaded account io' out :
  loadAccount e Account.new name io = Some ((loaded, account), io', out) -> account_ok e account.
Proof.
  intros E. unfold loadAccount in E. proc_inv.
  destruct a1 as [r|]; proc_inv; [|apply new_account_ok].
  set (acc := Account.mk _ _ _ _ _ _ _ _ _) in *.
  assert (account_ok e acc) as Hacc.
  { unfold acc, premium_days, GRATIS_PREMIUM. split; cbn; try lia; try (apply wrapu_range; lia). constructor. }
  destruct a8 as [r'|]; proc_inv; [|done].
  destruct Hacc as [H1 H2 H3 H4 H5]. split; cbn; try done.
  eapply (do_rows_keeps (fun cs => Forall (fun c => character_ok e c.2) cs)); [|exact H5|eassumption].
  intros. by eapply add_character_ok.
Qed.

(** C31: what loadAccount leaves in a fresh account, whatever the database answers.  It is
    loaded exactly when the query for its name answers a row, and otherwise left as it was.
    Its members are those of the row, the premium days brought between 0 and 65535, not
    wrapped; its characters are those of all the rows of its players, in their order (a
    later one replaces an earlier one of the same key); and each has a world that is in
    the list of worlds, so that the client's list is never built through a NULL world. *)
Theorem loadAccount_ok e name io loaded account io' out :
  loadAccount e Account.new name io = Some ((loaded, account), io', out) ->
  account_ok e account /\
  exists io1 result io2, local e io = Some (tt, io1, []) /\
    storeQuery e ($"SELECT `id`, `password`, `salt`, `premium_days`, `lastday`, `key`, `warnings` FROM `accounts` WHERE `name` = " ++
      Database.escapeString (Database.m_connected (db io1)) name ++ $" LIMIT 1") io1 = Some (result, io2, []) /\
    match result with
    | None => loaded = false /\ account = Account.new
    | Some r => loaded = true /\ row_account name r account /\
        exists players io3, storeQuery e ($"SELECT `name`, `group_id`, `online` FROM `players` WHERE `account_id` = " ++
          dec (Account.number account) ++ $" AND `deleted` = 0") io2 = Some (players, io3, []) /\
        match players with
        | None => Account.charList account = []
        | Some r => exists entries, Forall2 (fun i => listed e (at_row i r))
              (seq (Database.DBResult.m_currentRow r) (Datatypes.S (rows_left r))) entries /\
            Account.charList account = insert_all (concat entries) []
        end
    end.
Proof.
  intros E. split; [by eapply loadAccount_members|]. unfold loadAccount, escapeString in E. read_inv.
  match goal with Hl : local _ _ = Some (?u, ?x, ?o), Hs : storeQuery _ _ ?x = Some (?r, ?y, ?o') |- _ =>
    destruct u, o as [|[]], o' as [|[]]; exists x, r, y; split_and!; [done|done|]; destruct r as [r|]; read_inv; [|done] end.
  destruct o6 as [|[]], a7 as [r'|]; read_inv;
    (split; [done|]; split; [by apply row_account_mk|]); (eexists _, _; split; [done|]); [|done].
  match goal with Hr : do_rows _ _ _ _ = Some _ |- _ => exact (do_rows_listed _ _ _ _ _ _ _ Hr) end.
Qed.

End IO.
Arguments t : clear implicits.

(** ** A small database *)

Definition example_account_rows : Database.results :=
  Database.mkResults [$"id"; $"password"; $"premium_days"; $"name"; $"group_id"; $"online"]
    [[Database.FInt64 7; Database.FString ($"secret"); Database.FInt64 70000; Database.FString ($"Ann");
      Database.FInt64 1; Database.FInt64 1]] 0.

Definition example_bans : list (Database.field * Z * Database.field) :=
  [(Database.FInt64 1, 0x0100007F, Database.FNull); (Database.FInt64 2, 0x0200000A, Database.FNull)].

(** It answers the query for addresses with two bans, and every other statement with
    one row. *)
#[local] Instance example_server : Database.Server unit := {
  server_connect _ s := (true, s);
  server_execute sql s :=
    (inl (if cstring_eqb sql ip_bans_query then ip_bans example_bans 0 else example_account_rows), s)
}.

Definition example_env : env :=
  mkEnv ($"mysql://u@h/d") 0 1000000 [(1, World.mk ($"W") LOCALHOST [7172])] 4.

Definition example_io : t unit :=
  mk (Database.local (dsn example_env) 0 tt None) [].

Lemma premium_days_elapsed_witness :
  Account.premiumDays (premium_update 1000000
    (foldl (fun a t => (premium_update t a).2) (Account.setPremium 10 100000 Account.new) [200000; 300000; 900000])).2 = 0.
Proof.
  rewrite premium_days_elapsed; [reflexivity| | |reflexivity|done].
  - split; cbn; unfold GRATIS_PREMIUM; lia.
  - repeat constructor; lia.
Defined.

Lemma isIpBanished_exact_witness :
  exists io', isIpBanished example_env 0x0200000A example_io = Some (true, io', []).
Proof.
  destruct (isIpBanished_exact example_env 0x0200000A example_io example_bans 0 tt) as [io' E].
  - lia.
  - repeat constructor; cbn; lia.
  - reflexivity.
  - reflexivity.
  - exists io'. exact E.
Defined.

Lemma loadAccount_ok_witness :
  exists account, account_ok example_env account /\ Account.premiumDays account = GRATIS_PREMIUM.
Proof.
  destruct (loadAccount example_env Account.new ($"ann") example_io) as [[[[loaded account] io'] out]|] eqn:E;
    [|by vm_compute in E].
  exists account. split; [by eapply loadAccount_ok|]. vm_compute in E. by injection E as <- <- <- <-.
Defined.

End IO.
