(* ===== verification/AccountLaws.v ===== *)
(** * The account operations never fail (over any lawful database server)

    What the getters of a result need, row after row, and what the operations of [IO]
    answer when every row has a field for every column. *)
From S2P Require Import Prelude Proc CString Definitions StdMap Tools Db WorldList Accounts.

Module AccountLaws.

(** ** Results *)

Definition field_bytes (f : Database.field) : Prop :=
  match f with Database.FString s | Database.FBlob s => bytes_ok s | _ => True end.

(** Every row has a field for every column; strings are made of bytes. *)
Definition results_ok (r : Database.results) : Prop :=
  Forall (fun row => length row = length (Database.meta r) /\ Forall field_bytes row) (Database.rows r).

(** What Boost.MySQL promises of the results of a statement. *)
Class LawfulServer (DB : Type) `{!Database.Server DB} : Prop :=
  server_results sql s r s' : Database.server_execute sql s = (inl r, s') -> results_ok r.

Record dbres_ok (r : Database.DBResult.t) : Prop := {
  dbres_results : results_ok (Database.DBResult.m_result r);
  dbres_names : forall s col, Database.DBResult.m_listNames r !! s = Some col ->
    (col < length (Database.meta (Database.DBResult.m_result r)))%nat
}.

Lemma new_names_ok (names : list (nat * cstring)) (m : gmap cstring nat) n s col :
  Forall (fun p => (p.1 < n)%nat) names -> (forall s col, m !! s = Some col -> (col < n)%nat) ->
  foldl (fun m '(i, name) => <[name := i]> m) m names !! s = Some col -> (col < n)%nat.
Proof.
  intros Hn. revert m. induction Hn as [|[i name] names Hi Hn IH]; intros m Hm; cbn [foldl]; [by apply Hm|].
  apply IH. intros s' col'. rewrite lookup_insert. case_decide; [by intros [= <-]|apply Hm].
Qed.

Lemma new_ok r : results_ok r -> dbres_ok (Database.DBResult.new r).
Proof.
  intros Hr. split; [done|]. intros s col. cbn. apply new_names_ok; [|by intros ? ?; rewrite lookup_empty].
  apply Forall_forall. intros [i name] (j & n & [= <- <-] & Hj)%elem_of_lookup_imap. cbn. by eapply lookup_lt_Some.
Qed.

Lemma next_ok r b r' : dbres_ok r -> Database.DBResult.next r = (b, r') -> dbres_ok r'.
Proof. intros [H1 H2]. unfold Database.DBResult.next. destruct (_ <? _)%nat; intros [= <- <-]; by split. Qed.

Lemma verify_ok r r' : dbres_ok r -> Database.verifyResult r = Some r' -> dbres_ok r'.
Proof.
  intros Hr. unfold Database.verifyResult. destruct (Database.DBResult.next r) as [[] r1] eqn:E; [|done].
  intros [= <-]. by eapply next_ok.
Qed.

Lemma cell_ok s r :
  dbres_ok r -> exists f, Database.DBResult.cell s r = Some f /\ forall f', f = Some f' -> field_bytes f'.
Proof.
  intros [H1 H2]. unfold Database.DBResult.cell.
  destruct (Database.DBResult.m_listNames r !! s) as [col|] eqn:E; [|by exists None].
  destruct (Nat.eqb_spec (Database.DBResult.m_currentRow r) 0); [by exists None|].
  destruct (Nat.ltb_spec (length (Database.rows (Database.DBResult.m_result r))) (Database.DBResult.m_currentRow r));
    [by exists None|]. cbn [orb].
  destruct (lookup_lt_is_Some_2 (Database.rows (Database.DBResult.m_result r)) (pred (Database.DBResult.m_currentRow r)))
    as [row Hrow]; [lia|].
  destruct (Forall_lookup_1 _ _ _ _ H1 Hrow) as [Hl Hf].
  destruct (lookup_lt_is_Some_2 row col) as [f Hcol]; [rewrite Hl; by eapply H2|].
  rewrite Hrow. cbn. rewrite Hcol. cbn. exists (Some f). split; [done|]. intros f' [= <-].
  by eapply Forall_lookup_1.
Qed.

Lemma getDataInt_ok s r : dbres_ok r -> exists z, Database.DBResult.getDataInt s r = Some z /\ - 2 ^ 31 <= z < 2 ^ 31.
Proof.
  intros Hr. unfold Database.DBResult.getDataInt. destruct (cell_ok s r Hr) as (f & -> & _). cbn.
  eexists. split; [done|]. unfold atoi. destruct f as [[]|]; try lia; by apply (wraps_range 32).
Qed.

Lemma getDataString_ok s r : dbres_ok r -> exists t, Database.DBResult.getDataString s r = Some t /\ bytes_ok t.
Proof.
  intros Hr. unfold Database.DBResult.getDataString. destruct (cell_ok s r Hr) as (f & -> & Hf). cbn.
  eexists. split; [done|]. destruct f as [f|]; [|constructor]. specialize (Hf f eq_refl).
  destruct f; try done; try apply dec_bytes_ok; constructor.
Qed.

(** ** Operations that always answer *)

Section Total.
Context {DB : Type} `{!Database.Server DB} `{!LawfulServer DB}.

(** The names in the cache are strings. *)
Definition io_ok (io : IO.t DB) : Prop := Forall (fun kv => bytes_ok kv.2) (IO.nameCacheMap io).

Definition answers {A} (m : proc (IO.t DB) Empty_set A) (P : A -> Prop) : Prop :=
  forall io, io_ok io -> exists a io', m io = Some (a, io', []) /\ P a /\ io_ok io'.

Lemma answers_ret {A} (a : A) (P : A -> Prop) : P a -> answers (mret a) P.
Proof. intros HP io Hio. by exists a, io. Qed.

Lemma answers_bind {A B} (m : proc (IO.t DB) Empty_set A) (k : A -> proc (IO.t DB) Empty_set B) P Q :
  answers m P -> (forall a, P a -> answers (k a) Q) -> answers (m ≫= k) Q.
Proof.
  intros Hm Hk io Hio. destruct (Hm io Hio) as (a & io1 & E1 & Ha & Hio1).
  destruct (Hk a Ha io1 Hio1) as (b & io2 & E2 & Hb & Hio2).
  exists b, io2. unfold mbind, proc_bind. by rewrite E1, E2.
Qed.

Lemma answers_mono {A} (m : proc (IO.t DB) Empty_set A) (P Q : A -> Prop) :
  answers m P -> (forall a, P a -> Q a) -> answers m Q.
Proof. intros Hm HPQ io Hio. destruct (Hm io Hio) as (a & io' & E & Ha & Hio'). eauto 7. Qed.

Lemma answers_onDb {A} (f : Database.t DB -> A * Database.t DB) (P : A -> Prop) :
  (forall d, P (f d).1) -> answers (IO.onDb f) P.
Proof. intros Hf io Hio. unfold IO.onDb. specialize (Hf (IO.db io)). destruct (f (IO.db io)) as [a d]. eauto. Qed.

Lemma answers_gets {A} (f : IO.t DB -> A) (P : A -> Prop) :
  (forall io, io_ok io -> P (f io)) -> answers (gets f) P.
Proof. intros Hf io Hio. exists (f io), io. auto. Qed.

Lemma answers_modify (f : IO.t DB -> IO.t DB) : (forall io, io_ok io -> io_ok (f io)) -> answers (modify f) (fun _ => True).
Proof. intros Hf io Hio. exists tt, (f io). auto. Qed.

Lemma answers_local e : answers (IO.local e) (fun _ => True).
Proof. by apply answers_onDb. Qed.

Lemma answers_query e sql : answers (IO.query e sql) (fun _ => True).
Proof. by apply answers_onDb. Qed.

Lemma answers_escapeString s : answers (IO.escapeString s) (fun _ => True).
Proof. by apply answers_gets. Qed.

Lemma execute_ok sql (d d' : Database.t DB) r : Database.execute sql d = (inl r, d') -> results_ok r.
Proof.
  unfold Database.execute. destruct (Database.server_execute sql (Database.server d)) as [[r0|] s] eqn:E; [|done].
  intros [= <- <-]. by eapply server_results.
Qed.

Lemma answers_storeQuery e sql : answers (IO.storeQuery e sql) (fun o => forall r, o = Some r -> dbres_ok r).
Proof.
  apply answers_onDb. intros d r. unfold Database.storeQuery. destruct (negb _); [done|].
  destruct (Database.execute sql d) as [[r0|] d0] eqn:E; cbn [fst].
  - intros Hr. eapply verify_ok; [|exact Hr]. by eapply new_ok, execute_ok.
  - unfold Database.reconnectAndRetry. destruct (Database.connect _ d0) as [[] d1]; cbn; [|done].
    destruct (Database.execute sql d1) as [[r0|] d2] eqn:E2; cbn; [|done].
    intros Hr. eapply verify_ok; [|exact Hr]. by eapply new_ok, execute_ok.
Qed.

Lemma answers_getDataInt k r : dbres_ok r -> answers (IO.getDataInt k r) (fun z => - 2 ^ 31 <= z < 2 ^ 31).
Proof. intros Hr io Hio. destruct (getDataInt_ok k r Hr) as (z & E & Hz). unfold IO.getDataInt, lift. rewrite E. cbn. eauto 6. Qed.

Lemma answers_getDataString k r : dbres_ok r -> answers (IO.getDataString k r) (fun s => bytes_ok s).
Proof. intros Hr io Hio. destruct (getDataString_ok k r Hr) as (s & E & Hs). unfold IO.getDataString, lift. rewrite E. cbn. eauto 6. Qed.

Lemma answers_do_rows {A} (I : A -> Prop) (body : Database.DBResult.t -> A -> proc (IO.t DB) Empty_set A) r a :
  (forall r a, dbres_ok r -> I a -> answers (body r a) I) -> dbres_ok r -> I a -> answers (IO.do_rows body r a) I.
Proof.
  intros Hb. unfold IO.do_rows. generalize (IO.rows_left r). intros n. revert r a.
  induction n as [|n IH]; intros r a Hr Ha; cbn [IO.do_while]; (eapply answers_bind; [by apply Hb|]); intros a' Ha'.
  - by apply answers_ret.
  - destruct (Database.DBResult.next r) as [[] r'] eqn:E; [|by apply answers_ret].
    apply IH; [|done]. by eapply next_ok.
Qed.

Lemma answers_search_rows test r :
  (forall r, dbres_ok r -> answers (test r) (fun _ => True)) -> dbres_ok r ->
  answers (IO.search_rows (IO.rows_left r) test r) (fun _ => True).
Proof.
  intros Ht. generalize (IO.rows_left r). intros n. revert r.
  induction n as [|n IH]; intros r Hr; cbn [IO.search_rows]; (eapply answers_bind; [by apply Ht|]); intros [] _;
    try by apply answers_ret.
  destruct (Database.DBResult.next r) as [[] r'] eqn:E; [|by apply answers_ret]. apply IH. by eapply next_ok.
Qed.

End Total.

(** The next operation, which always answers. *)
Ltac answers_op :=
  first [apply answers_local | apply answers_query | apply answers_escapeString | apply answers_storeQuery
    | apply answers_getDataInt; by auto | apply answers_getDataString; by auto].
Ltac answers_next x := eapply answers_bind; [answers_op|cbn beta; intros x].
Tactic Notation "answers_next" simple_intropattern(x) simple_intropattern(H) :=
  eapply answers_bind; [answers_op|cbn beta; intros x H].

Section Operations.
Context {DB : Type} `{!Database.Server DB} `{!LawfulServer DB}.

Lemma checkBanishments_answers e : answers (DB := DB) (IO.checkBanishments e) (fun _ => True).
Proof. unfold IO.checkBanishments. answers_next ? ?. answers_op. Qed.

Lemma isIpBanished_answers e ip : answers (DB := DB) (IO.isIpBanished e ip) (fun _ => True).
Proof.
  unfold IO.isIpBanished. destruct (ip =? 0); [by apply answers_ret|].
  answers_next ? ?. answers_next [r|] Hr; [|by apply answers_ret]. apply answers_search_rows; [|by auto].
  intros r' Hr'. answers_next ? ?. by apply answers_ret.
Qed.

(** A character as it is loaded: its world is one of the list, its name is a string. *)
Definition character_good (e : IO.env) (c : Character.t) : Prop :=
  IO.character_ok e c /\ bytes_ok (Character.name c).

Definition loaded_ok (e : IO.env) (a : Account.t) : Prop :=
  Forall (fun c => character_good e c.2) (Account.charList a).

Lemma hax_good e name (ws : list (nat * World.t)) cs :
  bytes_ok name -> Forall (fun p => p.2 ∈ map snd (IO.worldList e)) ws -> Forall (fun c => character_good e c.2) cs ->
  Forall (fun c => character_good e c.2)
    (foldl (fun cs '(hax, world) => StdMap.insert (name ++ dec (u16 (Z.of_nat hax))) (Character.mk name (Some world) (-1)) cs) cs ws).
Proof.
  intros Hn Hws. revert cs. induction Hws as [|[i w] ws Hw Hws IH]; intros cs Hcs; cbn [foldl]; [done|].
  apply IH, (IO.insert_ok (character_good e)); [|done]. split; [|done]. split; cbn; [by eauto|lia].
Qed.

Lemma add_character_answers e r cs :
  dbres_ok r -> Forall (fun c => character_good e c.2) cs ->
  answers (DB := DB) (IO.add_character e r cs) (Forall (fun c => character_good e c.2)).
Proof.
  intros Hr Hcs. unfold IO.add_character. answers_next nm Hnm. answers_next group Hgroup. destruct (_ <=? _).
  - apply answers_ret, hax_good; [done| |done].
    apply Forall_forall. intros [i w] (j & _ & [= <- <-] & Hj)%elem_of_lookup_imap. by eapply list_elem_of_lookup_2.
  - destruct (Worlds.getFirstWorld _) as [w|] eqn:Ew; [|by apply answers_ret].
    answers_next online Honline. apply answers_ret.
    apply (IO.insert_ok (character_good e)); [|done]. split; [|done]. split; cbn; [|by apply (wraps_range 8)].
    eauto using IO.getFirstWorld_elem.
Qed.

Lemma loadAccount_answers e name :
  answers (DB := DB) (IO.loadAccount e Account.new name) (fun p => loaded_ok e p.2).
Proof.
  unfold IO.loadAccount. answers_next ? ?. answers_next ? ?. answers_next [r|] Hr; [|apply answers_ret; constructor].
  specialize (Hr r eq_refl). do 7 answers_next ? ?. answers_next [r'|] Hr'; [|apply answers_ret; constructor].
  eapply answers_bind; [apply (answers_do_rows (Forall (fun c => character_good e c.2)))|].
  - intros r0 cs Hr0 Hcs. by apply add_character_answers.
  - by apply Hr'.
  - constructor.
  - intros cs Hcs. by apply answers_ret.
Qed.

Lemma saveAccount_answers e account : answers (DB := DB) (IO.saveAccount e account) (fun _ => True).
Proof. unfold IO.saveAccount. answers_next ? ?. answers_op. Qed.

Lemma updatePremium_answers e account :
  answers (DB := DB) (IO.updatePremium e account)
    (fun a => Account.number a = Account.number account /\ Account.charList a = Account.charList account).
Proof.
  unfold IO.updatePremium.
  assert (Account.number (IO.premium_update (IO.now e) account).2 = Account.number account /\
    Account.charList (IO.premium_update (IO.now e) account).2 = Account.charList account) as Hkeep.
  { unfold IO.premium_update. by repeat case_match. }
  destruct (IO.premium_update (IO.now e) account) as [save a].
  eapply (answers_bind _ _ (fun _ => True)).
  - destruct save; [apply saveAccount_answers|by apply answers_ret].
  - intros _ _. by apply answers_ret.
Qed.

Definition ban_strings (b : Ban.t) : Prop :=
  bytes_ok (Ban.reason b) /\ bytes_ok (Ban.createdAt b) /\ bytes_ok (Ban.expiresAt b).

Lemma getBanishment_answers e ban :
  ban_strings ban -> answers (DB := DB) (IO.getBanishment e ban) (fun p => ban_strings p.2).
Proof.
  intros Hb. unfold IO.getBanishment. do 2 answers_next ? ?. answers_next [r|] Hr; [|by apply answers_ret].
  specialize (Hr r eq_refl). do 3 answers_next ? ?. answers_next ex Hex. answers_next cr Hcr. answers_next ? ?.
  answers_next re Hre. answers_next ? ?. by apply answers_ret.
Qed.

Lemma find_ok {V} (P : V -> Prop) (k : Z) (m : StdMap.t Z V) v :
  Forall (fun kv => P kv.2) m -> StdMap.find k m = Some v -> P v.
Proof.
  induction 1 as [|[k' v'] m Hv Hm IH]; cbn; [done|]. case_match; [by intros [= <-]|done].
Qed.

Lemma getNameByGuid_answers e guid name :
  bytes_ok name -> answers (DB := DB) (IO.getNameByGuid e guid name) (fun p => bytes_ok p.2).
Proof.
  intros Hn. unfold IO.getNameByGuid.
  eapply (answers_bind _ _ (fun o => forall n, o = Some n -> bytes_ok n)).
  { apply answers_gets. intros io Hio n Hf. by eapply find_ok. }
  intros [n|] Hc; [apply answers_ret; by apply Hc|].
  answers_next ? ?. answers_next [r|] Hr; [|by apply answers_ret].
  specialize (Hr r eq_refl). answers_next nm Hnm.
  eapply answers_bind; [apply answers_modify|intros _ _; by apply answers_ret].
  intros io Hio. unfold io_ok in *. cbn. by apply (IO.insert_ok (fun s => bytes_ok s)).
Qed.

End Operations.
End AccountLaws.
