(* ===== verification/Login.v ===== *)
(** * The login protocol (src/protocol/protocollogin.h, src/protocol/protocollogin.cpp)

    The handlers of [ProtocolLogin] over the components they use: the account operations
    and the database, the connection manager, the configuration, the worlds and the pool
    of output messages. *)
From S2P Require Import Prelude Proc CString Definitions StdMap NetMessage OutMessage Proto Pool Config WorldList Tools Db Accounts ConnMgr.

Module ProtocolLogin.

Definition protocolId := 1.
Definition isSingleSocket := false.
Definition hasChecksum := true.
Definition protocolName : cstring := $"login protocol".

(** The constructor. *)
Definition new (connection : option nat) : Protocol.t := Protocol.enableChecksum (Protocol.new connection).

(** The calls [put<char>(v)], [put<uint16_t>(v)], [put<uint32_t>(v)], [putString(s)]. *)
Abbreviation char v := (NetworkMessage.FNum 1 v).
Abbreviation uint16 v := (NetworkMessage.FNum 2 v).
Abbreviation uint32 v := (NetworkMessage.FNum 4 v).
Abbreviation string s := (NetworkMessage.FStr s).

Section Login.
Context {DB : Type} `{!Database.Server DB}.
Variables MD5 SHA1 SHA256 SHA512 : list Z -> list Z.
Variable RSA_private_decrypt : list Z -> option (list Z).

(** What the handlers read: the clocks, the configuration, the worlds, the address of each
    connection, the memory of new messages, the random numbers in the order they are
    drawn, and what the connections do with the messages they are sent. *)
Record env := mkEnv {
  ms : Z;
  now : Z;
  config : ConfigManager.t;
  worldList : StdMap.t Z World.t;
  remote_ip : nat -> Z;
  memory : list Z;
  rand : nat -> Z;
  how : nat -> nat -> OutputMessagePool.sending
}.

Record state := mk {
  io : IO.t DB;
  manager : ConnectionManager.t;
  pool : OutputMessagePool.state;
  drawn : nat                      (* the random numbers drawn so far *)
}.

Inductive request :=
| Pool (r : OutputMessagePool.request)
| Connection_close (connection : nat)
| AddTask_delegate (protocol : nat) (name password : cstring) (clientIp version : Z).

Abbreviation M := (proc state request).

Definition setIo (x : IO.t DB) (s : state) : state := mk x (manager s) (pool s) (drawn s).
Definition setPool (x : OutputMessagePool.state) (s : state) : state := mk (io s) (manager s) x (drawn s).
Definition setManager (f : ConnectionManager.t -> ConnectionManager.t) (s : state) : state :=
  mk (io s) (f (manager s)) (pool s) (drawn s).

(** A component's operation on its part of the state. *)
Definition onIO {A} (m : proc (IO.t DB) Empty_set A) : M A := fun s =>
  '(a, x, _) ← m (io s); Some (a, setIo x s, []).
Definition onPool {A} (m : proc OutputMessagePool.state OutputMessagePool.request A) : M A := fun s =>
  '(a, x, out) ← m (pool s); Some (a, setPool x s, map Pool out).

(** ** The settings read *)

Definition str (k : ConfigManager.string_config_t) (e : env) : cstring := ConfigManager.getString (ConfigManager.str k) (config e).
Definition num (k : ConfigManager.number_config_t) (e : env) : Z := ConfigManager.getNumber (ConfigManager.num k) (config e).
Definition bln (k : ConfigManager.bool_config_t) (e : env) : bool := ConfigManager.getBool (ConfigManager.bln k) (config e).

Definition io_env (e : env) : IO.env :=
  IO.mkEnv (str ConfigManager.DATABASE_DSN e) (ms e) (now e) (worldList e) (num ConfigManager.GAMEMASTER_GROUP e).
Definition manager_config (e : env) : ConnectionManager.config :=
  ConnectionManager.mkConfig (num ConfigManager.LOGIN_TRIES e) (num ConfigManager.LOGIN_TIMEOUT e) (num ConfigManager.RETRY_TIMEOUT e).
Definition encryptTest (e : env) : cstring -> cstring -> bool * cstring :=
  Tools.encryptTest MD5 SHA1 SHA256 SHA512 (num ConfigManager.ENCRYPTION e).

(** ** Messages *)

(** [getConnection()] *)
Definition getConnection (p : nat) : M (option nat) :=
  pr ← onPool (OutputMessagePool.protocol p); mret (Protocol.m_connection pr).

(** [getConnection()->close()] *)
Definition close (p : nat) : M unit :=
  c ← getConnection p;
  match c with Some c => emit (Connection_close c) | None => stuck end.

(** The calls of [put] and [putString] on a message, in order. *)
Definition write (id : nat) (fs : list NetworkMessage.field) : M unit :=
  onPool (m ← OutputMessagePool.message id;
          base ← lift (NetworkMessage.write_fields fs (OutputMessage.base m));
          OutputMessagePool.onMessage id (OutputMessage.setBase base)).

(** [disconnectClient(error, message)]; [message] ends at its first NUL. *)
Definition disconnectClient (e : env) (p : nat) (error : Z) (message : cstring) : M unit :=
  output ← onPool (OutputMessagePool.getOutputMessage (memory e) p false);
  _ ← (match output with
       | Some id =>
           _ ← write id [char error; string (c_str message)];
           onPool (OutputMessagePool.send (how e) id)
       | None => skip
       end);
  _ ← close p;
  match output with Some id => onPool (OutputMessagePool.drop_pointer id) | None => skip end.

(** ** The first packet *)

(** The checks on the client in [onRecvFirstMessage], and the task that answers it. *)
Definition checkClient (e : env) (p : nat) (version datSignature sprSignature picSignature : Z) (name password : cstring) : M unit :=
  if ((version <? CLIENT_VERSION_MIN) || (CLIENT_VERSION_MAX <? version)) && negb (version =? CLIENT_VERSION_CUSTOM)
  then disconnectClient e p 0x0A CLIENT_VERSION_STRING
  else if sprSignature <? CLIENT_VERSION_SPR then disconnectClient e p 0x0A CLIENT_VERSION_DATA
  else if datSignature <? CLIENT_VERSION_DAT then disconnectClient e p 0x0A CLIENT_VERSION_DATA
  else if picSignature <? CLIENT_VERSION_PIC then disconnectClient e p 0x0A CLIENT_VERSION_DATA
  else
    c ← getConnection p;
    c ← lift c;
    let clientIp := remote_ip e c in
    disabled ← gets (fun s => ConnectionManager.isDisabled (manager_config e) (now e) clientIp protocolId (manager s));
    if disabled : bool
    then disconnectClient e p 0x0A ($"Too many connections attempts from your IP address, please try again later.")
    else emit (AddTask_delegate p name password clientIp version).

(** [onRecvFirstMessage(msg)] from the decrypted block on: the key, the name and the
    password; the message as it was left. *)
Definition readLogin (e : env) (p : nat) (version datSignature sprSignature picSignature : Z) (msg : NetworkMessage.t) :
    M NetworkMessage.t :=
  '(k0, msg) ← lift (NetworkMessage.get 4 false msg);
  '(k1, msg) ← lift (NetworkMessage.get 4 false msg);
  '(k2, msg) ← lift (NetworkMessage.get 4 false msg);
  '(k3, msg) ← lift (NetworkMessage.get 4 false msg);
  _ ← onPool (OutputMessagePool.onProtocol p Protocol.enableXTEAEncryption);
  _ ← onPool (OutputMessagePool.onProtocol p (Protocol.setXTEAKey [k0; k1; k2; k3]));
  '(name, msg) ← lift (NetworkMessage.getString false 0 msg);
  '(password, msg) ← lift (NetworkMessage.getString false 0 msg);
  let name := if bool_decide (name = []) then $"10" else name in
  _ ← checkClient e p version datSignature sprSignature picSignature name password;
  mret msg.

(** [onRecvFirstMessage(msg)]: the message as it was left. *)
Definition onRecvFirstMessage (e : env) (p : nat) (msg : NetworkMessage.t) : M NetworkMessage.t :=
  let msg := NetworkMessage.skip 2 msg in
  '(version, msg) ← lift (NetworkMessage.get 2 false msg);
  '(datSignature, msg) ← lift (NetworkMessage.get 4 false msg);
  '(sprSignature, msg) ← lift (NetworkMessage.get 4 false msg);
  '(picSignature, msg) ← lift (NetworkMessage.get 4 false msg);
  '(ok, msg) ← lift (Protocol.RSA_decrypt RSA_private_decrypt msg);
  if negb ok then _ ← close p; mret msg
  else readLogin e p version datSignature sprSignature picSignature msg.

(** ** The answer *)

(** [sprintf(motd, "%d\n%s", ...)] in [char motd[1300]]: stuck when it does not fit. *)
Definition MOTD_ROOM := 1300.
Definition format_motd (e : env) : option cstring :=
  let motd := dec (i32 (num ConfigManager.MOTD_ID e)) ++ [10] ++ c_str (str ConfigManager.MOTD_TEXT e) in
  if zlen motd + 1 <=? MOTD_ROOM then Some motd else None.

(** [games[random_range(0, games.size() - 1)]] *)
Definition pick_port (e : env) (world : World.t) : M Z :=
  n ← gets drawn;
  _ ← modify (fun s => mk (io s) (manager s) (pool s) (S (drawn s)));
  let games := World.ports world in
  i ← lift (Tools.random_range (rand e n) 0 (i32 (u64 (zlen games - 1))));
  if i <? 0 then stuck else lift (games !! Z.to_nat i).

(** The line of a ban. *)
Definition ban_message (ban : Ban.t) (name_ : cstring) : cstring :=
  let deletion := bool_decide (Ban.expiresAt ban = []) in
  $"Your account has been " ++ (if deletion then $"deleted" else $"banished") ++ $" at:" ++ [10] ++ Ban.createdAt ban ++
  $" by: " ++ name_ ++ $"." ++ [10] ++ $"The comment given was:" ++ [10] ++ Ban.reason ban ++ $"." ++ [10] ++ $"Your " ++
  (if deletion then $"account won't be undeleted" else $"banishment will be lifted at:" ++ [10]) ++
  (if deletion then [] else Ban.expiresAt ban) ++ $".".

Definition no_characters_message (e : env) : cstring :=
  $"This account does not contain any character for this client yet." ++ [10] ++ $"Create a new character on the " ++
  str ConfigManager.SERVER_NAME e ++ $" website at " ++ str ConfigManager.URL e ++ $".".

(** The broadcasts, for account number 10: by name, whether there is a star, the world
    and the level. *)
Abbreviation broadcasts := (StdMap.t cstring (bool * (World.t * Z))).

Definition broadcasts_query : cstring :=
  $"SELECT `name`, `level`, `broadcasting` FROM `players` WHERE `broadcasting` > 0".

Definition add_broadcast (defaultWorld : option World.t) (r : Database.DBResult.t) (tmp : broadcasts) :
    proc (IO.t DB) Empty_set broadcasts :=
  broadcasting ← IO.getDataInt ($"broadcasting") r;
  let t := u8 broadcasting in
  match defaultWorld with
  | Some world =>
      if Z.land t 1 =? 1 then
        name ← IO.getDataString ($"name") r;
        level ← IO.getDataInt ($"level") r;
        mret (StdMap.insert name (Z.land t 2 =? 2, (world, level)) tmp)
      else mret tmp
  | None => mret tmp
  end.

Definition write_broadcast (e : env) (id : nat) (b : cstring * (bool * (World.t * Z))) : M unit :=
  let '(name, (star, (world, level))) := b in
  _ ← write id [string name; string (dec level ++ (if star then $"*" else [])); uint32 (World.address world)];
  port ← pick_port e world;
  write id [uint16 port].

Definition write_broadcasts (e : env) (id : nat) : M unit :=
  _ ← onIO (IO.local (io_env e));
  result ← onIO (IO.storeQuery (io_env e) broadcasts_query);
  match result with
  | Some r =>
      tmp ← onIO (IO.do_rows (add_broadcast (Worlds.getFirstWorld (worldList e))) r []);
      _ ← write id [char (u8 (zlen tmp))];
      for_each (write_broadcast e id) tmp
  | None => write id [char 0]
  end.

Definition character_status (e : env) (c : Character.t) (world : World.t) : cstring :=
  if negb (bln ConfigManager.ON_OR_OFF_CHARLIST e) || (Character.status c <? 0) then World.name world
  else if negb (Character.status c =? 0) then $"Online" else $"Offline".

Definition write_character (e : env) (id : nat) (entry : cstring * Character.t) : M unit :=
  let c := entry.2 in
  world ← lift (Character.server c);
  _ ← write id [string (Character.name c); string (character_status e c world); uint32 (World.address world)];
  port ← pick_port e world;
  write id [uint16 port].

Definition write_characters (e : env) (id : nat) (charList : StdMap.t cstring Character.t) : M unit :=
  _ ← write id [char (u8 (zlen charList))];
  for_each (write_character e id) charList.

Definition premium_field (e : env) (account : Account.t) : NetworkMessage.field :=
  uint16 (if bln ConfigManager.FREE_PREMIUM e then GRATIS_PREMIUM else Account.premiumDays account).

(** The list, in the message [id]. *)
Definition write_list (e : env) (id : nat) (account : Account.t) : M unit :=
  _ ← write id [char 0x14];
  motd ← lift (format_motd e);
  _ ← write id [string motd];
  _ ← write id [char 0x64];
  _ ← (if Account.number account =? 10 then write_broadcasts e id
       else write_characters e id (Account.charList account));
  write id [premium_field e account].

Definition addAttempt (e : env) (clientIp : Z) (success : bool) : M unit :=
  modify (setManager (ConnectionManager.addAttempt (manager_config e) (now e) clientIp protocolId success)).

(** The password is tested once for the log, which upper-cases the stored hash, and once
    for the answer. *)
Definition password_accepted (e : env) (account : Account.t) (password : cstring) : bool :=
  let plain := Account.salt account ++ password in
  let '(_, hash) := encryptTest e plain (Account.password account) in
  (encryptTest e plain hash).1.

(** [delegate(name, password, clientIp, version)], run by the dispatcher; the version is
    not used. *)
Definition delegate (e : env) (p : nat) (name password : cstring) (clientIp version : Z) : M unit :=
  _ ← onIO (IO.checkBanishments (io_env e));
  banished ← onIO (IO.isIpBanished (io_env e) clientIp);
  if banished : bool then disconnectClient e p 0x0A ($"Your IP is banished!")
  else
    '(loaded, account) ← onIO (IO.loadAccount (io_env e) Account.new name);
    if negb loaded || (negb (Account.number account =? 10) &&
         negb (password_accepted e account password))
    then
      _ ← addAttempt e clientIp false;
      disconnectClient e p 0x0A ($"Invalid account name or password.")
    else
      '(found, ban) ← onIO (IO.getBanishment (io_env e)
        (Ban.mk BAN_ACCOUNT 0 0 (dec (Account.number account)) [] [] [] [] false));
      if found : bool then
        name_ ← (if Ban.bannedBy ban =? 0
                 then mret ($"Automatic " ++ (if bool_decide (Ban.expiresAt ban = []) then $"deletion" else $"banishment"))
                 else '(_, name_) ← onIO (IO.getNameByGuid (io_env e) (Ban.bannedBy ban) ($"Automatic ")); mret name_);
        disconnectClient e p 0x0A (ban_message ban name_)
      else
        account ← onIO (IO.updatePremium (io_env e) account);
        if negb (Account.number account =? 10) && bool_decide (Account.charList account = [])
        then disconnectClient e p 0x0A (no_characters_message e)
        else
          _ ← addAttempt e clientIp true;
          output ← onPool (OutputMessagePool.getOutputMessage (memory e) p false);
          _ ← (match output with
               | Some id =>
                   _ ← write_list e id account;
                   _ ← onPool (OutputMessagePool.send (how e) id);
                   onPool (OutputMessagePool.drop_pointer id)
               | None => skip
               end);
          close p.

End Login.
End ProtocolLogin.
