(* ===== verification/LoginFrame.v ===== *)
(** * What the handlers of the login protocol leave alone

    A client's handlers work on the pool all clients share: no protocol comes or goes, no
    connection is forgotten, and nobody else's protocol changes. *)
From S2P Require Import Prelude Proc CString Definitions NetMessage OutMessage Proto Pool PoolFrame Accounts Db Login.

Module LoginFrame.
Import PoolFrame ProtocolLogin.

Section Frame.
Context {DB : Type} `{!Database.Server DB}.
Context (MD5 SHA1 SHA256 SHA512 : list Z -> list Z) (rsa : list Z -> option (list Z)).
Context {X : Type} (f : Protocol.t -> X) `{!Uncounted f}.

Abbreviation lstate := (ProtocolLogin.state (DB := DB)).

Definition lsteady (s : lstate) (out : list ProtocolLogin.request) (s' : lstate) : Prop :=
  steady f (pool s) [] (pool s').

#[export] Instance lsteady_composes : Composes lsteady.
Proof.
  split; [intros s; apply (composes_refl (R := steady f))|]. intros s1 o1 s2 o2 s3 H1 H2.
  exact (composes_trans (R := steady f) _ _ _ _ _ H1 H2).
Qed.

Lemma onPool_lsteady {A} (m : proc OutputMessagePool.state OutputMessagePool.request A) :
  respects (steady f) m -> respects lsteady (onPool m).
Proof.
  intros Hm s a s' out. unfold onPool. destruct (m (pool s)) as [[[b x] o]|] eqn:E; [|done].
  intros [= <- <- <-]. by destruct (Hm _ _ _ _ E).
Qed.

Lemma onIO_lsteady {A} (m : proc (IO.t DB) Empty_set A) : respects lsteady (onIO m).
Proof.
  intros s a s' out. unfold onIO. destruct (m (io s)) as [[[b x] o]|]; [|done].
  intros [= <- <- <-]. apply (composes_refl (R := steady f)).
Qed.

Lemma emit_lsteady o : respects lsteady (emit o).
Proof. by apply respects_emit. Qed.

Lemma getConnection_lsteady p : respects lsteady (getConnection p).
Proof. unfold getConnection. respects. apply onPool_lsteady, protocol_steady. Qed.

Lemma close_lsteady p : respects lsteady (close p).
Proof. unfold close. respects; first [apply getConnection_lsteady|apply emit_lsteady]. Qed.

Lemma write_lsteady id fs : respects lsteady (write id fs).
Proof. unfold write. apply onPool_lsteady. respects; [apply message_steady|apply onMessage_steady]. Qed.

Lemma send_lsteady how id : respects lsteady (onPool (OutputMessagePool.send how id)).
Proof. by apply onPool_lsteady, send_steady. Qed.

Lemma take_lsteady memory p auto : respects lsteady (onPool (OutputMessagePool.getOutputMessage memory p auto)).
Proof. by apply onPool_lsteady, getOutputMessage_steady. Qed.

Lemma drop_lsteady id : respects lsteady (onPool (OutputMessagePool.drop_pointer id)).
Proof. apply onPool_lsteady, drop_pointer_steady. Qed.

Ltac frame := respects; first [apply take_lsteady|apply write_lsteady|apply send_lsteady|apply drop_lsteady
  |apply close_lsteady|apply getConnection_lsteady|apply emit_lsteady|apply onIO_lsteady|idtac].

Lemma disconnectClient_lsteady e p error message : respects lsteady (disconnectClient e p error message).
Proof. unfold disconnectClient. frame. Qed.

Lemma pick_port_lsteady e w : respects lsteady (pick_port e w).
Proof. unfold pick_port. frame. Qed.

Lemma write_list_lsteady e id account : respects lsteady (write_list e id account).
Proof.
  unfold write_list, write_broadcasts, write_characters, write_broadcast, write_character.
  frame; apply pick_port_lsteady.
Qed.

(** The answer changes nobody's protocol. *)
Lemma delegate_lsteady e p name password clientIp version :
  respects lsteady (delegate MD5 SHA1 SHA256 SHA512 e p name password clientIp version).
Proof. unfold delegate, addAttempt. frame; first [apply disconnectClient_lsteady|apply write_list_lsteady]. Qed.

Lemma checkClient_lsteady e p version dat spr pic name password :
  respects lsteady (checkClient e p version dat spr pic name password).
Proof. unfold checkClient. frame; apply disconnectClient_lsteady. Qed.

(** The first packet sets the key of its protocol. *)
Lemma onRecvFirstMessage_lsteady e p msg :
  (forall pr b, f (Protocol.setEncryption b pr) = f pr) -> (forall pr k, f (Protocol.setXTEAKey k pr) = f pr) ->
  respects lsteady (onRecvFirstMessage rsa e p msg).
Proof.
  intros He Hk. unfold onRecvFirstMessage, readLogin.
  frame; [apply onPool_lsteady, onProtocol_steady; intros; apply He
         |apply onPool_lsteady, onProtocol_steady; intros; apply Hk|apply checkClient_lsteady].
Qed.

End Frame.
End LoginFrame.
