(* ===== verification/LoginLaws.v ===== *)
(** * What the login protocol answers (the laws of [Login]) *)
From S2P Require Import Prelude Proc CString Bytes Definitions StdMap NetMessage OutMessage Proto Pool PoolFrame PoolLaws PoolRun PoolSend Config WorldList Tools Db Accounts AccountLaws ConnMgr Login.

Module LoginLaws.
Import PoolFrame PoolLaws ProtocolLogin AccountLaws.

(** ** Scripts of puts *)

(** What a put adds to the payload: nothing when it does not fit. *)
Definition put_field (content : list Z) (f : NetworkMessage.field) : list Z :=
  let room n := NETWORK_CRYPTOHEADER_SIZE + zlen content + n <? NETWORK_BODY_SIZE in
  match f with
  | NetworkMessage.FNum n v => if room (Z.of_nat n) then content ++ le_bytes n v else content
  | NetworkMessage.FStr s =>
      let n := u32 (zlen s) in
      if room (n + 2) && (n <=? 8192) then content ++ le_bytes 2 n ++ take (Z.to_nat n) s else content
  end.

Definition script (content : list Z) (fs : list NetworkMessage.field) : list Z := foldl put_field content fs.

Definition field_good (f : NetworkMessage.field) : Prop :=
  match f with NetworkMessage.FNum _ _ => True | NetworkMessage.FStr s => bytes_ok s end.

Lemma putString_prefix s addSize m :
  NetworkMessage.putString s addSize m = NetworkMessage.putString (take (Z.to_nat (u32 (zlen s))) s) addSize m.
Proof.
  pose proof (zlen_nonneg s) as Hl. pose proof (wrapu_range 32 (zlen s)) as Hr.
  assert (u32 (zlen s) <= zlen s) as Hle by (unfold wrapu; apply Z.mod_le; lia).
  assert (zlen (take (Z.to_nat (u32 (zlen s))) s) = u32 (zlen s)) as Hz.
  { unfold zlen in *. rewrite length_take. lia. }
  unfold NetworkMessage.putString. rewrite Hz, (wrapu_small 32 (u32 (zlen s))) by lia. rewrite take_take, Nat.min_id. done.
Qed.

Lemma write_field_puts f m :
  NetworkMessage.writing m -> field_good f ->
  exists m', NetworkMessage.write_field f m = Some m' /\ NetworkMessage.writing m' /\
    NetworkMessage.payload m' = put_field (NetworkMessage.payload m) f.
Proof.
  intros Hw Hf. pose proof (NetworkMessage.zlen_payload m Hw) as Hl. pose proof (NetworkMessage.writing_position m Hw) as Hp.
  pose proof (NetworkMessage.wf_position _ (NetworkMessage.writing_wf _ Hw)) as Hpr.
  destruct f as [n v|s]; cbn [NetworkMessage.write_field put_field field_good] in *; cbn zeta; rewrite Hl.
  - destruct (Z.ltb_spec (NETWORK_CRYPTOHEADER_SIZE + NetworkMessage.m_size m + Z.of_nat n) NETWORK_BODY_SIZE) as [Hr|Hr].
    + destruct (NetworkMessage.put_fits (Z.of_nat n) v m) as (m' & E & Hw' & Hpl & _); [done|lia..|].
      rewrite Nat2Z.id in Hpl. eauto.
    + exists m. split; [|done]. unfold NetworkMessage.put, NetworkMessage.hasSpace. by rewrite (proj2 (Z.ltb_ge _ _)) by lia.
  - rewrite putString_prefix. pose proof (zlen_nonneg s) as Hs. pose proof (wrapu_range 32 (zlen s)) as Hr.
    assert (u32 (zlen s) <= zlen s) as Hle by (unfold wrapu; apply Z.mod_le; lia).
    set (n := u32 (zlen s)) in *. set (t := take (Z.to_nat n) s).
    assert (zlen t = n) as Hz by (unfold t, zlen in *; rewrite length_take; lia).
    assert (bytes_ok t) as Ht by (by apply Forall_take).
    destruct (decide (NetworkMessage.string_fits t true m)) as [Hfit|Hno].
    + destruct (NetworkMessage.putString_fits t true m) as (m' & E & Hw' & Hpl & _); [done..|].
      destruct Hfit as (_ & H8 & Hroom). rewrite Hz in H8, Hroom.
      rewrite (proj2 (Z.ltb_lt _ _)), (proj2 (Z.leb_le _ _)) by lia. cbn [andb]. exists m'. split_and!; [done|done|].
      by rewrite Hpl, Hz.
    + exists m. split; [apply NetworkMessage.putString_dropped; [done|done|lia]|]. split; [done|].
      unfold NetworkMessage.string_fits in Hno. rewrite Hz in Hno.
      destruct (Z.ltb_spec (NETWORK_CRYPTOHEADER_SIZE + NetworkMessage.m_size m + (n + 2)) NETWORK_BODY_SIZE); cbn [andb]; [|done].
      destruct (Z.leb_spec n 8192); [|done]. destruct Hno. split_and!; lia.
Qed.

Lemma write_fields_puts fs m :
  NetworkMessage.writing m -> Forall field_good fs ->
  exists m', NetworkMessage.write_fields fs m = Some m' /\ NetworkMessage.writing m' /\
    NetworkMessage.payload m' = script (NetworkMessage.payload m) fs.
Proof.
  intros Hw Hfs. revert m Hw. induction Hfs as [|f fs Hf Hfs IH]; intros m Hw; [by exists m|].
  destruct (write_field_puts f m Hw Hf) as (m1 & E1 & Hw1 & Hp1). destruct (IH m1 Hw1) as (m2 & E2 & Hw2 & Hp2).
  exists m2. cbn [NetworkMessage.write_fields]. rewrite E1. cbn. rewrite E2, Hp2, Hp1. done.
Qed.

(** A script that fits is its encoding. *)
Lemma script_encode fs content :
  Forall NetworkMessage.field_ok fs -> NETWORK_CRYPTOHEADER_SIZE + zlen content + zlen (NetworkMessage.encode fs) < NETWORK_BODY_SIZE ->
  script content fs = content ++ NetworkMessage.encode fs.
Proof.
  intros Hfs. revert content. induction Hfs as [|f fs Hf Hfs IH]; intros content Hfit; [by rewrite app_nil_r|].
  rewrite NetworkMessage.encode_cons, zlen_app in *. pose proof (zlen_nonneg (NetworkMessage.encode fs)).
  change (script content (f :: fs)) with (script (put_field content f) fs).
  assert (put_field content f = content ++ NetworkMessage.encode_field f) as ->.
  { destruct f as [n v|s]; cbn [put_field NetworkMessage.encode_field NetworkMessage.field_ok] in *; cbn zeta.
    - autorewrite with zlen in *. by rewrite (proj2 (Z.ltb_lt _ _)) by lia.
    - destruct Hf as [Hs _]. autorewrite with zlen in *. pose proof (zlen_nonneg s). rewrite wrapu_small by lia.
      rewrite (proj2 (Z.ltb_lt _ _)), (proj2 (Z.leb_le _ _)) by lia. cbn [andb].
      by rewrite firstn_all2 by (unfold zlen; lia). }
  rewrite IH; [by rewrite app_assoc|]. rewrite zlen_app. lia.
Qed.

Lemma script_app content fs gs : script content (fs ++ gs) = script (script content fs) gs.
Proof. apply foldl_app. Qed.

(** ** A message being written *)

Abbreviation pstate := OutputMessagePool.state.
Abbreviation queues s := (OutputMessagePool.m_autoSend (OutputMessagePool.pool s) ++ OutputMessagePool.m_addQueue (OutputMessagePool.pool s)).

(** The protocol [p] has the connection [c]. *)
Definition linked (p c : nat) (s : pstate) : Prop := PoolSend.link s p = Some (Some c).

(** The caller holds [id], a message of [p] not sent yet, with this payload. *)
Record filling (p c id : nat) (content : list Z) (s : pstate) : Prop := {
  filling_books : books s;
  filling_linked : linked p c s;
  filling_held : id ∈ OutputMessagePool.held s;
  filling_queues : ~ (id ∈ queues s);
  filling_message : exists m, store s !! id = Some m /\ unencoded m /\
    NetworkMessage.payload (OutputMessage.base m) = content /\ OutputMessage.m_connection m = Some c /\
    OutputMessage.m_protocol m = Some p /\ OutputMessage.m_state m = OutputMessage.STATE_ALLOCATED_NO_AUTOSEND
}.

Lemma linked_protocol p c s :
  linked p c s <-> exists pr, OutputMessagePool.protocols s !! p = Some pr /\ Protocol.m_connection pr = Some c.
Proof.
  unfold linked, PoolSend.link. destruct (OutputMessagePool.protocols s !! p) as [pr|]; cbn; [|by split; [|intros (? & ? & ?)]].
  split; [intros [= H]; eauto|]. by intros (? & [= <-] & ->).
Qed.

Lemma take_message memory p c s :
  books s -> memory_ok memory -> linked p c s ->
  wp (OutputMessagePool.getOutputMessage memory p false)
    (fun got s' out => out = [] /\
       match got with
       | None => OutputMessagePool.m_shutdown (OutputMessagePool.pool s) = true /\ s' = s
       | Some id => OutputMessagePool.m_shutdown (OutputMessagePool.pool s) = false /\ filling p c id [] s'
       end) s.
Proof.
  intros Hb Hm (pr & Hp & Hc)%linked_protocol.
  destruct (getOutputMessage_books memory p false s pr Hb Hm Hp) as (got & s' & out & E & [Hb' Ht] & Hs).
  exists got, s', out. split; [done|]. split; [by eapply PoolFrame.getOutputMessage_silent|].
  unfold serves in Hs. rewrite Hc in Hs. rewrite (bool_decide_eq_true_2 (is_Some (Some c))), andb_true_r in Hs by done.
  destruct got as [id|]; [|by destruct (OutputMessagePool.m_shutdown _)].
  destruct (OutputMessagePool.m_shutdown _); [done|]. split; [done|].
  destruct Ht as (Hnew & Hh & (m & Hm' & Hu & Hz & Hmp & Hmc & _ & Hst) & Eq & Ea & Hpr).
  split; [done| |done| |].
  - apply linked_protocol. exists (Protocol.addRef pr). auto.
  - rewrite Ea, Eq, app_nil_r. intros Hq. apply Hnew. unfold OutputMessagePool.pointers. rewrite elem_of_app in Hq.
    rewrite !elem_of_app. tauto.
  - exists m. split; [done|]. split; [done|]. rewrite (Hmc pr Hp), Hc. split; [|by split_and!].
    unfold NetworkMessage.payload. by rewrite Hz.
Qed.

Lemma write_message fs p c id content s :
  filling p c id content s -> Forall field_good fs ->
  wp (m ← OutputMessagePool.message id;
      base ← lift (NetworkMessage.write_fields fs (OutputMessage.base m));
      OutputMessagePool.onMessage id (OutputMessage.setBase base))
    (fun _ s' out => out = [] /\ filling p c id (script content fs) s' /\
       OutputMessagePool.m_shutdown (OutputMessagePool.pool s') = OutputMessagePool.m_shutdown (OutputMessagePool.pool s)) s.
Proof.
  intros [Hb Hl Hh Hq (m & Hm & Hu & <- & Hc & Hmp & Hst)] Hfs. pose proof Hu as [Hw Hs].
  destruct (write_fields_puts fs (OutputMessage.base m) Hw Hfs) as (base' & E & Hw' & Hp').
  wp_step. eapply wp_message; [done|]. wp_step. eapply wp_lift; [done|]. eapply wp_onMessage; [done|].
  split; [done|]. split; [|done]. split; try done.
  - apply PoolRun.fill_books; try done. unfold OutputMessagePool.pointers. rewrite !elem_of_app. tauto.
  - exists (OutputMessage.setBase base' m). cbn. rewrite lookup_insert_eq. by split_and!.
Qed.

(** The message [m], handed over and being written: encoded by its protocol, and held. *)
Record written (p c id : nat) (m : OutputMessage.t) (sent : list OutputMessagePool.request) (s : pstate) : Prop := {
  written_sent : sent = [OutputMessagePool.Connection_send c id m; OutputMessagePool.Async_write c id];
  written_unencoded : unencoded m;
  written_encoded : exists pr m', OutputMessagePool.protocols s !! p = Some pr /\
    Protocol.encodeMessage pr m = Some m' /\ store s !! id = Some m'
}.

Lemma send_message how p c id content s :
  filling p c id content s ->
  wp (OutputMessagePool.send how id)
    (fun _ s' out => books s' /\ linked p c s' /\ id ∈ OutputMessagePool.held s' /\
       exists m, PoolSend.sends c id m out /\ NetworkMessage.payload (OutputMessage.base m) = content /\
         (how c id = OutputMessagePool.Writing -> written p c id m out s' /\
            id ∈ OutputMessagePool.remove_one id (OutputMessagePool.held s'))) s.
Proof.
  intros [Hb Hl Hh Hq (m & Hm & Hu & Hp & Hc & Hmp & Hst)].
  destruct (send_books how s id m Hb Hm Hh Hu Hq) as ([] & s' & out & E & Hb'). exists tt, s', out. split; [done|].
  pose proof (PoolFrame.send_steady PoolFrame.face how id s tt s' out E) as [Hface _]. specialize (Hface p).
  unfold OutputMessagePool.send in E.
  apply bind_inv in E as (m0 & s1 & o1 & o2 & (Hm0 & -> & ->)%PoolSend.message_inv & E & ->).
  rewrite Hm in Hm0. injection Hm0 as <-. rewrite Hst in E.
  pose proof (proj1 (linked_protocol _ _ _) Hl) as (pr & Hpr & _).
  pose proof (fun Hw => PoolSend.sendTo_writes how id m c p pr s s' o2 Hm Hc Hmp Hpr Hw E) as Hwr.
  apply (PoolSend.sendTo_sends how id m c) in E as (L & H & Hs); [|done].
  split; [done|]. split; [by unfold linked; rewrite L|]. split; [by apply H|]. exists m. split; [done|]. split; [done|].
  intros Hw. destruct (Hwr Hw) as (Hout & Hheld & m' & Henc & Hm'). split; [split; [done|done|]|].
  - unfold PoolFrame.aspect in Hface. rewrite Hpr in Hface.
    destruct (OutputMessagePool.protocols s' !! p) as [pr'|]; [|discriminate Hface].
    assert (face pr' = face pr) as Hf by (injection Hface; unfold face, Protocol.cipher; congruence). exists pr', m'. split; [done|].
    by rewrite (Protocol.encodeMessage_cipher pr' pr _ (f_equal snd Hf)).
  - rewrite Hheld. cbn. by rewrite decide_True.
Qed.

Lemma drop_message p c id s :
  books s -> linked p c s -> id ∈ OutputMessagePool.held s ->
  wp (OutputMessagePool.drop_pointer id) (fun _ s' out => out = [] /\ books s' /\ linked p c s' /\
    OutputMessagePool.held s' = OutputMessagePool.remove_one id (OutputMessagePool.held s) /\
    OutputMessagePool.protocols s' = OutputMessagePool.protocols s /\ store s' = store s) s.
Proof.
  intros Hb Hl Hh. destruct (drop_pointer_books s id Hb Hh) as ([] & s' & out & E & Hb' & _ & Hp).
  exists tt, s', out. split; [done|]. split; [by eapply PoolFrame.drop_pointer_silent|]. split; [done|].
  split; [unfold linked, PoolSend.link in *; by rewrite Hp|].
  unfold OutputMessagePool.drop_pointer, OutputMessagePool.settle, OutputMessagePool.releaseMessage in E.
  autorewrite with proc in E. destruct (decide _); by injection E as <- <-.
Qed.

(** ** The handlers *)

Section Handlers.
Context {DB : Type} `{!Database.Server DB} `{!LawfulServer DB}.
Context (MD5 SHA1 SHA256 SHA512 : list Z -> list Z) (rsa : list Z -> option (list Z)).

Abbreviation lstate := (ProtocolLogin.state (DB := DB)).
Abbreviation lproc := (proc lstate ProtocolLogin.request).

Lemma wp_onPool {A} (m : proc pstate OutputMessagePool.request A) (Q : A -> lstate -> list ProtocolLogin.request -> Prop) s :
  wp m (fun a x out => Q a (setPool x s) (map Pool out)) (pool s) -> wp (onPool m) Q s.
Proof. intros (a & x & out & E & HQ). exists a, (setPool x s), (map Pool out). unfold onPool. by rewrite E. Qed.

Lemma wp_onIO {A} (m : proc (IO.t DB) Empty_set A) (P : A -> Prop) (Q : A -> lstate -> list ProtocolLogin.request -> Prop) s :
  AccountLaws.answers m P -> io_ok (io s) ->
  (forall a x, m (io s) = Some (a, x, []) -> P a -> io_ok x -> Q a (setIo x s) []) -> wp (onIO m) Q s.
Proof.
  intros Hm Hio HQ. destruct (Hm (io s) Hio) as (a & x & E & HP & Hx). exists a, (setIo x s), [].
  unfold onIO. rewrite E. auto.
Qed.

(** A world a client can be sent to. *)
Record world_good (w : World.t) : Prop := {
  world_name : bytes_ok (World.name w);
  world_ports : World.ports w <> [] /\ zlen (World.ports w) < 2 ^ 31
}.

(** The message of the day, with its number, the line feed and the NUL, fits the 1300
    bytes that delegate formats it into; a longer one is undefined behaviour. *)
Definition motd_fits (e : env) : Prop :=
  zlen (dec (i32 (num ConfigManager.MOTD_ID e))) + 1 + zlen (c_str (str ConfigManager.MOTD_TEXT e)) + 1 <= 1300.

Lemma format_motd_fits e : is_Some (format_motd e) <-> motd_fits e.
Proof.
  unfold format_motd, motd_fits, MOTD_ROOM. rewrite !zlen_app, zlen_cons. change (zlen []) with 0.
  case_match eqn:Hle; [apply Z.leb_le in Hle|apply Z.leb_gt in Hle].
  - split; [lia|by eexists].
  - split; [by intros [? ?]|lia].
Qed.

(** What a handler may rely on.  [env_motd] leaves out a server whose message of the day
    is too long. *)
Record env_ok (e : env) : Prop := {
  env_memory : memory_ok (memory e);
  env_strings : Forall (fun k => bytes_ok (str k e)) [ConfigManager.SERVER_NAME; ConfigManager.URL; ConfigManager.MOTD_TEXT];
  env_worlds : Forall world_good (map snd (worldList e));
  env_rand : forall n, 0 <= rand e n < 2 ^ 24;
  env_motd : motd_fits e
}.

(** The protocol [p] with the connection [c], ready to answer. *)
Record ready (p c : nat) (s : lstate) : Prop := {
  ready_books : books (pool s);
  ready_linked : linked p c (pool s);
  ready_io : io_ok (io s)
}.

(** What is handed to the connection before it is told to close; a message whose write is
    started is encoded and held in the final state. *)
Definition delivers (e : env) (p c : nat) (content : option (list Z)) (out : list ProtocolLogin.request) (s : lstate) : Prop :=
  match content with
  | None => out = [Connection_close c]
  | Some bytes => exists id m sent, PoolSend.sends c id m sent /\
      NetworkMessage.payload (OutputMessage.base m) = bytes /\ out = map Pool sent ++ [Connection_close c] /\
      (how e c id = OutputMessagePool.Writing ->
         written p c id m sent (pool s) /\ id ∈ OutputMessagePool.held (pool s))
  end.

(** What a message being written keeps when its caller drops it. *)
Lemma written_dropped p c id m sent x x' :
  written p c id m sent x -> OutputMessagePool.protocols x' = OutputMessagePool.protocols x -> store x' = store x ->
  written p c id m sent x'.
Proof. intros [H1 H2 H3] Hp Hs. split; [done|done|]. by rewrite Hp, Hs. Qed.

Definition refusal (error : Z) (message : cstring) : list NetworkMessage.field := [char error; string (c_str message)].

Definition shut (s : lstate) : bool := OutputMessagePool.m_shutdown (OutputMessagePool.pool (pool s)).

Lemma wp_close p c s (Q : unit -> lstate -> list ProtocolLogin.request -> Prop) :
  linked p c (pool s) -> Q tt s [Connection_close c] -> wp (close p) Q s.
Proof.
  intros (pr & Hp & Hc)%linked_protocol HQ. unfold close, getConnection. repeat wp_step. apply wp_onPool.
  eapply wp_protocol; [done|]. repeat wp_step. rewrite Hc. wp_step. by destruct s.
Qed.

Lemma c_str_bytes t : bytes_ok t -> bytes_ok (c_str t).
Proof. induction 1 as [|c t Hc Ht IH]; cbn; [constructor|]. case_match; constructor; done. Qed.

Lemma wp_write fs p c id content s (Q : unit -> lstate -> list ProtocolLogin.request -> Prop) :
  filling p c id content (pool s) -> Forall field_good fs ->
  (forall x, filling p c id (script content fs) x -> Q tt (setPool x s) []) -> wp (write id fs) Q s.
Proof.
  intros Hf Hfs HQ. unfold write. apply wp_onPool. eapply wp_mono; [by eapply write_message|].
  intros [] x out (-> & Hx & _). by apply HQ.
Qed.

(** A refusal reaches the client's connection, which is then closed. *)
Lemma wp_disconnectClient e p c error message s :
  env_ok e -> ready p c s -> bytes_ok message ->
  wp (disconnectClient e p error message)
    (fun _ s' out => ready p c s' /\ io s' = io s /\ manager s' = manager s /\
       delivers e p c (if shut s then None else Some (script [] (refusal error message))) out s') s.
Proof.
  intros He [Hb Hl Hio] Hm. unfold disconnectClient. wp_step. apply wp_onPool. eapply wp_mono.
  { apply (take_message (memory e) p c); [done|apply He|done]. }
  intros [id|] x o [-> Hx].
  - destruct Hx as [Hs Hf]. unfold shut. rewrite Hs. wp_step. wp_step.
    eapply wp_write; [exact Hf| |].
    { repeat constructor. cbn. by apply c_str_bytes. }
    intros x1 Hf1. apply wp_onPool. eapply wp_mono; [by eapply send_message|].
    intros [] x2 o2 (Hb2 & Hl2 & Hh2 & m & Hsent & Hpl & Hwr). wp_step. eapply wp_close; [exact Hl2|].
    apply wp_onPool. eapply wp_mono; [by apply (drop_message p c)|]. intros [] x3 o3 (-> & Hb3 & Hl3 & Hh3 & Hp3 & Hs3).
    split; [by split|]. split; [done|]. split; [done|]. exists id, m, o2. split; [done|]. split; [done|]. split; [done|].
    intros Hw. destruct (Hwr Hw) as [Hwr2 Hin]. cbn in *. rewrite Hh3. split; [by eapply written_dropped|done].
  - destruct Hx as [Hs ->]. unfold shut. rewrite Hs. wp_step. wp_step. wp_step.
    eapply wp_close; [by destruct s|]. wp_step. split; [by destruct s|]. by destruct s.
Qed.

(** A port of the world, whatever the random number. *)
Lemma wp_pick_port e world s (Q : Z -> lstate -> list ProtocolLogin.request -> Prop) :
  world_good world -> (forall n, 0 <= rand e n < 2 ^ 24) ->
  (forall port n, port ∈ World.ports world -> Q port (mk (io s) (manager s) (pool s) n) []) -> wp (pick_port e world) Q s.
Proof.
  intros [_ [Hne Hlen]] Hr HQ. unfold pick_port. repeat wp_step.
  assert (0 < zlen (World.ports world)) as Hpos by (destruct (World.ports world); [done|rewrite zlen_cons; pose proof (zlen_nonneg l); lia]).
  rewrite (wrapu_small 64), (wraps_small 32) by lia.
  pose proof (Tools.random_range_bounds (rand e (drawn s)) 0 (zlen (World.ports world) - 1)) as Hrange.
  rewrite decide_True in Hrange by lia. destruct Hrange as (i & Hi & Hb); [apply Hr|lia|lia|].
  eapply wp_lift; [done|]. rewrite (proj2 (Z.ltb_ge i 0)) by lia.
  destruct (lookup_lt_is_Some_2 (World.ports world) (Z.to_nat i)) as [port Hport]; [unfold zlen in *; lia|].
  eapply wp_lift; [done|]. apply HQ. by eapply list_elem_of_lookup_2.
Qed.

(** ** The list of characters *)

Inductive character_entry (e : env) : cstring * Character.t -> list NetworkMessage.field -> Prop :=
| character_entry_intro key c world port :
    Character.server c = Some world -> port ∈ World.ports world ->
    character_entry e (key, c)
      [string (Character.name c); string (character_status e c world); uint32 (World.address world); uint16 port].

Inductive broadcast_entry : cstring * (bool * (World.t * Z)) -> list NetworkMessage.field -> Prop :=
| broadcast_entry_intro name star world level port :
    port ∈ World.ports world ->
    broadcast_entry (name, (star, (world, level)))
      [string name; string (dec level ++ (if star : bool then $"*" else [])); uint32 (World.address world); uint16 port].

(** The message is being written, and nothing else has changed since [s]. *)
Definition only_written (p c id : nat) (content : list Z) (s s' : lstate) : Prop :=
  filling p c id content (pool s') /\ manager s' = manager s /\ io s' = io s.

(** A loop of writes: each item adds its fields. *)
Lemma wp_write_all {X} (f : X -> lproc unit) (P : X -> Prop) (entry : X -> list NetworkMessage.field -> Prop) p c id :
  (forall x content s, P x -> filling p c id content (pool s) ->
     wp (f x) (fun _ s' out => out = [] /\ exists fs, entry x fs /\ only_written p c id (script content fs) s s') s) ->
  forall xs content s, Forall P xs -> filling p c id content (pool s) ->
    wp (for_each f xs) (fun _ s' out => out = [] /\ exists fss, Forall2 entry xs fss /\
      only_written p c id (script content (concat fss)) s s') s.
Proof.
  intros Hf xs. induction xs as [|x xs IH]; intros content s HP Hs; cbn [for_each].
  - wp_step. split; [done|]. exists []. split; [done|]. by split_and!.
  - apply Forall_cons in HP as [Hx Hxs]. wp_step. eapply wp_mono; [by apply Hf|].
    intros [] s1 o1 (-> & fs & Hfs & Hf1 & Hm1 & Hi1). eapply wp_mono; [by apply IH|].
    intros [] s2 o2 (-> & fss & Hfss & Hf2 & Hm2 & Hi2). split; [done|]. exists (fs :: fss). split; [by constructor|].
    cbn [concat]. rewrite script_app. split_and!; [done|congruence|congruence].
Qed.

Lemma wp_write_character e p c id entry content s :
  env_ok e -> character_good (io_env e) entry.2 -> filling p c id content (pool s) ->
  wp (write_character e id entry) (fun _ s' out => out = [] /\ exists fs, character_entry e entry fs /\
    only_written p c id (script content fs) s s') s.
Proof.
  intros He [[(world & Hw & Hin) _] Hn] Hs. destruct entry as [key ch]. cbn [snd] in *.
  assert (world_good world) as Hgood by (by apply (proj1 (Forall_forall _ _) (env_worlds _ He))).
  unfold write_character. cbn [snd]. wp_step. eapply wp_lift; [done|]. wp_step. eapply wp_write; [exact Hs| |].
  { repeat constructor; cbn; [done|]. unfold character_status. repeat case_match; auto using lit_bytes_ok. apply Hgood. }
  intros x1 Hf1. wp_step. eapply wp_pick_port; [done|apply He|]. intros port n Hport.
  eapply wp_write; [exact Hf1|repeat constructor|]. intros x2 Hf2. split; [done|].
  eexists. split; [by constructor|]. rewrite <- script_app in Hf2. by split_and!.
Qed.

Definition broadcast_good (b : cstring * (bool * (World.t * Z))) : Prop := bytes_ok b.1 /\ world_good b.2.2.1.

Lemma wp_write_broadcast e p c id b content s :
  env_ok e -> broadcast_good b -> filling p c id content (pool s) ->
  wp (write_broadcast e id b) (fun _ s' out => out = [] /\ exists fs, broadcast_entry b fs /\
    only_written p c id (script content fs) s s') s.
Proof.
  intros He [Hn Hw] Hs. destruct b as [name [star [world level]]]. cbn [fst snd] in *.
  unfold write_broadcast. wp_step. eapply wp_write; [exact Hs| |].
  { repeat constructor; cbn; [done|]. apply Forall_app. split; [apply dec_bytes_ok|]. destruct star; [apply (lit_bytes_ok "*")|constructor]. }
  intros x1 Hf1. wp_step. eapply wp_pick_port; [done|apply He|]. intros port n Hport.
  eapply wp_write; [exact Hf1|repeat constructor|]. intros x2 Hf2. split; [done|].
  eexists. split; [by constructor|]. rewrite <- script_app in Hf2. by split_and!.
Qed.

Lemma add_broadcast_answers defaultWorld r tmp :
  (forall w, defaultWorld = Some w -> world_good w) -> dbres_ok r -> Forall broadcast_good tmp ->
  AccountLaws.answers (DB := DB) (add_broadcast defaultWorld r tmp) (Forall broadcast_good).
Proof.
  intros Hd Hr Ht. unfold add_broadcast. answers_next b Hb. destruct defaultWorld as [w|]; [|by apply answers_ret].
  destruct (_ =? 1); [|by apply answers_ret]. answers_next nm Hnm. answers_next level Hlevel. apply answers_ret.
  apply Forall_forall. intros kv [->|Hin]%StdMap.elem_insert; [|by apply (proj1 (Forall_forall _ _) Ht)].
  split; [done|]. by apply Hd.
Qed.

(** The broadcasts the database lists. *)
Definition broadcast_list (e : env) (x : IO.t DB) (entries : list NetworkMessage.field) : Prop :=
  exists x1 x2 result, IO.local (io_env e) x = Some (tt, x1, []) /\
    IO.storeQuery (io_env e) broadcasts_query x1 = Some (result, x2, []) /\
    match result with
    | None => entries = [char 0]
    | Some r => exists tmp x3 fss,
        IO.do_rows (add_broadcast (Worlds.getFirstWorld (worldList e))) r [] x2 = Some (tmp, x3, []) /\
        Forall2 broadcast_entry tmp fss /\ entries = char (u8 (zlen tmp)) :: concat fss
    end.

(** The fields of the list of an account. *)
Definition listing (e : env) (x : IO.t DB) (account : Account.t) (fs : list NetworkMessage.field) : Prop :=
  exists motd entries, format_motd e = Some motd /\
    fs = [char 0x14; string motd; char 0x64] ++ entries ++ [premium_field e account] /\
    if Account.number account =? 10 then broadcast_list e x entries
    else exists fss, Forall2 (character_entry e) (Account.charList account) fss /\
      entries = char (u8 (zlen (Account.charList account))) :: concat fss.

Lemma wp_write_broadcasts e p c id content s :
  env_ok e -> io_ok (io s) -> filling p c id content (pool s) ->
  wp (write_broadcasts e id) (fun _ s' out => out = [] /\ io_ok (io s') /\ manager s' = manager s /\
    exists entries, broadcast_list e (io s) entries /\ filling p c id (script content entries) (pool s')) s.
Proof.
  intros He Hio Hs. unfold write_broadcasts. wp_step.
  eapply wp_onIO; [apply answers_local|done|]. intros [] x1 E1 _ Hx1. wp_step.
  eapply wp_onIO; [apply answers_storeQuery|done|]. intros result x2 E2 Hr Hx2. destruct result as [r|].
  - wp_step. eapply wp_onIO; [|done|].
    { apply (answers_do_rows (Forall broadcast_good)); [|by apply Hr|constructor].
      intros r0 tmp Hr0 Ht. apply add_broadcast_answers; [|done|done].
      intros w Hw%IO.getFirstWorld_elem. by apply (proj1 (Forall_forall _ _) (env_worlds _ He)). }
    intros tmp x3 E3 Htmp Hx3. wp_step. eapply wp_write; [exact Hs|repeat constructor|]. intros y1 Hf1.
    eapply wp_mono.
    { apply (wp_write_all (write_broadcast e id) broadcast_good broadcast_entry p c id); [|exact Htmp|exact Hf1].
      intros b content' s' Hb Hs'. by apply wp_write_broadcast. }
    intros [] s4 o4 (-> & fss & Hfss & Hf4 & Hm4 & Hi4). split; [done|]. rewrite Hi4, Hm4. split; [done|]. split; [done|].
    exists (char (u8 (zlen tmp)) :: concat fss). split; [|exact Hf4]. exists x1, x2, (Some r). split_and!; [done..|].
    exists tmp, x3, fss. by split_and!.
  - eapply wp_write; [exact Hs|repeat constructor|]. intros y1 Hf1. split_and!; [done..|].
    exists [char 0]. split; [|exact Hf1]. by exists x1, x2, None.
Qed.

Lemma format_motd_bytes e motd : env_ok e -> format_motd e = Some motd -> bytes_ok motd.
Proof.
  intros He. unfold format_motd. destruct (_ <=? _); [|done]. intros [= <-].
  apply Forall_app. split; [apply dec_bytes_ok|]. apply Forall_cons. split; [by compute|]. apply c_str_bytes.
  pose proof (env_strings _ He) as Hs. rewrite !Forall_cons in Hs. tauto.
Qed.

Lemma wp_write_list e p c id account s :
  env_ok e -> io_ok (io s) -> loaded_ok (io_env e) account -> filling p c id [] (pool s) ->
  wp (write_list e id account) (fun _ s' out => out = [] /\ io_ok (io s') /\ manager s' = manager s /\
    exists fs, listing e (io s) account fs /\ filling p c id (script [] fs) (pool s')) s.
Proof.
  intros He Hio Ha Hs. destruct (proj2 (format_motd_fits e) (env_motd _ He)) as [motd Hmotd]. pose proof (format_motd_bytes e motd He Hmotd) as Hmb.
  unfold write_list. wp_step. eapply wp_write; [exact Hs|repeat constructor|]. intros y1 Hf1.
  wp_step. eapply wp_lift; [done|]. wp_step. eapply wp_write; [exact Hf1|by repeat constructor|]. intros y2 Hf2.
  wp_step. eapply wp_write; [exact Hf2|repeat constructor|]. intros y3 Hf3. rewrite <- !script_app in Hf3. cbn [app] in Hf3.
  wp_step. destruct (Account.number account =? 10) eqn:E10.
  - eapply wp_mono; [by eapply wp_write_broadcasts|]. intros [] s4 o4 (-> & Hio4 & Hm4 & entries & Hl & Hf4).
    eapply wp_write; [exact Hf4|repeat constructor|]. intros y5 Hf5. split; [done|]. split; [done|]. split; [done|].
    rewrite <- !script_app in Hf5. eexists. split; [|exact Hf5]. exists motd, entries. rewrite E10. by split_and!.
  - unfold write_characters. wp_step. eapply wp_write; [exact Hf3|repeat constructor|]. intros y4 Hf4.
    eapply wp_mono.
    { apply (wp_write_all (write_character e id) (fun entry => character_good (io_env e) entry.2) (character_entry e) p c id);
        [|exact Ha|exact Hf4]. intros entry content' s' Hc Hs'. by apply wp_write_character. }
    intros [] s5 o5 (-> & fss & Hfss & Hf5 & Hm5 & Hi5). eapply wp_write; [exact Hf5|repeat constructor|]. intros y6 Hf6.
    split; [done|]. cbn. rewrite Hi5, Hm5. split; [done|]. split; [done|]. rewrite <- !script_app in Hf6.
    eexists. split; [|exact Hf6]. exists motd, (char (u8 (zlen (Account.charList account))) :: concat fss).
    rewrite E10. split; [done|]. split; [done|]. by exists fss.
Qed.

(** ** The answer *)

Abbreviation password_accepted := (password_accepted MD5 SHA1 SHA256 SHA512).
Abbreviation delegate := (delegate MD5 SHA1 SHA256 SHA512).

(** Who banned an account, as the refusal names it: the server itself, or the player with
    the number [bannedBy]; "Automatic " again, when there is no such player. *)
Definition ban_author (e : env) (ban : Ban.t) (x : IO.t DB) (name_ : cstring) : Prop :=
  if Ban.bannedBy ban =? 0
  then name_ = if decide (Ban.expiresAt ban = []) then $"Automatic deletion" else $"Automatic banishment"
  else exists found x', IO.getNameByGuid (io_env e) (Ban.bannedBy ban) ($"Automatic ") x = Some ((found, name_), x', []).

(** The reply to a client's name and password: its fields, and the attempt recorded. *)
Inductive replies (e : env) (name password : cstring) (clientIp : Z) (x : IO.t DB) :
    option bool -> list NetworkMessage.field -> Prop :=
| reply_ip_banned b x1 x2 :
    IO.checkBanishments (io_env e) x = Some (b, x1, []) ->
    IO.isIpBanished (io_env e) clientIp x1 = Some (true, x2, []) ->
    replies e name password clientIp x None (refusal 0x0A ($"Your IP is banished!"))
| reply_invalid b x1 x2 loaded account x3 :
    IO.checkBanishments (io_env e) x = Some (b, x1, []) ->
    IO.isIpBanished (io_env e) clientIp x1 = Some (false, x2, []) ->
    IO.loadAccount (io_env e) Account.new name x2 = Some ((loaded, account), x3, []) ->
    (loaded = false \/ Account.number account <> 10 /\ password_accepted e account password = false) ->
    replies e name password clientIp x (Some false) (refusal 0x0A ($"Invalid account name or password."))
| reply_account_banned b x1 x2 account x3 ban x4 name_ :
    IO.checkBanishments (io_env e) x = Some (b, x1, []) ->
    IO.isIpBanished (io_env e) clientIp x1 = Some (false, x2, []) ->
    IO.loadAccount (io_env e) Account.new name x2 = Some ((true, account), x3, []) ->
    (Account.number account = 10 \/ password_accepted e account password = true) ->
    IO.getBanishment (io_env e) (Ban.mk BAN_ACCOUNT 0 0 (dec (Account.number account)) [] [] [] [] false) x3 =
      Some ((true, ban), x4, []) ->
    ban_author e ban x4 name_ ->
    replies e name password clientIp x None (refusal 0x0A (ban_message ban name_))
| reply_no_characters b x1 x2 account x3 ban x4 account' x5 :
    IO.checkBanishments (io_env e) x = Some (b, x1, []) ->
    IO.isIpBanished (io_env e) clientIp x1 = Some (false, x2, []) ->
    IO.loadAccount (io_env e) Account.new name x2 = Some ((true, account), x3, []) ->
    (Account.number account = 10 \/ password_accepted e account password = true) ->
    IO.getBanishment (io_env e) (Ban.mk BAN_ACCOUNT 0 0 (dec (Account.number account)) [] [] [] [] false) x3 =
      Some ((false, ban), x4, []) ->
    IO.updatePremium (io_env e) account x4 = Some (account', x5, []) ->
    Account.number account' <> 10 -> Account.charList account' = [] ->
    replies e name password clientIp x None (refusal 0x0A (no_characters_message e))
| reply_list b x1 x2 account x3 ban x4 account' x5 fs :
    IO.checkBanishments (io_env e) x = Some (b, x1, []) ->
    IO.isIpBanished (io_env e) clientIp x1 = Some (false, x2, []) ->
    IO.loadAccount (io_env e) Account.new name x2 = Some ((true, account), x3, []) ->
    (Account.number account = 10 \/ password_accepted e account password = true) ->
    IO.getBanishment (io_env e) (Ban.mk BAN_ACCOUNT 0 0 (dec (Account.number account)) [] [] [] [] false) x3 =
      Some ((false, ban), x4, []) ->
    IO.updatePremium (io_env e) account x4 = Some (account', x5, []) ->
    (Account.number account' = 10 \/ Account.charList account' <> []) ->
    listing e x5 account' fs ->
    replies e name password clientIp x (Some true) fs.

(** The manager after the reply. *)
Definition recorded (e : env) (clientIp : Z) (attempt : option bool) (m : ConnectionManager.t) : ConnectionManager.t :=
  match attempt with
  | Some success => ConnectionManager.addAttempt (manager_config e) (now e) clientIp protocolId success m
  | None => m
  end.

(** What the client of connection [c] is told, and what remains. *)
Definition answered (e : env) (p c : nat) (name password : cstring) (clientIp : Z) (s s' : lstate)
    (out : list ProtocolLogin.request) : Prop :=
  ready p c s' /\
  (shut s = true -> out = [Connection_close c]) /\
  (shut s = false -> exists attempt fs, replies e name password clientIp (io s) attempt fs /\
     manager s' = recorded e clientIp attempt (manager s) /\ delivers e p c (Some (script [] fs)) out s').

Lemma wp_refuse e p c message attempt name password clientIp s s0 :
  env_ok e -> ready p c s -> bytes_ok message -> shut s = shut s0 ->
  manager s = recorded e clientIp attempt (manager s0) ->
  replies e name password clientIp (io s0) attempt (refusal 0x0A message) ->
  wp (disconnectClient e p 0x0A message) (fun _ s' out => answered e p c name password clientIp s0 s' out) s.
Proof.
  intros He Hr Hm Hs Hmgr Hrep. eapply wp_mono; [by eapply wp_disconnectClient|].
  intros [] s' out (Hr' & _ & Hm' & Hd). rewrite Hs in Hd. split; [done|]. split.
  - intros Hsh. by rewrite Hsh in Hd.
  - intros Hsh. rewrite Hsh in Hd. exists attempt, (refusal 0x0A message). split_and!; [done|congruence|done].
Qed.

Lemma ban_message_bytes ban name_ : ban_strings ban -> bytes_ok name_ -> bytes_ok (ban_message ban name_).
Proof.
  intros (H1 & H2 & H3) Hn. unfold ban_message. 
  repeat first [apply Forall_app; split | apply lit_bytes_ok | done | apply Forall_cons; split; [by compute|] | apply Forall_nil; done
    | case_bool_decide].
Qed.

Lemma no_characters_bytes e : env_ok e -> bytes_ok (no_characters_message e).
Proof.
  intros He. pose proof (env_strings _ He) as Hs. rewrite !Forall_cons in Hs. destruct Hs as (H1 & H2 & H3 & _).
  unfold no_characters_message.
  repeat first [apply Forall_app; split | apply lit_bytes_ok | done | apply Forall_cons; split; [by compute|] | apply Forall_nil; done].
Qed.

(** The list is written, sent and dropped, and the connection is closed. *)
Lemma wp_send_list e p c account s :
  env_ok e -> ready p c s -> loaded_ok (io_env e) account ->
  wp (output ← onPool (OutputMessagePool.getOutputMessage (memory e) p false);
      _ ← (match output with
           | Some id =>
               _ ← write_list e id account;
               _ ← onPool (OutputMessagePool.send (how e) id);
               onPool (OutputMessagePool.drop_pointer id)
           | None => skip
           end);
      close p)
    (fun _ s' out => ready p c s' /\ manager s' = manager s /\
       (shut s = true -> out = [Connection_close c]) /\
       (shut s = false -> exists fs, listing e (io s) account fs /\ delivers e p c (Some (script [] fs)) out s')) s.
Proof.
  intros He [Hb Hl Hio] Ha. wp_step. apply wp_onPool. eapply wp_mono.
  { apply (take_message (memory e) p c); [done|apply He|done]. }
  intros [id|] x o [-> Hx].
  - destruct Hx as [Hs Hf]. unfold shut. rewrite Hs. wp_step. wp_step.
    eapply wp_mono; [by apply wp_write_list|]. intros [] s1 o1 (-> & Hio1 & Hm1 & fs & Hfs & Hf1).
    wp_step. apply wp_onPool. eapply wp_mono; [by eapply send_message|].
    intros [] x2 o2 (Hb2 & Hl2 & Hh2 & m & Hsent & Hpl & Hwr). apply wp_onPool.
    eapply wp_mono; [by apply (drop_message p c)|]. intros [] x3 o3 (-> & Hb3 & Hl3 & Hh3 & Hp3 & Hs3).
    eapply wp_close; [exact Hl3|].
    split; [by split|]. split; [done|]. split; [done|]. intros _. exists fs. split; [done|].
    exists id, m, o2. split; [done|]. split; [done|]. cbn. rewrite app_nil_r. split; [done|].
    intros Hw. destruct (Hwr Hw) as [Hwr2 Hin]. rewrite Hh3. split; [by eapply written_dropped|done].
  - destruct Hx as [Hs ->]. unfold shut. rewrite Hs. wp_step. wp_step. eapply wp_close; [by destruct s|].
    split; [by split; destruct s|]. split; [by destruct s|]. split; [done|done].
Qed.

Lemma wp_ban_author e ban x :
  io_ok x ->
  exists name_ x', ban_author e ban x name_ /\ bytes_ok name_ /\ io_ok x' /\
   forall s (Q : cstring -> lstate -> list ProtocolLogin.request -> Prop),
    Q name_ (setIo x' s) [] ->
    wp (if Ban.bannedBy ban =? 0
        then mret ($"Automatic " ++ (if bool_decide (Ban.expiresAt ban = []) then $"deletion" else $"banishment"))
        else '(_, name_) ← onIO (IO.getNameByGuid (io_env e) (Ban.bannedBy ban) ($"Automatic ")); mret name_) Q (setIo x s).
Proof.
  intros Hx. unfold ban_author. destruct (_ =? 0).
  - exists ($"Automatic " ++ (if bool_decide (Ban.expiresAt ban = []) then $"deletion" else $"banishment")), x.
    split_and!; [| |done|].
    + case_bool_decide; by case_decide.
    + apply Forall_app. split; [apply (lit_bytes_ok "Automatic ")|].
      case_bool_decide; [apply (lit_bytes_ok "deletion")|apply (lit_bytes_ok "banishment")].
    + intros s Q HQ. by wp_step.
  - destruct (getNameByGuid_answers (io_env e) (Ban.bannedBy ban) ($"Automatic ") (lit_bytes_ok "Automatic ") x Hx)
      as ([ok name_] & x' & E5 & Hn & Hx'). exists name_, x'. split_and!; [by exists ok, x'|done|done|]. intros s Q HQ.
    wp_step. exists (ok, name_), (setIo x' s), []. unfold onIO. cbn [io setIo]. rewrite E5. split; [done|]. by wp_step.
Qed.

Lemma wp_delegate e p c name password clientIp version s :
  env_ok e -> ready p c s ->
  wp (delegate e p name password clientIp version)
    (fun _ s' out => answered e p c name password clientIp s s' out) s.
Proof.
  intros He Hr. unfold ProtocolLogin.delegate.
  wp_step. eapply wp_onIO; [apply checkBanishments_answers|apply Hr|]. intros b x1 E1 _ Hx1.
  wp_step. eapply wp_onIO; [apply isIpBanished_answers|done|]. intros banned x2 E2 _ Hx2.
  assert (forall x, io_ok x -> ready p c (setIo x s)) as Hready by (intros x Hx; destruct Hr; by split).
  destruct banned.
  { eapply (wp_refuse _ _ _ _ None); try done; [by apply Hready|apply (lit_bytes_ok "Your IP is banished!")|].
    by eapply reply_ip_banned. }
  wp_step. eapply wp_onIO; [apply loadAccount_answers|done|]. intros [loaded account] x3 E3 Ha Hx3. cbn [snd] in Ha.
  destruct (negb loaded || _) eqn:Eacc.
  { wp_step. unfold addAttempt. wp_step.
    eapply (wp_refuse _ _ _ _ (Some false)); try done.
    - destruct (Hready x3 Hx3). by split.
    - apply (lit_bytes_ok "Invalid account name or password.").
    - eapply reply_invalid; try done. rewrite orb_true_iff, andb_true_iff, !negb_true_iff, Z.eqb_neq in Eacc. exact Eacc. }
  rewrite orb_false_iff, andb_false_iff, !negb_false_iff, Z.eqb_eq in Eacc. destruct Eacc as [-> Hauth].
  wp_step. eapply wp_onIO; [by apply getBanishment_answers|done|]. intros [found ban] x4 E4 Hban Hx4. cbn [snd] in Hban.
  destruct found.
  { wp_step. destruct (wp_ban_author e ban x4 Hx4) as (name_ & x5 & Hau & Hn & Hx5 & Hname).
    apply Hname. eapply (wp_refuse _ _ _ _ None); try done; [by apply Hready|by apply ban_message_bytes|].
    by eapply reply_account_banned. }
  wp_step. eapply wp_onIO; [apply updatePremium_answers|done|]. intros account' x5 E5 [Hnum Hchars] Hx5.
  destruct (negb (Account.number account' =? 10) && _) eqn:Eno.
  { rewrite andb_true_iff, negb_true_iff, Z.eqb_neq, bool_decide_eq_true in Eno. destruct Eno as [Hn Hc].
    eapply (wp_refuse _ _ _ _ None); try done; [by apply Hready|by apply no_characters_bytes|].
    by eapply reply_no_characters. }
  rewrite andb_false_iff, negb_false_iff, Z.eqb_eq, bool_decide_eq_false in Eno.
  wp_step. unfold addAttempt. wp_step.
  assert (loaded_ok (io_env e) account') as Ha' by (unfold loaded_ok; by rewrite Hchars).
  eapply wp_mono.
  { apply wp_send_list; [done| |exact Ha']. destruct (Hready x5 Hx5). by split. }
  intros [] s' out (Hr' & Hm' & Hsh & Hopen). split; [done|]. split; [exact Hsh|]. intros Hs.
  destruct (Hopen Hs) as (fs & Hfs & Hd). exists (Some true), fs. split; [|by split]. by eapply reply_list.
Qed.

End Handlers.
End LoginLaws.
