(* ===== verification/LoginPacket.v ===== *)
(** * The first packet of a login, and the properties of the login protocol *)
From S2P Require Import Prelude Proc CString Bytes Definitions StdMap NetMessage OutMessage Proto Pool PoolLaws PoolRun PoolSend Config WorldList Tools Db Accounts AccountLaws ConnMgr Login LoginLaws.

Module LoginPacket.
Import PoolLaws ProtocolLogin AccountLaws LoginLaws.

Section Packet.
Context {DB : Type} `{!Database.Server DB} `{!LawfulServer DB}.
Context (rsa : list Z -> option (list Z)).

Abbreviation lstate := (ProtocolLogin.state (DB := DB)).
Abbreviation onRecvFirstMessage := (ProtocolLogin.onRecvFirstMessage (DB := DB) rsa).

(** A private-key operation answers 128 bytes, or fails. *)
Definition rsa_ok : Prop := forall bs to, zlen bs = 128 -> rsa bs = Some to -> zlen to = 128 /\ bytes_ok to.

(** ** Any packet *)

Lemma wp_lift_get n m s (Q : Z * NetworkMessage.t -> lstate -> list ProtocolLogin.request -> Prop) :
  NetworkMessage.readable m -> 0 <= n ->
  (forall v m', NetworkMessage.readable m' -> NetworkMessage.m_size m' = NetworkMessage.m_size m -> Q (v, m') s []) ->
  wp (lift (NetworkMessage.get n false m)) Q s.
Proof.
  intros Hr Hn HQ. destruct (NetworkMessage.get_readable n false m Hr Hn) as (v & m' & E & Hr').
  eapply wp_lift; [exact E|]. apply HQ; [done|]. unfold NetworkMessage.get in E. inv_opt; done.
Qed.

Lemma wp_onProtocol_ready p c f s (Q : unit -> lstate -> list ProtocolLogin.request -> Prop) :
  ready p c s ->
  (forall pr, Protocol.m_refCount (f pr) = Protocol.m_refCount pr /\ Protocol.m_connection (f pr) = Protocol.m_connection pr /\
     Protocol.m_outputBuffer (f pr) = Protocol.m_outputBuffer pr) ->
  (forall s', ready p c s' -> manager s' = manager s -> io s' = io s -> shut s' = shut s ->
     (forall pr, OutputMessagePool.protocols (pool s) !! p = Some pr -> OutputMessagePool.protocols (pool s') !! p = Some (f pr)) ->
     Q tt s' []) ->
  wp (onPool (OutputMessagePool.onProtocol p f)) Q s.
Proof.
  intros [Hb Hl Hio] Hf HQ. pose proof Hl as (pr & Hp & Hc)%linked_protocol. destruct (Hf pr) as (Hr & Hcn & Hbuf).
  apply wp_onPool. eapply wp_onProtocol; [done|]. apply HQ; try done.
  - split; [|apply linked_protocol; exists (f pr); cbn; by rewrite lookup_insert_eq, Hcn|done].
    apply (PoolRun.configure_books (pool s) p pr); auto.
  - intros pr' Hp'. cbn. rewrite lookup_insert_eq. congruence.
Qed.

(** What the first packet leads to. *)
Definition first_outcome (e : env) (p c : nat) (s s' : lstate) (out : list ProtocolLogin.request) : Prop :=
  ready p c s' /\ io s' = io s /\ manager s' = manager s /\
  (delivers e p c None out s' \/
   (exists message, delivers e p c (if shut s then None else Some (script [] (refusal 0x0A message))) out s') \/
   (exists name password version, out = [AddTask_delegate p name password (remote_ip e c) version] /\ name <> [] /\
      (CLIENT_VERSION_MIN <= version <= CLIENT_VERSION_MAX \/ version = CLIENT_VERSION_CUSTOM))).

Lemma version_bytes : bytes_ok CLIENT_VERSION_STRING.
Proof. repeat first [apply Forall_app; split | apply lit_bytes_ok | apply Forall_cons; split; [by compute|] | apply Forall_nil; done]. Qed.

Lemma wp_reject e p c message s s0 :
  env_ok e -> ready p c s -> bytes_ok message -> shut s = shut s0 -> io s = io s0 -> manager s = manager s0 ->
  wp (disconnectClient e p 0x0A message) (fun _ s' out => first_outcome e p c s0 s' out) s.
Proof.
  intros He Hr Hm Hs Hi Hmg. eapply wp_mono; [by eapply wp_disconnectClient|].
  intros [] s' out (Hr' & Hi' & Hm' & Hd). split; [done|]. split; [congruence|]. split; [congruence|].
  right. left. exists message. by rewrite <- Hs.
Qed.

Lemma wp_checkClient e p c version dat spr pic name password (s s0 : lstate) :
  env_ok e -> ready p c s -> name <> [] -> shut s = shut s0 -> io s = io s0 -> manager s = manager s0 ->
  wp (checkClient e p version dat spr pic name password) (fun _ s' out => first_outcome e p c s0 s' out) s.
Proof.
  intros He Hr Hname Hs Hi Hm. unfold checkClient.
  destruct (_ && _) eqn:Ev; [apply (wp_reject e p c _ s s0); auto using version_bytes|].
  repeat (case_match; [apply (wp_reject e p c _ s s0); auto using version_bytes|]).
  pose proof (ready_linked _ _ _ Hr) as (pr & Hp & Hc)%linked_protocol.
  wp_step. unfold getConnection. wp_step. apply wp_onPool. eapply wp_protocol; [done|]. wp_step. rewrite Hc.
  wp_step. eapply wp_lift; [done|]. wp_step. wp_step.
  assert (ready p c (setPool (pool s) s)) as Hr' by (by destruct s).
  destruct (ConnectionManager.isDisabled _ _ _ _ _).
  - eapply wp_mono; [apply (wp_reject e p c _ (setPool (pool s) s) s0); try done; apply (lit_bytes_ok
      "Too many connections attempts from your IP address, please try again later.")|]. done.
  - wp_step. split; [done|]. split; [done|]. split; [done|]. right. right. eexists _, password, version. split; [done|].
    split; [done|]. revert Ev. unfold CLIENT_VERSION_MIN, CLIENT_VERSION_MAX, CLIENT_VERSION_CUSTOM.
    rewrite andb_false_iff, orb_false_iff, negb_false_iff, !Z.ltb_ge, Z.eqb_eq. tauto.
Qed.

(** After the block is decrypted. *)
Lemma wp_readLogin e p c version dat spr pic msg (s : lstate) :
  env_ok e -> ready p c s -> NetworkMessage.readable msg ->
  wp (readLogin e p version dat spr pic msg) (fun m s' out => NetworkMessage.wf m /\ first_outcome e p c s s' out) s.
Proof.
  intros He Hr0 Hmsg0. unfold readLogin.
  wp_step. apply wp_lift_get; [done|lia|]. intros k0 m6 H6 _. cbv beta iota.
  wp_step. apply wp_lift_get; [done|lia|]. intros k1 m7 H7 _. cbv beta iota.
  wp_step. apply wp_lift_get; [done|lia|]. intros k2 m8 H8 _. cbv beta iota.
  wp_step. apply wp_lift_get; [done|lia|]. intros k3 msg1 Hmsg _. cbv beta iota.
  wp_step. eapply wp_onProtocol_ready; [done|done|]. intros s1 R1 M1 I1 SH1 _.
  wp_step. eapply wp_onProtocol_ready; [done|done|]. intros s2 Hr M2 I2 SH2 _.
  destruct (NetworkMessage.getString_readable 0 msg1 Hmsg) as (name & m1 & E1 & Hr1); [lia|].
  destruct (NetworkMessage.getString_readable 0 m1 Hr1) as (password & m2 & E2 & Hr2); [lia|].
  wp_step. eapply wp_lift; [exact E1|]. cbv beta iota. wp_step. eapply wp_lift; [exact E2|]. cbv beta iota zeta.
  wp_step. eapply wp_mono; [apply (wp_checkClient e p c _ _ _ _ _ _ s2 s); try done; try congruence; by case_bool_decide|].
  intros [] s' out Hout. wp_step. split; [apply Hr2|]. cbn. by rewrite app_nil_r.
Qed.

Lemma wp_onRecvFirstMessage e p c msg s :
  env_ok e -> rsa_ok -> ready p c s ->
  NetworkMessage.wf msg -> NetworkMessage.m_position msg + 2 <= NETWORK_MAX_SIZE -> NetworkMessage.m_size msg <= NETWORK_MAX_SIZE ->
  wp (onRecvFirstMessage e p msg) (fun m s' out => NetworkMessage.wf m /\ first_outcome e p c s s' out) s.
Proof.
  intros He Hrsa Hr Hwf Hpos Hsz. unfold ProtocolLogin.onRecvFirstMessage.
  assert (NetworkMessage.readable (NetworkMessage.skip 2 msg)) as Hrd.
  { pose proof (NetworkMessage.wf_position _ Hwf). split; [by apply NetworkMessage.setPosition_wf|].
    cbn. NetworkMessage.consts. rewrite wrapu_small; lia. }
  assert (NetworkMessage.m_size (NetworkMessage.skip 2 msg) = NetworkMessage.m_size msg) as Hsk by done.
  wp_step. apply wp_lift_get; [done|lia|]. intros version m1 H1 S1. cbv beta iota.
  wp_step. apply wp_lift_get; [done|lia|]. intros dat m2 H2 S2. cbv beta iota.
  wp_step. apply wp_lift_get; [done|lia|]. intros spr m3 H3 S3. cbv beta iota.
  wp_step. apply wp_lift_get; [done|lia|]. intros pic m4 H4 S4. cbv beta iota. wp_step.
  destruct H4 as [Hwf4 Hpos4].
  assert (NetworkMessage.m_size m4 <= NETWORK_MAX_SIZE) as Hsz4 by (rewrite S4, S3, S2, S1, Hsk; exact Hsz).
  pose proof (Protocol.RSA_decrypt_cases rsa m4 Hrsa Hwf4 Hsz4) as Hdec.
  assert (forall m, NetworkMessage.wf m ->
    wp (_ ← close p; mret m) (fun m s' out => NetworkMessage.wf m /\ first_outcome e p c s s' out) s) as Hclose.
  { intros m Hm. wp_step. eapply wp_close; [apply Hr|]. wp_step. split; [done|]. split; [done|]. split; [done|].
    split; [done|]. by left. }
  case_decide.
  2:{ eapply wp_lift; [exact Hdec|]. cbv beta iota. by apply Hclose. }
  destruct Hdec as (from & plain & rest & m5 & _ & _ & Hdec & Hwf5 & Hpos5 & _ & _).
  eapply wp_lift; [exact Hdec|]. cbv beta iota. destruct (plain =? 0); cbn [negb]; [|by apply Hclose].
  assert (NetworkMessage.readable m5) as H5 by (split; [done|rewrite Hpos5; by compute]).
  by apply wp_readLogin.
Qed.

(** ** A client's packet *)

(** The message [m] has the bytes [bs] next, at [position]. *)
Record reads (m : NetworkMessage.t) (position : Z) (bs : list Z) : Prop := {
  reads_wf : NetworkMessage.wf m;
  reads_position : NetworkMessage.m_position m = position;
  reads_next : NetworkMessage.contains m bs
}.

Lemma wp_get_field n v rest position m s (Q : Z * NetworkMessage.t -> lstate -> list ProtocolLogin.request -> Prop) :
  reads m position (le_bytes n v ++ rest) -> 0 <= v < 256 ^ Z.of_nat n -> position + Z.of_nat n < NETWORK_MAX_SIZE ->
  (forall m', reads m' (position + Z.of_nat n) rest -> NetworkMessage.m_size m' = NetworkMessage.m_size m -> Q (v, m') s []) ->
  wp (lift (NetworkMessage.get (Z.of_nat n) false m)) Q s.
Proof.
  intros [Hwf Hp Hc] Hv Hb HQ.
  destruct (NetworkMessage.get_contains m (le_bytes n v) rest) as (Hg & Hwf' & Hc' & Hp');
    rewrite ?zlen_le_bytes in *; [done|done|lia|]. rewrite le_value_small in Hg by done.
  eapply wp_lift; [exact Hg|]. apply HQ; [|done]. split; [done| |done]. rewrite Hp', Hp. done.
Qed.

Lemma wp_get_string t rest position m s (Q : cstring * NetworkMessage.t -> lstate -> list ProtocolLogin.request -> Prop) :
  reads m position (NetworkMessage.encode_field (string t) ++ rest) -> bytes_ok t -> position + 2 + zlen t < NETWORK_MAX_SIZE ->
  (forall m', reads m' (position + 2 + zlen t) rest -> Q (t, m') s []) ->
  wp (lift (NetworkMessage.getString false 0 m)) Q s.
Proof.
  intros [Hwf Hp Hc] Ht Hb HQ. cbn [NetworkMessage.encode_field] in Hc. rewrite <- app_assoc in Hc.
  destruct (NetworkMessage.getString_contains m t rest) as (m' & E & Hwf' & Hc' & Hp'); [done|done|done|lia|].
  eapply wp_lift; [exact E|]. apply HQ. split; [done| |done]. rewrite Hp', Hp. done.
Qed.

(** The plain part of the packet after the two bytes of the platform, and the plain block. *)
Definition header_fields (version dat spr pic : Z) : list NetworkMessage.field := [uint16 version; uint32 dat; uint32 spr; uint32 pic].
Definition block_fields (k0 k1 k2 k3 : Z) (name password : cstring) : list NetworkMessage.field :=
  [uint32 k0; uint32 k1; uint32 k2; uint32 k3; string name; string password].

Lemma wp_client_block e p c (s : lstate) version dat spr pic m5 k0 k1 k2 k3 name password filler pr :
  ready p c s -> OutputMessagePool.protocols (pool s) !! p = Some pr ->
  reads m5 1 (NetworkMessage.encode (block_fields k0 k1 k2 k3 name password) ++ filler) ->
  zlen (NetworkMessage.encode (block_fields k0 k1 k2 k3 name password) ++ filler) = 127 ->
  Forall NetworkMessage.field_ok (block_fields k0 k1 k2 k3 name password) ->
  0 <= dat -> 0 <= spr -> 0 <= pic -> name <> [] -> CLIENT_VERSION_MIN <= version <= CLIENT_VERSION_MAX ->
  ConnectionManager.isDisabled (manager_config e) (now e) (remote_ip e c) protocolId (manager s) = false ->
  wp (readLogin e p version dat spr pic m5) (fun m s' out =>
    NetworkMessage.wf m /\ out = [AddTask_delegate p name password (remote_ip e c) version] /\ ready p c s' /\
    io s' = io s /\ shut s' = shut s /\
    OutputMessagePool.protocols (pool s') !! p =
      Some (Protocol.setXTEAKey [k0; k1; k2; k3] (Protocol.enableXTEAEncryption pr))) s.
Proof.
  intros Hr Hpr R5 Hlen Hok Hd Hsp Hpi Hname Hver Hdis. unfold readLogin.
  unfold block_fields in Hok. rewrite !Forall_cons in Hok. cbn [NetworkMessage.field_ok] in Hok.
  destruct Hok as ([_ K0] & [_ K1] & [_ K2] & [_ K3] & [N1 N2] & [P1 P2] & _). rewrite zlen_app in Hlen.
  unfold block_fields in R5, Hlen. rewrite !NetworkMessage.encode_cons in R5, Hlen. rewrite <- !app_assoc in R5.
  change (NetworkMessage.encode []) with (@nil Z) in R5, Hlen. rewrite !zlen_app, zlen_nil in Hlen.
  pose proof (zlen_nonneg filler). pose proof (zlen_nonneg name). pose proof (zlen_nonneg password).
  assert (36 + zlen name + zlen password <= 16384) as Hfit.
  { cbn [NetworkMessage.encode_field] in Hlen. rewrite !zlen_app, !zlen_le_bytes in Hlen. lia. }
  clear Hlen.
  wp_step. eapply (wp_get_field 4); [exact R5|done|NetworkMessage.consts; lia|]. intros m6 R6 _. cbv beta iota.
  wp_step. eapply (wp_get_field 4); [exact R6|done|NetworkMessage.consts; lia|]. intros m7 R7 _. cbv beta iota.
  wp_step. eapply (wp_get_field 4); [exact R7|done|NetworkMessage.consts; lia|]. intros m8 R8 _. cbv beta iota.
  wp_step. eapply (wp_get_field 4); [exact R8|done|NetworkMessage.consts; lia|]. intros m9 R9 _. cbv beta iota.
  wp_step. eapply wp_onProtocol_ready; [done|done|]. intros s1 Q1 M1 I1 SH1 E1. specialize (E1 pr Hpr).
  wp_step. eapply wp_onProtocol_ready; [done|done|]. intros s2 Q2 M2 I2 SH2 E2. specialize (E2 _ E1).
  wp_step. eapply wp_get_string; [exact R9|done|NetworkMessage.consts; lia|]. intros m10 R10. cbv beta iota.
  wp_step. eapply wp_get_string; [exact R10|done|NetworkMessage.consts; lia|]. intros m11 R11. cbv beta iota zeta. wp_step. unfold checkClient.
  rewrite bool_decide_eq_false_2 by done.
  unfold CLIENT_VERSION_MIN, CLIENT_VERSION_MAX, CLIENT_VERSION_SPR, CLIENT_VERSION_DAT, CLIENT_VERSION_PIC in *.
  rewrite !(proj2 (Z.ltb_ge _ _)) by lia. cbn [andb orb].
  pose proof (ready_linked _ _ _ Q2) as (pr2 & Hp2 & Hc2)%linked_protocol.
  wp_step. unfold getConnection. wp_step. apply wp_onPool. eapply wp_protocol; [done|]. wp_step. rewrite Hc2.
  wp_step. eapply wp_lift; [done|]. cbv beta iota zeta. wp_step. wp_step. cbn [manager setPool]. rewrite M2, M1, Hdis. wp_step. wp_step.
  split; [apply R11|]. split; [done|]. split; [by destruct s2|]. split; [cbn; congruence|]. split; [|exact E2].
  unfold shut in *. cbn. congruence.
Qed.

Lemma wp_client_packet e p c msg (s : lstate) version dat spr pic block k0 k1 k2 k3 name password filler pr :
  env_ok e -> rsa_ok -> ready p c s -> OutputMessagePool.protocols (pool s) !! p = Some pr ->
  NetworkMessage.wf msg -> NetworkMessage.m_position msg + 144 <= NETWORK_MAX_SIZE ->
  NetworkMessage.m_size msg = NetworkMessage.m_position msg + 144 ->
  NetworkMessage.contains (NetworkMessage.skip 2 msg) (NetworkMessage.encode (header_fields version dat spr pic) ++ block) ->
  zlen block = 128 -> rsa block = Some (0 :: NetworkMessage.encode (block_fields k0 k1 k2 k3 name password) ++ filler) ->
  Forall NetworkMessage.field_ok (header_fields version dat spr pic ++ block_fields k0 k1 k2 k3 name password) ->
  name <> [] -> CLIENT_VERSION_MIN <= version <= CLIENT_VERSION_MAX ->
  ConnectionManager.isDisabled (manager_config e) (now e) (remote_ip e c) protocolId (manager s) = false ->
  wp (onRecvFirstMessage e p msg) (fun m s' out =>
    NetworkMessage.wf m /\ out = [AddTask_delegate p name password (remote_ip e c) version] /\ ready p c s' /\
    io s' = io s /\ shut s' = shut s /\
    OutputMessagePool.protocols (pool s') !! p =
      Some (Protocol.setXTEAKey [k0; k1; k2; k3] (Protocol.enableXTEAEncryption pr))) s.
Proof.
  intros He Hrsa Hr Hpr Hwf Hpos Hsz Hc Hbl Hblock Hok Hname Hver Hdis.
  apply Forall_app in Hok as [Hh Hok]. unfold header_fields in Hh. rewrite !Forall_cons in Hh. cbn [NetworkMessage.field_ok] in Hh.
  destruct Hh as ([_ V0] & [_ V1] & [_ V2] & [_ V3] & _).
  pose proof (NetworkMessage.wf_position _ Hwf) as Hp0.
  set (pos := NetworkMessage.m_position msg) in *. unfold ProtocolLogin.onRecvFirstMessage.
  assert (reads (NetworkMessage.skip 2 msg) (pos + 2) (NetworkMessage.encode (header_fields version dat spr pic) ++ block)) as R0.
  { split; [by apply NetworkMessage.setPosition_wf| |done]. cbn. NetworkMessage.consts. rewrite wrapu_small; lia. }
  assert (NetworkMessage.m_size (NetworkMessage.skip 2 msg) = pos + 144) as Hs0 by done.
  unfold header_fields in R0. rewrite !NetworkMessage.encode_cons in R0. cbn [NetworkMessage.encode_field] in R0.
  rewrite <- !app_assoc in R0. NetworkMessage.consts.
  wp_step. eapply (wp_get_field 2); [exact R0|done|NetworkMessage.consts; lia|]. intros m1 R1 S1. cbv beta iota.
  wp_step. eapply (wp_get_field 4); [exact R1|done|NetworkMessage.consts; lia|]. intros m2 R2 S2. cbv beta iota.
  wp_step. eapply (wp_get_field 4); [exact R2|done|NetworkMessage.consts; lia|]. intros m3 R3 S3. cbv beta iota.
  wp_step. eapply (wp_get_field 4); [exact R3|done|NetworkMessage.consts; lia|]. intros m4 R4 S4. cbv beta iota.
  wp_step. destruct R4 as [Hwf4 Hpos4 Hc4]. cbn [app] in Hc4.
  pose proof (Protocol.RSA_decrypt_cases rsa m4 Hrsa Hwf4) as Hdec.
  rewrite decide_True in Hdec by (rewrite Hpos4, S4, S3, S2, S1, Hs0; lia).
  destruct Hdec as (from & plain & rest & m5 & Hfrom & Hplain & Hdec & Hwf5 & Hpos5 & _ & Hc5);
    [rewrite S4, S3, S2, S1, Hs0; NetworkMessage.consts; lia|].
  unfold NetworkMessage.contains in Hc4. change (NetworkMessage.encode [] ++ block) with block in Hc4.
  rewrite Hbl, Hfrom in Hc4. injection Hc4 as ->. rewrite Hblock in Hplain. injection Hplain as -> ->.
  eapply wp_lift; [exact Hdec|]. cbv beta iota. cbn [Z.eqb negb].
  destruct (Hrsa _ _ Hbl Hblock) as [Hlen _]. rewrite zlen_cons in Hlen.
  apply (wp_client_block e p c s version _ _ _ m5 k0 k1 k2 k3 name password filler pr); try done; try lia. 
Qed.


(** ** Properties *)

(** C12: a login packet reaches the account operations as it was written.  A packet that
    carries a version of the supported range and, in the block that the private key
    decrypts, a zero byte, four key words, a name that is not empty and a password, makes
    the server post the task that answers exactly that name and password, for the address
    of that connection; nothing else is asked for, and from then on the protocol encrypts
    with exactly that key. *)
Theorem login_packet_read e p c msg (s : lstate) version dat spr pic block k0 k1 k2 k3 name password filler pr :
  env_ok e -> rsa_ok -> ready p c s -> OutputMessagePool.protocols (pool s) !! p = Some pr ->
  NetworkMessage.wf msg -> NetworkMessage.m_position msg + 144 <= NETWORK_MAX_SIZE ->
  NetworkMessage.m_size msg = NetworkMessage.m_position msg + 144 ->
  NetworkMessage.contains (NetworkMessage.skip 2 msg) (NetworkMessage.encode (header_fields version dat spr pic) ++ block) ->
  zlen block = 128 -> rsa block = Some (0 :: NetworkMessage.encode (block_fields k0 k1 k2 k3 name password) ++ filler) ->
  Forall NetworkMessage.field_ok (header_fields version dat spr pic ++ block_fields k0 k1 k2 k3 name password) ->
  name <> [] -> CLIENT_VERSION_MIN <= version <= CLIENT_VERSION_MAX ->
  ConnectionManager.isDisabled (manager_config e) (now e) (remote_ip e c) protocolId (manager s) = false ->
  exists m' s', onRecvFirstMessage e p msg s = Some (m', s', [AddTask_delegate p name password (remote_ip e c) version]) /\
    OutputMessagePool.protocols (pool s') !! p =
      Some (Protocol.setXTEAKey [k0; k1; k2; k3] (Protocol.enableXTEAEncryption pr)).
Proof.
  intros. edestruct (wp_client_packet e p c msg s version dat spr pic block) as (m' & s' & out & E & _ & -> & _ & _ & _ & Hp); eauto.
Qed.

(** No first packet harms the server.  Whatever bytes the packet holds, the handler
    ends without leaving the packet's buffer or dereferencing a pointer that is NULL, and
    does one of three things: it closes the connection; it refuses the client with a
    message and closes the connection; or it posts the task that answers a name that is
    not empty, for a supported version. *)
Theorem first_packet_safe e p c msg (s : lstate) :
  env_ok e -> rsa_ok -> ready p c s ->
  NetworkMessage.wf msg -> NetworkMessage.m_position msg + 2 <= NETWORK_MAX_SIZE -> NetworkMessage.m_size msg <= NETWORK_MAX_SIZE ->
  exists m' s' out, onRecvFirstMessage e p msg s = Some (m', s', out) /\ NetworkMessage.wf m' /\
    first_outcome e p c s s' out.
Proof.
  intros He Hrsa Hr Hwf Hpos Hsz. destruct (wp_onRecvFirstMessage e p c msg s He Hrsa Hr Hwf Hpos Hsz) as (m' & s' & out & Hout). eauto.
Qed.

End Packet.

Section Answer.
Context {DB : Type} `{!Database.Server DB} `{!LawfulServer DB}.
Context (MD5 SHA1 SHA256 SHA512 : list Z -> list Z).

Abbreviation lstate := (ProtocolLogin.state (DB := DB)).
Abbreviation delegate := (ProtocolLogin.delegate MD5 SHA1 SHA256 SHA512).

(** C10: what a login is answered, on every path, where the message of the day fits.  Let
    the number and the text of the message of the day, with a line feed and a NUL, fit the
    1300 bytes they are formatted into ([LoginLaws.motd_fits]; the code has no check, and a
    longer one overflows the buffer), let every world have a port and every random number
    be below 2^24, and let the database be lawful.  Then delegate ends; the connection is told to close, as the last thing, and
    before that, unless the pool has been shut down, it is handed exactly one message: the
    refusal of a banned address, of an invalid name or password, of a banned account or of
    an account without characters, or the list of characters; the payload is the reply's
    script of puts.  The refusal of a banned account names its author
    ([LoginLaws.ban_author]): the player who banned it, or "Automatic deletion" for a ban
    without an end and "Automatic banishment" for one with an end, if nobody did.  A failed
    attempt is recorded for invalid credentials, a successful one for a list, and none for
    the other refusals. *)
Theorem login_answered e p c name password clientIp version (s : lstate) :
  env_ok e -> ready p c s ->
  exists s' out, delegate e p name password clientIp version s = Some (tt, s', out) /\
    answered MD5 SHA1 SHA256 SHA512 e p c name password clientIp s s' out.
Proof.
  intros He Hr. destruct (wp_delegate MD5 SHA1 SHA256 SHA512 e p c name password clientIp version s He Hr)
    as ([] & s' & out & Hout). eauto.
Qed.

Lemma refusal_head message : hd_error (script [] (refusal 0x0A message)) = Some 0x0A.
Proof.
  unfold refusal, script. cbn [foldl]. change (put_field [] (char 0x0A)) with [0x0A]. cbn [put_field]. by destruct (_ && _).
Qed.

(** C11: who gets the list.  When a message other than a refusal (its first byte is not
    0x0A) goes to a client, then its address is not banned, the name is that of an
    account, which is number 10 or whose stored password the given one matches, and the
    account is not banned. *)
Theorem list_guarded e p c name password clientIp version (s s' : lstate) out c' id m :
  env_ok e -> ready p c s ->
  delegate e p name password clientIp version s = Some (tt, s', out) ->
  Pool (OutputMessagePool.Connection_send c' id m) ∈ out ->
  hd_error (NetworkMessage.payload (OutputMessage.base m)) <> Some 0x0A ->
  c' = c /\ exists x1 x2 x3 x4 b account ban,
    IO.checkBanishments (io_env e) (io s) = Some (b, x1, []) /\
    IO.isIpBanished (io_env e) clientIp x1 = Some (false, x2, []) /\
    IO.loadAccount (io_env e) Account.new name x2 = Some ((true, account), x3, []) /\
    (Account.number account = 10 \/ password_accepted MD5 SHA1 SHA256 SHA512 e account password = true) /\
    IO.getBanishment (io_env e) (Ban.mk BAN_ACCOUNT 0 0 (dec (Account.number account)) [] [] [] [] false) x3 =
      Some ((false, ban), x4, []).
Proof.
  intros He Hr E Hin Hhd. destruct (wp_delegate MD5 SHA1 SHA256 SHA512 e p c name password clientIp version s He Hr)
    as ([] & s1 & o1 & E1 & _ & Hsh & Hopen). rewrite E in E1. injection E1 as <- <-.
  destruct (shut s); [rewrite Hsh in Hin by done; apply list_elem_of_singleton in Hin; done|].
  destruct (Hopen eq_refl) as (attempt & fs & Hrep & _ & id0 & m0 & sent & Hsent & Hpl & -> & _).
  assert (c' = c /\ m = m0) as [-> ->].
  { apply elem_of_app in Hin as [Hin|Hin]; [|by apply list_elem_of_singleton in Hin].
    destruct Hsent as [-> | ->]; cbn in Hin; rewrite ?elem_of_cons in Hin; [destruct Hin as [[= -> -> ->]|Hin]|destruct Hin as [[= -> -> ->]|[?|Hin]]];
      try done; by apply elem_of_nil in Hin. }
  split; [done|]. rewrite Hpl in Hhd.
  destruct Hrep; try (by rewrite refusal_head in Hhd). eauto 15.
Qed.

End Answer.
(** ** An example: the account "ann" with the password "secret" and the character Ann *)

Definition example_accounts : Database.results :=
  Database.mkResults [$"id"; $"password"; $"premium_days"]
    [[Database.FInt64 7; Database.FString ($"secret"); Database.FInt64 30]] 0.
Definition example_players : Database.results :=
  Database.mkResults [$"name"; $"group_id"; $"online"]
    [[Database.FString ($"Ann"); Database.FInt64 (-1); Database.FInt64 1]] 0.
Definition example_nothing : Database.results := Database.mkResults [] [] 0.

Definition example_answer (accounts players : bool) : Database.results :=
  if accounts then example_accounts else if players then example_players else example_nothing.

#[local] Instance example_database : Database.Server unit := {
  server_connect _ s := (true, s);
  server_execute sql s :=
    (inl (example_answer (is_prefix ($"SELECT `id`, `password`") sql) (is_prefix ($"SELECT `name`, `group_id`") sql)), s)
}.

Lemma example_answer_ok a b : results_ok (example_answer a b).
Proof.
  destruct a; [|destruct b].
  - constructor; [|constructor]. split; [done|]. repeat constructor; cbn; try done; apply (lit_bytes_ok "secret").
  - constructor; [|constructor]. split; [done|]. repeat constructor; cbn; try done; apply (lit_bytes_ok "Ann").
  - constructor.
Qed.

Lemma example_lawful : LawfulServer unit.
Proof.
  intros sql s r s' E. apply (f_equal (fun p => match p.1 with inl r => r | inr _ => example_nothing end)) in E.
  cbn [fst] in E. rewrite <- E. apply example_answer_ok.
Qed.

Definition example_world : World.t := World.mk ($"W") LOCALHOST [7172; 7173].

Definition example_env : env :=
  mkEnv 0 1000000 ConfigManager.new [(1, example_world)] (fun _ => 0x0100007F) PoolRun.example_memory (fun _ => 1)
    (fun _ _ => OutputMessagePool.Writing).

Definition example_state : ProtocolLogin.state (DB := unit) :=
  mk (IO.mk (Database.local ($"mysql://u@h/d") 0 tt None) []) ConnectionManager.new PoolRun.example_client 0.

Lemma example_env_ok : env_ok example_env.
Proof.
  split.
  - exact PoolRun.example_memory_ok.
  - repeat constructor.
  - constructor; [|constructor]. split; [apply (lit_bytes_ok "W")|]. split; [done|by compute].
  - intros n. cbn. lia.
  - by vm_compute.
Qed.

Lemma example_ready : ready 3 7 example_state.
Proof.
  split; [|vm_compute; reflexivity|constructor].
  exact (PoolRun.reachable_books _ _ PoolRun.example_memory_ok PoolRun.example_client_reachable).
Qed.

Definition example_digest (bs : list Z) : list Z := [].
Abbreviation example_delegate := (ProtocolLogin.delegate example_digest example_digest example_digest example_digest).

Definition first_byte (out : list ProtocolLogin.request) : option Z :=
  match out with
  | Pool (OutputMessagePool.Connection_send _ _ m) :: _ => hd_error (NetworkMessage.payload (OutputMessage.base m))
  | _ => None
  end.

Lemma login_answered_witness :
  exists s' out, example_delegate example_env 3 ($"ann") ($"Secret") 0x0100007F 963 example_state = Some (tt, s', out) /\
    answered example_digest example_digest example_digest example_digest example_env 3 7 ($"ann") ($"Secret") 0x0100007F
      example_state s' out.
Proof.
  pose proof example_lawful as Hlaw.
  apply (login_answered example_digest example_digest example_digest example_digest example_env 3 7);
    [exact example_env_ok|exact example_ready].
Defined.

(** Her list is sent; its payload starts with 0x14. *)
Lemma list_guarded_witness :
  exists account, Account.number account = 10 \/
    password_accepted example_digest example_digest example_digest example_digest example_env account ($"Secret") = true.
Proof.
  pose proof example_lawful as Hlaw.
  assert (match example_delegate example_env 3 ($"ann") ($"Secret") 0x0100007F 963 example_state with
          | Some (_, _, out) => first_byte out | None => None end = Some 0x14) as Hfirst by (vm_compute; reflexivity).
  destruct (example_delegate example_env 3 ($"ann") ($"Secret") 0x0100007F 963 example_state) as [[[[] s'] out]|] eqn:E; [|discriminate Hfirst].
  destruct out as [|[[c id m|c id|p|p]|c|p nm pw ip v] out]; try discriminate Hfirst. cbn [first_byte] in Hfirst.
  destruct (list_guarded example_digest example_digest example_digest example_digest example_env 3 7 ($"ann") ($"Secret")
    0x0100007F 963 example_state s' (Pool (OutputMessagePool.Connection_send c id m) :: out) c id m)
    as (_ & x1 & x2 & x3 & x4 & b & account & ban & _ & _ & _ & H & _).
  - exact example_env_ok.
  - exact example_ready.
  - exact E.
  - apply list_elem_of_here.
  - rewrite Hfirst. discriminate.
  - exists account. exact H.
Defined.

(** Her client's packet; the private key decrypts every block to the same plain one. *)
Definition example_filler : list Z := replicate 98 0.
Definition example_block (bs : list Z) : option (list Z) :=
  Some (0 :: NetworkMessage.encode (block_fields 1 2 3 4 ($"ann") ($"secret")) ++ example_filler).
Definition example_packet : NetworkMessage.t :=
  NetworkMessage.mk 150 6 (replicate 8 0 ++ NetworkMessage.encode (header_fields 963 0 0 0) ++ replicate (Z.to_nat 16362) 0).

Lemma bytes_check bs : forallb (fun x => (0 <=? x) && (x <? 256)) bs = true -> bytes_ok bs.
Proof. rewrite forallb_forall. intros Hb. apply Forall_forall. intros x Hx%list_elem_of_In%Hb. unfold is_byte. lia. Qed.

Lemma example_block_ok : rsa_ok example_block.
Proof.
  intros bs to _ [= <-]. split; [vm_compute; reflexivity|].
  apply bytes_check. vm_compute. reflexivity.
Qed.

Lemma example_packet_wf : NetworkMessage.wf example_packet.
Proof.
  split; [by compute|by compute|vm_compute; reflexivity|].
  apply bytes_check. vm_compute. reflexivity.
Qed.

Lemma first_packet_safe_witness :
  exists m' s' out, ProtocolLogin.onRecvFirstMessage example_block example_env 3 example_packet example_state = Some (m', s', out) /\
    NetworkMessage.wf m' /\ first_outcome example_env 3 7 example_state s' out.
Proof.
  pose proof example_lawful as Hlaw.
  apply (first_packet_safe example_block example_env 3 7 example_packet example_state);
    [exact example_env_ok|exact example_block_ok|exact example_ready|exact example_packet_wf|by compute|by compute].
Defined.

Lemma login_packet_read_witness :
  exists m' s', ProtocolLogin.onRecvFirstMessage example_block example_env 3 example_packet example_state =
    Some (m', s', [AddTask_delegate 3 ($"ann") ($"secret") 0x0100007F 963]).
Proof.
  pose proof example_lawful as Hlaw.
  destruct (login_packet_read example_block example_env 3 7 example_packet example_state 963 0 0 0 (replicate 128 0) 1 2 3 4
    ($"ann") ($"secret") example_filler (Protocol.new (Some 7%nat))) as (m' & s' & E & _).
  - exact example_env_ok.
  - exact example_block_ok.
  - exact example_ready.
  - vm_compute. reflexivity.
  - exact example_packet_wf.
  - by compute.
  - vm_compute. reflexivity.
  - vm_compute. reflexivity.
  - reflexivity.
  - reflexivity.
  - repeat constructor; try (by compute); apply lit_bytes_ok.
  - discriminate.
  - by compute.
  - reflexivity.
  - exists m', s'. exact E.
Defined.

End LoginPacket.
