(* ===== verification/Server.v ===== *)
(** * Services, acceptors and the service manager (src/net/server.h, src/net/server.cpp)

    A [ServicePort] listens on some addresses at one port and hands the connections it
    accepts to the protocols of its services; the [ServiceManager] owns the ports.  The
    state holds the ports that are alive, the acceptors the operating system listens on
    and the accept operations in flight; what is scheduled, posted or asked of a
    connection is a request. *)
From S2P Require Import Prelude Proc Bytes CString StdMap NetMessage Proto Conn ConnMgr Login.

(** [Service<ProtocolType>]: what a protocol class tells of itself, and its constructor. *)
Module Service.

Record t := mk {
  getProtocolId : Z;                           (* uint8_t *)
  isSingleSocket : bool;
  hasChecksum : bool;
  getProtocolName : cstring;
  makeProtocol : option nat -> Protocol.t
}.

(** [Service<ProtocolLogin>] *)
Definition login : t :=
  mk ProtocolLogin.protocolId ProtocolLogin.isSingleSocket ProtocolLogin.hasChecksum
    ProtocolLogin.protocolName ProtocolLogin.new.

End Service.

Module Server.
Import Connection (asio_error, NoError, OperationAborted).

(** [boost::asio::ip::address]; a default-constructed one is the IPv4 address 0.0.0.0. *)
Inductive IPAddress := V4 (address : Z) | V6 (bytes : list Z).

#[export] Instance IPAddress_eq_dec : EqDecision IPAddress.
Proof. solve_decision. Defined.

Definition address_any : IPAddress := V4 0.

(** [htonl] of a little-endian host *)
Definition htonl (x : Z) : Z := le_value (rev (le_bytes 4 x)).

Module ServicePort.

Record t := mk {
  m_services : list Service.t;
  m_acceptors : gmap nat IPAddress;
  m_serverPort : Z;                            (* uint16_t *)
  m_pendingStart : bool
}.

Definition new : t := mk [] ∅ 0 false.

Definition setServices x P := mk x (m_acceptors P) (m_serverPort P) (m_pendingStart P).
Definition setAcceptors x P := mk (m_services P) x (m_serverPort P) (m_pendingStart P).
Definition setServerPort x P := mk (m_services P) (m_acceptors P) x (m_pendingStart P).
Definition setPendingStart x P := mk (m_services P) (m_acceptors P) (m_serverPort P) x.

(** [add(newService)] *)
Definition add (newService : Service.t) (P : t) : bool * t :=
  if existsb Service.isSingleSocket (m_services P) then (false, P)
  else (true, setServices (m_services P ++ [newService]) P).

Definition isSingleSocket (P : t) : bool :=
  match m_services P with [] => false | front :: _ => Service.isSingleSocket front end.

Definition getProtocolNames (P : t) : cstring :=
  match m_services P with
  | [] => []
  | front :: rest =>
      fold_left (fun str s => str ++ $", " ++ Service.getProtocolName s) rest (Service.getProtocolName front)
  end.

(** The service that takes a packet whose first byte is [protocolId]. *)
Definition takes (checksum : bool) (protocolId : Z) (s : Service.t) : bool :=
  (Service.getProtocolId s =? protocolId) && ((checksum && Service.hasChecksum s) || negb (Service.hasChecksum s)).

(** [makeProtocol(checksum, msg)]: the protocol made, without a connection, if any, and the
    message as it was left. *)
Definition makeProtocol (checksum : bool) (msg : NetworkMessage.t) (P : t) : option (option Protocol.t * NetworkMessage.t) :=
  '(protocolId, msg) ← NetworkMessage.get 1 false msg;
  Some ((fun s => Service.makeProtocol s None) <$> find (takes checksum protocolId) (m_services P), msg).

End ServicePort.
Import ServicePort.

(** ** The state *)

(** An [async_accept] in flight: the port and the acceptor bound to its handler, and the
    socket. *)
Record accepting := mkAccepting { of_port : nat; on_acceptor : nat; of_socket : nat }.

#[export] Instance accepting_eq_dec : EqDecision accepting.
Proof. solve_decision. Defined.

(** Ports, acceptors, sockets and connections are named by one counter. *)
Record state := mkState {
  ports : gmap nat ServicePort.t;
  listening : gmap nat (IPAddress * Z);        (* the acceptors that are open *)
  accepts : list accepting;
  fresh : nat;
  m_logError : bool;
  connections : ConnectionManager.t;
  m_acceptors : StdMap.t Z nat;                (* ServiceManager::m_acceptors *)
  running : bool
}.

Definition setPorts x s := mkState x (listening s) (accepts s) (fresh s) (m_logError s) (connections s) (m_acceptors s) (running s).
Definition setListening x s := mkState (ports s) x (accepts s) (fresh s) (m_logError s) (connections s) (m_acceptors s) (running s).
Definition setAccepts x s := mkState (ports s) (listening s) x (fresh s) (m_logError s) (connections s) (m_acceptors s) (running s).
Definition setFresh x s := mkState (ports s) (listening s) (accepts s) x (m_logError s) (connections s) (m_acceptors s) (running s).
Definition setLogError x s := mkState (ports s) (listening s) (accepts s) (fresh s) x (connections s) (m_acceptors s) (running s).
Definition setConnections x s := mkState (ports s) (listening s) (accepts s) (fresh s) (m_logError s) x (m_acceptors s) (running s).
Definition setManager x r s := mkState (ports s) (listening s) (accepts s) (fresh s) (m_logError s) (connections s) x r.

(** What the operating system answers during a call: the clock, whether the acceptor for
    the [i]-th address of [open] can be made and set up, whether [async_accept] on an
    acceptor starts, and whether [post] works. *)
Record env := mkEnv {
  now : Z;
  listen_ok : nat -> bool;
  accept_ok : nat -> bool;
  post_ok : bool
}.

Inductive request :=
| AddEvent_services (port : nat) (ips : list IPAddress) (serverPort : Z)   (* after 5000 ms *)
| AddEvent_service (port : nat) (ip : IPAddress) (serverPort : Z)          (* after 5000 ms *)
| Connection_handle (connection socket port : nat) (protocol : Protocol.t)
| Connection_accept (connection socket port : nat)
| Delete_socket (socket : nat)                                             (* shut down, closed, deleted *)
| Post_close (port : nat)
| OutputMessagePool_stop
| Start_deathTimer                                                         (* 3 s, then io_context::stop *)
| Start_thread
| Log_error.

Abbreviation M := (proc state request).

(** [this]; stuck when the port has been deleted. *)
Definition port (p : nat) : M ServicePort.t := s ← gets ports; lift (s !! p).
Definition onPort (p : nat) (f : ServicePort.t -> ServicePort.t) : M unit :=
  P ← port p; modify (fun s => setPorts (<[p := f P]> (ports s)) s).
Definition new : M nat := n ← gets fresh; _ ← modify (setFresh (S n)); mret n.

(** ** ServicePort *)

(** [accept(acceptor)] *)
Definition accept (e : env) (p acceptor : nat) : M unit :=
  socket ← new;
  if accept_ok e acceptor then modify (fun s => setAccepts (accepts s ++ [mkAccepting p acceptor socket]) s)
  else
    log ← gets m_logError;
    if log : bool then _ ← emit Log_error; modify (setLogError false) else skip.

(** The loop of [open]; the addresses that are tried again later. *)
Fixpoint open_loop (e : env) (p : nat) (serverPort : Z) (i : nat) (ips : list IPAddress) : M (list IPAddress) :=
  match ips with
  | [] => mret []
  | ip :: ips =>
      failed ←
        (if listen_ok e i then
           tmp ← new;
           _ ← modify (fun s => setListening (<[tmp := (ip, serverPort)]> (listening s)) s);
           _ ← accept e p tmp;
           _ ← onPort p (fun P => setAcceptors (<[tmp := ip]> (ServicePort.m_acceptors P)) P);
           mret []
         else
           log ← gets m_logError;
           if log : bool then _ ← emit Log_error; mret [ip] else mret []);
      pendingIps ← open_loop e p serverPort (S i) ips;
      mret (failed ++ pendingIps)
  end.

(** [open(ips, port)] *)
Definition open (e : env) (p : nat) (ips : list IPAddress) (serverPort : Z) : M unit :=
  _ ← onPort p (setPendingStart false);
  _ ← onPort p (setServerPort serverPort);
  pendingIps ← open_loop e p serverPort 0 ips;
  if bool_decide (pendingIps = []) then skip
  else
    _ ← modify (setLogError false);
    _ ← onPort p (setPendingStart true);
    emit (AddEvent_services p pendingIps serverPort).

(** [close()] *)
Definition close (p : nat) : M unit :=
  P ← port p;
  _ ← modify (fun s => setListening (filter (fun a => ServicePort.m_acceptors P !! a.1 = None) (listening s)) s);
  onPort p (setAcceptors ∅).

(** The destructor. *)
Definition delete (p : nat) : M unit := _ ← close p; modify (fun s => setPorts (delete p (ports s)) s).

(** [services] and [service], with the weak pointer to [p]. *)
Definition services (e : env) (p : nat) (ips : list IPAddress) (serverPort : Z) : M unit :=
  s ← gets ports;
  match s !! p with None => skip | Some _ => open e p ips serverPort end.
Definition service (e : env) (p : nat) (ip : IPAddress) (serverPort : Z) : M unit := services e p [ip] serverPort.

(** What an accept completes with: the error code, the remote endpoint of the socket, if
    it is known, and whether the socket is open. *)
Record completion := mkCompletion { error : asio_error; remote_endpoint : option IPAddress; is_open : bool }.

(** [htonl(ip.address().to_v4().to_uint())]; [to_v4] of an IPv6 address throws, and the
    exception ends the program. *)
Definition remoteIp (remote : option IPAddress) : option Z :=
  match remote with
  | None => Some 0
  | Some (V4 a) => Some (htonl a)
  | Some (V6 _) => None
  end.

(** [Connection::getIP()] and [getEndpoint()]: the addresses of the two ends of the socket,
    which is deleted with the connection. *)
Definition getIP (m_socket : bool) (remote : option IPAddress) : option Z :=
  if m_socket then remoteIp remote else None.
Definition getEndpoint (m_socket : bool) (local : option IPAddress) : option Z :=
  if m_socket then match local with None => Some 0 | Some (V4 a) => Some (htonl a) | Some (V6 _) => None end else None.

(** [Protocol::getIP()]: 0 when the connection has gone; [connection] has the socket and
    its remote end. *)
Definition protocol_getIP (connection : option (bool * option IPAddress)) : option Z :=
  match connection with Some (m_socket, remote) => getIP m_socket remote | None => Some 0 end.

(** [ConnectionManager::createConnection(socket, ...)] *)
Definition createConnection : M nat :=
  c ← new;
  _ ← modify (fun s => setConnections (ConnectionManager.createConnection c (connections s)) s);
  mret c.

Definition acceptConnection (e : env) (ip : Z) : M bool :=
  r ← gets (fun s => ConnectionManager.acceptConnection (now e) ip (connections s));
  _ ← modify (setConnections r.2);
  mret r.1.

(** [handle(acceptor, socket, error)] *)
Definition handle (e : env) (op : accepting) (c : completion) : M unit :=
  let '(mkAccepting p acceptor socket) := op in
  match error c with
  | NoError =>
      P ← port p;
      match m_services P with
      | [] => skip
      | front :: _ =>
          ip ← lift (remoteIp (remote_endpoint c));
          accepted ← (if ip =? 0 then mret false else acceptConnection e ip);
          _ ← (if accepted : bool then
                 connection ← createConnection;
                 if Service.isSingleSocket front
                 then emit (Connection_handle connection socket p (Service.makeProtocol front (Some connection)))
                 else emit (Connection_accept connection socket p)
               else if is_open c then emit (Delete_socket socket) else skip);
          accept e p acceptor
      end
  | OperationAborted => skip
  | _ =>
      _ ← close p;
      P ← port p;
      if m_pendingStart P then skip
      else
        _ ← onPort p (setPendingStart true);
        let ip := default address_any (ServicePort.m_acceptors P !! acceptor) in
        _ ← onPort p (fun P => setAcceptors (<[acceptor := ip]> (ServicePort.m_acceptors P)) P);
        emit (AddEvent_service p ip (m_serverPort P))
  end.

(** ** ServiceManager *)

(** [add<ProtocolType>(port, ips)] *)
Definition add (e : env) (s : Service.t) (serverPort : Z) (ips : list IPAddress) : M bool :=
  if serverPort =? 0 then mret false
  else
    it ← gets (fun s => StdMap.find serverPort (m_acceptors s));
    let add_to p :=
      P ← port p;
      let '(ok, P) := ServicePort.add s P in
      _ ← onPort p (fun _ => P); mret ok in
    match it with
    | None =>
        p ← new;
        _ ← modify (fun s => setPorts (<[p := ServicePort.new]> (ports s)) s);
        _ ← open e p ips serverPort;
        _ ← modify (fun s => setManager (StdMap.insert serverPort p (m_acceptors s)) (running s) s);
        add_to p
    | Some p =>
        P ← port p;
        if isSingleSocket P || Service.isSingleSocket s then mret false else add_to p
    end.

(** The threads started by [run]: the counter is [uint32_t], the setting [int64_t]. *)
Definition threads (SERVICE_THREADS : Z) : option nat :=
  if 2 ^ 32 <=? SERVICE_THREADS then None else Some (Z.to_nat SERVICE_THREADS).

(** [run()], up to the joins. *)
Definition run (SERVICE_THREADS : Z) : M unit :=
  r ← gets running;
  if r : bool then stuck
  else
    n ← lift (threads SERVICE_THREADS);
    _ ← for_each (fun _ => emit Start_thread) (seq 0 n);
    modify (fun s => setManager (m_acceptors s) true s).

(** [stop()] *)
Definition stop (e : env) : M unit :=
  r ← gets running;
  if negb r then skip
  else
    acceptors ← gets m_acceptors;
    _ ← for_each (fun it => if post_ok e then emit (Post_close it.2) else emit Log_error) acceptors;
    _ ← modify (setManager [] false);
    _ ← emit OutputMessagePool_stop;
    emit Start_deathTimer.

(** [getPorts()]; [std::list::unique] drops adjacent duplicates. *)
Fixpoint unique (l : list Z) : list Z :=
  match l with
  | x :: (y :: _) as rest => if x =? y then unique rest else x :: unique rest
  | l => l
  end.
Definition getPorts (s : state) : list Z := unique (map fst (m_acceptors s)).
Definition isRunning (s : state) : bool := negb (bool_decide (m_acceptors s = [])).

End Server.
