(* ===== verification/ServerLaws.v ===== *)
(** * The ports of the server in motion (the system around [Server])

    The events that the scheduler, asio and the program deliver to the ports and their
    manager, as a transition system, and its invariant: what listens is registered, every
    acceptor has one accept in flight, and a port waits for at most one restart. *)
From S2P Require Import Prelude Proc StdMap ConnMgr Conn Server.

Module ServerLaws.
Import Server.ServicePort.
Import Server.
Import Connection (asio_error, NoError, OperationAborted).

(** ** The system *)

(** A restart that is scheduled: of a port, on some addresses, at a port number. *)
Abbreviation restart := (nat * list IPAddress * Z)%type.

Record sys := mkSys {
  net : state;
  restarts : list restart;       (* events of the scheduler *)
  closes : list nat              (* posted calls of ServicePort::close *)
}.

Definition restarts_of (out : list request) : list restart :=
  omap (fun r => match r with
    | AddEvent_services p ips sp => Some (p, ips, sp)
    | AddEvent_service p ip sp => Some (p, [ip], sp)
    | _ => None end) out.
Definition closes_of (out : list request) : list nat :=
  omap (fun r => match r with Post_close p => Some p | _ => None end) out.

Inductive event :=
| EvAdd (s : Service.t) (serverPort : Z) (ips : list IPAddress)
| EvRun (SERVICE_THREADS : Z)
| EvStop
| EvAccept (op : accepting) (c : completion)
| EvRestart (i : nat)
| EvClose
| EvExpire (p : nat).            (* the last pointer to a port is dropped *)

Definition absorb {A} (r : option (A * state * list request)) (x : sys) : option sys :=
  '(_, s, out) ← r; Some (mkSys s (restarts x ++ restarts_of out) (closes x ++ closes_of out)).

Definition is_v4 (ip : IPAddress) : bool := match ip with V4 _ => true | V6 _ => false end.

(** The program adds services at addresses of IPv4 and runs the manager once; the remote
    endpoint of an IPv4 socket is an IPv4 address.  An accept is aborted only after its
    acceptor was closed.  A port is kept alive by the manager
    and by the calls posted for it; when its last connection goes is not said. *)
Definition enabled (ev : event) (x : sys) : bool :=
  match ev with
  | EvAdd _ sp ips => (0 <=? sp) && (sp <? 2 ^ 16) && forallb is_v4 ips
  | EvRun n => negb (running (net x)) && (n <? 2 ^ 32)
  | EvStop => true
  | EvAccept op c =>
      bool_decide (op ∈ accepts (net x)) && match remote_endpoint c with Some ip => is_v4 ip | None => true end &&
      match error c with OperationAborted => bool_decide (listening (net x) !! on_acceptor op = None) | _ => true end
  | EvRestart i => bool_decide (is_Some (restarts x !! i))
  | EvClose => negb (bool_decide (closes x = []))
  | EvExpire p => bool_decide (is_Some (ports (net x) !! p) /\ p ∉ (m_acceptors (net x)).*2 /\ p ∉ closes x)
  end.

Definition run (e : env) (ev : event) (x : sys) : option sys :=
  match ev with
  | EvAdd s sp ips => absorb (add e s sp ips (net x)) x
  | EvRun n => absorb (Server.run n (net x)) x
  | EvStop => absorb (stop e (net x)) x
  | EvAccept op c => absorb (handle e op c (setAccepts (filter (.≠ op) (accepts (net x))) (net x))) x
  | EvRestart i =>
      '(p, ips, sp) ← restarts x !! i;
      absorb (services e p ips sp (net x)) (mkSys (net x) (base.delete i (restarts x)) (closes x))
  | EvClose =>
      p ← head (closes x);
      absorb (close p (net x)) (mkSys (net x) (restarts x) (tail (closes x)))
  | EvExpire p => absorb (Server.delete p (net x)) x
  end.

Definition start : sys := mkSys (mkState ∅ ∅ [] 0 true ConnectionManager.new [] false) [] [].

(** [async_accept] reports through its handler. *)
Definition env_ok (e : env) : Prop := forall a, accept_ok e a = true.

Definition step (x y : sys) : Prop := exists e ev, env_ok e /\ enabled ev x = true /\ run e ev x = Some y.

Definition reachable (x : sys) : Prop := rtc step start x.

(** ** The invariant *)

Definition restarts_at (p : nat) (evs : list restart) : nat := length (filter (fun ev => ev.1.1 = p) evs).

(** A port has services, and one that wants the socket for itself is alone. *)
Definition services_ok (P : ServicePort.t) : Prop :=
  m_services P <> [] /\ (existsb Service.isSingleSocket (m_services P) = true -> length (m_services P) = 1%nat).

(** The acceptor [a] is in the map of the port [p], with the address [ip]; the number of
    the port is [sp]. *)
Definition registered (s : state) (a p : nat) (ip : IPAddress) (sp : Z) : Prop :=
  exists P, ports s !! p = Some P /\ ServicePort.m_acceptors P !! a = Some ip /\ m_serverPort P = sp.

(** What listens is registered, by one port, with its address; every acceptor that listens
    has one accept in flight. *)
Record wired (s : state) : Prop := mkWired {
  wired_registered a p ip sp : registered s a p ip sp ->
    match listening s !! a with Some l => l = (ip, sp) | None => ip = address_any end;
  wired_owner a l : listening s !! a = Some l -> exists p ip sp, registered s a p ip sp;
  wired_unique a p1 ip1 sp1 p2 ip2 sp2 : registered s a p1 ip1 sp1 -> registered s a p2 ip2 sp2 -> p1 = p2;
  wired_ops : NoDup (on_acceptor <$> accepts s);
  wired_op_port op p ip sp : op ∈ accepts s -> registered s (on_acceptor op) p ip sp -> of_port op = p;
  wired_armed a l : listening s !! a = Some l -> exists op, op ∈ accepts s /\ on_acceptor op = a;
  wired_fresh a p ip sp : registered s a p ip sp -> (a < fresh s)%nat;
  wired_fresh_op op : op ∈ accepts s -> (on_acceptor op < fresh s)%nat
}.

(** A port waits for a restart, at its number, exactly when it says so; the manager and the
    calls posted keep ports alive.  [q] is the port being set up, if any. *)
Record books (q : option nat) (s : state) (evs : list restart) (cls : list nat) : Prop := mkBooks {
  books_pendingStart p P : ports s !! p = Some P -> restarts_at p evs = (if m_pendingStart P then 1 else 0)%nat;
  books_restart p ips sp P : (p, ips, sp) ∈ evs -> ports s !! p = Some P -> m_serverPort P = sp;
  books_services p P : ports s !! p = Some P -> Some p <> q -> services_ok P;
  books_manager sp p : (sp, p) ∈ m_acceptors s ->
    0 < sp < 2 ^ 16 /\ exists P, ports s !! p = Some P /\ m_serverPort P = sp;
  books_sorted : StdMap.sorted (m_acceptors s);
  books_closes p : p ∈ cls -> is_Some (ports s !! p);
  books_fresh p : is_Some (ports s !! p) -> (p < fresh s)%nat;
  books_fresh_restart p ips sp : (p, ips, sp) ∈ evs -> (p < fresh s)%nat
}.

Definition inv q s evs cls : Prop := wired s /\ books q s evs cls.

(** ** The operations one by one *)

Lemma wp_port p P (Q : ServicePort.t -> state -> list request -> Prop) s :
  ports s !! p = Some P -> Q P s [] -> wp (port p) Q s.
Proof. intros Hp HQ. unfold port. apply wp_bind, wp_gets. cbn. by eapply wp_lift. Qed.

Lemma wp_onPort p P f (Q : unit -> state -> list request -> Prop) s :
  ports s !! p = Some P -> Q tt (setPorts (<[p := f P]> (ports s)) s) [] -> wp (onPort p f) Q s.
Proof. intros Hp HQ. unfold onPort. apply wp_bind. eapply wp_port; [done|]. by apply wp_modify. Qed.

Lemma wp_new (Q : nat -> state -> list request -> Prop) s : Q (fresh s) (setFresh (S (fresh s)) s) [] -> wp new Q s.
Proof. intros HQ. unfold new. apply wp_bind, wp_gets, wp_bind, wp_modify, wp_ret. done. Qed.

Lemma wp_accept e p a (Q : unit -> state -> list request -> Prop) s :
  env_ok e ->
  Q tt (setAccepts (accepts s ++ [mkAccepting p a (fresh s)]) (setFresh (S (fresh s)) s)) [] ->
  wp (accept e p a) Q s.
Proof. intros He HQ. unfold accept. apply wp_bind, wp_new. rewrite He. apply wp_modify. done. Qed.

(** ** The books *)

(** The same ports, but for their acceptors. *)
Definition same_port (P P' : ServicePort.t) : Prop :=
  m_services P' = m_services P /\ m_serverPort P' = m_serverPort P /\ m_pendingStart P' = m_pendingStart P.

#[export] Instance same_port_refl : Reflexive same_port.
Proof. by intros P. Qed.

Record similar (s s' : state) : Prop := {
  similar_ports p : option_Forall2 same_port (ports s !! p) (ports s' !! p);
  similar_manager : m_acceptors s' = m_acceptors s;
  similar_fresh : (fresh s <= fresh s')%nat
}.

Lemma books_similar q s s' evs cls : similar s s' -> books q s evs cls -> books q s' evs cls.
Proof.
  intros [Hs Hm Hf] [].
  assert (forall p P', ports s' !! p = Some P' -> exists P, ports s !! p = Some P /\ same_port P P') as Hl.
  { intros p P' Hp. specialize (Hs p). rewrite Hp in Hs. inversion Hs; subst. eauto. }
  assert (forall p P, ports s !! p = Some P -> exists P', ports s' !! p = Some P' /\ same_port P P') as Hr.
  { intros p P Hp. specialize (Hs p). rewrite Hp in Hs. inversion Hs; subst. eauto. }
  split; rewrite ?Hm; try done.
  - intros p P' H1. destruct (Hl _ _ H1) as (P & H2 & _ & _ & ->). eauto.
  - intros p ips sp P' H1 H2. destruct (Hl _ _ H2) as (P & H3 & _ & -> & _). eauto.
  - intros p P' H1 H2. destruct (Hl _ _ H1) as (P & H3 & Es & _). unfold services_ok. rewrite Es. by apply (books_services0 p).
  - intros sp p H1. destruct (books_manager0 sp p H1) as (H2 & P & H3 & <-). split; [done|].
    destruct (Hr _ _ H3) as (P' & H4 & _ & E & _). eauto.
  - intros p H1. destruct (books_closes0 p H1) as [P H2]. destruct (Hr _ _ H2) as (P' & H3 & _). eauto.
  - intros p [P' H1]. destruct (Hl _ _ H1) as (P & H2 & _). specialize (books_fresh0 p ltac:(eauto)). lia.
  - intros p ips sp H1. specialize (books_fresh_restart0 _ _ _ H1). lia.
Qed.

Lemma similar_insert s s' p P P' :
  ports s !! p = Some P -> same_port P P' -> ports s' = <[p := P']> (ports s) ->
  m_acceptors s' = m_acceptors s -> (fresh s <= fresh s')%nat -> similar s s'.
Proof.
  intros Hp HP Hs Hm Hf. split; [|done..]. intros p0. rewrite Hs. destruct (decide (p0 = p)) as [->|Hne].
  - rewrite lookup_insert_eq, Hp. by constructor.
  - rewrite lookup_insert_ne by done. destruct (ports s !! p0); by constructor.
Qed.

Lemma similar_same s s' :
  ports s' = ports s -> m_acceptors s' = m_acceptors s -> (fresh s <= fresh s')%nat -> similar s s'.
Proof. intros Hp Hm Hf. split; [|done..]. intros p. rewrite Hp. destruct (ports s !! p); by constructor. Qed.

Lemma restarts_at_app p evs1 evs2 : restarts_at p (evs1 ++ evs2) = (restarts_at p evs1 + restarts_at p evs2)%nat.
Proof. unfold restarts_at. by rewrite filter_app, length_app. Qed.

Lemma restarts_at_one p p' ips sp : restarts_at p [(p', ips, sp)] = (if decide (p' = p) then 1 else 0)%nat.
Proof. unfold restarts_at. rewrite filter_cons, filter_nil. cbn. by destruct (decide (p' = p)). Qed.

Lemma restarts_at_none p evs : (forall ips sp, (p, ips, sp) ∉ evs) -> restarts_at p evs = 0%nat.
Proof.
  intros Hn. unfold restarts_at. destruct (filter _ evs) as [|[[p0 ips] sp] l] eqn:E; [done|]. exfalso.
  assert ((p0, ips, sp) ∈ filter (fun ev : restart => ev.1.1 = p) evs) as H by (rewrite E; apply elem_of_cons; auto).
  apply list_elem_of_filter in H as [H1 H2]. cbn in H1. subst p0. by apply (Hn ips sp).
Qed.

(** One port changes, with what is scheduled for it. *)
Lemma books_port q s s' evs evs' cls p P P' :
  books q s evs cls -> ports s !! p = Some P -> ports s' = <[p := P']> (ports s) ->
  m_acceptors s' = m_acceptors s -> fresh s' = fresh s ->
  m_serverPort P' = m_serverPort P -> (Some p <> q -> services_ok P') ->
  restarts_at p evs' = (if m_pendingStart P' then 1 else 0)%nat ->
  (forall p0, p0 <> p -> restarts_at p0 evs' = restarts_at p0 evs) ->
  (forall p0 ips sp, (p0, ips, sp) ∈ evs' -> (p0, ips, sp) ∈ evs \/ p0 = p /\ sp = m_serverPort P) ->
  books q s' evs' cls.
Proof.
  intros [] Hp Hs Hm Hf Hsp Hok Hat Hoth Hin.
  split; rewrite ?Hs, ?Hm, ?Hf; try done.
  - intros p0 P0 [[<- <-]|[Hne H0]]%lookup_insert_Some; [done|]. rewrite Hoth by done. eauto.
  - intros p0 ips sp P0 H0 [[<- <-]|[Hne H1]]%lookup_insert_Some; rewrite ?Hsp; destruct (Hin _ _ _ H0) as [H2|[? ->]]; try done; eauto.
  - intros p0 P0 [[<- <-]|[Hne H0]]%lookup_insert_Some; eauto.
  - intros sp p0 H0. destruct (books_manager0 sp p0 H0) as (H1 & P0 & H2 & H3). split; [done|].
    destruct (decide (p0 = p)) as [->|Hne]; [|exists P0; by rewrite lookup_insert_ne].
    exists P'. rewrite lookup_insert_eq, Hsp. by simplify_eq.
  - intros p0 H0. apply lookup_insert_is_Some. destruct (decide (p = p0)); eauto.
  - intros p0 [<-|[_ H0]]%lookup_insert_is_Some; eauto.
  - intros p0 ips sp H0. destruct (Hin _ _ _ H0) as [H1|[-> _]]; eauto.
Qed.

(** ** The wiring *)

Lemma registered_insert s s' p P' a p0 ip sp :
  ports s' = <[p := P']> (ports s) ->
  registered s' a p0 ip sp <->
    p0 = p /\ ServicePort.m_acceptors P' !! a = Some ip /\ m_serverPort P' = sp \/ p0 <> p /\ registered s a p0 ip sp.
Proof.
  intros Hs. unfold registered. rewrite Hs. setoid_rewrite lookup_insert_Some. split.
  - intros (P & [[<- <-]|[Hne Hp]] & Ha & Hsp); [by left|right; eauto].
  - intros [(-> & Ha & Hsp)|(Hne & P & Hp & Ha & Hsp)]; eauto 7.
Qed.

Lemma registered_same s s' : ports s' = ports s -> registered s' = registered s.
Proof. unfold registered. by intros ->. Qed.

Lemma wired_listening s a l : wired s -> listening s !! a = Some l -> exists p, registered s a p l.1 l.2.
Proof.
  intros Hw Hl. destruct (wired_owner s Hw a l Hl) as (p & ip & sp & Hr). pose proof (wired_registered s Hw a p ip sp Hr) as H.
  rewrite Hl in H. subst l. eauto.
Qed.

Lemma wired_fresh_listening s a l : wired s -> listening s !! a = Some l -> (a < fresh s)%nat.
Proof. intros Hw [p Hr]%wired_listening; [|done]. by eapply wired_fresh. Qed.

(** A change that leaves what listens, and changes what is registered by a closed acceptor
    at most; the accepts that remain are enough. *)
Lemma wired_change s s' (extra : option (nat * nat * Z)) :
  wired s -> listening s' = listening s -> (fresh s <= fresh s')%nat ->
  (forall a p ip sp, registered s' a p ip sp -> registered s a p ip sp \/ extra = Some (a, p, sp) /\ ip = address_any) ->
  (forall a p ip sp, registered s a p ip sp -> registered s' a p ip sp) ->
  (forall a p sp, extra = Some (a, p, sp) -> listening s !! a = None /\ (a < fresh s)%nat /\
    (forall p0 ip sp, registered s a p0 ip sp -> p0 = p) /\
    (forall op, op ∈ accepts s' -> on_acceptor op = a -> of_port op = p)) ->
  NoDup (on_acceptor <$> accepts s') ->
  (forall op, op ∈ accepts s' -> exists op0, op0 ∈ accepts s /\ of_port op0 = of_port op /\ on_acceptor op0 = on_acceptor op) ->
  (forall op, op ∈ accepts s -> is_Some (listening s !! on_acceptor op) -> exists op0, op0 ∈ accepts s' /\ on_acceptor op0 = on_acceptor op) ->
  wired s'.
Proof.
  intros Hw Hl Hf Hreg Hreg' Hex Hnd Hops Harm. pose proof Hw as []. split; rewrite ?Hl; try done.
  - intros a p ip sp H. destruct (Hreg _ _ _ _ H) as [H0|[E ->]]; [by apply (wired_registered0 _ p)|]. by destruct (Hex _ _ _ E) as [-> _].
  - intros a l H. destruct (wired_owner0 a l H) as (p & ip & sp & H0). eauto.
  - intros a p1 ip1 sp1 p2 ip2 sp2 H1 H2.
    destruct (Hreg _ _ _ _ H1) as [H3|[E1 _]], (Hreg _ _ _ _ H2) as [H4|[E2 _]]; [eauto| | |congruence].
    + destruct (Hex _ _ _ E2) as (_ & _ & H & _). eauto.
    + destruct (Hex _ _ _ E1) as (_ & _ & H & _). symmetry. eauto.
  - intros op p ip sp H0 H1. destruct (Hreg _ _ _ _ H1) as [H2|[E' _]].
    + destruct (Hops _ H0) as (op0 & H3 & <- & E). rewrite <- E in H2. eauto.
    + destruct (Hex _ _ _ E') as (_ & _ & _ & H). eauto.
  - intros a l H. destruct (wired_armed0 a l H) as (op & H0 & <-). destruct (Harm op H0) as (op0 & H1 & E); [by rewrite H|eauto].
  - intros a p ip sp H. destruct (Hreg _ _ _ _ H) as [H0|[E' _]].
    + specialize (wired_fresh0 _ _ _ _ H0). lia.
    + destruct (Hex _ _ _ E') as (_ & H1 & _). lia.
  - intros op H0. destruct (Hops _ H0) as (op0 & H1 & _ & <-). specialize (wired_fresh_op0 op0 H1). lia.
Qed.

(** The ports change, but not what they registered. *)
Lemma wired_ports s s' :
  wired s -> listening s' = listening s -> accepts s' = accepts s -> (fresh s <= fresh s')%nat ->
  (forall a p ip sp, registered s' a p ip sp <-> registered s a p ip sp) -> wired s'.
Proof.
  intros Hw Hl Ha Hf Hr. eapply (wired_change s s' None); rewrite ?Ha; try done; [| |apply Hw|eauto..].
  - intros a p ip sp H%Hr. by left.
  - intros a p ip sp H. by apply Hr.
Qed.

Lemma wired_frame s s' :
  wired s -> ports s' = ports s -> listening s' = listening s -> accepts s' = accepts s -> (fresh s <= fresh s')%nat -> wired s'.
Proof. intros Hw Hp Hl Ha Hf. apply (wired_ports s); try done. by rewrite (registered_same s s' Hp). Qed.

Lemma wired_port s s' p P P' :
  wired s -> ports s !! p = Some P -> ports s' = <[p := P']> (ports s) ->
  listening s' = listening s -> accepts s' = accepts s -> (fresh s <= fresh s')%nat ->
  ServicePort.m_acceptors P' = ServicePort.m_acceptors P -> m_serverPort P' = m_serverPort P -> wired s'.
Proof.
  intros Hw Hp Hs Hl Ha Hf E1 E2. eapply wired_ports; try done. intros a p0 ip sp. rewrite registered_insert by done.
  rewrite E1, E2. unfold registered. split.
  - intros [(-> & ? & ?)|[_ H]]; eauto.
  - intros (P0 & H0 & H1 & H2). destruct (decide (p0 = p)) as [->|Hne]; [simplify_eq|]; eauto 7.
Qed.

(** Elements with the same image, when no image is there twice. *)
Lemma NoDup_fmap_same {A B} (f : A -> B) l x y : NoDup (f <$> l) -> x ∈ l -> y ∈ l -> f x = f y -> x = y.
Proof.
  induction l as [|z l IH]; [by intros _ ?%elem_of_nil|]. rewrite fmap_cons, NoDup_cons. intros [Hn Hnd].
  assert (forall w, w ∈ l -> f w <> f z) as Hz by (intros w Hw E; apply Hn, list_elem_of_fmap; eauto).
  intros [->|Hx]%elem_of_cons [->|Hy]%elem_of_cons E; try done; [by destruct (Hz y)|by destruct (Hz x)|by apply IH].
Qed.

(** An accept completes and its acceptor accepts again. *)
Lemma wired_rearm s s' op socket :
  wired s -> op ∈ accepts s -> ports s' = ports s -> listening s' = listening s -> (fresh s <= fresh s')%nat ->
  accepts s' = filter (.≠ op) (accepts s) ++ [mkAccepting (of_port op) (on_acceptor op) socket] -> wired s'.
Proof.
  intros Hw Hop Hp Hl Hf Ha. pose proof Hw as [].
  eapply (wired_change s s' None); rewrite ?Ha, ?(registered_same s s' Hp); try done; auto.
  - rewrite fmap_app. apply NoDup_app. split_and!; [| |apply NoDup_singleton].
    + eapply sublist_NoDup; [exact wired_ops0|]. apply fmap_sublist, sublist_filter.
    + intros a (op0 & -> & [Hne H0]%list_elem_of_filter)%list_elem_of_fmap E%list_elem_of_singleton. cbn in E.
      apply Hne. by apply (NoDup_fmap_same on_acceptor (accepts s)).
  - intros op0 [[_ H]%list_elem_of_filter| ->%list_elem_of_singleton]%elem_of_app; eauto.
  - intros op0 H0 _. destruct (decide (op0 = op)) as [->|Hne].
    + eexists. rewrite elem_of_app, list_elem_of_singleton. split; [by right|done].
    + exists op0. rewrite elem_of_app, list_elem_of_filter. auto.
Qed.

(** An accept completes that is not made again: its acceptor does not listen. *)
Lemma wired_disarm s op :
  wired s -> listening s !! on_acceptor op = None -> wired (setAccepts (filter (.≠ op) (accepts s)) s).
Proof.
  intros Hw Ha. pose proof Hw as [].
  eapply (wired_change s _ None); cbn [setAccepts accepts fresh listening]; try done; auto.
  - eapply sublist_NoDup; [exact wired_ops0|]. apply fmap_sublist, sublist_filter.
  - intros op0 [_ H0]%list_elem_of_filter. eauto.
  - intros op0 H0 H1. exists op0. split; [|done]. apply list_elem_of_filter. split; [|done]. intros ->. by rewrite Ha in H1; destruct H1.
Qed.

(** A new acceptor that listens at the port [p]. *)
Definition with_listener (p : nat) (P : ServicePort.t) (ip : IPAddress) (s : state) : state :=
  setPorts (<[p := setAcceptors (<[fresh s := ip]> (ServicePort.m_acceptors P)) P]> (ports s))
    (setAccepts (accepts s ++ [mkAccepting p (fresh s) (S (fresh s))])
      (setFresh (S (S (fresh s))) (setListening (<[fresh s := (ip, m_serverPort P)]> (listening s)) s))).

Lemma with_listener_registered p P ip s a p0 ip0 sp :
  ports s !! p = Some P -> (forall p ip sp, ~ registered s (fresh s) p ip sp) ->
  registered (with_listener p P ip s) a p0 ip0 sp <->
    a = fresh s /\ p0 = p /\ ip0 = ip /\ sp = m_serverPort P \/ a <> fresh s /\ registered s a p0 ip0 sp.
Proof.
  intros Hp Hfr. rewrite (registered_insert s) by done. cbn. rewrite lookup_insert_Some. split.
  - intros [(-> & [[<- <-]|[Hne Ha]] & <-)|[Hne Hr]]; [by left|right; split; [done|]; by exists P|].
    right. split; [|done]. intros ->. by eapply Hfr.
  - intros [(-> & -> & -> & ->)|[Hne Hr]]; [left; auto|]. destruct (decide (p0 = p)) as [->|]; [|by right].
    left. destruct Hr as (P0 & H0 & H1 & H2). simplify_eq. auto.
Qed.

Lemma wired_listen s p P ip : wired s -> ports s !! p = Some P -> wired (with_listener p P ip s).
Proof.
  intros Hw Hp. pose proof Hw as [].
  assert (forall p ip sp, ~ registered s (fresh s) p ip sp) as Hfr.
  { intros p0 ip0 sp H. specialize (wired_fresh0 _ _ _ _ H). lia. }
  assert (listening s !! fresh s = None) as Hlis.
  { apply eq_None_not_Some. intros [l H%wired_fresh_listening]; [lia|done]. }
  pose proof (fun a p0 ip0 sp => with_listener_registered p P ip s a p0 ip0 sp Hp Hfr) as Hreg.
  split; cbn [with_listener setPorts setAccepts setFresh setListening listening accepts fresh].
  - intros a p0 ip0 sp [(-> & -> & -> & ->)|[Hne H]]%Hreg; [by rewrite lookup_insert_eq|].
    rewrite lookup_insert_ne by done. by apply (wired_registered0 _ p0).
  - intros a l [[<- <-]|[Hne H]]%lookup_insert_Some.
    + exists p, ip, (m_serverPort P). apply Hreg. by left.
    + destruct (wired_owner0 a l H) as (p0 & ip0 & sp & H0). exists p0, ip0, sp. apply Hreg. auto.
  - intros a p1 ip1 sp1 p2 ip2 sp2 [(-> & -> & _)|[? H1]]%Hreg [(? & -> & _)|[? H2]]%Hreg; try done. eauto.
  - rewrite fmap_app. apply NoDup_app. split_and!; [done| |apply NoDup_singleton].
    intros a (op & -> & Hop)%list_elem_of_fmap Ha%list_elem_of_singleton. specialize (wired_fresh_op0 op Hop). cbn in Ha. lia.
  - intros op p0 ip0 sp [H1| ->%list_elem_of_singleton]%elem_of_app H2; apply Hreg in H2 as [(E & -> & _)|[Hne H2]]; cbn in *; try done; eauto.
    specialize (wired_fresh_op0 op H1). lia.
  - intros a l [[<- _]|[_ H1]]%lookup_insert_Some.
    + eexists. rewrite elem_of_app, list_elem_of_singleton. split; [by right|done].
    + destruct (wired_armed0 a l H1) as (op & Hop & E). exists op. rewrite elem_of_app. auto.
  - intros a p0 ip0 sp [(-> & _)|[_ H]]%Hreg; [lia|]. specialize (wired_fresh0 _ _ _ _ H). lia.
  - intros op [H1| ->%list_elem_of_singleton]%elem_of_app; [|cbn; lia]. specialize (wired_fresh_op0 op H1). lia.
Qed.

(** A port is closed. *)
Definition without_listeners (p : nat) (P : ServicePort.t) (s : state) : state :=
  setPorts (<[p := setAcceptors ∅ P]> (ports s))
    (setListening (filter (fun a => ServicePort.m_acceptors P !! a.1 = None) (listening s)) s).

Lemma without_listeners_registered p P s a p0 ip sp :
  registered (without_listeners p P s) a p0 ip sp <-> p0 <> p /\ registered s a p0 ip sp.
Proof. rewrite (registered_insert s) by done. cbn. rewrite lookup_empty. naive_solver. Qed.

Lemma wp_close_port p P (Q : unit -> state -> list request -> Prop) s :
  ports s !! p = Some P -> Q tt (without_listeners p P s) [] -> wp (close p) Q s.
Proof.
  intros Hp HQ. unfold close. apply wp_bind. eapply wp_port; [done|]. apply wp_bind, wp_modify.
  eapply wp_onPort; [done|]. done.
Qed.

Lemma wired_close s p P : wired s -> ports s !! p = Some P -> wired (without_listeners p P s).
Proof.
  intros Hw Hp. pose proof Hw as [].
  pose proof (without_listeners_registered p P s) as Hreg.
  assert (forall a p0 ip sp, p0 <> p -> registered s a p0 ip sp -> ServicePort.m_acceptors P !! a = None) as Hoth.
  { intros a p0 ip sp Hne Hr. apply eq_None_not_Some. intros [ip' H]. apply Hne. eapply (wired_unique0 a); [done|].
    exists P. eauto. }
  split; cbn [without_listeners setPorts setListening listening accepts fresh]; try done.
  - intros a p0 ip sp [Hne H]%Hreg. pose proof (wired_registered0 _ _ _ _ H) as Hm.
    rewrite map_lookup_filter. destruct (listening s !! a); [|done]. cbn. by rewrite option_guard_True by (cbn; eauto).
  - intros a l [H Hn]%map_lookup_filter_Some. destruct (wired_owner0 a l H) as (p0 & ip & sp & Hr).
    exists p0, ip, sp. apply Hreg. split; [|done]. intros ->. destruct Hr as (P0 & H0 & H1 & _). simplify_eq. cbn in Hn. by rewrite Hn in H1.
  - intros a p1 ip1 sp1 p2 ip2 sp2 [_ H1]%Hreg [_ H2]%Hreg. eauto.
  - intros op p0 ip sp H0 [_ H1]%Hreg. eauto.
  - intros a l [H _]%map_lookup_filter_Some. eauto.
  - intros a p0 ip sp [_ H]%Hreg. eauto.
Qed.

Lemma wired_relist s s' p P a :
  wired s -> ports s !! p = Some P -> listening s !! a = None -> (a < fresh s)%nat ->
  (forall p0 ip sp, ~ registered s a p0 ip sp) -> (forall op, op ∈ accepts s -> on_acceptor op <> a) ->
  ports s' = <[p := setAcceptors (<[a := address_any]> (ServicePort.m_acceptors P)) P]> (ports s) ->
  listening s' = listening s -> accepts s' = accepts s -> (fresh s <= fresh s')%nat -> wired s'.
Proof.
  intros Hw Hp Hlis Hfr Hreg Hops Hs Hl Ha Hf.
  eapply (wired_change s s' (Some (a, p, m_serverPort P))); rewrite ?Ha; try done; [| | |apply Hw|eauto..].
  - intros a0 p0 ip sp [(-> & Ha0 & <-)|[Hne Hr]]%(registered_insert _ _ _ _ _ _ _ _ Hs); [|by left].
    cbn in Ha0. apply lookup_insert_Some in Ha0 as [[<- <-]|[? ?]]; [by right|left; by exists P].
  - intros a0 p0 ip sp Hr. apply (registered_insert _ _ _ _ _ _ _ _ Hs). destruct (decide (p0 = p)) as [->|]; [left|by right].
    destruct Hr as (P0 & H0 & H1 & H2). simplify_eq. split_and!; try done. cbn. rewrite lookup_insert_ne; [done|].
    intros <-. eapply Hreg. by eexists.
  - intros ? ? ? [= <- <- <-]. split_and!; try done.
    + intros p0 ip sp H. by destruct (Hreg _ _ _ H).
    + intros op H0 H1. by destruct (Hops op H0).
Qed.

(** ** Opening a port *)

(** The addresses that can be listened on, and the others. *)
Fixpoint heard (ok : nat -> bool) (i : nat) (ips : list IPAddress) : list IPAddress :=
  match ips with [] => [] | ip :: ips => if ok i then ip :: heard ok (S i) ips else heard ok (S i) ips end.
Definition unheard (ok : nat -> bool) : nat -> list IPAddress -> list IPAddress := heard (fun i => negb (ok i)).

(** Requests that schedule and post nothing. *)
Definition quiet (out : list request) : Prop := restarts_of out = [] /\ closes_of out = [].

Lemma quiet_nil : quiet [].
Proof. done. Qed.
Lemma quiet_app out1 out2 : quiet out1 -> quiet out2 -> quiet (out1 ++ out2).
Proof. intros [E1 E2] [E3 E4]. unfold quiet, restarts_of, closes_of in *. by rewrite !omap_app, E1, E2, E3, E4. Qed.

(** The state [s'] is [s] with the acceptors [added] listening at the port [p]. *)
Record adds (p : nat) (P : ServicePort.t) (added : list (nat * IPAddress)) (s s' : state) : Prop := mkAdds {
  adds_ports : exists A, ports s' = <[p := setAcceptors A P]> (ports s) /\
    forall a ip, A !! a = Some ip <-> ServicePort.m_acceptors P !! a = Some ip \/ (a, ip) ∈ added;
  adds_listening a l : listening s' !! a = Some l <-> listening s !! a = Some l \/ (a, l.1) ∈ added /\ l.2 = m_serverPort P;
  adds_fresh : (fresh s <= fresh s')%nat;
  adds_new a ip : (a, ip) ∈ added -> (fresh s <= a)%nat;
  adds_kept op : op ∈ accepts s -> op ∈ accepts s';
  adds_accepts op : op ∈ accepts s' -> op ∈ accepts s \/ of_port op = p /\ on_acceptor op ∈ added.*1;
  adds_manager : m_acceptors s' = m_acceptors s;
  adds_log : m_logError s' = m_logError s;
  adds_connections : connections s' = connections s;
  adds_running : running s' = running s
}.

Lemma adds_nil p P s : ports s !! p = Some P -> adds p P [] s s.
Proof.
  intros Hp. split; try done; auto.
  - exists (ServicePort.m_acceptors P). split; [|intros; rewrite elem_of_nil; tauto].
    rewrite insert_id; [done|]. rewrite Hp. by destruct P.
  - intros a l. rewrite elem_of_nil. tauto.
  - by intros a ip ?%elem_of_nil.
Qed.

Lemma adds_one p P ip s : wired s -> ports s !! p = Some P -> adds p P [(fresh s, ip)] s (with_listener p P ip s).
Proof.
  intros Hw Hp. split; cbn; try done; try lia.
  - eexists. split; [done|]. intros a ip0. rewrite lookup_insert_Some, list_elem_of_singleton. split.
    + intros [[<- <-]|[_ H]]; auto.
    + intros [H|[= -> ->]]; [right|by left]. split; [|done]. intros <-.
      assert (fresh s < fresh s)%nat; [|lia]. apply (wired_fresh s Hw _ p ip0 (m_serverPort P)). by exists P.
  - intros a [ip0 sp]. rewrite lookup_insert_Some, list_elem_of_singleton. cbn. split.
    + intros [[<- [= <- <-]]|[_ H]]; auto.
    + intros [H|[[= -> ->] ->]]; [right|by left]. split; [|done]. intros <-. pose proof (wired_fresh_listening _ _ _ Hw H). lia.
  - intros a ip0 [= -> ->]%list_elem_of_singleton. done.
  - intros op. rewrite elem_of_app. auto.
  - intros op. rewrite elem_of_app, !list_elem_of_singleton. naive_solver.
Qed.

Lemma adds_app p P added1 added2 s1 s2 s3 :
  ports s1 !! p = Some P -> adds p P added1 s1 s2 ->
  (forall P2, ports s2 !! p = Some P2 -> same_port P P2 -> adds p P2 added2 s2 s3) -> adds p P (added1 ++ added2) s1 s3.
Proof.
  intros Hp [(A1 & E1 & HA1) L1 F1 N1 K1 O1 M1 G1 C1 R1] H2.
  assert (ports s2 !! p = Some (setAcceptors A1 P)) as Hp2 by by rewrite E1, lookup_insert_eq.
  destruct (H2 _ Hp2 ltac:(done)) as [(A2 & E2 & HA2) L2 F2 N2 K2 O2 M2 G2 C2 R2].
  split; try congruence; try lia.
  - exists A2. rewrite E2, E1, insert_insert_eq. split; [done|]. intros a ip. rewrite HA2. cbn. rewrite HA1, elem_of_app. tauto.
  - intros a l. rewrite L2, L1, elem_of_app. cbn. tauto.
  - intros a ip [H|H]%elem_of_app; [by eapply N1|]. specialize (N2 _ _ H). lia.
  - intros op H. by apply K2, K1.
  - intros op. rewrite fmap_app, elem_of_app. intros [[H|[H3 H4]]%O1|[H3 H4]]%O2; auto.
Qed.

Lemma open_loop_adds e p ips : env_ok e -> forall i s P,
  wired s -> ports s !! p = Some P ->
  wp (open_loop e p (m_serverPort P) i ips) (fun pend s' out =>
    wired s' /\ quiet out /\ pend = (if m_logError s then unheard (listen_ok e) i ips else []) /\
    exists added, added.*2 = heard (listen_ok e) i ips /\ adds p P added s s') s.
Proof.
  intros He. induction ips as [|ip ips IH]; intros i s P Hw Hp; cbn [open_loop heard].
  { apply wp_ret. split_and!; try done; [by destruct (m_logError s)|]. exists []. split; [done|by apply adds_nil]. }
  unfold unheard. cbn [heard]. apply wp_bind. destruct (listen_ok e i); cbn [negb].
  - apply wp_bind, wp_new, wp_bind, wp_modify, wp_bind, wp_accept; [done|].
    apply wp_bind. eapply wp_onPort; [done|]. apply wp_ret. cbn [fresh setFresh setListening listening setAccepts accepts ports].
    set (s1 := setPorts _ _). assert (s1 = with_listener p P ip s) as -> by done.
    assert (ports (with_listener p P ip s) !! p = Some (setAcceptors (<[fresh s := ip]> (ServicePort.m_acceptors P)) P)) as Hp1
      by (cbn; by rewrite lookup_insert_eq).
    apply wp_bind. eapply wp_mono; [apply (IH (S i) _ _ (wired_listen s p P ip Hw Hp) Hp1)|].
    intros pend s2 out (Hw2 & Hq & -> & added & Had & Hadds). apply wp_ret. split_and!; [done|cbn [app]; by rewrite app_nil_r|done|].
    exists ([(fresh s, ip)] ++ added). split; [by rewrite fmap_app, Had|].
    eapply adds_app; [done|by apply adds_one|]. intros P2 HP2 _. by simplify_eq.
  - apply wp_bind, wp_gets. cbn. destruct (m_logError s) eqn:El.
    + apply wp_bind, wp_emit, wp_ret. apply wp_bind. eapply wp_mono; [by apply IH|]. rewrite El.
      intros pend s2 out (Hw2 & Hq & -> & Hadds). apply wp_ret. split_and!; [done| |done|done].
      cbn [app]. rewrite app_nil_r. by apply (quiet_app [Log_error]).
    + apply wp_ret. apply wp_bind. eapply wp_mono; [by apply IH|]. rewrite El.
      intros pend s2 out (Hw2 & Hq & -> & Hadds). apply wp_ret. split_and!; [done| |done|done]. cbn [app]. by rewrite app_nil_r.
Qed.

Lemma adds_similar p P added s s' : ports s !! p = Some P -> adds p P added s s' -> similar s s'.
Proof.
  intros Hp [(A & E & _) _ Hf _ _ _ Hm _ _ _]. by apply (similar_insert s s' p P (setAcceptors A P)).
Qed.

Lemma adds_port p P added s s' : adds p P added s s' ->
  exists P', ports s' = <[p := P']> (ports s) /\ same_port P P' /\
    forall a ip, ServicePort.m_acceptors P' !! a = Some ip <-> ServicePort.m_acceptors P !! a = Some ip \/ (a, ip) ∈ added.
Proof. intros [(A & E & HA) _ _ _ _ _ _ _ _ _]. by exists (setAcceptors A P). Qed.

(** The end of [open]: what could not be listened on is tried again. *)
Definition schedule (p : nat) (pend : list IPAddress) (s : state) : state :=
  match pend with
  | [] => s
  | _ => setPorts (alter (setPendingStart true) p (ports s)) (setLogError false s)
  end.
Definition scheduled (p : nat) (pend : list IPAddress) (sp : Z) : list restart :=
  match pend with [] => [] | _ => [(p, pend, sp)] end.

Lemma insert_alter (ps : gmap nat ServicePort.t) p P f : ps !! p = Some P -> <[p := f P]> ps = alter f p ps.
Proof.
  intros Hp. apply map_eq. intros p0. destruct (decide (p = p0)) as [<-|Hne].
  - by rewrite lookup_insert_eq, lookup_alter_eq, Hp.
  - by rewrite lookup_insert_ne, lookup_alter_ne.
Qed.

(** A port that is opened: its number is set and it waits for nothing. *)
Definition opening (sp : Z) (P : ServicePort.t) : ServicePort.t := setServerPort sp (setPendingStart false P).

Lemma wired_opening s p P sp :
  wired s -> ports s !! p = Some P -> (m_serverPort P = sp \/ ServicePort.m_acceptors P = ∅) ->
  wired (setPorts (<[p := opening sp P]> (ports s)) s).
Proof.
  intros Hw Hp Hsp. eapply (wired_ports s); try done. intros a p0 ip sp0. rewrite (registered_insert s) by done. cbn.
  unfold registered. split.
  - intros [(-> & Ha & <-)|[_ H]]; [|done]. destruct Hsp as [<-|E]; [eauto|]. by rewrite E, lookup_empty in Ha.
  - intros (P0 & H0 & H1 & H2). destruct (decide (p0 = p)) as [->|Hne]; [|right; eauto]. simplify_eq.
    destruct Hsp as [<-|E]; [eauto|]. by rewrite E, lookup_empty in H1.
Qed.

Lemma open_adds e p P ips sp s :
  env_ok e -> wired s -> ports s !! p = Some P -> (m_serverPort P = sp \/ ServicePort.m_acceptors P = ∅) ->
  wp (open e p ips sp) (fun _ s' out =>
    wired s' /\ exists added s1, added.*2 = heard (listen_ok e) 0 ips /\
      adds p (opening sp P) added (setPorts (<[p := opening sp P]> (ports s)) s) s1 /\
      let pend := if m_logError s then unheard (listen_ok e) 0 ips else [] in
      s' = schedule p pend s1 /\ restarts_of out = scheduled p pend sp /\ closes_of out = []) s.
Proof.
  intros He Hw Hp Hsp. pose proof (wired_opening s p P sp Hw Hp Hsp) as Hw1.
  unfold open. apply wp_bind. eapply wp_onPort; [done|]. apply wp_bind. eapply wp_onPort; [cbn; by rewrite lookup_insert_eq|].
  cbn [setPorts ports]. rewrite insert_insert_eq. fold (opening sp P). set (s0 := setPorts _ _) in *.
  assert (s0 = setPorts (<[p := opening sp P]> (ports s)) s) as E0 by done.
  assert (ports s0 !! p = Some (opening sp P)) as Hp0 by (cbn; by rewrite lookup_insert_eq).
  apply wp_bind. eapply wp_mono; [exact (open_loop_adds e p ips He 0 s0 (opening sp P) Hw1 Hp0)|].
  intros pend s1 out (Hw2 & [Hq1 Hq2] & Hpend & added & Had & Hadds).
  pose proof (adds_log _ _ _ _ _ Hadds) as Hlog. change (m_logError s0) with (m_logError s) in *.
  rewrite <- Hpend. case_bool_decide as Hnil.
  - apply wp_skip. split; [done|]. exists added, s1. rewrite Hnil. cbn [app schedule scheduled]. rewrite app_nil_r. done.
  - destruct (adds_port _ _ _ _ _ Hadds) as (P' & E' & HP' & _).
    assert (ports s1 !! p = Some P') as Hp1 by by rewrite E', lookup_insert_eq.
    apply wp_bind, wp_modify, wp_bind. eapply wp_onPort; [done|]. apply wp_emit.
    cbn [setLogError ports]. rewrite (insert_alter _ _ _ _ Hp1). split.
    + eapply (wired_port s1 _ p P' (setPendingStart true P')); try done. cbn. by rewrite insert_alter.
    + exists added, s1. destruct pend as [|ip pend]; [done|]. split_and!; try done.
      * unfold restarts_of in *. cbn [app]. rewrite omap_app, Hq1. done.
      * unfold closes_of in *. cbn [app]. rewrite omap_app, Hq2. done.
Qed.

(** The books after a port was opened: [evs] is what is scheduled but for that port. *)
Lemma open_books q e p P ips sp s evs cls :
  env_ok e -> wired s -> ports s !! p = Some P -> (m_serverPort P = sp \/ ServicePort.m_acceptors P = ∅) ->
  books q (setPorts (<[p := opening sp P]> (ports s)) s) evs cls ->
  wp (open e p ips sp) (fun _ s' out => inv q s' (evs ++ restarts_of out) (cls ++ closes_of out)) s.
Proof.
  intros He Hw Hp Hsp Hb. eapply wp_mono; [by apply open_adds|].
  intros [] s' out (Hw' & added & s1 & _ & Hadds & -> & -> & ->). split; [done|]. rewrite app_nil_r.
  set (s0 := setPorts _ _) in *. assert (ports s0 !! p = Some (opening sp P)) as Hp0 by (cbn; by rewrite lookup_insert_eq).
  pose proof (books_similar _ _ _ _ _ (adds_similar _ _ _ _ _ Hp0 Hadds) Hb) as Hb1.
  destruct (adds_port _ _ _ _ _ Hadds) as (P' & E' & (Es & Esp & Eps) & _).
  assert (ports s1 !! p = Some P') as Hp1 by by rewrite E', lookup_insert_eq.
  destruct (if m_logError s then _ else _) as [|ip pend]; cbn [schedule scheduled]; [by rewrite app_nil_r|].
  eapply (books_port q s1 _ evs _ cls p P' (setPendingStart true P')); try done.
  - cbn. by rewrite insert_alter.
  - intros Hq. by apply (books_services _ _ _ _ Hb1 p P').
  - rewrite restarts_at_app, restarts_at_one, decide_True by done. rewrite (books_pendingStart _ _ _ _ Hb1 p P' Hp1). by rewrite Eps.
  - intros p0 Hne. rewrite restarts_at_app, restarts_at_one, decide_False by done. lia.
  - intros p0 ips0 sp0 [H|[= -> -> ->]%list_elem_of_singleton]%elem_of_app; [by left|right]. by rewrite Esp.
Qed.

(** ** Accepting *)

(** What an accepted connection is answered: the state of the connection manager and the
    number of new names, and the requests. *)
Definition welcome (e : env) (op : accepting) (c : completion) (front : Service.t) (s : state) (ip : Z) :
    ConnectionManager.t * nat * list request :=
  let '(accepted, m) := if ip =? 0 then (false, connections s) else ConnectionManager.acceptConnection (now e) ip (connections s) in
  if accepted then
    let connection := fresh s in
    (ConnectionManager.createConnection connection m, 1%nat,
     [if Service.isSingleSocket front
      then Connection_handle connection (of_socket op) (of_port op) (Service.makeProtocol front (Some connection))
      else Connection_accept connection (of_socket op) (of_port op)])
  else (m, 0%nat, if is_open c then [Delete_socket (of_socket op)] else []).

(** The state after a connection: the acceptor accepts again. *)
Definition welcomed (op : accepting) (m : ConnectionManager.t) (n : nat) (s : state) : state :=
  setConnections m (setFresh (n + S (fresh s)) (setAccepts (accepts s ++ [mkAccepting (of_port op) (on_acceptor op) (n + fresh s)]) s)).

Lemma handle_accepted e op c s P front rest ip :
  env_ok e -> error c = NoError -> ports s !! of_port op = Some P -> m_services P = front :: rest ->
  remoteIp (remote_endpoint c) = Some ip ->
  handle e op c s = let '(m, n, out) := welcome e op c front s ip in Some (tt, welcomed op m n s, out).
Proof.
  intros He Hc Hp Hs Hip. destruct op as [p a sock]. cbn [of_port] in Hp. unfold handle. rewrite Hc.
  assert (forall s' (a' : nat), ports s' = ports s -> accept e p a s' =
    Some (tt, setAccepts (accepts s' ++ [mkAccepting p a (fresh s')]) (setFresh (S (fresh s')) s'), [])) as Hacc.
  { intros s' _ _. unfold accept, new. autorewrite with proc. by rewrite He. }
  unfold port. autorewrite with proc. rewrite Hp. autorewrite with proc. rewrite Hs, Hip. autorewrite with proc.
  unfold welcome. destruct (ip =? 0) eqn:E0; autorewrite with proc.
  - destruct (is_open c).
    + rewrite bind_emit, Hacc by done. cbn. by destruct s.
    + unfold skip. autorewrite with proc. rewrite Hacc by done. cbn. by destruct s.
  - unfold acceptConnection. autorewrite with proc.
    destruct (ConnectionManager.acceptConnection (now e) ip (connections s)) as [[] m] eqn:Ea; cbn [fst snd].
    + unfold createConnection, new. autorewrite with proc.
      destruct (Service.isSingleSocket front); rewrite bind_emit, Hacc by done; done.
    + destruct (is_open c).
      * rewrite bind_emit, Hacc by done. done.
      * unfold skip. autorewrite with proc. rewrite Hacc by done. done.
Qed.

(** The state after a failed accept: the port is closed, and, unless it waits for a restart
    already, the acceptor's address, which is no longer known, is to be opened again. *)
Definition reopening (p a : nat) (P : ServicePort.t) (s : state) : state :=
  setPorts (<[p := setPendingStart true (setAcceptors (if m_pendingStart P then ∅ else {[a := address_any]}) P)]> (ports s))
    (setListening (filter (fun x => ServicePort.m_acceptors P !! x.1 = None) (listening s)) s).

Lemma handle_failed e op c s P :
  error c <> NoError -> error c <> OperationAborted -> ports s !! of_port op = Some P ->
  handle e op c s = Some (tt, reopening (of_port op) (on_acceptor op) P s,
    if m_pendingStart P then [] else [AddEvent_service (of_port op) address_any (m_serverPort P)]).
Proof.
  intros Hc1 Hc2 Hp. destruct op as [p a sock]. cbn [of_port on_acceptor] in *.
  assert (handle e (mkAccepting p a sock) c s =
    (_ ← close p; P ← port p;
      if m_pendingStart P then skip
      else
        _ ← onPort p (setPendingStart true);
        let ip := default address_any (ServicePort.m_acceptors P !! a) in
        _ ← onPort p (fun P => setAcceptors (<[a := ip]> (ServicePort.m_acceptors P)) P);
        emit (AddEvent_service p ip (m_serverPort P))) s) as -> by (unfold handle; by destruct (error c)).
  assert (forall s' (P' : ServicePort.t) A (k : ServicePort.t -> M A), ports s' !! p = Some P' -> (port p ≫= k) s' = k P' s') as Hport.
  { intros s' P' A k H. unfold port. autorewrite with proc. rewrite H. by autorewrite with proc. }
  unfold close, onPort. autorewrite with proc. rewrite (Hport _ P) by done. autorewrite with proc.
  rewrite (Hport _ P) by done. autorewrite with proc. rewrite (Hport _ (setAcceptors ∅ P)) by (cbn; by rewrite lookup_insert_eq).
  unfold reopening. cbn [m_pendingStart setAcceptors]. destruct (m_pendingStart P) eqn:Eps.
  - unfold skip, mret, proc_ret. do 2 f_equal. unfold setPorts. cbn. repeat f_equal.
    destruct P; cbn in *. by subst.
  - autorewrite with proc. rewrite (Hport _ (setAcceptors ∅ P)) by (cbn; by rewrite lookup_insert_eq). autorewrite with proc.
    rewrite (Hport _ (setPendingStart true (setAcceptors ∅ P))) by (cbn; by rewrite lookup_insert_eq). autorewrite with proc.
    unfold emit. cbn. rewrite !insert_insert_eq, lookup_empty. done.
Qed.

Lemma welcome_quiet e op c front s ip : quiet (welcome e op c front s ip).2.
Proof.
  unfold welcome. destruct (if ip =? 0 then _ else _) as [[] m]; cbn [snd].
  - by destruct (Service.isSingleSocket front).
  - by destruct (is_open c).
Qed.

Lemma remoteIp_v4 r : match r with Some ip => is_v4 ip | None => true end = true -> exists ip, remoteIp r = Some ip.
Proof. destruct r as [[]|]; cbn; eauto; done. Qed.

(** The op is taken off the accepts in flight before its handler runs. *)
Definition completed (op : accepting) (s : state) : state := setAccepts (filter (.≠ op) (accepts s)) s.

Lemma inv_welcomed s op m n evs cls :
  inv None s evs cls -> op ∈ accepts s -> inv None (welcomed op m n (completed op s)) evs cls.
Proof.
  intros [Hw Hb] Hop. split.
  - by eapply (wired_rearm s _ op (n + fresh s)); [done|done|done|done|cbn; lia|done].
  - eapply books_similar; [|done]. by apply similar_same; [done|done|cbn; lia].
Qed.

Lemma reopening_books s p a P evs cls :
  books None s evs cls -> ports s !! p = Some P ->
  books None (reopening p a P s) (evs ++ if m_pendingStart P then [] else [(p, [address_any], m_serverPort P)]) cls.
Proof.
  intros Hb Hp. eapply (books_port None s _ evs _ cls p P _); try done.
  - intros _. by apply (books_services _ _ _ _ Hb p P).
  - pose proof (books_pendingStart _ _ _ _ Hb p P Hp) as Hc. cbn. rewrite restarts_at_app, Hc.
    destruct (m_pendingStart P); [done|]. by rewrite restarts_at_one, decide_True.
  - intros p0 Hne. rewrite restarts_at_app. destruct (m_pendingStart P); [cbn; lia|]. rewrite restarts_at_one, decide_False by done. lia.
  - intros p0 ips sp. rewrite elem_of_app. destruct (m_pendingStart P); [rewrite elem_of_nil; tauto|].
    rewrite list_elem_of_singleton. intros [H|[= -> -> ->]]; auto.
Qed.

(** When its port is closed, the acceptor of an accept in flight does not listen. *)
Lemma closed_acceptor s op P :
  wired s -> op ∈ accepts s -> ports s !! of_port op = Some P ->
  listening (without_listeners (of_port op) P s) !! on_acceptor op = None.
Proof.
  intros Hw Hop Hp. pose proof (wired_close s (of_port op) P Hw Hp) as Hw1.
  destruct (listening _ !! _) as [l|] eqn:E; [|done]. exfalso.
  destruct (wired_listening _ _ _ Hw1 E) as [p0 Hr]. apply without_listeners_registered in Hr as [Hne Hr].
  apply Hne. symmetry. by apply (wired_op_port s Hw op p0 l.1 l.2).
Qed.

Lemma wired_reopening s op P :
  wired s -> op ∈ accepts s -> ports s !! of_port op = Some P ->
  wired (reopening (of_port op) (on_acceptor op) P (completed op s)).
Proof.
  intros Hw Hop Hp. pose proof (closed_acceptor s op P Hw Hop Hp) as Hlis. set (p := of_port op) in *. set (a := on_acceptor op) in *.
  pose proof (wired_close s p P Hw Hp) as Hw1. set (s1 := without_listeners p P s) in *.
  pose proof (wired_disarm s1 op Hw1 Hlis) as Hw2. set (s2 := setAccepts (filter (.≠ op) (accepts s1)) s1) in *.
  assert (ports s2 !! p = Some (setAcceptors ∅ P)) as Hp2 by (cbn; by rewrite lookup_insert_eq).
  destruct (m_pendingStart P) eqn:Eps.
  - eapply (wired_port s2 _ p (setAcceptors ∅ P) (setPendingStart true (setAcceptors ∅ P))); try done.
    cbn. by rewrite Eps, insert_insert_eq.
  - assert (ports s1 !! p = Some (setAcceptors ∅ P)) as Hp1 by done.
    assert (wired (setPorts (<[p := setAcceptors (<[a := address_any]> ∅) P]> (ports s2)) s2)) as Hw3.
    { eapply (wired_relist s2 _ p (setAcceptors ∅ P) a); try done.
      - apply (wired_fresh_op s Hw op Hop).
      - intros p0 ip sp Hr. rewrite (registered_same s1 s2) in Hr by done.
        apply without_listeners_registered in Hr as [Hne Hr]. apply Hne. symmetry. by apply (wired_op_port s Hw op p0 ip sp).
      - cbn. intros op0 [Hne H0]%list_elem_of_filter E. apply Hne.
        by apply (NoDup_fmap_same on_acceptor (accepts s)); [apply Hw| | |]. }
    eapply (wired_port _ _ p (setAcceptors (<[a := address_any]> ∅) P) (setPendingStart true (setAcceptors {[a := address_any]} P))); [exact Hw3| | | | | | |]; try done.
    + cbn. by rewrite lookup_insert_eq.
    + cbn. by rewrite Eps, !insert_insert_eq.
Qed.

(** ** The manager *)

Lemma find_elem {V} k (v : V) (m : StdMap.t Z V) : StdMap.find k m = Some v -> (k, v) ∈ m.
Proof.
  induction m as [|[k' v'] m IH]; cbn; [done|]. destruct (StdMap.key_eqb k k') eqn:E.
  - apply StdMap.key_eqb_eq in E as ->. intros [= ->]. apply elem_of_cons. auto.
  - intros H. apply elem_of_cons. auto.
Qed.

Lemma add_service_ok s P P' :
  ServicePort.add s P = (true, P') -> isSingleSocket P || Service.isSingleSocket s = false \/ m_services P = [] -> services_ok P'.
Proof.
  unfold ServicePort.add. destruct (existsb Service.isSingleSocket (m_services P)) eqn:Ex; [done|]. intros [= <-] Hs.
  unfold services_ok. cbn. split; [by destruct (m_services P)|]. rewrite existsb_app, Ex. cbn. rewrite orb_false_r, length_app. cbn.
  intros Hsn. destruct Hs as [[_ E]%orb_false_iff|E]; [by rewrite E in Hsn|by rewrite E].
Qed.

(** What [add] does at the end: the service joins the port [p]. *)
Lemma wp_join q s p P sv evs cls :
  inv q s evs cls -> ports s !! p = Some P ->
  (isSingleSocket P || Service.isSingleSocket sv = false /\ q = None \/ m_services P = [] /\ q = Some p) ->
  wp (P ← port p; let '(ok, P) := ServicePort.add sv P in _ ← onPort p (fun _ => P); mret ok)
    (fun (_ : bool) s' out => out = [] /\ inv None s' evs cls /\ m_acceptors s' = m_acceptors s) s.
Proof.
  intros [Hw Hb] Hp Hs. apply wp_bind. eapply wp_port; [done|].
  destruct (ServicePort.add sv P) as [ok P'] eqn:E.
  assert (m_serverPort P' = m_serverPort P /\ ServicePort.m_acceptors P' = ServicePort.m_acceptors P /\ m_pendingStart P' = m_pendingStart P) as (E1 & E2 & E3).
  { unfold ServicePort.add in E. destruct (existsb _ _); by injection E as <- <-. }
  assert (services_ok P') as Hok.
  { destruct ok; [eapply add_service_ok; [done|]; tauto|]. unfold ServicePort.add in E.
    destruct (existsb _ _) eqn:Ex; [|done]. injection E as <-.
    destruct Hs as [[_ ->]|[E _]]; [by eapply (books_services _ _ _ _ Hb)|by rewrite E in Ex]. }
  apply wp_bind. eapply wp_onPort; [done|]. apply wp_ret. split_and!; [done| |done]. split.
  - by eapply (wired_port s _ p P P').
  - assert (books q (setPorts (<[p := P']> (ports s)) s) evs cls) as Hb'.
    { eapply (books_port q s _ evs evs cls p P P'); try done; [|auto]. rewrite E3. by apply (books_pendingStart _ _ _ _ Hb). }
    destruct Hb'. split; try done. intros p0 P0 H0 _. destruct (decide (p0 = p)) as [->|Hne].
    + cbn in H0. rewrite lookup_insert_eq in H0. by injection H0 as <-.
    + apply (books_services0 p0 P0).
      * cbn in H0 |- *. by rewrite lookup_insert_ne in H0 |- * by done.
      * destruct Hs as [[_ ->]|[_ ->]]; [done|by intros [= ->]].
Qed.

Lemma wp_both {A} (m : M A) Q1 Q2 s : wp m Q1 s -> wp m Q2 s -> wp m (fun a s' out => Q1 a s' out /\ Q2 a s' out) s.
Proof. intros (a & s' & out & E & H1) (a' & s2 & out' & E' & H2). rewrite E in E'. simplify_eq. exists a', s2, out'. auto. Qed.

(** What a port that was opened looks like. *)
Lemma open_same e p P ips sp s :
  env_ok e -> wired s -> ports s !! p = Some P -> (m_serverPort P = sp \/ ServicePort.m_acceptors P = ∅) ->
  wp (open e p ips sp) (fun _ s' out => m_acceptors s' = m_acceptors s /\ running s' = running s /\
    (exists P', ports s' = <[p := P']> (ports s) /\ m_services P' = m_services P /\ m_serverPort P' = sp) /\
    (forall op, op ∈ accepts s' -> op ∈ accepts s \/ of_port op = p) /\
    (fresh s <= fresh s')%nat /\ (forall p0 ips0 sp0, (p0, ips0, sp0) ∈ restarts_of out -> p0 = p) /\ closes_of out = []) s.
Proof.
  intros He Hw Hp Hsp. eapply wp_mono; [by apply open_adds|].
  intros [] s' out (_ & added & s1 & _ & Hadds & -> & -> & ->).
  destruct (adds_port _ _ _ _ _ Hadds) as (P' & E' & (Es & Esp & _) & _). cbn in E'. rewrite insert_insert_eq in E'.
  destruct Hadds as [_ _ Hf _ _ Hops Hm _ _ Hr]. cbn in Hm, Hr, Hops, Hf.
  assert (forall op, op ∈ accepts s1 -> op ∈ accepts s \/ of_port op = p) as Hops' by (intros op [H|[H _]]%Hops; auto).
  destruct (if m_logError s then _ else _); cbn [schedule scheduled].
  { split_and!; try done; [by eauto 8|]. by intros p0 ips0 sp0 ?%elem_of_nil. }
  split_and!; try done; [|by intros p0 ips0 sp0 [= -> -> ->]%list_elem_of_singleton]. exists (setPendingStart true P'). split; [|done].
  cbn. rewrite E', <- (insert_alter _ p P') by by rewrite lookup_insert_eq. by rewrite insert_insert_eq.
Qed.

Lemma add_books e sv sp ips s evs cls :
  env_ok e -> 0 <= sp < 2 ^ 16 -> inv None s evs cls ->
  wp (add e sv sp ips) (fun _ s' out => inv None s' (evs ++ restarts_of out) (cls ++ closes_of out)) s.
Proof.
  intros He Hsp Hi. unfold add. destruct (Z.eqb_spec sp 0) as [->|Hne]; [apply wp_ret; by rewrite !app_nil_r|].
  apply wp_bind, wp_gets. destruct (StdMap.find sp (m_acceptors s)) as [p|] eqn:Ef.
  - destruct Hi as [Hw Hb]. destruct (books_manager _ _ _ _ Hb sp p (find_elem _ _ _ Ef)) as (_ & P & Hp & _).
    apply wp_bind. eapply wp_port; [done|]. destruct (isSingleSocket P || Service.isSingleSocket sv) eqn:Es.
    + apply wp_ret. by rewrite !app_nil_r.
    + eapply wp_mono; [eapply (wp_join None s p P sv evs cls); [done|done|by left]|].
      intros ok s' out (-> & Hi' & _). by rewrite !app_nil_r.
  - pose proof Hi as [Hw Hb]. set (p := fresh s).
    assert (ports s !! p = None) as Hnone.
    { apply eq_None_not_Some. intros H. pose proof (books_fresh _ _ _ _ Hb p H). lia. }
    apply wp_bind, wp_new, wp_bind, wp_modify. fold p. cbn [setFresh ports].
    set (s1 := setPorts _ _).
    assert (ports s1 !! p = Some ServicePort.new) as Hp1 by (cbn; by rewrite lookup_insert_eq).
    assert (forall P0, ServicePort.m_acceptors P0 = ∅ -> wired (setPorts (<[p := P0]> (ports s)) (setFresh (S p) s))) as Hw1.
    { intros P0 E. eapply (wired_ports s); try done; [cbn; lia|]. intros a p0 ip sp0. rewrite (registered_insert s) by done.
      rewrite E, lookup_empty. split; [by intros [(_ & ? & _)|[_ H]]|]. intros H. right. split; [|done].
      intros ->. destruct H as (P1 & H & _). by rewrite H in Hnone. }
    assert (books (Some p) (setPorts (<[p := opening sp ServicePort.new]> (ports s)) (setFresh (S p) s)) evs cls) as Hb1.
    { destruct Hb. split; cbn [setPorts setFresh ports fresh m_acceptors]; try done.
      - intros p0 P0 [[<- <-]|[_ H]]%lookup_insert_Some; [|eauto]. cbn. apply restarts_at_none.
        intros ips0 sp0 H. specialize (books_fresh_restart0 _ _ _ H). lia.
      - intros p0 ips0 sp0 P0 H [[<- <-]|[_ H1]]%lookup_insert_Some; [|eauto]. specialize (books_fresh_restart0 _ _ _ H). lia.
      - intros p0 P0 [[<- <-]|[_ H]]%lookup_insert_Some Hq; [done|]. by eapply books_services0.
      - intros sp0 p0 H. destruct (books_manager0 sp0 p0 H) as (H1 & P0 & H2 & H3). split; [done|].
        exists P0. rewrite lookup_insert_ne; [done|]. intros <-. by rewrite H2 in Hnone.
      - intros p0 H. apply lookup_insert_is_Some. destruct (decide (p = p0)); eauto.
      - intros p0 [<-|[_ H]]%lookup_insert_is_Some; [lia|]. specialize (books_fresh0 p0 H). lia.
      - intros p0 ips0 sp0 H. specialize (books_fresh_restart0 _ _ _ H). lia. }
    apply wp_bind. eapply wp_mono.
    { apply wp_both; [eapply (open_books (Some p) e p ServicePort.new ips sp s1 evs cls)|eapply (open_same e p ServicePort.new ips sp s1)]; try done; try (by right); try by apply Hw1.
      cbn. by rewrite insert_insert_eq. }
    intros [] s2 out ([Hw2 Hb2] & Hm2 & _ & (P' & Hp2 & Es & Esp) & _). cbn in Es.
    apply wp_bind, wp_modify.
    assert (inv (Some p) (setManager (StdMap.insert sp p (m_acceptors s2)) (running s2) s2) (evs ++ restarts_of out) (cls ++ closes_of out)) as Hi3.
    { split; [by eapply (wired_frame s2)|]. destruct Hb2. split; cbn [setManager ports m_acceptors fresh]; try done.
      - intros sp0 p0 [[= -> ->]|H]%StdMap.elem_insert; [|eauto]. split; [lia|]. exists P'. rewrite Hp2, lookup_insert_eq. auto.
      - by apply StdMap.sorted_insert. }
    eapply wp_mono; [eapply (wp_join (Some p) _ p P' sv); [done|cbn; by rewrite Hp2, lookup_insert_eq|by right]|].
    intros ok s3 out3 (-> & Hi' & _). cbn [app]. by rewrite !app_nil_r.
Qed.

Lemma inv_expire s evs cls p P :
  inv None s evs cls -> ports s !! p = Some P -> p ∉ (m_acceptors s).*2 -> p ∉ cls ->
  wp (Server.delete p) (fun _ s' out => quiet out /\ inv None s' evs cls) s.
Proof.
  intros [Hw Hb] Hp Hm Hc. unfold Server.delete. apply wp_bind. eapply wp_close_port; [done|]. apply wp_modify. split; [done|].
  cbn [without_listeners setPorts ports]. rewrite delete_insert_eq. pose proof (wired_close s p P Hw Hp) as Hw1. split.
  - eapply (wired_ports _ _ Hw1); try done. intros a p0 ip sp. rewrite without_listeners_registered. unfold registered. cbn.
    setoid_rewrite lookup_delete_Some. naive_solver.
  - destruct Hb. split; cbn [setPorts setListening ports fresh m_acceptors]; try done.
    + intros p0 P0 [_ H]%lookup_delete_Some. eauto.
    + intros p0 ips sp P0 H [_ H0]%lookup_delete_Some. eauto.
    + intros p0 P0 [_ H]%lookup_delete_Some. eauto.
    + intros sp p0 H. destruct (books_manager0 sp p0 H) as (H1 & P0 & H2 & H3). split; [done|]. exists P0.
      rewrite lookup_delete_ne; [done|]. intros <-. apply Hm. apply list_elem_of_fmap. by exists (sp, p).
    + intros p0 H. rewrite lookup_delete_ne; [eauto|]. intros <-. done.
    + intros p0 [P0 [_ H]%lookup_delete_Some]. eauto.
Qed.

Lemma stop_books e s evs cls :
  inv None s evs cls -> wp (stop e) (fun _ s' out => inv None s' (evs ++ restarts_of out) (cls ++ closes_of out)) s.
Proof.
  intros Hi. unfold stop. apply wp_bind, wp_gets. destruct (running s); cbn [negb]; [|apply wp_skip; by rewrite !app_nil_r].
  apply wp_bind, wp_gets. apply wp_bind.
  assert (forall acc, (forall sp p, (sp, p) ∈ acc -> is_Some (ports s !! p)) ->
    wp (for_each (fun it : Z * nat => if post_ok e then emit (Post_close it.2) else emit Log_error) acc)
      (fun _ s' out => s' = s /\ restarts_of out = [] /\ forall p, p ∈ closes_of out -> is_Some (ports s !! p)) s) as Hloop.
  { induction acc as [|[sp p] acc IH]; intros Hacc; cbn [for_each].
    { apply wp_skip. split_and!; [done|done|]. by intros p ?%elem_of_nil. }
    apply wp_bind. assert (is_Some (ports s !! p)) as Hp by (eapply Hacc, elem_of_cons; auto).
    destruct (post_ok e); apply wp_emit; (eapply wp_mono; [apply IH; intros sp0 p0 H; eapply Hacc, elem_of_cons; eauto|]);
      intros [] s' out (-> & Hr & Hc); cbn in *; split_and!; try done.
    intros p0. change (omap _ (_ :: out)) with (p :: closes_of out). intros [->|H]%elem_of_cons; eauto. }
  destruct Hi as [Hw Hb]. eapply wp_mono; [apply (Hloop (m_acceptors s))|].
  { intros sp p H. destruct (books_manager _ _ _ _ Hb sp p H) as (_ & P & H1 & _). eauto. }
  intros [] s' out (-> & Hr & Hc). apply wp_bind, wp_modify, wp_bind, wp_emit, wp_emit. cbn [app].
  assert (restarts_of (out ++ [OutputMessagePool_stop; Start_deathTimer]) = []) as Er.
  { unfold restarts_of in *. by rewrite omap_app, Hr. }
  assert (closes_of (out ++ [OutputMessagePool_stop; Start_deathTimer]) = closes_of out) as Ec.
  { unfold closes_of. rewrite omap_app. by rewrite app_nil_r. }
  rewrite Er, Ec, app_nil_r. split; [by eapply (wired_frame s)|]. destruct Hb. split; cbn; try done.
  - by intros sp p ?%elem_of_nil.
  - intros p [H|H]%elem_of_app; eauto.
Qed.

End ServerLaws.
