(* ===== verification/ServerRun.v ===== *)
(** * The server's ports: properties (src/net/server.cpp)

    What holds in every reachable state of the ports and their manager, what the handler
    of an accept does, and what becomes of a port whose accepts or restarts fail. *)
From Stdlib Require Import Sorting.Sorted.
From S2P Require Import Prelude Proc CString StdMap ConnMgr Conn Server ServerLaws.

Module ServerRun.
Import Server.ServicePort.
Import Server.
Import ServerLaws.
Import Connection (asio_error, NoError, OperationAborted).

#[local] Existing Instance Connection.asio_error_eq_dec.

Abbreviation sys_inv x := (inv None (net x) (restarts x) (closes x)).

(** The handler of this event runs on a port that is alive, or does not look at it. *)
Definition on_live_port (ev : event) (x : sys) : Prop :=
  match ev with
  | EvAccept op c => error c = OperationAborted \/ is_Some (ports (net x) !! of_port op)
  | _ => True
  end.

Lemma handle_dead e op c s : error c <> OperationAborted -> ports s !! of_port op = None -> handle e op c s = None.
Proof.
  intros Hc Hp. destruct op as [p a sock]. cbn in Hp. unfold handle, close, port, mbind, proc_bind, gets, lift. cbn.
  destruct (error c); rewrite ?Hp; done.
Qed.

Lemma absorb_wp {A} (m : proc state request A) (Q : A -> state -> list request -> Prop) s x :
  wp m Q s -> exists a s' out, absorb (m s) x = Some (mkSys s' (restarts x ++ restarts_of out) (closes x ++ closes_of out)) /\ Q a s' out.
Proof. intros (a & s' & out & E & H). rewrite E. cbn. eauto 6. Qed.

Lemma accept_ok_step e op c x :
  env_ok e -> enabled (EvAccept op c) x = true -> sys_inv x -> on_live_port (EvAccept op c) x ->
  exists y, run e (EvAccept op c) x = Some y /\ sys_inv y.
Proof.
  intros He Hen [Hw Hb] Hlive. cbn [enabled] in Hen. apply andb_prop in Hen as [[Hop Hv4]%andb_prop Hab].
  apply bool_decide_eq_true in Hop. cbn [run].
  fold (completed op (net x)). set (s := completed op (net x)).
  destruct (decide (error c = OperationAborted)) as [Ea|Ea].
  { rewrite Ea in Hab. apply bool_decide_eq_true in Hab. assert (handle e op c s = Some (tt, s, [])) as ->.
    { destruct op. unfold handle. by rewrite Ea. }
    eexists. split; [done|]. cbn [net restarts closes]. rewrite !app_nil_r. split; [by apply wired_disarm|].
    by eapply (books_similar _ (net x)); [apply similar_same|]. }
  destruct Hlive as [?|[P Hp]]; [done|].
  destruct (decide (error c = NoError)) as [En|En].
  - destruct (m_services P) as [|front rest] eqn:Es.
    { by destruct (books_services _ _ _ _ Hb _ P Hp) as [? _]. }
    destruct (remoteIp_v4 _ Hv4) as [ip Hip]. rewrite (handle_accepted e op c s P front rest ip) by done.
    pose proof (welcome_quiet e op c front s ip) as [Hq1 Hq2]. destruct (welcome e op c front s ip) as [[m n] out].
    cbn [snd] in Hq1, Hq2. eexists. split; [done|]. cbn [net restarts closes]. rewrite Hq1, Hq2, !app_nil_r. by apply inv_welcomed.
  - rewrite (handle_failed e op c s P) by done. eexists. split; [done|]. cbn [net restarts closes].
    pose proof (wired_reopening _ op P Hw Hop Hp) as Hw'.
    pose proof (reopening_books s (of_port op) (on_acceptor op) P (restarts x) (closes x)) as Hb'.
    assert (closes_of (if m_pendingStart P then [] else [AddEvent_service (of_port op) address_any (m_serverPort P)]) = []) as ->
      by by destruct (m_pendingStart P).
    assert (restarts_of (if m_pendingStart P then [] else [AddEvent_service (of_port op) address_any (m_serverPort P)])
      = if m_pendingStart P then [] else [(of_port op, [address_any], m_serverPort P)]) as -> by by destruct (m_pendingStart P).
    rewrite app_nil_r. split; [done|]. apply Hb'; [|done]. by eapply (books_similar _ (net x)); [apply similar_same|].
Qed.

Lemma restart_ok_step e i x :
  env_ok e -> enabled (EvRestart i) x = true -> sys_inv x -> exists y, run e (EvRestart i) x = Some y /\ sys_inv y.
Proof.
  intros He Hen [Hw Hb]. cbn in Hen. apply bool_decide_eq_true in Hen as [[[p ips] sp] Hi]. cbn [run]. rewrite Hi. cbn.
  pose proof (list_elem_of_split_length _ _ _ Hi) as (l1 & l2 & El & ->).
  set (evs := base.delete (length l1) (restarts x)). assert (evs = l1 ++ l2) as Ev.
  { unfold evs. rewrite El. by rewrite delete_middle. }
  assert (wp (services e p ips sp) (fun _ s' out => inv None s' (evs ++ restarts_of out) (closes x ++ closes_of out)) (net x)) as Hwp.
  { unfold services. apply wp_bind, wp_gets. destruct (ports (net x) !! p) as [P|] eqn:Hp; cycle 1.
    - apply wp_skip. cbn. rewrite !app_nil_r. split; [done|]. destruct Hb. rewrite Ev.
      assert (forall ev, ev ∈ l1 ++ l2 -> ev ∈ restarts x) as Hsub by (intros ev; rewrite El, !elem_of_app, elem_of_cons; tauto).
      split; try done; [|by intros; eapply books_restart0; [apply Hsub|]|by intros; eapply books_fresh_restart0, Hsub].
      intros p0 P0 H0. rewrite <- (books_pendingStart0 p0 P0 H0), El. rewrite restarts_at_app.
      change ((p, ips, sp) :: l2) with ([(p, ips, sp)] ++ l2). rewrite !restarts_at_app, restarts_at_one, decide_False; [lia|].
      intros ->. by rewrite H0 in Hp.
    - assert (m_serverPort P = sp) as Hsp.
      { eapply (books_restart _ _ _ _ Hb p ips sp); [|done]. rewrite El, elem_of_app, elem_of_cons. auto. }
      assert (restarts_at p evs = 0%nat /\ forall p0, p0 <> p -> restarts_at p0 evs = restarts_at p0 (restarts x)) as [Hat Hoth].
      { assert (forall p0, restarts_at p0 (restarts x) = (if decide (p = p0) then 1 else 0) + restarts_at p0 evs)%nat as Hs.
        { intros p0. rewrite Ev, El. rewrite restarts_at_app. change ((p, ips, sp) :: l2) with ([(p, ips, sp)] ++ l2).
          rewrite !restarts_at_app, restarts_at_one. lia. }
        split.
        - pose proof (Hs p) as H. rewrite decide_True in H by done. rewrite (books_pendingStart _ _ _ _ Hb p P Hp) in H.
          destruct (m_pendingStart P); lia.
        - intros p0 Hne. rewrite (Hs p0), decide_False by done. lia. }
      eapply (open_books None e p P ips sp); try done; [by left|].
      eapply (books_port None (net x) _ (restarts x) evs (closes x) p P (opening sp P)); try done.
      + intros _. by apply (books_services _ _ _ _ Hb p P).
      + intros p0 ips0 sp0 H. left. rewrite Ev in H. rewrite El. rewrite elem_of_app in *. rewrite elem_of_cons. tauto. }
  destruct (absorb_wp _ _ _ (mkSys (net x) evs (closes x)) Hwp) as ([] & s' & out & E & Hi'). eauto.
Qed.

Lemma step_ok e ev x :
  env_ok e -> enabled ev x = true -> sys_inv x -> on_live_port ev x -> exists y, run e ev x = Some y /\ sys_inv y.
Proof.
  intros He Hen Hi Hlive. destruct ev as [sv sp ips|n| |op c|i| |p].
  - cbn in Hen. apply andb_prop in Hen as [[H1 H2]%andb_prop _].
    destruct (absorb_wp _ _ _ x (add_books e sv sp ips _ _ _ He ltac:(lia) Hi)) as (b & s' & out & E & Hi'). eauto.
  - cbn in Hen. apply andb_prop in Hen as [H1%negb_true_iff H2].
    assert (wp (Server.run n) (fun _ s' out => quiet out /\ inv None s' (restarts x) (closes x)) (net x)) as Hwp.
    { unfold Server.run. apply wp_bind, wp_gets. rewrite H1. apply wp_bind. eapply wp_lift; [unfold threads; by rewrite (proj2 (Z.leb_gt _ _)) by lia|].
      apply wp_bind. assert (forall l : list nat, wp (for_each (fun _ => emit Start_thread) l) (fun _ s' out => quiet out /\ s' = net x) (net x)) as Hl.
      { induction l as [|k l IH]; cbn [for_each]; [by apply wp_skip|]. apply wp_bind, wp_emit. eapply wp_mono; [exact IH|].
        intros _ s' out [Hq ->]. split; [|done]. by apply (quiet_app [Start_thread]). }
      eapply wp_mono; [apply Hl|]. intros [] s' out [Hq ->]. apply wp_modify. cbn [app]. rewrite app_nil_r. split; [done|].
      destruct Hi as [Hw Hb]. split; [by eapply (wired_frame (net x))|]. by eapply (books_similar _ (net x)); [apply similar_same|]. }
    destruct (absorb_wp _ _ _ x Hwp) as ([] & s' & out & E & [Hq1 Hq2] & Hi'). eexists. split; [exact E|]. cbn [net restarts closes]. by rewrite Hq1, Hq2, !app_nil_r.
  - destruct (absorb_wp _ _ _ x (stop_books e _ _ _ Hi)) as ([] & s' & out & E & Hi'). eauto.
  - by apply accept_ok_step.
  - by apply restart_ok_step.
  - cbn in Hen. destruct Hi as [Hw Hb]. destruct (closes x) as [|p cls] eqn:Ec; [done|]. cbn [run]. rewrite Ec. cbn.
    destruct (books_closes _ _ _ _ Hb p ltac:(apply elem_of_cons; auto)) as [P Hp].
    assert (wp (close p) (fun _ s' out => quiet out /\ inv None s' (restarts x) cls) (net x)) as Hwp.
    { eapply wp_close_port; [done|]. split; [done|]. split; [by apply wired_close|]. eapply books_similar.
      { eapply (similar_insert (net x) _ p P (setAcceptors ∅ P)); done. }
      destruct Hb. split; try done. intros p0 H. apply books_closes0, elem_of_cons. auto. }
    destruct (absorb_wp _ _ _ (mkSys (net x) (restarts x) cls) Hwp) as ([] & s' & out & E & [Hq1 Hq2] & Hi'). eexists. split; [exact E|]. cbn [net restarts closes]. by rewrite Hq1, Hq2, !app_nil_r.
  - cbn in Hen. apply bool_decide_eq_true in Hen as ([P Hp] & Hm & Hc).
    destruct (absorb_wp _ _ _ x (inv_expire _ _ _ p P Hi Hp Hm Hc)) as ([] & s' & out & E & [Hq1 Hq2] & Hi'). eexists. split; [exact E|]. cbn [net restarts closes]. by rewrite Hq1, Hq2, !app_nil_r.
Qed.

Lemma run_live e ev x y : run e ev x = Some y -> on_live_port ev x.
Proof.
  destruct ev as [| | |op c| | |]; try done. cbn. intros E. destruct (decide (error c = OperationAborted)) as [|Hc]; [by left|right].
  destruct (ports (net x) !! of_port op) eqn:Hp; [eauto|]. by rewrite handle_dead in E.
Qed.

Lemma start_inv : sys_inv start.
Proof.
  assert (forall a p ip sp, ~ registered (net start) a p ip sp) as Hr by (by intros a p ip sp (P & H & _)).
  split; split; cbn; try done; try (by constructor); intros;
    repeat match goal with
    | H : registered _ _ _ _ _ |- _ => by apply Hr in H
    | H : _ ∈ [] |- _ => by apply elem_of_nil in H
    | H : is_Some (∅ !! _) |- _ => by destruct H
    end.
Qed.

Lemma step_inv x y : step x y -> sys_inv x -> sys_inv y.
Proof.
  intros (e & ev & He & Hen & E) Hi. destruct (step_ok e ev x He Hen Hi (run_live _ _ _ _ E)) as (y' & E' & Hi'). by simplify_eq.
Qed.

Lemma steps_inv x y : rtc step x y -> sys_inv x -> sys_inv y.
Proof. induction 1; eauto using step_inv. Qed.

Lemma reachable_ports x : reachable x -> sys_inv x.
Proof. intros Hr. eapply steps_inv; [exact Hr|apply start_inv]. Qed.

(** ** What the operations change *)

Lemma run_effect n s u s' out : Server.run n s = Some (u, s', out) -> s' = setManager (m_acceptors s) true s /\ quiet out.
Proof.
  unfold Server.run. autorewrite with proc. destruct (running s); [done|]. destruct (threads n) as [k|]; [|done]. autorewrite with proc.
  assert (forall l s, exists out, quiet out /\ for_each (O := request) (fun _ : nat => emit Start_thread) l s = Some (tt, s : state, out)) as Hl.
  { induction l as [|j l IH]; intros s0; cbn [for_each]; [by exists []|]. rewrite bind_emit. destruct (IH s0) as (o & Hq & ->).
    eexists. split; [|done]. by apply (quiet_app [Start_thread]). }
  destruct (Hl (seq 0 k) s) as (o & Hq & El). intros (? & ? & ? & ? & E1 & E2 & ->)%bind_inv.
  rewrite El in E1. injection E1 as <- <- <-. injection E2 as <- <- <-. by rewrite app_nil_r.
Qed.

Lemma stop_effect e s u s' out :
  stop e s = Some (u, s', out) -> (s' = s \/ s' = setManager [] false s) /\ restarts_of out = [].
Proof.
  unfold stop. autorewrite with proc. destruct (running s); cbn [negb]; [|intros [= <- <- <-]; auto].
  autorewrite with proc. intros (? & s1 & o1 & ? & E1 & E2 & ->)%bind_inv.
  assert (forall acc (s : state) u s1 o1, for_each (fun it : Z * nat => if post_ok e then emit (Post_close it.2) else emit Log_error) acc s = Some (u, s1, o1) ->
    s1 = s /\ restarts_of o1 = []) as Hl.
  { induction acc as [|it acc IH]; intros s0 u0 s2 o3 Eo; cbn [for_each] in Eo; [by injection Eo as _ <- <-|].
    apply bind_inv in Eo as (? & s3 & ? & ? & Eo1 & Eo2 & ->). apply IH in Eo2 as [-> Er].
    unfold restarts_of in *. rewrite omap_app, Er, app_nil_r. by destruct (post_ok e); injection Eo1 as _ <- <-. }
  apply Hl in E1 as [-> Hr1]. autorewrite with proc in E2. rewrite bind_emit in E2. injection E2 as <- <- <-.
  split; [by right|]. unfold restarts_of in *. by rewrite omap_app, Hr1.
Qed.

Lemma close_effect p s P : ports s !! p = Some P -> close p s = Some (tt, without_listeners p P s, []).
Proof.
  intros Hp. assert (wp (close p) (fun _ s' out => s' = without_listeners p P s /\ out = []) s) as ([] & s' & out & E & -> & ->) by by eapply wp_close_port.
  done.
Qed.

(** The three ends of an accept. *)
Lemma handle_effect e op c x u s' out :
  env_ok e -> enabled (EvAccept op c) x = true -> sys_inv x -> handle e op c (completed op (net x)) = Some (u, s', out) ->
  op ∈ accepts (net x) /\
  (error c = OperationAborted /\ s' = completed op (net x) /\ out = [] \/
   exists P, ports (net x) !! of_port op = Some P /\
    (error c = NoError /\ (exists m n, s' = welcomed op m n (completed op (net x))) /\ quiet out \/
     error c <> NoError /\ s' = reopening (of_port op) (on_acceptor op) P (completed op (net x)) /\
       out = if m_pendingStart P then [] else [AddEvent_service (of_port op) address_any (m_serverPort P)])).
Proof.
  intros He Hen [_ Hb] E. cbn [enabled] in Hen. apply andb_prop in Hen as [[Hop%bool_decide_eq_true Hv4]%andb_prop _]. split; [done|].
  destruct (decide (error c = OperationAborted)) as [Ea|Ea].
  { left. destruct op. unfold handle in E. rewrite Ea in E. by injection E as <- <- <-. }
  right. destruct (ports (net x) !! of_port op) as [P|] eqn:Hp; [|by rewrite handle_dead in E]. exists P. split; [done|].
  destruct (decide (error c = NoError)) as [En|En]; [left|right].
  - destruct (m_services P) as [|front rest] eqn:Es.
    { by destruct (books_services _ _ _ _ Hb _ P Hp) as [? _]. }
    destruct (remoteIp_v4 _ Hv4) as [ip Hip]. rewrite (handle_accepted e op c _ P front rest ip) in E by done.
    pose proof (welcome_quiet e op c front (completed op (net x)) ip) as Hq. destruct (welcome _ _ _ _ _ _) as [[m k] o].
    injection E as <- <- <-. eauto.
  - rewrite (handle_failed e op c _ P) in E by done. by injection E as <- <- <-.
Qed.

(** What [add] changes: nothing, or the services of a port the manager has, or it makes a
    new port, which the manager gets. *)
Lemma add_effect e sv sp ips s evs cls b s' out :
  env_ok e -> inv None s evs cls -> add e sv sp ips s = Some (b, s', out) ->
  s' = s /\ out = [] \/
  (exists p P P', ports s !! p = Some P /\ ServicePort.m_acceptors P' = ServicePort.m_acceptors P /\
    s' = setPorts (<[p := P']> (ports s)) s /\ out = []) \/
  (exists P', ports s !! fresh s = None /\ ports s' = <[fresh s := P']> (ports s) /\ StdMap.find sp (m_acceptors s) = None /\
    m_acceptors s' = StdMap.insert sp (fresh s) (m_acceptors s) /\ (fresh s < fresh s')%nat /\
    (forall op, op ∈ accepts s' -> op ∈ accepts s \/ of_port op = fresh s) /\
    (forall p0 ips0 sp0, (p0, ips0, sp0) ∈ restarts_of out -> p0 = fresh s) /\ closes_of out = []).
Proof.
  intros He [Hw Hb] E. unfold add in E. destruct (sp =? 0); [left; by injection E as <- <- <-|].
  autorewrite with proc in E. destruct (StdMap.find sp (m_acceptors s)) as [p|] eqn:Ef.
  - destruct (books_manager _ _ _ _ Hb sp p (find_elem _ _ _ Ef)) as (_ & P & Hp & _).
    unfold onPort, port in E. autorewrite with proc in E. rewrite Hp in E. autorewrite with proc in E.
    destruct (_ || _); [left; by injection E as <- <- <-|]. autorewrite with proc in E. rewrite Hp in E. autorewrite with proc in E.
    destruct (ServicePort.add sv P) as [ok P'] eqn:Ea. autorewrite with proc in E. rewrite Hp in E. autorewrite with proc in E.
    injection E as <- <- <-. right; left. exists p, P, P'. split_and!; try done.
    unfold ServicePort.add in Ea. destruct (existsb _ _); by injection Ea as <- <-.
  - unfold new in E. autorewrite with proc in E. set (p := fresh s) in E. set (s1 := setPorts _ _) in E.
    assert (ports s !! p = None) as Hnone.
    { apply eq_None_not_Some. intros H. pose proof (books_fresh _ _ _ _ Hb p H). lia. }
    assert (ports s1 !! p = Some ServicePort.new) as Hp1 by (cbn; by rewrite lookup_insert_eq).
    assert (wired s1) as Hw1.
    { eapply (wired_ports s); try done; [cbn; lia|]. intros a p0 ip sp0. rewrite (registered_insert s) by done.
      cbn. split; [by intros [(_ & ? & _)|[_ H]]|]. intros H. right. split; [|done].
      intros ->. destruct H as (P1 & H & _). by rewrite H in Hnone. }
    destruct (open_same e p ServicePort.new ips sp s1 He Hw1 Hp1 ltac:(by right))
      as ([] & s2 & out2 & E2 & Hm & _ & (P' & Hp2 & _) & Ha & Hf & Hr & Hc).
    apply bind_inv in E as (u & s2' & o1 & o2 & E2' & E & ->). rewrite E2 in E2'. injection E2' as <- <- <-.
    autorewrite with proc in E. unfold onPort, port in E. autorewrite with proc in E.
    assert (ports s2 !! p = Some P') as Hp3 by by rewrite Hp2, lookup_insert_eq.
    cbn [setManager ports] in E. rewrite Hp3 in E. autorewrite with proc in E. destruct (ServicePort.add sv P') as [ok P2].
    autorewrite with proc in E. cbn [setManager ports] in E. rewrite Hp3 in E. autorewrite with proc in E. injection E as <- <- <-.
    right; right. exists P2. cbn [setPorts setManager ports m_acceptors accepts fresh]. rewrite app_nil_r. cbn in Hf.
    split_and!; try done; [|by rewrite Hm].
    rewrite Hp2. cbn. by rewrite !insert_insert_eq.
Qed.

(** ** Until the manager stops *)

Definition step_by (ok : event -> Prop) (x y : sys) : Prop :=
  exists e ev, ok ev /\ env_ok e /\ enabled ev x = true /\ run e ev x = Some y.

(** The states reached without a call of [stop]. *)
Definition unstopped (x : sys) : Prop := rtc (step_by (fun ev => ev <> EvStop)) start x.

Lemma unstopped_reachable x : unstopped x -> reachable x.
Proof. apply rtc_subrel. intros y z (e & ev & _ & H). by exists e, ev. Qed.

(** The ports are the manager's, and the accepts in flight are of its ports. *)
Definition kept (s : state) : Prop :=
  (forall p, is_Some (ports s !! p) -> p ∈ (m_acceptors s).*2) /\ (forall op, op ∈ accepts s -> is_Some (ports s !! of_port op)).

Lemma kept_port s s' p P' :
  kept s -> is_Some (ports s !! p) -> ports s' = <[p := P']> (ports s) -> m_acceptors s' = m_acceptors s ->
  (forall op, op ∈ accepts s' -> is_Some (ports s !! of_port op)) -> kept s'.
Proof.
  intros [H1 _] Hp Hs Hm Ha. split; rewrite ?Hm, ?Hs.
  - intros p0 [<-|[_ H]]%lookup_insert_is_Some; eauto.
  - intros op Hop. apply lookup_insert_is_Some. destruct (decide (p = of_port op)); eauto.
Qed.

Lemma elem_of_insert {V} k (v : V) (m : StdMap.t Z V) kv :
  StdMap.find k m = None -> kv = (k, v) \/ kv ∈ m -> kv ∈ StdMap.insert k v m.
Proof.
  induction m as [|[k' v'] m IH]; cbn; [intros _ [->|H]; [apply elem_of_cons; auto|by apply elem_of_nil in H]|].
  destruct (StdMap.key_eqb k k') eqn:E; [done|]. intros Hf H. unfold StdMap.key_eqb in E.
  cbn in E. destruct (Z.ltb_spec k k'); [rewrite !elem_of_cons in *; tauto|]. destruct (Z.ltb_spec k' k); [|done].
  rewrite !elem_of_cons in *. destruct H as [->|[->|H]]; auto.
Qed.

Lemma add_keeps e sv sp ips s evs cls b s' out :
  env_ok e -> inv None s evs cls -> add e sv sp ips s = Some (b, s', out) -> kept s -> kept s'.
Proof.
  intros He Hi E Hk. destruct (add_effect _ _ _ _ _ _ _ _ _ _ He Hi E)
    as [[-> _]|[(p & P & P' & Hp & _ & -> & _)|(P' & Hn & Hs & Hf & Hm & _ & Ha & _)]]; [done| |].
  - eapply (kept_port s _ p); [done|eauto|done|done|]. apply Hk.
  - destruct Hk as [Hk1 Hk2]. split.
    + intros p0. rewrite Hs, Hm. intros [<-|[_ H]]%lookup_insert_is_Some; apply list_elem_of_fmap.
      * exists (sp, fresh s). split; [done|]. apply elem_of_insert; auto.
      * apply Hk1, list_elem_of_fmap in H as ([sp0 p1] & -> & H). exists (sp0, p1). split; [done|]. apply elem_of_insert; auto.
    + intros op [H| ->]%Ha; rewrite Hs; apply lookup_insert_is_Some; [right|by left]. split; [|by apply Hk2].
      intros E0. destruct (Hk2 op H) as [P H0]. by rewrite <- E0, Hn in H0.
Qed.

Lemma step_keeps e ev x y :
  env_ok e -> enabled ev x = true -> sys_inv x -> ev <> EvStop -> run e ev x = Some y -> kept (net x) -> kept (net y).
Proof.
  intros He Hen Hi Hns E Hk. destruct ev as [sv sp ips|n| |op c|i| |p]; [| |done|..]; unfold run, absorb in E.
  - destruct (add e sv sp ips (net x)) as [[[b s'] out]|] eqn:Ea; [|done]. injection E as <-. by eapply add_keeps.
  - destruct (Server.run n (net x)) as [[[b s'] out]|] eqn:Ea; [|done]. injection E as <-. by destruct (run_effect _ _ _ _ _ Ea) as [-> _].
  - fold (completed op (net x)) in E. destruct (handle e op c (completed op (net x))) as [[[u s'] out]|] eqn:Eh; [|done]. injection E as <-.
    assert (forall op0, op0 ∈ filter (.≠ op) (accepts (net x)) -> is_Some (ports (net x) !! of_port op0)) as Hf.
    { intros op0 [_ H]%list_elem_of_filter. by apply Hk. }
    destruct (handle_effect _ _ _ _ _ _ _ He Hen Hi Eh) as (Hop & [(_ & -> & _)|(P & Hp & [(_ & (m & n & ->) & _)|(_ & -> & _)])]).
    + by split; [apply Hk|].
    + split; [apply Hk|]. intros op0 [H| ->%list_elem_of_singleton]%elem_of_app; [by apply Hf|]. cbn. eauto.
    + eapply (kept_port (net x) _ (of_port op)); [done|eauto|done|done|]. exact Hf.
  - cbn in Hen. apply bool_decide_eq_true in Hen as [[[p ips] sp] Hx]. rewrite Hx in E. cbn in E.
    unfold services in E. autorewrite with proc in E. destruct (ports (net x) !! p) as [P|] eqn:Hp; [|by injection E as <-].
    destruct Hi as [Hw Hb]. assert (m_serverPort P = sp) as Hsp.
    { eapply (books_restart _ _ _ _ Hb p ips sp); [|done]. by eapply list_elem_of_lookup_2. }
    destruct (open_same e p P ips sp (net x) He Hw Hp ltac:(by left)) as ([] & s' & out & E' & Hm & _ & (P' & Hp' & _) & Ha & _).
    rewrite E' in E. injection E as <-. cbn. eapply (kept_port (net x) s' p); [done|eauto|done|done|].
    intros op H. apply Ha in H as [H| ->]; [by apply Hk|eauto].
  - cbn in Hen. destruct (closes x) as [|p cls] eqn:Ec; [done|]. cbn in E. destruct Hi as [Hw Hb].
    destruct (books_closes _ _ _ _ Hb p ltac:(apply elem_of_cons; auto)) as [P Hp]. rewrite (close_effect _ _ _ Hp) in E.
    injection E as <-. cbn. eapply (kept_port (net x) _ p); [done|eauto|done|done|]. apply Hk.
  - cbn in Hen. apply bool_decide_eq_true in Hen as (Hp & Hm & _). by destruct (Hm (proj1 Hk p Hp)).
Qed.

Lemma unstopped_kept x : unstopped x -> sys_inv x /\ kept (net x).
Proof.
  apply (rtc_ind_r (fun x => sys_inv x /\ kept (net x))).
  - split; [apply start_inv|]. split; [by intros p [P H]|by intros op ?%elem_of_nil].
  - intros y z _ (e & ev & Hns & He & Hen & E) [Hi Hk]. split; [|by eapply step_keeps].
    eapply step_inv; [|done]. by exists e, ev.
Qed.

(** ** Ports that are given up *)

(** Nothing listens for the port [p], nothing is in flight and nothing is scheduled. *)
Record idle (p : nat) (x : sys) : Prop := mkIdle {
  idle_acceptors a ip sp : ~ registered (net x) a p ip sp;
  idle_accepts op : op ∈ accepts (net x) -> of_port op <> p;
  idle_restarts ips sp : (p, ips, sp) ∉ restarts x;
  idle_fresh : (p < fresh (net x))%nat
}.

(** What a step leaves alone: the acceptors, accepts and restarts of the ports that are not
    [touched], but for acceptors that are closed. *)
Record frame (touched : nat -> Prop) (x y : sys) : Prop := mkFrame {
  frame_ports p P : ports (net y) !! p = Some P -> touched p \/ ServicePort.m_acceptors P = ∅ \/
    exists P0, ports (net x) !! p = Some P0 /\ ServicePort.m_acceptors P = ServicePort.m_acceptors P0;
  frame_accepts op : op ∈ accepts (net y) -> touched (of_port op) \/ op ∈ accepts (net x);
  frame_restarts p ips sp : (p, ips, sp) ∈ restarts y -> touched p \/ (p, ips, sp) ∈ restarts x;
  frame_fresh : (fresh (net x) <= fresh (net y))%nat
}.

Definition touches (ev : event) (x : sys) (p : nat) : Prop :=
  match ev with
  | EvAdd _ _ _ => p = fresh (net x)
  | EvAccept op _ => p = of_port op /\ op ∈ accepts (net x)
  | EvRestart i => exists ips sp, restarts x !! i = Some (p, ips, sp)
  | _ => False
  end.

Lemma idle_untouched ev p x : idle p x -> ~ touches ev x p.
Proof.
  intros [H1 H2 H3 H4]. destruct ev; cbn; try tauto; [lia| |].
  - intros [-> Hop]. by apply (H2 op).
  - intros (ips & sp & H%list_elem_of_lookup_2). by apply (H3 ips sp).
Qed.

Lemma frame_idle ev p x y : frame (touches ev x) x y -> idle p x -> idle p y.
Proof.
  intros [Hp Ha Hr Hf] Hid. pose proof (idle_untouched ev p x Hid) as Ht. destruct Hid as [H1 H2 H3 H4]. split; [| | |lia].
  - intros a ip sp (P & HP & Hl & Hsp). destruct (Hp _ _ HP) as [?|[E|(P0 & HP0 & E)]]; [done|by rewrite E in Hl|].
    apply (H1 a ip (m_serverPort P0)). exists P0. by rewrite <- E.
  - intros op Hop <-. destruct (Ha _ Hop) as [?|H]; [done|by apply (H2 op)].
  - intros ips sp H. destruct (Hr _ _ _ H) as [?|H']; [done|by apply (H3 ips sp)].
Qed.

Lemma frame_same (touched : nat -> Prop) x y :
  ports (net y) = ports (net x) -> (forall op, op ∈ accepts (net y) -> op ∈ accepts (net x)) ->
  (forall ev, ev ∈ restarts y -> ev ∈ restarts x) -> (fresh (net x) <= fresh (net y))%nat -> frame touched x y.
Proof. intros Hp Ha Hr Hf. split; auto. intros p P. rewrite Hp. eauto. Qed.

(** One port changes. *)
Lemma frame_insert (touched : nat -> Prop) x y p0 P0 :
  ports (net y) = <[p0 := P0]> (ports (net x)) ->
  (touched p0 \/ ServicePort.m_acceptors P0 = ∅ \/
    exists P, ports (net x) !! p0 = Some P /\ ServicePort.m_acceptors P0 = ServicePort.m_acceptors P) ->
  (forall op, op ∈ accepts (net y) -> touched (of_port op) \/ op ∈ accepts (net x)) ->
  (forall p ips sp, (p, ips, sp) ∈ restarts y -> touched p \/ (p, ips, sp) ∈ restarts x) ->
  (fresh (net x) <= fresh (net y))%nat -> frame touched x y.
Proof. intros Hp HP Ha Hr Hf. split; auto. intros p P. rewrite Hp. intros [[<- <-]|[_ H]]%lookup_insert_Some; eauto. Qed.

Lemma accept_frame e op c x y :
  env_ok e -> enabled (EvAccept op c) x = true -> sys_inv x -> run e (EvAccept op c) x = Some y -> frame (touches (EvAccept op c) x) x y.
Proof.
  intros He Hen Hi E. cbn [run] in E. fold (completed op (net x)) in E. unfold absorb in E.
  destruct (handle e op c (completed op (net x))) as [[[u s'] out]|] eqn:Eh; [|done]. injection E as <-.
  destruct (handle_effect _ _ _ _ _ _ _ He Hen Hi Eh) as (Hop & [(_ & -> & ->)|(P & Hp & [(_ & (m & n & ->) & [Hq _])|(_ & -> & ->)])]).
  - apply frame_same; cbn; rewrite ?app_nil_r; auto. by intros op0 [_ H]%list_elem_of_filter.
  - split; cbn [net restarts welcomed completed setConnections setFresh setAccepts ports accepts fresh]; rewrite ?Hq, ?app_nil_r; eauto; [|lia].
    intros op0 [[_ H]%list_elem_of_filter| ->%list_elem_of_singleton]%elem_of_app; [by right|by left].
  - eapply frame_insert; [done|by left| | |done]; cbn [net restarts reopening completed setPorts setListening setAccepts accepts].
    + intros op0 [_ H]%list_elem_of_filter. by right.
    + intros p ips sp [H|H]%elem_of_app; [by right|left]. cbn in H. destruct (m_pendingStart P); [by apply elem_of_nil in H|].
      by apply list_elem_of_singleton in H as [= -> _ _].
Qed.

Lemma restart_frame e i x y :
  env_ok e -> enabled (EvRestart i) x = true -> sys_inv x -> run e (EvRestart i) x = Some y -> frame (touches (EvRestart i) x) x y.
Proof.
  intros He Hen [Hw Hb] E. cbn in Hen. apply bool_decide_eq_true in Hen as [[[p1 ips] sp] Hx]. cbn [run] in E. rewrite Hx in E. cbn in E.
  assert (forall ev, ev ∈ base.delete i (restarts x) -> ev ∈ restarts x) as Hdel.
  { intros ev H. eapply elem_of_sublist; [exact H|apply sublist_delete]. }
  unfold services in E. autorewrite with proc in E. destruct (ports (net x) !! p1) as [P|] eqn:Hp; cycle 1.
  { injection E as <-. apply frame_same; cbn; rewrite ?app_nil_r; eauto. }
  assert (m_serverPort P = sp) as Hsp by (eapply (books_restart _ _ _ _ Hb p1 ips sp); [by eapply list_elem_of_lookup_2|done]).
  destruct (open_same e p1 P ips sp (net x) He Hw Hp ltac:(by left)) as ([] & s' & out & E' & Hm & _ & (P' & Hp' & _) & Ha & Hf & Hr & _).
  rewrite E' in E. injection E as <-. eapply frame_insert; cbn [net restarts touches]; [done|eauto| | |done].
  - intros op [H| ->]%Ha; eauto.
  - intros p ips0 sp0 [H%Hdel| ->%Hr]%elem_of_app; eauto.
Qed.

Lemma step_frame e ev x y :
  env_ok e -> enabled ev x = true -> sys_inv x -> run e ev x = Some y -> frame (touches ev x) x y.
Proof.
  intros He Hen Hi E. destruct ev as [sv sp ips|n| |op c|i| |p0]; [| | |by eapply accept_frame|by eapply restart_frame| |];
    unfold run, absorb in E.
  - destruct (add e sv sp ips (net x)) as [[[b s'] out]|] eqn:Ea; [|done]. injection E as <-.
    destruct (add_effect _ _ _ _ _ _ _ _ _ _ He Hi Ea) as [[-> ->]|[(p1 & P & P' & Hp & EP & -> & ->)|(P' & Hn & Hs & _ & _ & Hf & Hops & Hr & Hc)]].
    + apply frame_same; cbn; rewrite ?app_nil_r; auto.
    + eapply frame_insert; cbn; rewrite ?app_nil_r; eauto.
    + eapply frame_insert; cbn; [done|by left| | |lia]; [intros op [H|H]%Hops; auto|].
      intros p ips0 sp0 [H|H%Hr]%elem_of_app; auto.
  - destruct (Server.run n (net x)) as [[[b s'] out]|] eqn:Ea; [|done]. injection E as <-. destruct (run_effect _ _ _ _ _ Ea) as [-> [Hq _]].
    apply frame_same; cbn [net restarts]; rewrite ?Hq, ?app_nil_r; auto.
  - destruct (stop e (net x)) as [[[[] s'] out]|] eqn:Ea; [|done]. injection E as <-. destruct (stop_effect _ _ _ _ _ Ea) as [Hs Hq].
    apply frame_same; cbn [net restarts]; rewrite ?Hq, ?app_nil_r; auto; by destruct Hs as [-> | ->].
  - cbn in Hen. destruct (closes x) as [|p0 cls] eqn:Ec; [done|]. cbn in E. destruct Hi as [Hw Hb].
    destruct (books_closes _ _ _ _ Hb p0 ltac:(apply elem_of_cons; auto)) as [P Hp]. rewrite (close_effect _ _ _ Hp) in E. injection E as <-.
    eapply frame_insert; cbn; rewrite ?app_nil_r; eauto.
  - cbn in Hen. apply bool_decide_eq_true in Hen as ([P Hp] & _). unfold Server.delete in E.
    unfold mbind, proc_bind in E. rewrite (close_effect _ _ _ Hp) in E. cbn in E. injection E as <-.
    split; cbn; rewrite ?app_nil_r; auto. intros p P0 [_ [[<- <-]|[_ H]]%lookup_insert_Some]%lookup_delete_Some; eauto.
Qed.

Lemma steps_idle p x y : rtc step x y -> sys_inv x -> idle p x -> idle p y.
Proof.
  induction 1 as [|x y z (e & ev & He & Hen & E) _ IH]; [done|]. intros Hi Hid. apply IH.
  - eapply step_inv; [|done]. by exists e, ev.
  - by eapply frame_idle; [eapply step_frame|].
Qed.

(** ** Properties *)

(** C36: what listens, and what is waited for.  In every reachable state of the ports and
    their manager: every acceptor the operating system listens on is in the map of exactly
    one port, under its address and with the port's number, and exactly one accept is in
    flight on it, for that port; an entry whose acceptor no longer listens holds 0.0.0.0;
    a port has a restart scheduled, one, exactly when m_pendingStart says so, and it is for
    the port's number. *)
Theorem ports_wired x :
  reachable x ->
  (forall a ip sp, listening (net x) !! a = Some (ip, sp) ->
     exists p, registered (net x) a p ip sp /\ (forall p' ip' sp', registered (net x) a p' ip' sp' -> p' = p) /\
       exists op, op ∈ accepts (net x) /\ on_acceptor op = a /\ of_port op = p /\
         forall op', op' ∈ accepts (net x) -> on_acceptor op' = a -> op' = op) /\
  (forall a p ip sp, registered (net x) a p ip sp -> listening (net x) !! a = None -> ip = address_any) /\
  (forall p P, ports (net x) !! p = Some P ->
     restarts_at p (restarts x) = (if m_pendingStart P then 1 else 0)%nat /\
     forall ips sp, (p, ips, sp) ∈ restarts x -> sp = m_serverPort P).
Proof.
  intros Hr. destruct (reachable_ports x Hr) as [Hw Hb]. split_and!.
  - intros a ip sp Hl. destruct (wired_listening _ _ _ Hw Hl) as [p Hp]. exists p. split_and!; [done| |].
    + intros p' ip' sp' Hp'. by eapply (wired_unique _ Hw).
    + destruct (wired_armed _ Hw a _ Hl) as (op & Hop & <-). exists op. split_and!; try done.
      * by eapply (wired_op_port _ Hw).
      * intros op' Hop' E. by apply (NoDup_fmap_same on_acceptor (accepts (net x))); [apply Hw| | |].
  - intros a p ip sp Hp Hl. pose proof (wired_registered _ Hw a p ip sp Hp) as H. by rewrite Hl in H.
  - intros p P Hp. split; [by apply (books_pendingStart _ _ _ _ Hb)|]. intros ips sp H. symmetry. by eapply (books_restart _ _ _ _ Hb).
Qed.

(** The ports of the manager.  Their numbers are in increasing order, each is there
    once and lies in 1..65535; the port found under a number is alive, has that number and
    some services, and a service that wants its socket for itself is alone on its port. *)
Theorem ports_exclusive x :
  reachable x ->
  StronglySorted Z.lt (getPorts (net x)) /\
  (forall sp, sp ∈ getPorts (net x) -> 0 < sp < 2 ^ 16 /\
     exists p P, StdMap.find sp (m_acceptors (net x)) = Some p /\ ports (net x) !! p = Some P /\ m_serverPort P = sp /\ services_ok P).
Proof.
  intros Hr. destruct (reachable_ports x Hr) as [_ Hb].
  assert (forall (m : StdMap.t Z nat) k, StdMap.above k m -> StronglySorted Z.lt (map fst m) /\ Forall (Z.lt k) (map fst m)) as Habove.
  { induction m as [|[k' v] m IH]; cbn; [by repeat constructor|]. intros k [Hlt Ha]. apply Z.ltb_lt in Hlt.
    destruct (IH k' Ha) as [H1 H2]. split; constructor; try done. eapply Forall_impl; [exact H2|]. cbn. lia. }
  assert (StronglySorted Z.lt (map fst (m_acceptors (net x)))) as Hs.
  { pose proof (books_sorted _ _ _ _ Hb) as H. destruct (m_acceptors (net x)) as [|[k v] m]; [constructor|].
    cbn. by destruct (Habove m k H) as [H1 H2]; constructor. }
  assert (getPorts (net x) = map fst (m_acceptors (net x))) as ->.
  { unfold getPorts. clear -Hs. induction Hs as [|k l Hl IH Hk]; [done|]. destruct l as [|k' l]; [done|].
    cbn [unique]. inversion Hk; subst. rewrite (proj2 (Z.eqb_neq _ _)) by lia. by f_equal. }
  split; [done|]. intros sp Hsp. apply list_elem_of_fmap in Hsp as ([sp' p] & -> & Hin). cbn.
  assert (forall m : StdMap.t Z nat, StronglySorted Z.lt (map fst m) -> (sp', p) ∈ m -> StdMap.find sp' m = Some p) as Hfind.
  { induction m as [|[k v] m IH]; [by intros _ ?%elem_of_nil|]. cbn. intros [Hss Hk]%StronglySorted_inv [[= -> ->]|Hm]%elem_of_cons.
    - by rewrite (proj2 (StdMap.key_eqb_eq k k)).
    - destruct (StdMap.key_eqb sp' k) eqn:E; [|by apply IH]. apply StdMap.key_eqb_eq in E as ->.
      rewrite Forall_forall in Hk. specialize (Hk k ltac:(apply list_elem_of_fmap; by exists (k, p))). lia. }
  destruct (books_manager _ _ _ _ Hb sp' p Hin) as (Hrange & P & Hp & HP). split; [done|].
  exists p, P. split_and!; [by apply Hfind|done|done|]. by apply (books_services _ _ _ _ Hb p P Hp).
Qed.

(** The server's ports meet no undefined behaviour until the manager stops.  Whatever
    services were added, accepts completed, failed or were aborted, and restarts ran, every
    event that can come is handled: no handler runs on a deleted port. *)
Theorem ports_never_stuck x e ev :
  unstopped x -> env_ok e -> enabled ev x = true -> exists y, run e ev x = Some y.
Proof.
  intros Hu He Hen. destruct (unstopped_kept x Hu) as [Hi Hk].
  destruct (step_ok e ev x He Hen Hi) as (y & E & _); [|eauto].
  destruct ev as [| | |op c| | |]; try done. right. apply Hk.
  cbn in Hen. by apply andb_prop in Hen as [[Hop%bool_decide_eq_true _]%andb_prop _].
Qed.

(** After stop() an accepted connection meets a deleted port.  When the manager has let
    go of a port and the close posted for it is the last thing that holds it, then the port
    can be deleted while an accept is in flight; if that accept has completed with a client
    before its acceptor was closed, its handler runs on the deleted port. *)
Theorem stop_leaves_accepts x e op :
  reachable x -> env_ok e -> op ∈ accepts (net x) -> is_Some (ports (net x) !! of_port op) ->
  of_port op ∉ (m_acceptors (net x)).*2 -> closes x = [of_port op] ->
  exists y z, enabled EvClose x = true /\ run e EvClose x = Some y /\
    enabled (EvExpire (of_port op)) y = true /\ run e (EvExpire (of_port op)) y = Some z /\
    forall ip, enabled (EvAccept op (mkCompletion NoError (Some (V4 ip)) true)) z = true /\
      run e (EvAccept op (mkCompletion NoError (Some (V4 ip)) true)) z = None.
Proof.
  intros Hr He Hop [P Hp] Hm Hc. cbn [enabled run]. rewrite Hc. cbn [head mbind option_bind tail]. rewrite (close_effect _ _ _ Hp).
  unfold absorb. cbn [mbind option_bind]. eexists. eexists. split; [done|]. split; [done|].
  cbn [net closes app closes_of omap list_omap without_listeners setPorts setListening ports m_acceptors].
  rewrite lookup_insert_eq. split.
  { apply bool_decide_eq_true. split_and!; [eauto|done|apply not_elem_of_nil]. }
  unfold Server.delete, mbind, proc_bind. erewrite (close_effect (of_port op) (without_listeners _ _ _)); [|cbn; by rewrite lookup_insert_eq].
  cbn [modify option_bind]. split; [done|]. intros ip. split.
  - cbn. by rewrite !andb_true_r, bool_decide_eq_true.
  - rewrite handle_dead; [done|done|]. cbn. by rewrite lookup_delete_eq.
Qed.

(** A failed accept makes its port forget its addresses.  When an accept of a port that
    waits for nothing completes with an error other than an abort, none of the port's
    acceptors listens any more, whatever their addresses, and the one restart scheduled is
    for the address 0.0.0.0; once that has run, and it can be listened on, the port listens
    there, and nowhere else. *)
Theorem failed_accept_forgets x e op c P :
  reachable x -> env_ok e -> enabled (EvAccept op c) x = true -> error c <> NoError -> error c <> OperationAborted ->
  ports (net x) !! of_port op = Some P -> m_pendingStart P = false ->
  exists y, run e (EvAccept op c) x = Some y /\
    restarts y = restarts x ++ [(of_port op, [address_any], m_serverPort P)] /\
    (forall a l ip sp, registered (net y) a (of_port op) ip sp -> listening (net y) !! a <> Some l) /\
    forall e', env_ok e' -> listen_ok e' 0 = true ->
      exists z, run e' (EvRestart (length (restarts x))) y = Some z /\
        (exists a, registered (net z) a (of_port op) address_any (m_serverPort P) /\ listening (net z) !! a = Some (address_any, m_serverPort P)) /\
        forall a l ip sp, registered (net z) a (of_port op) ip sp -> listening (net z) !! a = Some l -> l = (address_any, m_serverPort P).
Proof.
  intros Hr He Hen Hc1 Hc2 Hp Hps. pose proof (reachable_ports x Hr) as Hi.
  destruct (step_ok e (EvAccept op c) x He Hen Hi) as (y & Ey & Hiy); [right; eauto|]. exists y. split; [done|].
  pose proof Hen as Hen'. cbn in Hen'. apply andb_prop in Hen' as [[Hop%bool_decide_eq_true _]%andb_prop _].
  pose proof (closed_acceptor _ op P (proj1 Hi) Hop Hp) as Hlis. cbn [run] in Ey. fold (completed op (net x)) in Ey.
  rewrite (handle_failed e op c _ P) in Ey by done. rewrite Hps in Ey. cbn in Ey. rewrite app_nil_r in Ey. injection Ey as <-.
  set (p := of_port op) in *. set (a := on_acceptor op) in *. set (y := mkSys _ _ _) in *. split; [done|].
  assert (Py : ports (net y) !! p = Some (setPendingStart true (setAcceptors {[a := address_any]} P))).
  { cbn. by rewrite lookup_insert_eq, Hps. }
  assert (Hreg : forall a0 ip sp, registered (net y) a0 p ip sp -> a0 = a).
  { intros a0 ip sp (P0 & H0 & H1 & _). rewrite Py in H0. injection H0 as <-. cbn in H1. by apply lookup_singleton_Some in H1 as [-> _]. }
  assert (listening (net y) !! a = None) as Hlisy by exact Hlis. split.
  { intros a0 l ip sp ->%Hreg. by rewrite Hlisy. }
  intros e' He' Hok.
  destruct (open_adds e' p _ [address_any] (m_serverPort P) (net y) He' (proj1 Hiy) Py ltac:(by left))
    as ([] & s' & out & Eo & _ & added & s1 & Had & Hadds & Hs' & _). cbn [heard unheard] in *. rewrite Hok in *. cbn in Hs'.
  assert (s' = s1) as -> by (rewrite Hs'; by destruct (m_logError (net x))). clear Hs'.
  eexists. split.
  { cbn [run]. assert (restarts y !! length (restarts x) = Some (p, [address_any], m_serverPort P)) as -> by by apply list_lookup_middle.
    cbn [mbind option_bind]. unfold services. autorewrite with proc.
    rewrite Py, Eo. done. }
  cbn [net]. destruct added as [|[a1 ip1] [|]]; try done. injection Had as ->.
  destruct Hadds as [(A & EA & HA) HL _ HN _ _ _ _ _ _]. cbn in HA, HL, EA, HN. rewrite insert_insert_eq in EA.
  assert (forall a0 ip sp, registered s1 a0 p ip sp -> a0 = a1 \/ a0 = a) as Hreg1.
  { intros a0 ip sp (P0 & H0 & H1 & _). rewrite EA, lookup_insert_eq in H0. injection H0 as <-. cbn in H1.
    apply HA in H1 as [[<- _]%lookup_singleton_Some|[= -> _]%list_elem_of_singleton]; auto. }
  split.
  - exists a1. split; [|apply HL; right; split; [by apply list_elem_of_singleton|done]].
    eexists. rewrite EA, lookup_insert_eq. split; [done|]. split; [|done]. cbn. apply HA. right. by apply list_elem_of_singleton.
  - intros a0 [ip0 sp0] ip sp Ha0 [Hl|[[= -> ->]%list_elem_of_singleton Hsp]]%HL; cbn in *; [|by rewrite Hsp].
    destruct (Hreg1 _ _ _ Ha0) as [->| ->]; [|by rewrite Hlisy in Hl].
    pose proof (wired_fresh_listening _ _ _ (proj1 Hiy) Hl) as Hlt. cbn in Hlt.
    specialize (HN a1 address_any ltac:(by apply list_elem_of_singleton)). lia.
Qed.

Lemma restarts_at_zero p evs : restarts_at p evs = 0%nat -> forall ips sp, (p, ips, sp) ∉ evs.
Proof.
  intros H ips sp (l1 & l2 & ->)%list_elem_of_split. change ((p, ips, sp) :: l2) with ([(p, ips, sp)] ++ l2) in H.
  rewrite !restarts_at_app, restarts_at_one, decide_True in H by done. lia.
Qed.

Lemma heard_none ok i ips : (forall k, ok k = false) -> heard ok i ips = [].
Proof. intros Hok. revert i. induction ips as [|ip ips IH]; intros i; cbn; [done|]. by rewrite Hok. Qed.

(** A port is tried again once.  Once an error has turned m_logError off, a restart of
    a port none of whose addresses can be listened on schedules nothing: from then on the
    port has no acceptor, no accept in flight and no restart, whatever happens. *)
Theorem failed_restart_gives_up x e i p ips sp :
  reachable x -> env_ok e -> restarts x !! i = Some (p, ips, sp) -> is_Some (ports (net x) !! p) ->
  m_logError (net x) = false -> (forall a ip sp, ~ registered (net x) a p ip sp) ->
  (forall op, op ∈ accepts (net x) -> of_port op <> p) -> (forall k, listen_ok e k = false) ->
  exists y, run e (EvRestart i) x = Some y /\ forall z, rtc step y z -> idle p z.
Proof.
  intros Hr He Hx [P Hp] Hlog Hreg Hops Hok. pose proof (reachable_ports x Hr) as Hi.
  assert (enabled (EvRestart i) x = true) as Hen by (cbn; rewrite Hx; by apply bool_decide_eq_true).
  destruct (step_ok e (EvRestart i) x He Hen Hi I) as (y & Ey & Hiy). exists y. split; [done|]. intros z Hz.
  apply (steps_idle p y z Hz Hiy). pose proof Hi as [Hw Hb].
  assert (m_serverPort P = sp) as <- by (eapply (books_restart _ _ _ _ Hb p ips sp); [by eapply list_elem_of_lookup_2|done]).
  destruct (open_adds e p P ips (m_serverPort P) (net x) He Hw Hp ltac:(by left))
    as ([] & s' & out & Eo & _ & added & s1 & Had & Hadds & Hs' & Hr' & Hc'). rewrite Hlog in *. cbn in Hs', Hr'. subst s'.
  rewrite heard_none in Had by done. destruct added; [|done].
  cbn [run] in Ey. rewrite Hx in Ey. cbn in Ey. unfold services in Ey. autorewrite with proc in Ey. rewrite Hp, Eo in Ey.
  cbn in Ey. injection Ey as <-. destruct Hadds as [(A & EA & HA) HL HF _ _ HO _ _ _ _]. cbn in EA, HA, HF, HO. rewrite insert_insert_eq in EA.
  split; cbn [net] in *.
  - intros a ip sp (P0 & H0 & H1 & _). rewrite EA, lookup_insert_eq in H0. injection H0 as <-. cbn in H1.
    apply HA in H1 as [H1|H1%elem_of_nil]; [|done]. apply (Hreg a ip (m_serverPort P)). by exists P.
  - intros op [H|[_ H%elem_of_nil]]%HO; [by apply Hops|done].
  - apply restarts_at_zero. rewrite (books_pendingStart _ _ _ _ (proj2 Hiy) p _ ltac:(cbn; by rewrite EA, lookup_insert_eq)). done.
  - pose proof (books_fresh _ _ _ _ Hb p ltac:(eauto)). lia.
Qed.

(** What a client that connects meets.  The port has services; the acceptor accepts
    again, with a new socket, and nothing else of the ports changes.  A client whose
    address is known and not 0.0.0.0, and that the connection manager accepts, gets a new
    connection, which is added to the manager's list and handed to a protocol at once when
    the first service wants the socket for itself, and waits for its first packet
    otherwise; for every other client the socket is closed and deleted. *)
Theorem client_welcomed x e op c P :
  reachable x -> env_ok e -> enabled (EvAccept op c) x = true -> error c = NoError -> ports (net x) !! of_port op = Some P ->
  exists front rest ip s' out socket,
    m_services P = front :: rest /\ remoteIp (remote_endpoint c) = Some ip /\
    handle e op c (completed op (net x)) = Some (tt, s', out) /\
    ports s' = ports (net x) /\ listening s' = listening (net x) /\
    accepts s' = filter (.≠ op) (accepts (net x)) ++ [mkAccepting (of_port op) (on_acceptor op) socket] /\
    (fresh (net x) <= socket < fresh s')%nat /\
    let checked := ConnectionManager.acceptConnection (now e) ip (connections (net x)) in
    if negb (ip =? 0) && checked.1
    then
      connections s' = ConnectionManager.createConnection (fresh (net x)) checked.2 /\ socket <> fresh (net x) /\
      out = [if Service.isSingleSocket front
             then Connection_handle (fresh (net x)) (of_socket op) (of_port op) (Service.makeProtocol front (Some (fresh (net x))))
             else Connection_accept (fresh (net x)) (of_socket op) (of_port op)]
    else
      connections s' = (if ip =? 0 then connections (net x) else checked.2) /\
      out = if is_open c then [Delete_socket (of_socket op)] else [].
Proof.
  intros Hr He Hen Hc Hp. destruct (reachable_ports x Hr) as [_ Hb].
  cbn in Hen. apply andb_prop in Hen as [[Hop%bool_decide_eq_true Hv4]%andb_prop _].
  destruct (m_services P) as [|front rest] eqn:Es; [by destruct (books_services _ _ _ _ Hb _ P Hp) as [? _]|].
  destruct (remoteIp_v4 _ Hv4) as [ip Hip]. pose proof (handle_accepted e op c (completed op (net x)) P front rest ip He Hc Hp Es Hip) as E.
  unfold welcome in E. change (connections (completed op (net x))) with (connections (net x)) in E.
  change (fresh (completed op (net x))) with (fresh (net x)) in E. exists front, rest, ip. cbn zeta.
  destruct (ip =? 0); [|destruct (ConnectionManager.acceptConnection (now e) ip (connections (net x))) as [[] m]]; cbn [negb andb fst snd];
    (eexists _, _, _; split_and!; [done|done|exact E|done|done|done|cbn; lia|cbn; lia|..]); try done; cbn; lia.
Qed.

(** ** Examples *)

Definition example_env (listens : bool) : env := mkEnv 1000 (fun _ => listens) (fun _ => true) true.
Definition example_ip : IPAddress := V4 0x7F000001.
Definition example_add : event := EvAdd Service.login 7171 [example_ip].

Lemma example_env_works listens : env_ok (example_env listens).
Proof. by intros a. Qed.

(** Deliver some events in a row, each enabled. *)
Fixpoint deliver_all (evs : list (bool * event)) (x : sys) : option sys :=
  match evs with
  | [] => Some x
  | (listens, ev) :: evs => if enabled ev x then run (example_env listens) ev x ≫= deliver_all evs else None
  end.

Lemma deliver_all_steps (ok : event -> Prop) evs x y :
  Forall (fun ev => ok ev.2) evs -> deliver_all evs x = Some y -> rtc (step_by ok) x y.
Proof.
  revert x. induction evs as [|[l ev] evs IH]; intros x; cbn; [intros _ [= ->]; apply rtc_refl|].
  intros [H1 H2]%Forall_cons. destruct (enabled ev x) eqn:Hen; [|done]. intros (z & E & H)%bind_Some.
  eapply rtc_l; [|by apply IH]. exists (example_env l), ev. by split_and!.
Qed.

Lemma deliver_all_reachable evs y : deliver_all evs start = Some y -> reachable y.
Proof.
  intros E. eapply (rtc_subrel (step_by (fun _ => True))); [by intros ? ? (e & ev & _ & H); exists e, ev|].
  eapply deliver_all_steps; [|exact E]. apply Forall_forall. done.
Qed.

(** The server with its one service at one address; the accept in flight. *)
Definition example_open : sys := default start (deliver_all [(true, example_add); (true, EvRun 1)] start).
Definition example_op : accepting := mkAccepting 0 1 2.
(** The same when the address is busy, and after stop(). *)
Definition example_busy : sys := default start (deliver_all [(false, example_add)] start).
Definition example_stopped : sys := default start (deliver_all [(true, example_add); (true, EvRun 1); (true, EvStop)] start).

Lemma example_open_ports : reachable example_open.
Proof. apply (deliver_all_reachable [(true, example_add); (true, EvRun 1)]). vm_compute. reflexivity. Qed.
Lemma example_busy_ports : reachable example_busy.
Proof. apply (deliver_all_reachable [(false, example_add)]). vm_compute. reflexivity. Qed.
Lemma example_stopped_ports : reachable example_stopped.
Proof. apply (deliver_all_reachable [(true, example_add); (true, EvRun 1); (true, EvStop)]). vm_compute. reflexivity. Qed.

Lemma ports_wired_witness :
  listening (net example_open) !! 1%nat = Some (example_ip, 7171) /\ exists p, registered (net example_open) 1 p example_ip 7171.
Proof.
  assert (listening (net example_open) !! 1%nat = Some (example_ip, 7171)) as E by (vm_compute; reflexivity). split; [exact E|].
  destruct (ports_wired example_open example_open_ports) as [H _]. destruct (H _ _ _ E) as (p & Hp & _). by exists p.
Defined.

Lemma ports_exclusive_witness : getPorts (net example_open) = [7171] /\ 0 < 7171 < 2 ^ 16.
Proof.
  assert (getPorts (net example_open) = [7171]) as E by (vm_compute; reflexivity). split; [exact E|].
  apply (ports_exclusive example_open example_open_ports). rewrite E. by apply list_elem_of_singleton.
Defined.

Lemma ports_never_stuck_witness :
  exists y, run (example_env true) (EvAccept example_op (mkCompletion NoError (Some example_ip) true)) example_open = Some y.
Proof.
  apply (ports_never_stuck example_open).
  - apply (deliver_all_steps (fun ev => ev <> EvStop) [(true, example_add); (true, EvRun 1)]); [by repeat constructor|vm_compute; reflexivity].
  - apply example_env_works.
  - vm_compute. reflexivity.
Defined.

Lemma stop_leaves_accepts_witness :
  exists z, run (example_env true) (EvAccept example_op (mkCompletion NoError (Some example_ip) true)) z = None.
Proof.
  destruct (stop_leaves_accepts example_stopped (example_env true) example_op) as (y & z & _ & _ & _ & _ & H).
  - apply example_stopped_ports.
  - apply example_env_works.
  - apply (bool_decide_eq_true_1 _). vm_compute. reflexivity.
  - eexists. vm_compute. reflexivity.
  - apply not_elem_of_nil.
  - vm_compute. reflexivity.
  - exists z. apply H.
Defined.

Lemma failed_accept_forgets_witness :
  exists y, run (example_env true) (EvAccept example_op (mkCompletion Connection.OtherError None false)) example_open = Some y /\
    restarts y = [(0%nat, [address_any], 7171)].
Proof.
  destruct (failed_accept_forgets example_open (example_env true) example_op (mkCompletion Connection.OtherError None false)
    (ServicePort.mk [Service.login] {[1%nat := example_ip]} 7171 false)) as (y & Ey & Hr & _); try done.
  - apply example_open_ports.
  - exists y. split; [exact Ey|]. rewrite Hr. vm_compute. reflexivity.
Defined.

Lemma failed_restart_gives_up_witness :
  exists y, run (example_env false) (EvRestart 0) example_busy = Some y /\ idle 0 y.
Proof.
  destruct (failed_restart_gives_up example_busy (example_env false) 0 0%nat [example_ip] 7171) as (y & Ey & H).
  - apply example_busy_ports.
  - apply example_env_works.
  - vm_compute. reflexivity.
  - eexists. vm_compute. reflexivity.
  - vm_compute. reflexivity.
  - intros a ip sp (P & H0 & H1 & _). vm_compute in H0. injection H0 as <-. by vm_compute in H1.
  - intros op H. vm_compute in H. by apply elem_of_nil in H.
  - done.
  - exists y. split; [exact Ey|]. apply H, rtc_refl.
Defined.

Lemma client_welcomed_witness :
  exists s' out, handle (example_env true) example_op (mkCompletion NoError (Some example_ip) true) (completed example_op (net example_open)) =
    Some (tt, s', out) /\ listening s' = listening (net example_open).
Proof.
  destruct (client_welcomed example_open (example_env true) example_op (mkCompletion NoError (Some example_ip) true)
    (ServicePort.mk [Service.login] {[1%nat := example_ip]} 7171 false)) as (front & rest & ip & s' & out & socket & _ & _ & E & _ & El & _); try done.
  - apply example_open_ports.
  - exists s', out. split; [exact E|exact El].
Defined.

End ServerRun.
