(* ===== verification/Session.v ===== *)
(** * A client's session: the components of the program put together

    One connection of the port with the login service: the handlers of [Connection] call
    [ProtocolLogin] through its service port, the protocol's handlers call the pool, the
    database and the connection manager, and what they ask for goes back to the
    connection or to the dispatcher, whose queue is first in, first out.
    (src/net/connection.cpp, src/net/server.cpp, src/net/outputmessage.cpp,
    src/protocol/protocol.cpp, src/protocol/protocollogin.cpp, src/tasks.cpp) *)
From S2P Require Import Prelude Proc CString Bytes Definitions NetMessage OutMessage Proto Pool PoolFrame PoolLaws PoolRun Conn Db Accounts AccountLaws Login LoginLaws Server.

Module Session.
Import PoolFrame PoolLaws PoolRun Connection.

(** ** What the connection does with a message it is sent *)

(** [Connection::send] on a connection in this state, as the pool sees it. *)
Definition sending_of (e : Connection.env) (conn : t) : OutputMessagePool.sending :=
  if negb (bool_decide (m_connectionState conn ∈ [CONNECTION_STATE_OPEN])) || m_writeError conn then OutputMessagePool.Refused
  else if m_pendingWrite conn =? 0 then
    match fault e with NoFault => OutputMessagePool.Writing | _ => OutputMessagePool.WriteFault end
  else if (100 <? m_pendingWrite conn) && FORCE_CLOSE_SLOW_CONNECTION e then OutputMessagePool.Slow
  else OutputMessagePool.Queued.

Definition with_how (how : nat -> nat -> OutputMessagePool.sending) (e : ProtocolLogin.env) : ProtocolLogin.env :=
  ProtocolLogin.mkEnv (ProtocolLogin.ms e) (ProtocolLogin.now e) (ProtocolLogin.config e) (ProtocolLogin.worldList e)
    (ProtocolLogin.remote_ip e) (ProtocolLogin.memory e) (ProtocolLogin.rand e) how.

(** A bound call of [ProtocolLogin::delegate]. *)
Record delegation := mkDelegation { protocol : nat; name : cstring; password : cstring; clientIp : Z; version : Z }.

(** The tasks of the dispatcher that concern the connection. *)
Inductive task := T_delegate (d : delegation) | T_closeConnection.

(** The port of the login service. *)
Definition port : Server.ServicePort.t := (Server.ServicePort.add Service.login Server.ServicePort.new).2.

Section Session.
Context {DB : Type} `{!Database.Server DB}.
Variables MD5 SHA1 SHA256 SHA512 : list Z -> list Z.
Variable RSA_private_decrypt : list Z -> option (list Z).
Variable c : nat.                       (* the connection's name in the pool *)

(** ** The world of the connection: its protocols and what they use *)

Record world := mkWorld {
  handlers : ProtocolLogin.env;         (* what the protocol's handlers read during the step *)
  login : ProtocolLogin.state (DB := DB);
  posted : list delegation;             (* tasks given to the dispatcher during the step *)
  releases : list nat                   (* protocols the scheduler will try to release again *)
}.

Definition posted_of (out : list ProtocolLogin.request) : list delegation :=
  omap (fun r => match r with
    | ProtocolLogin.AddTask_delegate p name password clientIp version => Some (mkDelegation p name password clientIp version)
    | _ => None end) out.

Definition releases_of (out : list ProtocolLogin.request) : list nat :=
  omap (fun r => match r with
    | ProtocolLogin.Pool (OutputMessagePool.Reschedule_releaseProtocol p) => Some p
    | _ => None end) out.

(** What goes back to the connection. *)
Definition callbacks_of (out : list ProtocolLogin.request) : list callback :=
  omap (fun r => match r with
    | ProtocolLogin.Pool (OutputMessagePool.Connection_send k msg _) => if decide (k = c) then Some (Callback_send msg) else None
    | ProtocolLogin.Connection_close k => if decide (k = c) then Some Callback_close else None
    | _ => None end) out.

(** A handler of the login protocol, or an operation of its pool. *)
Definition call {A} (m : proc (ProtocolLogin.state (DB := DB)) ProtocolLogin.request A) (w : world) :
    option (A * world * list ProtocolLogin.request) :=
  '(a, s, out) ← m (login w);
  Some (a, mkWorld (handlers w) s (posted w ++ posted_of out) (releases w ++ releases_of out), out).

Definition pool_call {A} (m : proc OutputMessagePool.state OutputMessagePool.request A) (w : world) : option (A * world) :=
  '(a, w, _) ← call (ProtocolLogin.onPool m) w; Some (a, w).

(** [ServicePort::makeProtocol]; the new object has an address nobody uses. *)
Definition make (checksum : bool) (msg : NetworkMessage.t) (w : world) : option (option nat * NetworkMessage.t * world) :=
  '(made, msg) ← Server.ServicePort.makeProtocol checksum msg port;
  match made with
  | None => Some (None, msg, w)
  | Some pr =>
      let p := base.fresh (dom (OutputMessagePool.protocols (ProtocolLogin.pool (login w)))) in
      '(_, w) ← pool_call (modify (OutputMessagePool.setProtocols (insert p pr))) w;
      Some (Some p, msg, w)
  end.

(** The connection's view of its protocols.  [Protocol::onConnect] and
    [Protocol::parsePacket] do nothing, and the login protocol does not override them.  The message
    [Connection::send] encodes is encoded by the pool's side of the call. *)
#[export] Instance login_ops : ProtocolOps world := {
  onConnect p w := Some ([], w);
  setConnection p bound w :=
    '(_, w) ← pool_call (OutputMessagePool.onProtocol p (Protocol.setConnection (if bound : bool then Some c else None))) w;
    Some w;
  releaseProtocol p w := '(_, w) ← pool_call (OutputMessagePool.releaseProtocol p) w; Some w;
  makeProtocol := make;
  onRecvFirstMessage p msg w :=
    '(msg, w, out) ← call (ProtocolLogin.onRecvFirstMessage RSA_private_decrypt (handlers w) p msg) w;
    Some (callbacks_of out, msg, w);
  onRecvMessage p msg w :=
    '(pr, w) ← pool_call (OutputMessagePool.protocol p) w;
    '(_, msg) ← Protocol.onRecvMessage pr msg;
    Some ([], msg, w);
  onSendMessage msg w := Some w
}.

(** ** The session *)

Record sys := mkSys {
  csys : Connection.sys world;
  queue : list task                     (* in the order the dispatcher runs them *)
}.

Record env := mkEnv { net : Connection.env; protocols : ProtocolLogin.env }.

Definition on_world (f : world -> world) (s : Connection.sys world) : Connection.sys world :=
  Connection.mkSys (mkState (conn (st s)) (m_logError (st s)) (f (Connection.world (st s))))
    (closeTasks s) (releaseEvents s) (stopPosts s) (reading s) (writing s).

Definition on_conn (f : t -> t) (s : Connection.sys world) : Connection.sys world :=
  Connection.mkSys (mkState (f (conn (st s))) (m_logError (st s)) (Connection.world (st s)))
    (closeTasks s) (releaseEvents s) (stopPosts s) (reading s) (writing s).

Definition world_of (s : sys) : world := Connection.world (st (csys s)).
Definition pool_of (s : sys) : OutputMessagePool.state := ProtocolLogin.pool (login (world_of s)).

(** A step begins: what its handlers read, and what the connection does with a message
    it is sent now. *)
Definition prepare (e : env) (s : Connection.sys world) : Connection.sys world :=
  on_world (fun w => mkWorld (with_how (fun _ _ => sending_of (net e) (connection_of s)) (protocols e)) (login w) [] (releases w)) s.

Definition is_close (x : task) : bool := match x with T_closeConnection => true | _ => false end.
Definition closes (q : list task) : nat := length (filter is_close q).

(** A step ends: its tasks are behind those of the queue, and the references the messages
    have on the connection are counted. *)
Definition settle (q : list task) (s : Connection.sys world) : sys :=
  let w := Connection.world (st s) in
  let refs := default 0 (OutputMessagePool.connections (ProtocolLogin.pool (login w)) !! c) in
  mkSys (on_conn (setRefCount refs) (on_world (fun w => mkWorld (handlers w) (login w) [] (releases w)) s))
    (q ++ map T_delegate (posted w) ++ replicate (closeTasks s - closes q) T_closeConnection).

Inductive event :=
| Net (ev : Connection.event)            (* a completion, a timer, the scheduler, close() *)
| Dispatch                               (* the dispatcher runs the first task *)
| Dropped (msg : nat)                    (* a pointer to a message is dropped *)
| Released (msg : nat)                   (* the dispatcher runs internalReleaseMessage *)
| ReleaseAgain (p : nat)                 (* the scheduler runs releaseProtocol *)
| Elsewhere (x : ProtocolLogin.state (DB := DB)).   (* other clients' steps *)

(** An operation of the pool alone. *)
Definition pool_step (m : proc OutputMessagePool.state OutputMessagePool.request unit) (q : list task)
    (s : Connection.sys world) : option sys :=
  '(_, w) ← pool_call m (Connection.world (st s)); Some (settle q (on_world (fun _ => w) s)).

Definition run (e : env) (ev : event) (s : sys) : option sys :=
  let s0 := prepare e (csys s) in
  let w := Connection.world (st s0) in
  match ev with
  | Net ev => s1 ← Connection.run (net e) ev s0; Some (settle (queue s) s1)
  | Dispatch =>
      match queue s with
      | [] => None
      | T_closeConnection :: q => s1 ← Connection.run (net e) EvCloseTask s0; Some (settle q s1)
      | T_delegate d :: q =>
          '(_, w, out) ← call (ProtocolLogin.delegate MD5 SHA1 SHA256 SHA512 (handlers w) (protocol d) (name d) (password d)
                                (clientIp d) (version d)) w;
          let s1 := on_world (fun _ => w) s0 in
          s1 ← absorb s1 (for_each (run_callback (net e)) (callbacks_of out) (st s1));
          Some (settle q s1)
      end
  | Dropped msg => pool_step (OutputMessagePool.drop_pointer msg) (queue s) s0
  | Released msg => pool_step (OutputMessagePool.internalReleaseMessage msg) (queue s) s0
  | ReleaseAgain p =>
      pool_step (OutputMessagePool.releaseProtocol p) (queue s)
        (on_world (fun w => mkWorld (handlers w) (login w) (posted w) (OutputMessagePool.remove_one p (releases w))) s0)
  | Elsewhere x =>
      Some (settle (queue s) (on_world (fun w => mkWorld (handlers w) x (posted w) (releases w)) s0))
  end.

(** ** What may happen *)

(** The protocols of this session. *)
Definition own (s : sys) (p : nat) : Prop := m_protocol (connection_of (csys s)) = Some p \/ p ∈ releases (world_of s).

(** Whatever the other clients do, they keep the books in order, they forget neither this
    connection nor its protocols, and they do not change them. *)
Record elsewhere (s : sys) (x : ProtocolLogin.state (DB := DB)) : Prop := {
  elsewhere_books : books (ProtocolLogin.pool x);
  elsewhere_io : AccountLaws.io_ok (ProtocolLogin.io x);
  elsewhere_connection : is_Some (OutputMessagePool.connections (ProtocolLogin.pool x) !! c);
  elsewhere_protocols p : own s p -> aspect face (ProtocolLogin.pool x) p = aspect face (pool_of s) p
}.

(** Events of the connection from outside the session: the dispatcher's and the pool's go
    through the queue and the pool. *)
Definition external (ev : Connection.event) : bool :=
  match ev with EvCloseTask | EvSend _ | EvAddRef | EvUnRef => false | _ => true end.

Definition allowed (ev : event) (s : sys) : Prop :=
  match ev with
  | Net ev => external ev = true /\ enabled ev (csys s) = true
  | Dispatch => queue s <> []
  | Dropped msg => msg ∈ OutputMessagePool.held (pool_of s)
  | Released msg => msg ∈ OutputMessagePool.tasks (pool_of s)
  | ReleaseAgain p => p ∈ releases (world_of s)
  | Elsewhere x => elsewhere s x
  end.

Record env_good (e : env) : Prop := {
  good_net : Connection.env_ok (net e);
  good_protocols : LoginLaws.env_ok (protocols e)
}.

(** The pool owns fewer than 2^32 messages. *)
Definition few (s : sys) : Prop := few_messages (pool_of s).

(** What a step of the session itself asks of the pool's size. *)
Definition roomy (ev : event) (s : sys) : Prop := match ev with Elsewhere _ => True | _ => few s end.

Definition start (e : env) (memory : list Z) (time : Z) (log : bool) (x : ProtocolLogin.state (DB := DB)) : option sys :=
  let s0 := prepare e (Connection.fresh memory time log (mkWorld (protocols e) x [] [])) in
  s1 ← absorb s0 (accept (net e) (st s0)); Some (settle [] s1).

Inductive reachable : sys -> Prop :=
| reach_start e memory time log x s :
    zlen memory = NETWORK_MAX_SIZE -> bytes_ok memory -> 0 <= time < 2 ^ 32 - 2 -> env_good e ->
    books (ProtocolLogin.pool x) -> AccountLaws.io_ok (ProtocolLogin.io x) ->
    is_Some (OutputMessagePool.connections (ProtocolLogin.pool x) !! c) ->
    start e memory time log x = Some s -> reachable s
| reach_step e ev s s' :
    reachable s -> env_good e -> allowed ev s -> roomy ev s -> run e ev s = Some s' -> reachable s'.

End Session.
End Session.
