(* ===== verification/SessionLaws.v ===== *)
(** * The login protocol keeps its promises to the connection

    The laws [ConnectionLife] asks of a connection's protocols, for the world of
    [Session]. *)
From S2P Require Import Prelude Proc CString Bytes Definitions NetMessage OutMessage Proto Pool PoolFrame PoolLaws PoolRun PoolSend Conn ConnLife Db Accounts AccountLaws ConnMgr Login LoginFrame LoginLaws LoginPacket Server Session.

Module SessionLaws.
Import PoolFrame PoolLaws PoolRun Session Connection ConnectionLife.

Section Laws.
Context {DB : Type} `{!Database.Server DB, !AccountLaws.LawfulServer DB}.
Context (rsa : list Z -> option (list Z)) (Hrsa : LoginPacket.rsa_ok rsa).
Context (c : nat).

Abbreviation world := (Session.world (DB := DB)).
Abbreviation lpool w := (ProtocolLogin.pool (login w)).
#[local] Hint Extern 0 (ProtocolOps _) => exact (login_ops rsa c) : typeclass_instances.

(** ** Calls of the pool *)

Definition rescheduled (out : list OutputMessagePool.request) : list nat := releases_of (map ProtocolLogin.Pool out).

Definition with_pool (x : OutputMessagePool.state) (out : list OutputMessagePool.request) (w : world) : world :=
  mkWorld (handlers w) (ProtocolLogin.setPool x (login w)) (posted w) (releases w ++ rescheduled out).

Lemma posted_of_pool out : posted_of (map ProtocolLogin.Pool out) = [].
Proof. by induction out. Qed.

Lemma pool_call_eq {A} (m : proc OutputMessagePool.state OutputMessagePool.request A) (w : world) :
  pool_call m w = '(a, x, out) ← m (lpool w); Some (a, with_pool x out w).
Proof.
  unfold pool_call, call, ProtocolLogin.onPool. destruct (m (lpool w)) as [[[a x] out]|]; [|done].
  cbn. by rewrite posted_of_pool, app_nil_r.
Qed.

(** ** The world in good order *)

(** The protocols to be released again have been let go of, and are scheduled once. *)
Record releases_ok (x : OutputMessagePool.state) (rs : list nat) : Prop := {
  releases_once : NoDup rs;
  releases_let_go p : p ∈ rs -> aspect Protocol.m_connection x p = Some None
}.

Record fine (w : world) : Prop := {
  fine_books : books (lpool w);
  fine_io : AccountLaws.io_ok (ProtocolLogin.io (login w));
  fine_connection : is_Some (OutputMessagePool.connections (lpool w) !! c);
  fine_env : LoginLaws.env_ok (handlers w);
  fine_releases : releases_ok (lpool w) (releases w)
}.

Definition living (p : nat) (w : world) : Prop := is_Some (OutputMessagePool.protocols (lpool w) !! p) /\ ~ (p ∈ releases w).

Definition bound (p : nat) (w : world) : Prop :=
  LoginLaws.linked p c (lpool w) /\ Forall (fun d => protocol d = p) (posted w).

Definition waiting (w : world) : Prop := posted w = [].

Lemma linked_aspect p x : LoginLaws.linked p c x <-> aspect Protocol.m_connection x p = Some (Some c).
Proof. done. Qed.

Lemma releases_steady x x' out rs : steady Protocol.m_connection x out x' -> releases_ok x rs -> releases_ok x' rs.
Proof. intros [Ha _] [H1 H2]. split; [done|]. intros p Hp. rewrite Ha. auto. Qed.

Lemma bound_living p w : fine w -> bound p w -> living p w.
Proof.
  intros [_ _ _ _ [_ Hr]] [Hl _]. split.
  - apply LoginLaws.linked_protocol in Hl as (pr & Hp & _). by eexists.
  - intros Hin. specialize (Hr p Hin). pose proof (proj1 (linked_aspect _ _) Hl). congruence.
Qed.

Lemma fine_with_pool x out w :
  fine w -> books x -> is_Some (OutputMessagePool.connections x !! c) -> releases_ok x (releases w ++ rescheduled out) ->
  fine (with_pool x out w).
Proof. intros [_ Hio _ He _] Hb Hc Hr. by split. Qed.

(** ** Binding and letting go *)

Lemma bind_fine p w :
  fine w -> waiting w -> living p w ->
  exists w', setConnection p true w = Some w' /\ fine w' /\ bound p w'.
Proof.
  intros Hf Hw [[pr Hp] Hnr]. pose proof Hf as [Hb Hio Hc He [Ho Hl]].
  set (x := OutputMessagePool.setProtocols (insert p (Protocol.setConnection (Some c) pr)) (lpool w)).
  exists (with_pool x [] w). split; [|split; [|split]].
  - cbn [setConnection login_ops]. rewrite pool_call_eq. unfold OutputMessagePool.onProtocol, OutputMessagePool.protocol.
    autorewrite with proc. rewrite Hp. by autorewrite with proc.
  - apply fine_with_pool; [done| |done|].
    + apply (update_protocol_books _ p pr); try done. by intros k [= <-].
    + cbn. rewrite app_nil_r. split; [done|]. intros q Hq. unfold aspect. cbn.
      rewrite lookup_insert_ne by congruence. by apply Hl.
  - apply linked_aspect. unfold aspect. cbn. by rewrite lookup_insert_eq.
  - cbn. by rewrite Hw.
Qed.

(** A protocol without a connection is deleted, or scheduled to be. *)
Lemma release_fine p w :
  fine w -> aspect Protocol.m_connection (lpool w) p = Some None -> ~ (p ∈ releases w) -> few_messages (lpool w) ->
  exists w', pool_call (OutputMessagePool.releaseProtocol p) w = Some (tt, w') /\ fine w' /\ posted w' = posted w /\
    forall q, q <> p -> aspect Protocol.m_connection (lpool w') q = aspect Protocol.m_connection (lpool w) q.
Proof.
  intros Hf Ha Hnr Hfew. pose proof Hf as [Hb Hio Hc He [Ho Hl]].
  destruct (OutputMessagePool.protocols (lpool w) !! p) as [pr|] eqn:Hp; [|unfold aspect in Ha; by rewrite Hp in Ha].
  destruct (releaseProtocol_books (lpool w) p pr Hb Hfew Hp) as ([] & x & out & E & Hbx & Hcase).
  pose proof (releaseProtocol_connections p _ _ _ _ E) as Hcx.
  assert (forall q, q <> p -> aspect Protocol.m_connection x q = aspect Protocol.m_connection (lpool w) q) as Hother.
  { intros q Hq. unfold aspect. destruct Hcase as [(_ & -> & _)|(_ & -> & _)]; [by rewrite lookup_delete_ne|done]. }
  exists (with_pool x out w). split; [|split; [|split]]; [by rewrite pool_call_eq, E| |done|exact Hother].
  apply fine_with_pool; [done|done|by rewrite Hcx|].
  destruct Hcase as [(_ & Hd & ->)|(_ & -> & ->)]; cbn.
  - rewrite app_nil_r. split; [done|]. intros q Hq. rewrite Hother by congruence. by apply Hl.
  - split; [apply NoDup_app; split_and!; [done| |apply NoDup_singleton]|].
    + intros q Hq Hin%list_elem_of_singleton. congruence.
    + intros q [Hq| ->%list_elem_of_singleton]%elem_of_app; [by apply Hl|done].
Qed.

Lemma letgo_fine p w :
  fine w -> living p w -> few_messages (lpool w) ->
  exists w1 w2, setConnection p false w = Some w1 /\ releaseProtocol p w1 = Some w2 /\ fine w2 /\ posted w2 = posted w.
Proof.
  intros Hf [[pr Hp] Hnr] Hfew. pose proof Hf as [Hb Hio Hc He [Ho Hl]].
  set (x := OutputMessagePool.setProtocols (insert p (Protocol.setConnection None pr)) (lpool w)).
  assert (forall q, q <> p -> aspect Protocol.m_connection x q = aspect Protocol.m_connection (lpool w) q) as Hother.
  { intros q Hq. unfold aspect. cbn. by rewrite lookup_insert_ne. }
  destruct (release_fine p (with_pool x [] w)) as (w2 & E2 & Hf2 & Hp2 & _).
  - apply fine_with_pool; [done|by apply (update_protocol_books _ p pr)|done|]. cbn. rewrite app_nil_r.
    split; [done|]. intros q Hq. rewrite Hother by congruence. by apply Hl.
  - unfold aspect. cbn. by rewrite lookup_insert_eq.
  - cbn. by rewrite app_nil_r.
  - done.
  - exists (with_pool x [] w), w2. split; [|split; [by cbn; rewrite E2|by split]].
    cbn [setConnection login_ops]. rewrite pool_call_eq. unfold OutputMessagePool.onProtocol, OutputMessagePool.protocol.
    autorewrite with proc. rewrite Hp. by autorewrite with proc.
Qed.

(** ** Making a protocol *)

Lemma make_fine ck m w :
  packet m -> fine w ->
  exists p m' w', makeProtocol ck m w = Some (p, m', w') /\ first_packet m' /\ fine w' /\
    (waiting w -> waiting w') /\ (forall q, p = Some q -> living q w').
Proof.
  intros Hm Hf. pose proof Hf as [Hb Hio Hc He [Ho Hl]]. destruct (get1_first m Hm) as (v & m' & E & Hm').
  cbn [makeProtocol login_ops]. unfold make, Server.ServicePort.makeProtocol. rewrite E. cbn [mbind option_bind].
  destruct (find _ _) as [s|] eqn:Es; cbn [fmap option_fmap option_map]; [|exists None, m', w; by split_and!].
  apply find_some in Es as [Hs _]. destruct Hs as [<-|[]].
  set (p := base.fresh _). assert (OutputMessagePool.protocols (lpool w) !! p = None) as Hp.
  { apply not_elem_of_dom, is_fresh. }
  rewrite pool_call_eq. cbn [mbind option_bind modify]. eexists (Some p), m', _. split; [done|]. split; [done|].
  assert (forall q, q ∈ releases w -> q <> p) as Hne.
  { intros q Hq ->. specialize (Hl p Hq). unfold aspect in Hl. by rewrite Hp in Hl. }
  split; [apply fine_with_pool; [done| |done|]|split; [done|]].
  - by apply insert_protocol_books.
  - cbn. rewrite app_nil_r. split; [done|]. intros q Hq. unfold aspect. cbn.
    rewrite lookup_insert_ne by (intros ->; by destruct (Hne q)). by apply Hl.
  - intros q [= <-]. split; cbn; [rewrite lookup_insert_eq; by eexists|]. rewrite app_nil_r. intros Hq. by destruct (Hne p).
Qed.

(** ** The protocol's handlers *)

Lemma sends_requests k id m sent :
  PoolSend.sends k id m sent -> posted_of (map ProtocolLogin.Pool sent ++ [ProtocolLogin.Connection_close k]) = [] /\
    releases_of (map ProtocolLogin.Pool sent ++ [ProtocolLogin.Connection_close k]) = [].
Proof. by intros [-> | ->]. Qed.

(** A reply posts nothing and schedules nothing. *)
Lemma delivers_requests e p content out (s : ProtocolLogin.state (DB := DB)) :
  LoginLaws.delivers e p c content out s -> posted_of out = [] /\ releases_of out = [].
Proof.
  destruct content as [bytes|]; cbn; [|by intros ->]. intros (id & m & sent & Hs & _ & -> & _). by eapply sends_requests.
Qed.

Lemma outcome_requests e p (s s' : ProtocolLogin.state (DB := DB)) out :
  LoginPacket.first_outcome e p c s s' out -> Forall (fun d => protocol d = p) (posted_of out) /\ releases_of out = [].
Proof.
  intros (_ & _ & _ & [Hd|[(message & Hd)|(name & password & version & -> & _)]]).
  - destruct (delivers_requests _ _ _ _ _ Hd) as [-> ->]. by split.
  - destruct (delivers_requests _ _ _ _ _ Hd) as [-> ->]. by split.
  - by repeat constructor.
Qed.

(** A handler that leaves the pool's protocols and connections alone. *)
Lemma fine_call p (s : ProtocolLogin.state (DB := DB)) out w :
  fine w -> bound p w -> LoginLaws.ready p c s -> steady Protocol.m_connection (lpool w) [] (ProtocolLogin.pool s) ->
  Forall (fun d => protocol d = p) (posted_of out) -> releases_of out = [] ->
  let w' := mkWorld (handlers w) s (posted w ++ posted_of out) (releases w ++ releases_of out) in fine w' /\ bound p w'.
Proof.
  intros [Hb Hio Hc He Hr] [Hl Hp] [Hb' Hl' Hio'] Hs Hpo Hro. cbn. rewrite Hro, app_nil_r. split.
  - split; try done; [by apply (steady_connection _ _ _ _ Hs)|by eapply releases_steady].
  - split; [done|]. by apply Forall_app.
Qed.

Lemma first_fine p m w :
  first_packet m -> fine w -> bound p w ->
  exists cbs m' w', onRecvFirstMessage p m w = Some (cbs, m', w') /\ NetworkMessage.wf m' /\ fine w' /\ bound p w'.
Proof.
  intros [[Hwf Hr] Hpos Hsz] Hf Hb. NetworkMessage.consts.
  destruct (LoginPacket.wp_onRecvFirstMessage rsa (handlers w) p c m (login w)) as (m' & s' & out & E & Hm' & Hout).
  { apply Hf. } { done. } { split; [apply Hf|apply Hb|apply Hf]. } { done. } { NetworkMessage.consts. lia. } { NetworkMessage.consts. lia. }
  pose proof (LoginFrame.onRecvFirstMessage_lsteady rsa Protocol.m_connection (handlers w) p m
    (fun _ _ => eq_refl) (fun _ _ => eq_refl) _ _ _ _ E) as Hs.
  destruct (outcome_requests _ _ _ _ _ Hout) as [Hpo Hro].
  destruct (fine_call p s' out w Hf Hb (proj1 Hout) Hs Hpo Hro) as [Hf' Hb'].
  cbn [onRecvFirstMessage login_ops]. unfold call. rewrite E. cbn [mbind option_bind]. by eexists _, _, _.
Qed.

Lemma next_fine p m w :
  packet m -> fine w -> bound p w ->
  exists cbs m' w', onRecvMessage p m w = Some (cbs, m', w') /\ NetworkMessage.wf m' /\ fine w' /\ bound p w'.
Proof.
  intros [[Hwf Hr] Hpos Hsz] Hf Hb. pose proof (proj1 Hb) as (pr & Hp & _)%LoginLaws.linked_protocol.
  assert (exists ok m', Protocol.onRecvMessage pr m = Some (ok, m') /\ NetworkMessage.wf m') as (ok & m' & E & Hm').
  { unfold Protocol.onRecvMessage. destruct (Protocol.m_encryptionEnabled pr); [|eauto].
    destruct (Protocol.XTEA_decrypt_total (Protocol.m_key pr) m Hwf Hpos Hsz) as (ok & m' & ? & ? & _). eauto. }
  exists [], m', (with_pool (lpool w) [] w). split; [|split; [done|split]].
  - cbn [onRecvMessage login_ops]. rewrite pool_call_eq. unfold OutputMessagePool.protocol. autorewrite with proc.
    rewrite Hp. cbn [lift mbind option_bind]. by rewrite E.
  - apply fine_with_pool; [done|apply Hf|apply Hf|]. cbn. rewrite app_nil_r. apply Hf.
  - exact Hb.
Qed.

(** The promises hold. *)
#[export] Instance login_laws : ProtocolLaws world.
Proof.
  refine {| world_ok := fine; idle := waiting; alive := living; owns := bound;
            bounded := fun w => few_messages (lpool w) |}.
  - apply bound_living.
  - intros p w Hf Hb. by exists [], w.
  - apply bind_fine.
  - intros p w Hf Ha Hb. destruct (letgo_fine p w Hf Ha Hb) as (w1 & w2 & ? & ? & ? & _). eauto.
  - apply make_fine.
  - apply first_fine.
  - apply next_fine.
  - intros msg w Hf. by exists w.
Defined.

End Laws.
End SessionLaws.
