(* ===== verification/SessionRun.v ===== *)
(** * Sessions: the invariant

    The components, put together, keep each other's promises: every step a session can
    make ends, and leaves the connection in good order and the dispatcher's queue with
    the delegates of its protocol in front of its closure. *)
From S2P Require Import Prelude Proc CString Bytes Definitions NetMessage OutMessage Proto Pool PoolFrame PoolLaws PoolRun PoolSend Conn ConnLife Wire Db Accounts AccountLaws ConnMgr Login LoginFrame LoginLaws LoginPacket Server Session SessionLaws.

Module SessionRun.
Import PoolFrame PoolLaws Session Connection SessionLaws.

Section Run.
Context {DB : Type} `{!Database.Server DB, !AccountLaws.LawfulServer DB}.
Context (MD5 SHA1 SHA256 SHA512 : list Z -> list Z).
Context (rsa : list Z -> option (list Z)) (Hrsa : LoginPacket.rsa_ok rsa).
Context (c : nat).

Abbreviation world := (Session.world (DB := DB)).
Abbreviation sys := (Session.sys (DB := DB)).
Abbreviation lpool w := (ProtocolLogin.pool (login w)).
#[local] Hint Extern 0 (ProtocolOps _) => exact (login_ops rsa c) : typeclass_instances.
#[local] Hint Extern 0 (ConnectionLife.ProtocolLaws _) => exact (login_laws rsa Hrsa c) : typeclass_instances.
Abbreviation run := (Session.run MD5 SHA1 SHA256 SHA512 rsa c).
Abbreviation reachable := (Session.reachable MD5 SHA1 SHA256 SHA512 rsa c).
Abbreviation inv := (ConnectionLife.inv (W := world)).

(** ** The connection's invariant when its world changes *)

Lemma inv_bound (cs : Connection.sys world) p :
  inv cs -> m_protocol (connection_of cs) = Some p -> has_socket cs = true /\ bound c p (Connection.world (st cs)).
Proof.
  intros Hi Hp. destruct (has_socket cs) eqn:Hs.
  - split; [done|]. exact (ConnectionLife.ok_owns _ (ConnectionLife.inv_ok _ Hi Hs) p Hp).
  - destruct (ConnectionLife.inv_gone _ Hi Hs) as (_ & _ & ?). congruence.
Qed.

Lemma inv_on_world (cs : Connection.sys world) w :
  inv cs -> fine c w -> (forall p, m_protocol (connection_of cs) = Some p -> bound c p w) -> waiting w ->
  inv (on_world (fun _ => w) cs).
Proof.
  intros [Ho Hg Hc He Hr Hw] Hf Hb Hi. split; try done.
  intros Hs. destruct (Ho Hs). split; cbn; try done; auto.
Qed.

Lemma inv_on_refs (cs : Connection.sys world) n : inv cs -> inv (on_conn (setRefCount n) cs).
Proof.
  intros [Ho Hg Hc He Hr Hw]. split; try done.
  - intros Hs. destruct (Ho Hs). split; cbn; try done. by apply wrapu_range.
  - intros Hs. destruct (Hg Hs) as (? & ? & ?). split; [done|]. split; [|done]. by apply wrapu_range.
Qed.

(** ** The session's invariant *)

(** The delegates in the queue are those of the connection's protocol, and the closure is
    behind them. *)
Record good (s : sys) : Prop := {
  good_conn : inv (csys s);
  good_posted : waiting (world_of s);
  good_queue : exists ds, queue s = map T_delegate ds ++ replicate (closeTasks (csys s)) T_closeConnection /\
    Forall (fun d => m_protocol (connection_of (csys s)) = Some (protocol d)) ds
}.

Lemma prepare_inv e s : good s -> env_good e -> inv (prepare e (csys s)).
Proof.
  intros [Hi Hp _] [_ He]. unfold prepare.
  set (f := fun w : world => _). apply (inv_on_world (csys s) (f (Connection.world (st (csys s))))); [done| | |done].
  - pose proof (ConnectionLife.inv_world _ Hi) as [Hb Hio Hc _ Hr]. split; try done. destruct He. by split.
  - intros p Hpr. destruct (inv_bound _ p Hi Hpr) as [_ [Hl _]]. by split; [|constructor].
Qed.

Lemma prepare_world e (cs : Connection.sys world) :
  posted (Connection.world (st (prepare e cs))) = [] /\ login (Connection.world (st (prepare e cs))) = login (Connection.world (st cs)) /\
  releases (Connection.world (st (prepare e cs))) = releases (Connection.world (st cs)).
Proof. done. Qed.

Lemma closes_app q1 q2 : closes (q1 ++ q2) = (closes q1 + closes q2)%nat.
Proof. unfold closes. by rewrite filter_app, length_app. Qed.

Lemma closes_queue ds n : closes (map T_delegate ds ++ replicate n T_closeConnection) = n.
Proof.
  rewrite closes_app. assert (closes (map T_delegate ds) = 0%nat) as -> by by induction ds.
  assert (closes (replicate n T_closeConnection) = n) as -> by (induction n as [|n IH]; [done|]; exact (f_equal S IH)).
  done.
Qed.

(** A step ends in good order when its tasks may go behind those of the queue. *)
Lemma settle_good (cs : Connection.sys world) q ds n :
  inv cs -> q = map T_delegate ds ++ replicate n T_closeConnection -> (n <= closeTasks cs)%nat ->
  Forall (fun d => m_protocol (connection_of cs) = Some (protocol d)) ds ->
  (posted (Connection.world (st cs)) = [] \/
   n = 0%nat /\ (ConnectionLife.conn_state cs = CONNECTION_STATE_OPEN \/ ConnectionLife.conn_state cs = CONNECTION_STATE_REQUEST_CLOSE)) ->
  good (settle c q cs).
Proof.
  intros Hi -> Hn Hds Hpo. set (w := Connection.world (st cs)).
  assert (exists ds', map T_delegate ds ++ replicate n T_closeConnection ++ map T_delegate (posted w) =
      map T_delegate ds' ++ replicate n T_closeConnection /\
      Forall (fun d => m_protocol (connection_of cs) = Some (protocol d)) ds') as (ds' & Hq & Hds').
  { destruct Hpo as [Hpo|[-> Hst]]; [exists ds; unfold w; by rewrite Hpo, app_nil_r|].
    exists (ds ++ posted w). cbn. rewrite map_app, app_nil_r. split; [done|]. apply Forall_app. split; [done|].
    destruct (m_protocol (connection_of cs)) as [p|] eqn:Hp.
    - destruct (inv_bound _ p Hi Hp) as [_ [_ Hf]]. eapply Forall_impl; [exact Hf|]. by intros d ->.
    - assert (has_socket cs = true) as Hs.
      { destruct (has_socket cs) eqn:Hs; [done|]. destruct (ConnectionLife.inv_gone _ Hi Hs) as (E & _).
        rewrite E in Hst. by destruct Hst. }
      pose proof (ConnectionLife.ok_idle _ (ConnectionLife.inv_ok _ Hi Hs) Hp Hst) as E.
      change (posted w = []) in E. rewrite E. constructor. }
  split.
  - apply inv_on_refs. set (f := fun w : world => _). apply (inv_on_world cs (f w)); [done| | |done].
    + by destruct (ConnectionLife.inv_world _ Hi).
    + intros p Hp. destruct (inv_bound _ p Hi Hp) as [_ [Hl _]]. by split; [|constructor].
  - done.
  - exists ds'. split; [|done]. cbn [queue settle]. cbv zeta. fold w. rewrite closes_queue, <- app_assoc, (app_assoc (replicate n _)),
      (app_assoc (map T_delegate ds)), Hq, <- app_assoc.
    f_equal. rewrite <- replicate_add. cbn. f_equal. lia.
Qed.

(** ** Steps *)

Lemma absorb_closeTasks (cs cs' : Connection.sys world) r :
  absorb cs r = Some cs' -> (closeTasks cs <= closeTasks cs')%nat.
Proof. destruct r as [[[? ?] ?]|]; [|done]. intros [= <-]. cbn. lia. Qed.

Lemma run_closeTasks e ev (cs cs' : Connection.sys world) :
  ev <> EvCloseTask -> Connection.run e ev cs = Some cs' -> (closeTasks cs <= closeTasks cs')%nat.
Proof. intros Hne. destruct ev; try done; cbn [Connection.run]; intros E%absorb_closeTasks; exact E. Qed.

(** A step of the connection that is not its closure, from the session's point of view. *)
Lemma good_after e s (cs : Connection.sys world) q ds :
  good s -> env_good e -> ConnectionLife.good_step EvClose (prepare e (csys s)) cs ->
  q = map T_delegate ds ++ replicate (closeTasks (csys s)) T_closeConnection -> (closeTasks (csys s) <= closeTasks cs)%nat ->
  Forall (fun d => m_protocol (connection_of (csys s)) = Some (protocol d)) ds -> good (settle c q cs).
Proof.
  intros Hg He (Hi & Ha & Hk) Hq Hn Hds. destruct Hk as [Hw Hp]; [done|]. destruct Hg as [Hi0 _ _].
  apply (settle_good cs q ds (closeTasks (csys s))); [done|done|done| |].
  - eapply Forall_impl; [exact Hds|]. intros d Hd. by apply Hp.
  - destruct (decide (ConnectionLife.conn_state (csys s) = CONNECTION_STATE_OPEN)) as [Ho|Ho].
    + right. split.
      * rewrite (ConnectionLife.inv_close _ Hi0), Ho. done.
      * change (ConnectionLife.conn_state (prepare e (csys s))) with (ConnectionLife.conn_state (csys s)) in Ha.
        rewrite Ho in Ha. inversion Ha; auto.
    + left. by rewrite (Hw Ho).
Qed.

Lemma net_good e ev s :
  good s -> env_good e -> few s -> external ev = true -> enabled ev (csys s) = true ->
  exists s', run e (Net ev) s = Some s' /\ good s'.
Proof.
  intros Hg He Hfew Hex Hen. pose proof (prepare_inv e s Hg He) as Hi.
  destruct (ConnectionLife.run_total (net e) ev (prepare e (csys s)) Hi (good_net _ He) Hfew) as (cs & E & Hst).
  { by destruct ev. }
  assert (ev <> EvCloseTask) as Hne by by destruct ev.
  cbn [Session.run]. rewrite E. eexists. split; [done|]. destruct (good_queue _ Hg) as (ds & Hq & Hds).
  apply (good_after e s cs (queue s) ds); try done.
  - destruct Hst as (H1 & H2 & H3). split; [done|]. split; [done|]. intros _. by apply H3.
  - by apply (run_closeTasks _ _ _ _ Hne E).
Qed.

(** The closure: the delegates are gone, and it is the last task. *)
Lemma close_good e s q :
  good s -> env_good e -> few s -> queue s = T_closeConnection :: q ->
  exists s', run e Dispatch s = Some s' /\ good s'.
Proof.
  intros Hg He Hfew Hq. pose proof (prepare_inv e s Hg He) as Hi. set (cs0 := prepare e (csys s)) in *.
  destruct (good_queue _ Hg) as (ds & Hds & _). rewrite Hq in Hds. destruct ds as [|d ds]; [|done].
  pose proof (ConnectionLife.inv_close _ Hi) as Hc. change (closeTasks cs0) with (closeTasks (csys s)) in Hc.
  case_decide as Hst; rewrite Hc in Hds; [|done]. injection Hds as ->.
  assert (enabled EvCloseTask cs0 = true) as Hen by (cbn; by rewrite Hc).
  destruct (ConnectionLife.run_total (net e) EvCloseTask cs0 Hi (good_net _ He) Hfew Hen) as (cs & E & Hi' & _).
  cbn [Session.run]. rewrite Hq. fold cs0. rewrite E. eexists. split; [done|].
  apply (settle_good cs [] [] 0); [done|done|lia|constructor|]. left.
  destruct (ConnectionLife.closeTask_requested cs0 Hi) as [Hsk _]; [by apply Nat.ltb_lt|].
  destruct (ConnectionLife.closeConnection_result (net e) (st cs0) (ConnectionLife.inv_ok _ Hi Hsk) Hfew Hst)
    as (st' & out & Er & _ & _ & _ & Hl & _).
  cbn [Connection.run] in E. rewrite Er in E. injection E as <-. cbn [Connection.world st].
  unfold ConnectionLife.let_go in Hl. destruct (m_protocol (conn (st cs0))) as [p|] eqn:Hp; [|by injection Hl as <-].
  destruct (inv_bound cs0 p Hi Hp) as [_ Hb].
  destruct (letgo_fine rsa c p _ (ConnectionLife.inv_world _ Hi) (bound_living c p _ (ConnectionLife.inv_world _ Hi) Hb) Hfew)
    as (w1 & w2 & E1 & E2 & _ & Hp2).
  change (setConnection p false (Connection.world (st cs0)) = Some w1) in E1. rewrite E1 in Hl. cbn [mbind option_bind] in Hl.
  change (releaseProtocol p w1 = Some w2) in E2. rewrite E2 in Hl. by injection Hl as <-.
Qed.

Lemma answered_requests e p nm pw ip (x x' : ProtocolLogin.state (DB := DB)) out :
  LoginLaws.answered MD5 SHA1 SHA256 SHA512 e p c nm pw ip x x' out -> posted_of out = [] /\ releases_of out = [].
Proof.
  intros (_ & Hsh & Hop). destruct (LoginLaws.shut x) eqn:E; [by rewrite Hsh|].
  destruct (Hop eq_refl) as (attempt & fs & _ & _ & Hd). by eapply delivers_requests.
Qed.

(** A delegate runs on its connection's protocol. *)
Lemma delegate_runs e s d q :
  good s -> env_good e -> queue s = T_delegate d :: q ->
  let w := Connection.world (st (prepare e (csys s))) in
  exists x out, ProtocolLogin.delegate MD5 SHA1 SHA256 SHA512 (handlers w) (protocol d) (name d) (password d) (clientIp d)
      (version d) (login w) = Some (tt, x, out) /\
    LoginLaws.answered MD5 SHA1 SHA256 SHA512 (handlers w) (protocol d) c (name d) (password d) (clientIp d) (login w) x out /\
    let cs := on_world (fun _ => mkWorld (handlers w) x [] (releases w)) (prepare e (csys s)) in
    inv cs /\ has_socket cs = true /\
    run e Dispatch s = (s1 ← absorb cs (for_each (run_callback (net e)) (callbacks_of c out) (st cs)); Some (settle c q s1)).
Proof.
  intros Hg He Hq w. pose proof (prepare_inv e s Hg He) as Hi. set (cs0 := prepare e (csys s)) in *.
  destruct (good_queue _ Hg) as (ds & Hds & Hf). rewrite Hq in Hds. destruct ds as [|d' ds].
  { by destruct (closeTasks (csys s)). }
  injection Hds as <- Hds. apply Forall_cons in Hf as [Hp Hf].
  change (m_protocol (connection_of cs0) = Some (protocol d)) in Hp. destruct (inv_bound cs0 _ Hi Hp) as [Hs Hb]. fold w in Hb.
  pose proof (ConnectionLife.inv_world _ Hi) as Hw. change (fine c w) in Hw.
  destruct (LoginLaws.wp_delegate MD5 SHA1 SHA256 SHA512 (handlers w) (protocol d) c (name d) (password d) (clientIp d) (version d)
    (login w)) as ([] & x & out & E & Ha); [apply Hw|split; [apply Hw|apply Hb|apply Hw]|].
  exists x, out. split; [done|]. split; [done|]. destruct (answered_requests _ _ _ _ _ _ _ _ Ha) as [Hpo Hro].
  pose proof (LoginFrame.delegate_lsteady MD5 SHA1 SHA256 SHA512 Protocol.m_connection _ _ _ _ _ _ _ _ _ _ E) as Hsteady.
  destruct (fine_call c (protocol d) x out w Hw Hb (proj1 Ha) Hsteady) as [Hw' Hb']; [by rewrite Hpo|done|].
  rewrite Hpo, Hro, !app_nil_r in Hw', Hb'.
  split; [|split; [done|]].
  - apply (inv_on_world cs0); [done|done| |done]. intros p Hp'. rewrite Hp in Hp'. by injection Hp' as <-.
  - cbn [Session.run]. rewrite Hq. fold cs0. fold w. unfold call. rewrite E. cbn [mbind option_bind].
    by rewrite Hpo, Hro, !app_nil_r.
Qed.

Lemma delegate_good e s d q :
  good s -> env_good e -> queue s = T_delegate d :: q ->
  exists s', run e Dispatch s = Some s' /\ good s'.
Proof.
  intros Hg He Hq. destruct (delegate_runs e s d q Hg He Hq) as (x & out & _ & _ & Hi & Hs & ->).
  match type of Hi with inv ?cs1 => set (cs := cs1) in * end.
  destruct (ConnectionLife.run_keeps EvClose cs (for_each (run_callback (net e)) (callbacks_of c out)) Hi Hs)
    as (cs' & E & Hi' & Ha & Hk).
  { apply ConnectionLife.for_each_safe. intros. apply ConnectionLife.run_callback_safe. }
  rewrite E. eexists. split; [done|]. destruct (good_queue _ Hg) as (ds & Hds & Hf). rewrite Hq in Hds.
  destruct ds as [|d' ds]; [by destruct (closeTasks (csys s))|]. injection Hds as <- Hds. apply Forall_cons in Hf as [_ Hf].
  destruct Hk as [Hkw Hkp]; [done|].
  apply (settle_good cs' q ds (closeTasks (csys s))); [done|done|by apply (absorb_closeTasks _ _ _ E)| |].
  - eapply Forall_impl; [exact Hf|]. intros d' Hd'. by apply Hkp.
  - destruct (decide (ConnectionLife.conn_state (csys s) = CONNECTION_STATE_OPEN)) as [Ho|Ho].
    + right. destruct Hg as [Hi0 _ _]. split; [by rewrite (ConnectionLife.inv_close _ Hi0), Ho|].
      change (ConnectionLife.conn_state cs) with (ConnectionLife.conn_state (csys s)) in Ha. rewrite Ho in Ha. inversion Ha; auto.
    + left. by rewrite (Hkw Ho).
Qed.

(** A step of the world alone. *)
Lemma world_good e s w :
  good s -> env_good e -> fine c w -> posted w = [] ->
  (forall p, m_protocol (connection_of (csys s)) = Some p -> LoginLaws.linked p c (lpool w)) ->
  good (settle c (queue s) (on_world (fun _ => w) (prepare e (csys s)))).
Proof.
  intros Hg He Hf Hp Hb. destruct (good_queue _ Hg) as (ds & Hq & Hds).
  apply (settle_good _ _ ds (closeTasks (csys s))); try done; [|by left].
  apply (inv_on_world (prepare e (csys s))); [by apply prepare_inv|done| |done].
  intros p Hpr. split; [by apply Hb|]. rewrite Hp. constructor.
Qed.

(** What the session's own protocol is bound to. *)
Lemma good_linked s p :
  good s -> m_protocol (connection_of (csys s)) = Some p -> LoginLaws.linked p c (pool_of s).
Proof. intros [Hi _ _] Hp. by destruct (inv_bound _ p Hi Hp) as [_ [? _]]. Qed.

Lemma pool_good e s m :
  good s -> env_good e -> wp m (fun _ x _ => books x) (pool_of s) -> silent m -> respects (steady Protocol.m_connection) m ->
  exists s', pool_step c m (queue s) (prepare e (csys s)) = Some s' /\ good s'.
Proof.
  intros Hg He ([] & x & out & E & Hb) Hsil Hst. pose proof (Hsil _ _ _ _ E) as Ho. unfold nothing in Ho. subst out.
  pose proof (Hst _ _ _ _ E) as Hx. pose proof (prepare_inv e s Hg He) as Hi.
  pose proof (ConnectionLife.inv_world _ Hi) as Hf. destruct Hf as [_ Hio Hc Hen Hr].
  unfold pool_step. rewrite pool_call_eq. change (lpool (Connection.world (st (prepare e (csys s))))) with (pool_of s).
  rewrite E. cbn [mbind option_bind]. eexists. split; [done|].
  apply world_good; [done|done| |done|].
  - apply fine_with_pool; [by split; [apply (ConnectionLife.inv_world _ Hi)|..]|done|by apply (steady_connection _ _ _ _ Hx)|].
    cbn. rewrite app_nil_r. by eapply releases_steady.
  - intros p Hp. pose proof (good_linked s p Hg Hp) as Hl. apply linked_aspect. cbn. rewrite (steady_aspect _ _ _ _ Hx).
    by apply linked_aspect.
Qed.

Lemma remaining_releases p q (rs : list nat) : NoDup rs -> q ∈ OutputMessagePool.remove_one p rs <-> q ∈ rs /\ q <> p.
Proof.
  induction 1 as [|x rs Hx Hrs IH]; cbn; [rewrite elem_of_nil; tauto|].
  case_decide as Hd; [subst x|]; rewrite ?elem_of_cons, ?IH; [|naive_solver].
  split; [|naive_solver]. intros Hq. split; [by right|]. by intros ->.
Qed.

Lemma NoDup_remove_one p (rs : list nat) : NoDup rs -> NoDup (OutputMessagePool.remove_one p rs).
Proof.
  induction 1 as [|x rs Hx Hrs IH]; cbn; [constructor|]. case_decide; [done|]. constructor; [|done].
  rewrite remaining_releases by done. tauto.
Qed.

Lemma release_good e s p :
  good s -> env_good e -> few s -> p ∈ releases (world_of s) ->
  exists s', run e (ReleaseAgain p) s = Some s' /\ good s'.
Proof.
  intros Hg He Hfew Hin. pose proof (prepare_inv e s Hg He) as Hi.
  pose proof (ConnectionLife.inv_world _ Hi) as Hf. set (w := Connection.world (st (prepare e (csys s)))) in *.
  destruct (fine_releases _ _ Hf) as [Ho Hl]. change (releases (world_of s)) with (releases w) in Hin.
  set (w1 := mkWorld (handlers w) (login w) (posted w) (OutputMessagePool.remove_one p (releases w))).
  destruct (release_fine c p w1) as (w2 & E & Hf2 & Hp2 & Hother).
  - destruct Hf as [H1 H2 H3 H4 _]. split; try done. split; [by apply NoDup_remove_one|].
    intros q [Hq _]%remaining_releases; [by apply Hl|done].
  - by apply Hl.
  - cbn. rewrite remaining_releases by done. tauto.
  - exact Hfew.
  - cbn [Session.run]. unfold pool_step. fold w.
    change (Connection.world (st (on_world (fun w => mkWorld (handlers w) (login w) (posted w)
      (OutputMessagePool.remove_one p (releases w))) (prepare e (csys s))))) with w1.
    rewrite E. cbn [mbind option_bind]. eexists. split; [done|].
    apply (world_good e s w2); [done|done|done|by rewrite Hp2|].
    intros q Hq. pose proof (good_linked s q Hg Hq) as Hlq. apply linked_aspect. rewrite Hother; [by apply linked_aspect|].
    intros ->. specialize (Hl p Hin). change (lpool w) with (pool_of s) in Hl.
    pose proof (proj1 (linked_aspect c p _) Hlq). congruence.
Qed.

Lemma elsewhere_good e s x :
  good s -> env_good e -> elsewhere c s x -> exists s', run e (Elsewhere x) s = Some s' /\ good s'.
Proof.
  intros Hg He [Hb Hio Hc Hown]. pose proof (prepare_inv e s Hg He) as Hi.
  pose proof (ConnectionLife.inv_world _ Hi) as Hf. cbn [Session.run]. eexists. split; [done|].
  assert (forall p, own s p -> aspect Protocol.m_connection (ProtocolLogin.pool x) p = aspect Protocol.m_connection (pool_of s) p) as Hown'.
  { intros p Hp. by rewrite !aspect_face, Hown. }
  destruct (fine_releases _ _ Hf) as [Ho Hl].
  apply (world_good e s (mkWorld _ x [] (releases (world_of s)))); [done|done| |done|].
  - split; try done; [apply Hf|]. split; [done|]. intros p Hp. rewrite Hown' by by right. by apply Hl.
  - intros p Hp. apply linked_aspect. cbn. rewrite Hown' by by left. by apply linked_aspect, good_linked.
Qed.

Lemma run_good e ev s :
  good s -> env_good e -> allowed c ev s -> roomy ev s -> exists s', run e ev s = Some s' /\ good s'.
Proof.
  intros Hg He Ha Hfew. pose proof (ConnectionLife.inv_world _ (good_conn _ Hg)) as [Hb _ _ _ _].
  change (books (pool_of s)) in Hb. destruct ev as [ev| |id|id|p|x]; cbn [allowed] in Ha.
  - destruct Ha. by apply net_good.
  - destruct (queue s) as [|[d|] q] eqn:Hq; [done|by eapply delegate_good|by eapply close_good].
  - apply pool_good; [done|done| |apply drop_pointer_silent|apply drop_pointer_steady].
    by apply (PoolRun.run_books (PoolRun.Drop id)).
  - apply pool_good; [done|done| |apply internalReleaseMessage_silent|apply internalReleaseMessage_steady, _].
    by apply (PoolRun.run_books (PoolRun.Released id)).
  - by apply release_good.
  - by apply elsewhere_good.
Qed.

Lemma start_good e memory time log x :
  zlen memory = NETWORK_MAX_SIZE -> bytes_ok memory -> 0 <= time < 2 ^ 32 - 2 -> env_good e ->
  books (ProtocolLogin.pool x) -> AccountLaws.io_ok (ProtocolLogin.io x) ->
  is_Some (OutputMessagePool.connections (ProtocolLogin.pool x) !! c) ->
  exists s, start c e memory time log x = Some s /\ good s.
Proof.
  intros Hm Hmb Ht He Hb Hio Hc. unfold start. set (s0 := prepare e _).
  assert (inv s0) as Hi.
  { apply (ConnectionLife.fresh_inv memory time log); try done.
    destruct He as [_ []]. split; try done.
    split; [constructor|]. intros p Hp. by apply elem_of_nil in Hp. }
  destruct (ConnectionLife.run_awaits EvClose s0 (accept (net e)) Hi) as (cs & E & Hi' & Ha & _); [done|done| |].
  { eapply ConnectionLife.safe_subrel; [apply ConnectionLife.waits_awaits|]. apply ConnectionLife.readHeader_safe. }
  rewrite E. eexists. split; [done|]. apply (settle_good cs [] [] 0); [done|done|lia|constructor|]. right.
  split; [done|]. change (ConnectionLife.conn_state s0) with CONNECTION_STATE_OPEN in Ha. inversion Ha; auto.
Qed.

Lemma reachable_good s : reachable s -> good s.
Proof.
  induction 1 as [e memory time log x s Hm Hmb Ht He Hb Hio Hc E|e ev s s' _ IH He Ha Hfew E].
  - destruct (start_good e memory time log x Hm Hmb Ht He Hb Hio Hc) as (s1 & E1 & Hg). congruence.
  - destruct (run_good e ev s IH He Ha Hfew) as (s1 & E1 & Hg). congruence.
Qed.

End Run.
End SessionRun.
