(* ===== verification/SessionOnce.v ===== *)
(** * A session is answered once

    The first packet is refused or leaves a delegate, and a delegate answers: whatever a
    client sends and whatever fails, a connection is sent at most one message, and it is
    idle when it is. *)
From S2P Require Import Prelude Proc CString Bytes Definitions NetMessage OutMessage Proto Pool PoolFrame Conn ConnFrame ConnLife Db Accounts AccountLaws Login Server Session SessionLaws SessionRun.

Module SessionOnce.
Import Session Connection ConnFrame.

(** ** What a handler of the protocol asks for *)

(** A message handed to a connection, or a delegate given to the dispatcher. *)
Definition sent (r : OutputMessagePool.request) : nat := match r with OutputMessagePool.Connection_send _ _ _ => 1 | _ => 0 end.
Definition owed (r : ProtocolLogin.request) : nat :=
  match r with ProtocolLogin.Pool r => sent r | ProtocolLogin.AddTask_delegate _ _ _ _ _ => 1 | _ => 0 end.

Section Handlers.
Context {DB : Type} `{!Database.Server DB}.
Context (MD5 SHA1 SHA256 SHA512 : list Z -> list Z) (rsa : list Z -> option (list Z)).
Abbreviation lstate := (ProtocolLogin.state (DB := DB)).
Abbreviation costs := (within (S := lstate) owed).
Import ProtocolLogin.

Lemma silent_within {A S O} (cost : O -> nat) n (m : proc S O A) : silent m -> respects (within cost n) m.
Proof. intros Hm s a s' out E. unfold within. rewrite (Hm _ _ _ _ E). cbn. lia. Qed.

Lemma cost_of_pool out : sum_list_with owed (map Pool out) = sum_list_with sent out.
Proof. induction out as [|r out IH]; [done|]. cbn [map sum_list_with]. by rewrite IH. Qed.

Lemma onPool_within {A} n (m : proc OutputMessagePool.state OutputMessagePool.request A) :
  respects (within sent n) m -> respects (costs n) (onPool m).
Proof.
  intros Hm s a s' out. unfold onPool. destruct (m (pool s)) as [[[b x] o]|] eqn:E; [|done].
  intros [= <- <- <-]. pose proof (Hm _ _ _ _ E) as Hx. unfold within in *.
  by rewrite cost_of_pool.
Qed.

Lemma onPool_silent {A} n (m : proc OutputMessagePool.state OutputMessagePool.request A) :
  silent m -> respects (costs n) (onPool m).
Proof. intros Hm. by apply onPool_within, silent_within. Qed.

Lemma onIO_within {A} n (m : proc (IO.t DB) Empty_set A) : respects (costs n) (onIO m).
Proof.
  intros s a s' out. unfold onIO. destruct (m (io s)) as [[[b x] o]|]; [|done].
  intros [= <- <- <-]. unfold within. cbn. lia.
Qed.

Ltac free := unfold within; cbn; lia.

Lemma onSendMessage_free id : respects (within sent 0) (OutputMessagePool.onSendMessage id).
Proof.
  apply silent_within. unfold OutputMessagePool.onSendMessage.
  respects; first [apply PoolFrame.message_silent|apply PoolFrame.protocol_silent].
Qed.

Lemma send_once how id : respects (within sent 1) (OutputMessagePool.send how id).
Proof.
  unfold OutputMessagePool.send, OutputMessagePool.sendTo, OutputMessagePool.connection_send, OutputMessagePool.autoSend,
    OutputMessagePool.hold.
  spends ltac:(first [apply onSendMessage_free|apply silent_within, PoolFrame.message_silent|apply respects_emit; intros; free|free]).
Qed.

Lemma getConnection_free p : respects (costs 0) (getConnection p).
Proof. unfold getConnection. respects. apply onPool_silent, PoolFrame.protocol_silent. Qed.

Lemma close_free p : respects (costs 0) (close p).
Proof. unfold close. respects; [apply getConnection_free|apply respects_emit; intros; free]. Qed.

Lemma write_free id fs : respects (costs 0) (write id fs).
Proof.
  unfold write. apply onPool_silent.
  respects; [apply PoolFrame.message_silent|apply PoolFrame.onMessage_silent].
Qed.

Lemma send_cost how id : respects (costs 1) (onPool (OutputMessagePool.send how id)).
Proof. apply onPool_within, send_once. Qed.

Ltac cost := first [apply getConnection_free|apply close_free|apply write_free|apply send_cost|apply onIO_within
  |apply onPool_silent, PoolFrame.getOutputMessage_silent|apply onPool_silent, PoolFrame.drop_pointer_silent
  |apply onPool_silent, PoolFrame.onProtocol_silent|apply respects_emit; intros; free|free].

Lemma disconnectClient_once e p error message : respects (costs 1) (disconnectClient e p error message).
Proof. unfold disconnectClient. spends cost. Qed.

Lemma write_list_free e id account : respects (costs 0) (write_list e id account).
Proof.
  unfold write_list, write_broadcasts, write_characters, write_broadcast, write_character, pick_port. respects; cost.
Qed.

Lemma delegate_once e p name password clientIp version :
  respects (costs 1) (delegate MD5 SHA1 SHA256 SHA512 e p name password clientIp version).
Proof.
  unfold delegate, addAttempt. spends ltac:(first [cost|apply disconnectClient_once|apply write_list_free]).
Qed.

Lemma onRecvFirstMessage_once e p msg : respects (costs 1) (onRecvFirstMessage rsa e p msg).
Proof.
  unfold onRecvFirstMessage, readLogin, checkClient. spends ltac:(first [cost|apply disconnectClient_once]).
Qed.

End Handlers.

(** ** What a handler of the connection does with it *)

Definition sends (cbs : list callback) : nat :=
  sum_list_with (fun cb => match cb with Callback_send _ => 1 | Callback_close => 0 end)%nat cbs.

Lemma callbacks_cost c out : (sends (callbacks_of c out) + length (posted_of out) <= sum_list_with owed out)%nat.
Proof.
  induction out as [|r out IH]; [done|].
  destruct r as [[k id m|k id|p|p]|k|p nm pw ip v]; unfold callbacks_of, posted_of, sends in *; cbn in *;
    try case_decide; cbn in *; lia.
Qed.

Section Spending.
Context {DB : Type} `{!Database.Server DB}.
Context (rsa : list Z -> option (list Z)) (c : nat).
Abbreviation world := (Session.world (DB := DB)).
Abbreviation cstate := (Connection.state world).
#[local] Hint Extern 0 (ProtocolOps _) => exact (login_ops rsa c) : typeclass_instances.

Definition first (s : cstate) : bool := m_receivedFirst (conn s).
Definition pending (s : cstate) : Z := m_pendingWrite (conn s).
Definition due (s : cstate) : nat := length (posted (Connection.world s)).

(** At most [n] messages are written or delegates posted, ... *)
Record adds (n : nat) (s : cstate) (out : list request) (s' : cstate) : Prop := {
  adds_first : first s' = first s;
  adds_due : (due s' + length (writes_in out) <= due s + n)%nat
}.

(** ... and a connection that was idle is still idle if they were delegates. *)
Record owes (n : nat) (s : cstate) (out : list request) (s' : cstate) : Prop := {
  owes_adds : adds n s out s';
  owes_idle : pending s = 0 -> due s' = (due s + n)%nat -> pending s' = 0
}.

Lemma writes_app o1 o2 : writes_in (o1 ++ o2) = writes_in o1 ++ writes_in o2.
Proof. unfold writes_in. apply omap_app. Qed.

#[export] Instance adds_graded : Graded adds.
Proof.
  split.
  - intros s. split; [done|]. cbn. lia.
  - intros n k s1 o1 s2 o2 s3 [F1 D1] [F2 D2]. split; [congruence|]. rewrite writes_app, length_app. lia.
  - intros n k s out s' Hn [F D]. split; [done|lia].
Qed.

#[export] Instance owes_graded : Graded owes.
Proof.
  split.
  - intros s. by split; [apply (graded_refl (R := adds))|].
  - intros n k s1 o1 s2 o2 s3 [A1 I1] [A2 I2]. split; [by eapply (graded_trans (R := adds))|].
    intros Hp Hd. pose proof (adds_due _ _ _ _ A1). pose proof (adds_due _ _ _ _ A2). apply I2; [apply I1; [done|lia]|lia].
  - intros n k s out s' Hn [A I]. split; [by eapply (graded_le (R := adds))|].
    intros Hp Hd. apply I; [done|]. pose proof (adds_due _ _ _ _ A). lia.
Qed.

Lemma owes_respects_adds {A} n (m : proc cstate request A) : respects (owes n) m -> respects (adds n) m.
Proof. intros Hm s a s' out E. by eapply owes_adds, Hm. Qed.

(** Bookkeeping touches none of it. *)
#[export] Instance owes_minor : Minor (owes 0).
Proof.
  split.
  - intros s cn log (Hp & Hf & _ & Hw). split; [split; [exact Hf|cbn; unfold due; cbn; lia]|].
    unfold pending. cbn. intros H0 _. rewrite H0 in Hw. by destruct Hw as [|[|]].
  - intros s r Hr. split; [split; [done|]|done]. destruct r; try done; cbn; lia.
Qed.

#[export] Instance owes_stopping : Stopping (owes 0).
Proof. intros s _. split; [by split|done]. Qed.

Lemma callWorld_free f : (forall w w', f w = Some w' -> posted w' = posted w) -> respects (owes 0) (callWorld f).
Proof.
  intros Hf s [] s' out E. unfold callWorld in E. autorewrite with proc in E.
  destruct (f (Connection.world s)) as [w|] eqn:Ew; [|done]. autorewrite with proc in E. unfold onWorld in E. injection E as <- <-.
  split; [split; [done|]|done]. unfold due. cbn. rewrite (Hf _ _ Ew). lia.
Qed.

Lemma pool_call_posted {A} (m : proc OutputMessagePool.state OutputMessagePool.request A) (w w' : world) a :
  pool_call m w = Some (a, w') -> posted w' = posted w.
Proof.
  rewrite SessionLaws.pool_call_eq. destruct (m _) as [[[b x] o]|]; [|done]. by intros [= _ <-].
Qed.

Lemma bind_free p b : respects (owes 0) (callWorld (setConnection p b)).
Proof.
  apply callWorld_free. intros w w'. cbn [setConnection login_ops]. destruct (pool_call _ w) as [[u x]|] eqn:E; [|done].
  intros [= <-]. by eapply pool_call_posted.
Qed.
Lemma release_free p : respects (owes 0) (callWorld (releaseProtocol p)).
Proof.
  apply callWorld_free. intros w w'. cbn [releaseProtocol login_ops]. destruct (pool_call _ w) as [[u x]|] eqn:E; [|done].
  intros [= <-]. by eapply pool_call_posted.
Qed.

Lemma setProtocol_free o : respects (owes 0) (update (setProtocol o)).
Proof. apply respects_modify. intros s. split; [split; [done|unfold due; cbn; lia]|done]. Qed.

#[local] Hint Resolve bind_free release_free setProtocol_free : conn.
Lemma closeConnection_free e : respects (owes 0) (closeConnection e).
Proof. unfold closeConnection. bookkeeping. Qed.

(** ** What is sent *)

Lemma internalSend_once e id : respects (owes 1) (internalSend e id).
Proof.
  intros s a s' out E.
  assert (first s' = first s /\ Connection.world s' = Connection.world s /\ (length (writes_in out) <= 1)%nat) as (Hf & Hw & Ho).
  { revert E. unfold internalSend, logged, getHandle, get, update, gets, modify, emit, skip, mret, proc_ret, mbind, proc_bind.
    destruct s as [[m p socket fst we re w r st n time packets] log x]. destruct (fault e), log, socket; cbn; intros [=]; subst; cbn; auto. }
  assert (due s' = due s) as Hd by (unfold due; by rewrite Hw). split; [split; [done|]|]; lia.
Qed.

Lemma encode_free id : respects (owes 0) (encode id).
Proof. apply callWorld_free. by intros w w' [= <-]. Qed.

Lemma send_owes e id : respects (owes 1) (send e id).
Proof. unfold send. spends ltac:(first [apply internalSend_once|apply encode_free|solve [bookkeeping]]). Qed.

Lemma callbacks_owe e cbs : respects (owes (sends cbs)) (for_each (run_callback e) cbs).
Proof.
  induction cbs as [|cb cbs IH]; cbn [for_each]; [apply (respects_ret (owes 0))|].
  replace (sends (cb :: cbs)) with (sends [cb] + sends cbs)%nat by (unfold sends; cbn; lia). apply graded_bind; [apply _| |intros _; exact IH].
  destruct cb; cbn [run_callback]; [apply (close_minor (owes 0))|].
  change (respects (owes 1) (_ ← send e msg; skip)). apply graded_first; [apply _|apply send_owes|]. intros _. bookkeeping.
Qed.

(** The protocol's handlers spend what they ask for. *)
Lemma call_protocol_owes n e f :
  (forall m w cbs m' w', f m w = Some (cbs, m', w') -> (sends cbs + length (posted w') <= length (posted w) + n)%nat) ->
  respects (owes n) (call_protocol e f).
Proof.
  intros Hf s [] s' out E. unfold call_protocol, get, update, onWorld in E. autorewrite with proc in E.
  destruct (f _ _) as [[[cbs m'] w']|] eqn:Ef; [|done]. pose proof (Hf _ _ _ _ _ Ef) as Hc. autorewrite with proc in E.
  pose proof (callbacks_owe e cbs _ _ _ _ E) as [[Hfst Hdue] Hidle]. unfold first, due, pending in *. cbn in *.
  split; [split; [done|unfold due; lia]|]. unfold due, pending. intros Hp Hd. apply Hidle; [done|lia].
Qed.

Lemma first_owes e p : respects (owes 1) (call_protocol e (onRecvFirstMessage p)).
Proof.
  apply call_protocol_owes. intros m w cbs m' w'. cbn [onRecvFirstMessage login_ops]. unfold call.
  destruct (ProtocolLogin.onRecvFirstMessage rsa (handlers w) p m (login w)) as [[[m1 x] out]|] eqn:E; [|done].
  intros [= <- <- <-]. pose proof (onRecvFirstMessage_once rsa _ _ _ _ _ _ _ E) as Hc. unfold within in Hc.
  pose proof (callbacks_cost c out). cbn. rewrite length_app. lia.
Qed.

Lemma next_owes e p : respects (owes 0) (call_protocol e (onRecvMessage p)).
Proof.
  apply call_protocol_owes. intros m w cbs m' w'. cbn [onRecvMessage login_ops].
  destruct (pool_call _ w) as [[pr x]|] eqn:E; [|done]. cbn [mbind option_bind].
  destruct (Protocol.onRecvMessage pr m) as [[ok m1]|]; [|done]. intros [= <- <- <-].
  rewrite (pool_call_posted _ _ _ _ E). cbn. lia.
Qed.

(** The first packet, once it is marked as received. *)
Definition with_first (s : cstate) : cstate := mkState (setReceivedFirst true (conn s)) (m_logError s) (Connection.world s).

Definition greets (s : cstate) (out : list request) (s' : cstate) : Prop := first s = false /\ owes 1 (with_first s) out s'.
Definition packet_owes (s : cstate) (out : list request) (s' : cstate) : Prop := owes 0 s out s' \/ greets s out s'.

Lemma packet_owes_after s1 o1 s2 o2 s3 : owes 0 s1 o1 s2 -> packet_owes s2 o2 s3 -> packet_owes s1 (o1 ++ o2) s3.
Proof.
  intros E1 [E2|[Hf E2]]; [left; by eapply (composes_trans (R := owes 0))|right].
  destruct E1 as [[F D] I]. split; [congruence|].
  apply (graded_trans (R := owes) 0 1 _ _ (with_first s2)); [|done]. split; [split; [done|exact D]|exact I].
Qed.

Lemma make_posted ck m (w : world) p m' w' : makeProtocol ck m w = Some (p, m', w') -> posted w' = posted w.
Proof.
  cbn [makeProtocol login_ops]. unfold make. destruct (Server.ServicePort.makeProtocol ck m port) as [[[pr|] m1]|]; [| |done].
  - cbn [mbind option_bind]. destruct (pool_call _ w) as [[u x]|] eqn:E; [|done]. intros [= _ _ <-]. by eapply pool_call_posted.
  - by intros [= _ _ <-].
Qed.

Lemma firstPacket_free ck s made s' out : firstPacket ck s = Some (made, s', out) -> owes 0 (with_first s) out s'.
Proof.
  unfold firstPacket. intros ([] & s1 & o1 & o2 & E1 & E & ->)%bind_inv. injection E1 as <- <-. cbn [app].
  change (mkState _ _ _) with (with_first s) in E. unfold get in E. autorewrite with proc in E.
  destruct (m_protocol (conn (with_first s))) as [p|].
  { revert E. apply (respects_bind (owes 0)); [bookkeeping|]. intros _. bookkeeping. }
  autorewrite with proc in E. destruct (makeProtocol ck _ _) as [[[p m'] w']|] eqn:Em; [|done].
  apply make_posted in Em. autorewrite with proc in E.
  apply (graded_trans (R := owes) 0 0 _ [] (mkState (setProtocol p (setMsg m' (conn (with_first s)))) (m_logError s) w') o2 s').
  - split; [split; [done|]|done]. unfold due. cbn. change (Connection.world (with_first s)) with (Connection.world s) in Em. rewrite Em. lia.
  - unfold update, onWorld in E. autorewrite with proc in E.
    destruct p as [p|]; [|injection E as <- <- <-; apply (graded_refl (R := owes))].
    revert E. apply (respects_bind (owes 0)); [apply bind_free|]. intros _. bookkeeping.
Qed.

Lemma deliver_owes n e f : (forall p, respects (owes n) (call_protocol e (f p))) -> respects (owes n) (deliver e f).
Proof.
  intros Hf. unfold deliver. apply graded_last; [apply _|bookkeeping|]. intros [p|]; [apply Hf|].
  apply graded_free; [apply _|]. bookkeeping.
Qed.

Lemma parsePacket_owes e error : respects packet_owes (parsePacket e error).
Proof.
  apply (parsePacket_rule (owes 0)); [exact packet_owes_after|by left| |].
  - intros ck s s' out Hf E. right. split; [done|]. apply bind_inv in E as (made & s1 & o1 & o2 & E1%firstPacket_free & E2 & ->).
    apply (graded_trans (R := owes) 0 1 _ _ s1); [done|]. revert E2.
    assert (respects (owes 1) (if negb made then close else _ ← deliver e onRecvFirstMessage; readHeader e)) as Hr; [|intros E2; by eapply Hr].
    destruct made; cbn [negb]; [|apply graded_free; [apply _|bookkeeping]].
    apply graded_first; [apply _|apply deliver_owes, first_owes|]. intros _. bookkeeping.
  - intros s s' out E. left. revert E. apply (respects_bind (owes 0)); [apply deliver_owes, next_owes|]. intros _. bookkeeping.
Qed.

(** A write that completes: only the count of writes changes. *)
Lemma onWrite_adds e error : respects (adds 0) (onWrite e error).
Proof.
  assert (forall (m : proc cstate request unit), respects (owes 0) m -> respects (adds 0) m) as Hfree.
  { intros m. apply owes_respects_adds. }
  unfold onWrite. apply (respects_bind (adds 0)); [apply Hfree; bookkeeping|intros _].
  apply (respects_bind (adds 0)); [apply Hfree; bookkeeping|intros _].
  apply (respects_bind (adds 0)); [apply owes_respects_adds; bookkeeping|intros open].
  apply (respects_bind (adds 0)); [apply owes_respects_adds; bookkeeping|intros writeError].
  case_match; [apply Hfree; bookkeeping|].
  intros s a s' out E. unfold get, update in E. autorewrite with proc in E. injection E as <- <- <-.
  split; [done|unfold due; cbn; lia].
Qed.

End Spending.
(** ** The session *)

Definition is_delegate (x : task) : nat := match x with T_delegate _ => 1 | T_closeConnection => 0 end.

Section Steps.
Context {DB : Type} `{!Database.Server DB}.
Context (MD5 SHA1 SHA256 SHA512 : list Z -> list Z).
Context (rsa : list Z -> option (list Z)) (c : nat).
Abbreviation world := (Session.world (DB := DB)).
Abbreviation sys := (Session.sys (DB := DB)).
#[local] Hint Extern 0 (ProtocolOps _) => exact (login_ops rsa c) : typeclass_instances.
Abbreviation run := (Session.run MD5 SHA1 SHA256 SHA512 rsa c).

Definition delegates (q : list task) : nat := sum_list_with is_delegate q.

(** The answers to come: the first packet's, or that of a delegate in the queue. *)
Definition answers_left (s : sys) : nat := (delegates (queue s) + if m_receivedFirst (connection_of (csys s)) then 0 else 1)%nat.

Record once (s : sys) : Prop := {
  once_left : (answers_left s <= 1)%nat;
  once_idle : answers_left s = 1%nat -> m_pendingWrite (connection_of (csys s)) = 0 /\ writing (csys s) = [];
  once_writing : (length (writing (csys s)) <= 1)%nat
}.

(** What a step may do: nothing is written but the answer. *)
Definition answers (s s' : sys) : Prop :=
  (answers_left s' <= answers_left s)%nat /\
  (writing (csys s') = writing (csys s) \/ writing (csys s') = tail (writing (csys s)) \/
   answers_left s = 1%nat /\ answers_left s' = 0%nat /\ writing (csys s) = [] /\ exists id, writing (csys s') = [id]).

Lemma delegates_app q1 q2 : delegates (q1 ++ q2) = (delegates q1 + delegates q2)%nat.
Proof. apply sum_list_with_app. Qed.
Lemma delegates_map ds : delegates (map T_delegate ds) = length ds.
Proof. induction ds as [|d ds IH]; [done|]. unfold delegates in *. cbn. by rewrite IH. Qed.
Lemma delegates_close n : delegates (replicate n T_closeConnection) = 0%nat.
Proof. induction n as [|n IH]; [done|]. unfold delegates in *. cbn. by rewrite IH. Qed.

Lemma settle_left (cs : Connection.sys world) q :
  answers_left (settle c q cs) = (delegates q + due (st cs) + if first (st cs) then 0 else 1)%nat.
Proof.
  unfold answers_left, settle, due. cbn [queue csys]. cbv zeta.
  by rewrite !delegates_app, delegates_map, delegates_close, Nat.add_0_r.
Qed.

(** A step that spends nothing. *)
Lemma free_once s (x : Connection.state world) (cs : Connection.sys world) q out :
  once s -> first x = m_receivedFirst (connection_of (csys s)) -> pending x = m_pendingWrite (connection_of (csys s)) -> due x = 0%nat ->
  owes 0 x out (st cs) -> (delegates q <= delegates (queue s))%nat ->
  writing cs = writing (csys s) ++ writes_in out -> once (settle c q cs) /\ answers s (settle c q cs).
Proof.
  intros [Hl Hi Hw] Hf Hp Hd [[Hf' Hd'] Hi'] Hq Hwr.
  assert (due (st cs) = 0%nat) as Hd0 by lia. assert (writes_in out = []) as Ho by (apply nil_length_inv; lia).
  rewrite Ho, app_nil_r in Hwr. pose proof (settle_left cs q) as Hs. rewrite Hf', Hf, Hd0 in Hs.
  assert (answers_left (settle c q cs) <= answers_left s)%nat as Hle by (unfold answers_left at 2; lia).
  split; [|split; [exact Hle|left; exact Hwr]]. split; [lia| |by change (length (writing cs) <= 1)%nat; rewrite Hwr].
  intros H1. destruct Hi as [Hi1 Hi2]; [lia|]. split; [|exact (eq_trans Hwr Hi2)].
  change (pending (st cs) = 0). apply Hi'; [congruence|lia].
Qed.

(** A step that spends the answer. *)
Lemma spent_once s (x : Connection.state world) (cs : Connection.sys world) q out :
  once s -> answers_left s = 1%nat -> pending x = m_pendingWrite (connection_of (csys s)) -> due x = 0%nat ->
  owes 1 x out (st cs) -> (delegates q + if first (st cs) then 0 else 1)%nat = 0%nat ->
  writing cs = writing (csys s) ++ writes_in out -> once (settle c q cs) /\ answers s (settle c q cs).
Proof.
  intros [_ Hi _] H1 Hp Hd [[_ Hd'] Hi'] Hq Hwr. destruct (Hi H1) as [Hi1 Hi2]. rewrite Hi2 in Hwr. cbn in Hwr.
  pose proof (settle_left cs q) as Hs.
  assert (answers_left (settle c q cs) = due (st cs)) as Hl by lia.
  assert (length (writing cs) <= 1)%nat as Hlen by (rewrite Hwr; lia).
  split.
  - split; [lia| |exact Hlen]. intros E. rewrite Hl in E. split; [|change (writing cs = []); rewrite Hwr; apply nil_length_inv; lia].
    change (pending (st cs) = 0). apply Hi'; [congruence|lia].
  - split; [lia|]. change (writing (csys (settle c q cs))) with (writing cs). rewrite Hi2.
    destruct (writing cs) as [|id [|]] eqn:E; [by left| |cbn in Hlen; lia]. right. right.
    rewrite <- Hwr in Hd'. cbn in Hd'. split; [done|]. split; [lia|]. by split; [|exists id].
Qed.

Lemma absorb_writes (cs cs' : Connection.sys world) r :
  absorb cs r = Some cs' -> exists out, r = Some (tt, st cs', out) /\ writing cs' = writing cs ++ writes_in out.
Proof. destruct r as [[[[] x] out]|]; [|done]. intros [= <-]. by exists out. Qed.

(** A handler of the connection that spends nothing. *)
Lemma handler_once e s (cs cs' : Connection.sys world) (m : proc (Connection.state world) request unit) q :
  once s -> respects (owes 0) m -> writing cs = writing (csys s) -> (delegates q <= delegates (queue s))%nat ->
  absorb cs (m (st (prepare e (csys s)))) = Some cs' -> once (settle c q cs') /\ answers s (settle c q cs').
Proof.
  intros Ho Hm Hwr Hq (out & E & Hw)%absorb_writes. apply Hm in E. rewrite Hwr in Hw.
  by apply (free_once s (st (prepare e (csys s))) cs' q out).
Qed.

Lemma packet_once e s (cs cs' : Connection.sys world) m :
  once s -> respects packet_owes m -> writing cs = writing (csys s) ->
  absorb cs (m (st (prepare e (csys s)))) = Some cs' -> once (settle c (queue s) cs') /\ answers s (settle c (queue s) cs').
Proof.
  intros Ho Hm Hwr (out & E & Hw)%absorb_writes. rewrite Hwr in Hw.
  apply Hm in E as [E|[Hf E]]; [by apply (free_once s (st (prepare e (csys s))) cs' (queue s) out)|].
  assert (m_receivedFirst (connection_of (csys s)) = false) as Hf0 by exact Hf.
  assert (delegates (queue s) = 0%nat) as Hq.
  { pose proof (once_left _ Ho) as Hl. unfold answers_left in Hl. rewrite Hf0 in Hl. lia. }
  apply (spent_once s (with_first (st (prepare e (csys s)))) cs' (queue s) out); try done.
  - unfold answers_left. by rewrite Hq, Hf0.
  - rewrite Hq, (adds_first _ _ _ _ (owes_adds _ _ _ _ E)). done.
Qed.

Lemma written_once e error s s' :
  once s -> writing (csys s) <> [] -> run e (Net (EvWritten error)) s = Some s' -> once s' /\ answers s s'.
Proof.
  intros Ho Hne E. cbn [Session.run Connection.run] in E.
  destruct (absorb _ _) as [cs|] eqn:Ea; [|done]. injection E as <-. apply absorb_writes in Ea as (out & E & Hw).
  apply onWrite_adds in E as [Hf Hd]. cbn in Hw.
  assert (answers_left s = 0%nat) as H0.
  { pose proof (once_left _ Ho). destruct (decide (answers_left s = 0)%nat) as [|Hn]; [done|].
    destruct (once_idle _ Ho) as [_ ?]; [lia|done]. }
  assert (writes_in out = []) as Hnil by (apply nil_length_inv; unfold due in Hd; cbn in Hd; lia).
  rewrite Hnil, app_nil_r in Hw. pose proof (settle_left cs (queue s)) as Hs. pose proof H0 as H1. unfold answers_left in H1.
  assert (answers_left (settle c (queue s) cs) = 0%nat) as Hl.
  { assert (due (st (prepare e (csys s))) = 0%nat) as Hd0 by done. rewrite Hd0 in Hd.
    change (first (st (prepare e (csys s)))) with (m_receivedFirst (connection_of (csys s))) in Hf. rewrite Hs, Hf. lia. }
  assert (writing (csys (settle c (queue s) cs)) = tail (writing (csys s))) as Hw' by exact Hw.
  split; [|split; [lia|by right; left]]. split; [lia|lia|]. rewrite Hw'.
  pose proof (once_writing _ Ho). destruct (writing (csys s)); cbn in *; lia.
Qed.

Lemma net_once e ev s s' :
  once s -> external ev = true -> enabled ev (csys s) = true -> run e (Net ev) s = Some s' -> once s' /\ answers s s'.
Proof.
  intros Ho Hex Hen E. destruct ev; try discriminate Hex.
  6: { apply (written_once e error); [done| |done]. cbn in Hen. apply andb_true_iff in Hen as [_ Hen].
       by apply negb_true_iff, bool_decide_eq_false in Hen. }
  all: cbn [Session.run Connection.run] in E; destruct (absorb _ _) as [cs|] eqn:Ea; [|done]; injection E as <-.
  5: { apply (packet_once e s _ _ (_ ← fill NETWORK_HEADER_SIZE bytes; parsePacket (net e) error) Ho) in Ea; try done.
       apply (packet_after (owes 0)); [exact (packet_owes_after)|bookkeeping|intros _; apply parsePacket_owes]. }
  - apply (handler_once e s _ _ close (queue s) Ho) in Ea; try done. bookkeeping.
  - apply (handler_once e s _ _ (releaseConnection (net e)) (queue s) Ho) in Ea; try done. bookkeeping.
  - apply (handler_once e s _ _ onStop (queue s) Ho) in Ea; try done. bookkeeping.
  - apply (handler_once e s _ _ (_ ← fill 0 bytes; parseHeader (net e) error) (queue s) Ho) in Ea; try done.
    bookkeeping.
  - apply (handler_once e s _ _ (handleReadTimeout (net e) false error) (queue s) Ho) in Ea; try done. bookkeeping.
  - apply (handler_once e s _ _ (handleWriteTimeout (net e) false error) (queue s) Ho) in Ea; try done. bookkeeping.
Qed.

(** A step of the world alone. *)
Lemma world_once e s w :
  once s -> posted w = [] ->
  let s' := settle c (queue s) (on_world (fun _ => w) (prepare e (csys s))) in once s' /\ answers s s'.
Proof.
  intros Ho Hp. apply (free_once s (st (prepare e (csys s))) _ (queue s) []); try done; [|by rewrite app_nil_r].
  split; [split; [done|unfold due; cbn; rewrite Hp; cbn; lia]|done].
Qed.

Lemma pool_once e s m s' w :
  once s -> posted w = [] -> pool_step c m (queue s) (on_world (fun _ => w) (prepare e (csys s))) = Some s' ->
  once s' /\ answers s s'.
Proof.
  intros Ho Hp. unfold pool_step. destruct (pool_call m _) as [[[] w']|] eqn:E; [|done]. intros [= <-].
  apply pool_call_posted in E. cbn in E. apply (world_once e s w' Ho). congruence.
Qed.

Lemma dispatch_once e s s' : once s -> run e Dispatch s = Some s' -> once s' /\ answers s s'.
Proof.
  intros Ho E. cbn [Session.run] in E. destruct (queue s) as [|[d|] q] eqn:Hq; [done| |].
  - destruct (call _ _) as [[[[] w] out]|] eqn:Ec; [|done]. cbn [mbind option_bind] in E.
    destruct (absorb _ _) as [cs|] eqn:Ea; [|done]. injection E as <-. apply absorb_writes in Ea as (o & E & Hw).
    unfold call in Ec. destruct (ProtocolLogin.delegate _ _ _ _ _ _ _ _ _ _ _) as [[[[] x] o1]|] eqn:Ed; [|done].
    injection Ec as <- <-. pose proof (delegate_once MD5 SHA1 SHA256 SHA512 _ _ _ _ _ _ _ _ _ _ Ed) as Hc. unfold within in Hc.
    pose proof (callbacks_cost c o1) as Hcost. pose proof (callbacks_owe rsa c _ _ _ _ _ _ E) as Howe.
    assert (answers_left s = 1%nat /\ delegates q = 0%nat /\ m_receivedFirst (connection_of (csys s)) = true) as (H1 & H2 & H3).
    { pose proof (once_left _ Ho) as Hl. unfold answers_left, delegates in *. rewrite Hq in Hl |- *.
      cbn [sum_list_with is_delegate] in *. destruct (m_receivedFirst _); [|lia]. split_and!; [lia|lia|done]. }
    apply (spent_once s (st (prepare e (csys s))) cs q o); try done.
    + eapply (graded_le (R := owes)); [|refine (graded_trans (R := owes) (length (posted_of o1)) _ _ [] _ _ _ _ Howe)]; [lia|].
      split; [split; [done|unfold due; cbn; lia]|done].
    + rewrite H2, (adds_first _ _ _ _ (owes_adds _ _ _ _ Howe)). unfold first. cbn. fold (connection_of (csys s)). by rewrite H3.
  - cbn [Connection.run] in E. destruct (absorb _ _) as [cs|] eqn:Ea; [|done]. injection E as <-.
    apply (handler_once e s _ _ (closeConnection (net e)) q Ho) in Ea; try done; [apply closeConnection_free|].
    rewrite Hq. unfold delegates. cbn. lia.
Qed.

Lemma run_once e ev s s' : once s -> allowed c ev s -> run e ev s = Some s' -> once s' /\ answers s s'.
Proof.
  intros Ho Ha E. destruct ev as [ev| |id|id|p|x]; cbn [allowed] in Ha.
  - destruct Ha. by apply (net_once e ev).
  - by apply (dispatch_once e).
  - cbn [Session.run] in E. by apply (pool_once e _ _ _ (Connection.world (st (prepare e (csys s))))) in E.
  - cbn [Session.run] in E. by apply (pool_once e _ _ _ (Connection.world (st (prepare e (csys s))))) in E.
  - cbn [Session.run] in E. unfold on_world in E. by apply (pool_once e _ _ _ (mkWorld _ _ _ _)) in E.
  - injection E as <-. by apply (world_once e s (mkWorld _ x _ _)).
Qed.

Lemma start_once e memory time log x s : start c e memory time log x = Some s -> once s.
Proof.
  unfold start. destruct (absorb _ _) as [cs|] eqn:Ea; [|done]. intros [= <-]. apply absorb_writes in Ea as (out & E & Hw).
  apply (readHeader_minor (owes 0)) in E as [[Hf Hd] Hi]. cbn in Hw.
  assert (writes_in out = []) as Hnil by (apply nil_length_inv; unfold due in Hd; cbn in Hd; lia).
  rewrite Hnil in Hw. assert (due (st cs) = 0%nat) as Hd0 by (unfold due in *; cbn in *; lia).
  pose proof (settle_left cs []) as Hl. rewrite Hf, Hd0 in Hl.
  change (answers_left (settle c [] cs) = 1%nat) in Hl. split; [by rewrite Hl| |change (length (writing cs) <= 1)%nat; rewrite Hw; cbn; lia].
  intros _. split; [|exact Hw]. apply Hi; [done|]. rewrite Hd0. done.
Qed.

Lemma reachable_once s : Session.reachable MD5 SHA1 SHA256 SHA512 rsa c s -> once s.
Proof.
  induction 1 as [e memory time log x s Hm Hmb Ht He Hb Hio Hc E|e ev s s' _ IH He Ha Hfew E].
  - by eapply start_once.
  - by apply (run_once e ev s s' IH Ha) in E as [].
Qed.

End Steps.
End SessionOnce.
