(* ===== verification/SessionGuard.v ===== *)
(** * What a session spares the others

    A step of a session changes the protocols of its own connection and makes new ones; the
    protocols the other clients have keep their connection and their key, and nobody's
    connection is forgotten. *)
From S2P Require Import Prelude Proc CString Definitions NetMessage OutMessage Proto Pool PoolFrame PoolLaws PoolSend Conn ConnFrame ConnLife Db Accounts Login LoginFrame Server Session SessionLaws.

Module SessionGuard.
Import PoolFrame Session Connection ConnFrame SessionLaws.

(** ** The pool *)

Section PoolTouches.
Import OutputMessagePool.

(** Only the protocol [p] is changed, or put off. *)
Record touches_pool (p : nat) (x : state) (out : list request) (x' : state) : Prop := {
  touched_face q : q <> p -> aspect face x' q = aspect face x q;
  touched_connection k : is_Some (connections x' !! k) <-> is_Some (connections x !! k);
  touched_later q : q ∈ rescheduled out -> q = p
}.

Lemma rescheduled_app o1 o2 : rescheduled (o1 ++ o2) = rescheduled o1 ++ rescheduled o2.
Proof. unfold rescheduled, releases_of. by rewrite map_app, omap_app. Qed.

#[export] Instance touches_pool_composes p : Composes (touches_pool p).
Proof.
  split; [split; [done|done|]; intros q Hq; by apply elem_of_nil in Hq|].
  intros x1 o1 x2 o2 x3 [F1 C1 L1] [F2 C2 L2]. split; [intros q Hq; by rewrite F2, F1|intros k; by rewrite C2, C1|].
  intros q. rewrite rescheduled_app, elem_of_app. naive_solver.
Qed.

Lemma steady_touches {A} p (m : proc state request A) : respects (steady face) m -> silent m -> respects (touches_pool p) m.
Proof.
  intros Hs Hn x a x' out E. pose proof (Hn _ _ _ _ E) as Ho. unfold nothing in Ho. subst out.
  destruct (Hs _ _ _ _ E) as [Hf Hc]. split; [auto|done|]. intros q Hq. by apply elem_of_nil in Hq.
Qed.

Lemma onProtocol_touches p g : respects (touches_pool p) (onProtocol p g).
Proof.
  intros x [] x' out E. unfold onProtocol, protocol in E. autorewrite with proc in E.
  destruct (protocols x !! p) as [pr|]; [|done]. autorewrite with proc in E. injection E as <- <-.
  split; [|done|intros q Hq; by apply elem_of_nil in Hq]. intros q Hq. unfold aspect. cbn. by rewrite lookup_insert_ne.
Qed.

Lemma releaseProtocol_touches p : respects (touches_pool p) (releaseProtocol p).
Proof.
  unfold releaseProtocol. apply respects_bind; [apply _|apply steady_touches; [apply protocol_steady|apply protocol_silent]|intros pr].
  destruct (Protocol.releaseProtocol pr) as [[] pr'].
  - apply respects_emit. intros x. split; [done|done|]. intros q Hq. by apply list_elem_of_singleton in Hq.
  - apply respects_bind; [apply _| |intros _].
    + apply respects_modify. intros x. split; [|done|intros q Hq; by apply elem_of_nil in Hq].
      intros q Hq. unfold aspect. cbn. by rewrite lookup_delete_ne.
    + apply respects_bind; [apply _| |intros _].
      * destruct (Protocol.m_outputBuffer pr); [|respects]. apply steady_touches; [apply settle_steady|].
        unfold settle, releaseMessage. respects.
      * apply respects_emit. intros x. split; [done|done|intros q Hq; by apply elem_of_nil in Hq].
Qed.

End PoolTouches.

(** ** The login protocol's handlers *)

Section LoginTouches.
Context {DB : Type} `{!Database.Server DB}.
Context (MD5 SHA1 SHA256 SHA512 : list Z -> list Z) (rsa : list Z -> option (list Z)).
Abbreviation lstate := (ProtocolLogin.state (DB := DB)).
Import ProtocolLogin.

(** They put nothing off. *)
Record touches_login (p : nat) (s : lstate) (out : list ProtocolLogin.request) (s' : lstate) : Prop := {
  login_touched : touches_pool p (pool s) [] (pool s');
  login_later : releases_of out = []
}.

#[export] Instance touches_login_composes p : Composes (touches_login p).
Proof.
  split; [split; [apply (composes_refl (R := touches_pool p))|done]|].
  intros s1 o1 s2 o2 s3 [T1 L1] [T2 L2]. split.
  - exact (composes_trans (R := touches_pool p) _ _ _ _ _ T1 T2).
  - unfold releases_of in *. by rewrite omap_app, L1, L2.
Qed.

Lemma onPool_touches {A} p (m : proc OutputMessagePool.state OutputMessagePool.request A) :
  (forall x a x' out, m x = Some (a, x', out) -> touches_pool p x [] x' /\ rescheduled out = []) -> respects (touches_login p) (onPool m).
Proof.
  intros Hm s a s' out. unfold onPool. destruct (m (pool s)) as [[[b x] o]|] eqn:E; [|done].
  intros [= <- <- <-]. by destruct (Hm _ _ _ _ E).
Qed.

Lemma silent_touches {A} p (m : proc OutputMessagePool.state OutputMessagePool.request A) :
  respects (touches_pool p) m -> silent m -> respects (touches_login p) (onPool m).
Proof.
  intros Hm Hs. apply onPool_touches. intros x a x' out E. pose proof (Hm _ _ _ _ E). pose proof (Hs _ _ _ _ E) as Ho.
  unfold nothing in Ho. by subst out.
Qed.

Lemma send_touches p how id : respects (touches_login p) (onPool (OutputMessagePool.send how id)).
Proof.
  apply onPool_touches. intros x a x' out E. destruct (send_steady face how id _ _ _ _ E) as [Hf Hc].
  split; [split; [auto|done|intros q Hq; by apply elem_of_nil in Hq]|].
  set (R := fun (_ : OutputMessagePool.state) (out : list OutputMessagePool.request) (_ : OutputMessagePool.state) => rescheduled out = []).
  assert (Composes R) as HR. { split; [done|]. unfold R. intros ? o1 ? o2 ? H1 H2. by rewrite rescheduled_app, H1, H2. }
  assert (respects R (OutputMessagePool.send how id)) as Hr; [|by eapply Hr].
  unfold OutputMessagePool.send, OutputMessagePool.sendTo, OutputMessagePool.connection_send, OutputMessagePool.autoSend,
    OutputMessagePool.hold, OutputMessagePool.onSendMessage, OutputMessagePool.message, OutputMessagePool.protocol.
  respects; first [done|by apply respects_emit].
Qed.

Lemma onIO_touches {A} p (m : proc (IO.t DB) Empty_set A) : respects (touches_login p) (onIO m).
Proof.
  intros s a s' out. unfold onIO. destruct (m (io s)) as [[[b x] o]|]; [|done].
  intros [= <- <- <-]. split; [apply (composes_refl (R := touches_pool p))|done].
Qed.

Lemma emit_touches p r : releases_of [r] = [] -> respects (touches_login p) (emit r).
Proof. intros Hr. apply respects_emit. intros s. split; [apply (composes_refl (R := touches_pool p))|done]. Qed.

Lemma getConnection_touches p q : respects (touches_login p) (getConnection q).
Proof. unfold getConnection. respects. apply silent_touches; [apply steady_touches; [apply protocol_steady|]|]; apply protocol_silent. Qed.

Lemma close_touches p q : respects (touches_login p) (close q).
Proof. unfold close. respects; [apply getConnection_touches|by apply emit_touches]. Qed.

Lemma write_touches p id fs : respects (touches_login p) (write id fs).
Proof.
  unfold write. apply silent_touches; [apply steady_touches|].
  - respects; [apply message_steady|apply onMessage_steady].
  - respects; [apply message_silent|apply onMessage_silent].
  - respects; [apply message_silent|apply onMessage_silent].
Qed.

Lemma take_touches p q memory auto : respects (touches_login p) (onPool (OutputMessagePool.getOutputMessage memory q auto)).
Proof. apply silent_touches; [apply steady_touches; [apply getOutputMessage_steady, _|]|]; apply getOutputMessage_silent. Qed.

Lemma drop_touches p id : respects (touches_login p) (onPool (OutputMessagePool.drop_pointer id)).
Proof. apply silent_touches; [apply steady_touches; [apply drop_pointer_steady|]|]; apply drop_pointer_silent. Qed.

Lemma own_touches p g : respects (touches_login p) (onPool (OutputMessagePool.onProtocol p g)).
Proof. apply silent_touches; [apply onProtocol_touches|apply onProtocol_silent]. Qed.

Ltac touch := respects; first [apply take_touches|apply write_touches|apply send_touches|apply drop_touches|apply own_touches
  |apply close_touches|apply getConnection_touches|apply onIO_touches
  |by apply emit_touches|by split; [apply (composes_refl (R := touches_pool _))|]|idtac].

Lemma disconnectClient_touches p e q error message : respects (touches_login p) (disconnectClient e q error message).
Proof. unfold disconnectClient. touch. Qed.

Lemma delegate_touches p e q name password clientIp version :
  respects (touches_login p) (delegate MD5 SHA1 SHA256 SHA512 e q name password clientIp version).
Proof.
  unfold delegate, addAttempt, write_list, write_broadcasts, write_characters, write_broadcast, write_character, pick_port.
  touch; apply disconnectClient_touches.
Qed.

Lemma onRecvFirstMessage_touches e p msg : respects (touches_login p) (onRecvFirstMessage rsa e p msg).
Proof. unfold onRecvFirstMessage, readLogin, checkClient. touch; apply disconnectClient_touches. Qed.

End LoginTouches.

(** ** The connection *)

Section Guard.
Context {DB : Type} `{!Database.Server DB}.
Context (rsa : list Z -> option (list Z)) (c : nat).
Abbreviation world := (Session.world (DB := DB)).
Abbreviation cstate := (Connection.state world).
Abbreviation lpool w := (ProtocolLogin.pool (login w)).
#[local] Hint Extern 0 (ProtocolOps _) => exact (login_ops rsa c) : typeclass_instances.

Definition mine (s : cstate) (p : nat) : Prop := m_protocol (conn s) = Some p \/ p ∈ releases (Connection.world s).

Record spares (s : cstate) (out : list request) (s' : cstate) : Prop := {
  spares_face p : is_Some (aspect face (lpool (Connection.world s)) p) -> ~ mine s p ->
    aspect face (lpool (Connection.world s')) p = aspect face (lpool (Connection.world s)) p;
  spares_connection k : is_Some (OutputMessagePool.connections (lpool (Connection.world s')) !! k) <->
    is_Some (OutputMessagePool.connections (lpool (Connection.world s)) !! k);
  spares_mine p : mine s' p -> mine s p \/ aspect face (lpool (Connection.world s)) p = None
}.

Lemma mine_dec s p : mine s p \/ ~ mine s p.
Proof. unfold mine. destruct (decide (m_protocol (conn s) = Some p)), (decide (p ∈ releases (Connection.world s))); tauto. Qed.

#[export] Instance spares_composes : Composes spares.
Proof.
  split; [split; [done|done|by left]|]. intros s1 o1 s2 o2 s3 [F1 C1 M1] [F2 C2 M2]. split.
  - intros p He Hm. rewrite <- F1 by done. apply F2; [by rewrite F1|]. intros [?|Hn]%M1; [done|]. rewrite Hn in He. by destruct He.
  - intros k. by rewrite C2, C1.
  - intros p [Hp|Hn]%M2; [by apply M1|]. destruct (mine_dec s1 p) as [|Hm]; [by left|].
    destruct (aspect face (lpool (Connection.world s1)) p) as [f|] eqn:E; [|by right].
    rewrite F1 in Hn by (try done; by eexists). congruence.
Qed.

(** The connection's own business. *)
Lemma spares_conn s cn log out :
  (forall p, m_protocol cn = Some p -> mine s p) -> spares s out (mkState cn log (Connection.world s)).
Proof. intros Hp. split; [done|done|]. intros p [?|?]; left; [by apply Hp|by right]. Qed.

#[export] Instance spares_minor : Minor spares.
Proof.
  split; [intros s cn log (Hp & _)|intros s r _].
  - apply spares_conn. intros p Hpr. left. cbn in Hp. congruence.
  - by split; [| |left].
Qed.

#[export] Instance spares_stopping : Stopping spares.
Proof. intros s _. apply spares_conn. intros p Hp. by left. Qed.

(** One of its protocols. *)
Record touches (p : nat) (s : cstate) (out : list request) (s' : cstate) : Prop := {
  touches_face q : q <> p -> aspect face (lpool (Connection.world s')) q = aspect face (lpool (Connection.world s)) q;
  touches_connection k : is_Some (OutputMessagePool.connections (lpool (Connection.world s')) !! k) <->
    is_Some (OutputMessagePool.connections (lpool (Connection.world s)) !! k);
  touches_protocol : m_protocol (conn s') = m_protocol (conn s);
  touches_later q : q ∈ releases (Connection.world s') -> q ∈ releases (Connection.world s) \/ q = p
}.

Lemma touches_spares p s out s' : mine s p -> touches p s out s' -> spares s out s'.
Proof.
  intros Hm [F C P L]. split.
  - intros q _ Hq. apply F. by intros ->.
  - exact C.
  - intros q [Hq|[Hq| ->]%L]; left; [left; congruence|by right|done].
Qed.

Lemma callWorld_touches p f :
  (forall w w', f w = Some w' -> exists out, touches_pool p (lpool w) out (lpool w') /\ releases w' = releases w ++ rescheduled out) ->
  respects (touches p) (callWorld f).
Proof.
  intros Hf s [] s' out E. unfold callWorld in E. autorewrite with proc in E.
  destruct (f (Connection.world s)) as [w|] eqn:Ew; [|done]. autorewrite with proc in E. unfold onWorld in E. injection E as <- <-.
  destruct (Hf _ _ Ew) as (o & [F C L] & Hr). split; [exact F|exact C|done|]. intros q. cbn. rewrite Hr, elem_of_app. naive_solver.
Qed.

Lemma pool_call_touches p (m : proc OutputMessagePool.state OutputMessagePool.request unit) (w w' : world) :
  respects (touches_pool p) m -> ('(_, w) ← pool_call m w; Some w) = Some w' ->
  exists out, touches_pool p (lpool w) out (lpool w') /\ releases w' = releases w ++ rescheduled out.
Proof.
  intros Hm. rewrite pool_call_eq. destruct (m (lpool w)) as [[[[] x] out]|] eqn:E; [|done]. cbn. intros [= <-].
  exists out. split; [by eapply Hm|done].
Qed.

Lemma bind_touches p b : respects (touches p) (callWorld (setConnection p b)).
Proof. apply callWorld_touches. intros w w'. apply pool_call_touches, onProtocol_touches. Qed.
Lemma release_touches p : respects (touches p) (callWorld (releaseProtocol p)).
Proof. apply callWorld_touches. intros w w'. apply pool_call_touches, releaseProtocol_touches. Qed.

Lemma spares_update f : (forall cn p, m_protocol (f cn) = Some p -> m_protocol cn = Some p) -> respects spares (update f).
Proof. intros Hf. apply respects_modify. intros s. apply spares_conn. intros p Hp. left. by apply Hf. Qed.

Lemma spares_emit r : respects spares (emit r).
Proof. apply respects_emit. intros s. by split; [| |left]. Qed.

#[local] Hint Resolve spares_emit : conn.
#[local] Hint Extern 1 (respects _ (update _)) => apply spares_update; intros ? ?; cbn; first [done|by intros [=]] : conn.

(** The closure lets go of the connection's protocol. *)
Lemma closeConnection_spares e : respects spares (closeConnection e).
Proof.
  unfold closeConnection. apply respects_bind; [apply _|bookkeeping|intros requested]. case_match; [bookkeeping|].
  intros s [] s' out (o & s0 & o1 & o2 & E0 & E & ->)%bind_inv. injection E0 as <- <- <-. cbn [app].
  assert (respects spares (_ ← update (setState CONNECTION_STATE_CLOSING); pendingWrite ← get m_pendingWrite; writeError ← get m_writeError;
    if (pendingWrite =? 0) || writeError then _ ← closeSocket e; _ ← releaseConnection e; update (setState CONNECTION_STATE_CLOSED) else skip))
    as Hrest by bookkeeping.
  apply bind_inv in E as ([] & s1 & o1 & o0 & E1 & E2 & ->). eapply (composes_trans (R := spares)); [|by eapply Hrest]. clear E2 Hrest.
  destruct (m_protocol (conn s)) as [p|] eqn:Hp; [|revert E1; assert (respects spares skip) as Hs by bookkeeping; apply Hs].
  apply bind_inv in E1 as ([] & s2 & o3 & o4 & E2 & E1 & ->). apply bind_touches in E2.
  apply bind_inv in E1 as ([] & s3 & o5 & o6 & E3 & E1 & ->). apply release_touches in E3.
  assert (mine s p) as Hm by by left.
  assert (mine s2 p) as Hm2 by (left; by rewrite (touches_protocol _ _ _ _ E2)).
  eapply (composes_trans (R := spares)); [by eapply touches_spares|].
  eapply (composes_trans (R := spares)); [by eapply touches_spares|].
  assert (respects spares (update (setProtocol None))) as Hu by bookkeeping. by eapply Hu.
Qed.

(** ** The calls of the protocol *)

Lemma send_spares e id : respects spares (send e id).
Proof.
  assert (respects spares (encode id)) as Hc.
  { intros s [] s' out E. unfold encode, callWorld in E. autorewrite with proc in E. cbn in E. injection E as <- <-.
    by split; [| |left]. }
  unfold send, internalSend. bookkeeping.
Qed.

Lemma callbacks_spare e cbs : respects spares (for_each (run_callback e) cbs).
Proof.
  respects. destruct x; cbn [run_callback]; [bookkeeping|]. apply respects_bind; [apply _|apply send_spares|intros _; bookkeeping].
Qed.

(** What a handler does to the world: its protocol's business. *)
Definition handles (p : nat) (f : NetworkMessage.t -> world -> option (list callback * NetworkMessage.t * world)) : Prop :=
  forall m w cbs m' w', f m w = Some (cbs, m', w') -> touches_pool p (lpool w) [] (lpool w') /\ releases w' = releases w.

Lemma call_protocol_spares e p f s s' out :
  handles p f -> mine s p -> call_protocol e f s = Some (tt, s', out) -> spares s out s'.
Proof.
  intros Hf Hm E. unfold call_protocol, get, update, onWorld in E. autorewrite with proc in E.
  destruct (f _ _) as [[[cbs m'] w']|] eqn:Ef; [|done]. destruct (Hf _ _ _ _ _ Ef) as [[F C _] Hr]. autorewrite with proc in E.
  apply callbacks_spare in E. cbn in E.
  apply (composes_trans (R := spares) s [] (mkState (setMsg m' (conn s)) (m_logError s) w') out s'); [|done].
  apply (touches_spares p); [done|]. split; [exact F|exact C|done|]. intros q. cbn. rewrite Hr. by left.
Qed.

Lemma first_handles p : handles p (onRecvFirstMessage p).
Proof.
  intros m w cbs m' w'. cbn [onRecvFirstMessage login_ops]. unfold call.
  destruct (ProtocolLogin.onRecvFirstMessage rsa (handlers w) p m (login w)) as [[[m1 x] out]|] eqn:E; [|done].
  intros [= <- <- <-]. apply onRecvFirstMessage_touches in E as [T L]. split; [exact T|]. cbn. by rewrite L, app_nil_r.
Qed.

Lemma next_handles p : handles p (onRecvMessage p).
Proof.
  intros m w cbs m' w'. cbn [onRecvMessage login_ops]. rewrite pool_call_eq.
  destruct (OutputMessagePool.protocol p _) as [[[pr x] out]|] eqn:E; [|done]. apply PoolSend.protocol_inv in E as [-> ->]. cbn [mbind option_bind].
  destruct (Protocol.onRecvMessage pr m) as [[ok m1]|]; [|done]. intros [= <- <- <-]. cbn. rewrite app_nil_r.
  split; [apply (composes_refl (R := touches_pool p))|done].
Qed.

Lemma deliver_spares e f : (forall p, handles p (f p)) -> respects spares (deliver e f).
Proof.
  intros Hf s [] s' out E. unfold deliver, get in E. rewrite bind_gets in E.
  destruct (m_protocol (conn s)) as [p|] eqn:Hp; [|done]. apply (call_protocol_spares e p (f p)); [apply Hf|by left|exact E].
Qed.

(** The new protocol is nobody's. *)
Lemma make_spares ck m (w : world) p m' w' :
  makeProtocol ck m w = Some (p, m', w') ->
  (forall q, is_Some (aspect face (lpool w) q) -> aspect face (lpool w') q = aspect face (lpool w) q) /\
  OutputMessagePool.connections (lpool w') = OutputMessagePool.connections (lpool w) /\ releases w' = releases w /\
  (forall q, p = Some q -> aspect face (lpool w) q = None).
Proof.
  cbn [makeProtocol login_ops]. unfold make. destruct (Server.ServicePort.makeProtocol ck m port) as [[[pr|] m1]|]; [| |done].
  - cbn [mbind option_bind]. rewrite pool_call_eq. cbn. intros [= <- _ <-]. cbn. rewrite app_nil_r.
    set (q := base.fresh _). assert (OutputMessagePool.protocols (lpool w) !! q = None) as Hq.
    { apply not_elem_of_dom, is_fresh. }
    split_and!; try done.
    + intros k [f Hk]. unfold aspect in *. cbn. destruct (decide (k = q)) as [->|]; [by rewrite Hq in Hk|by rewrite lookup_insert_ne].
    + intros k [= <-]. unfold aspect. by rewrite Hq.
  - intros [= <- _ <-]. by split_and!.
Qed.

Lemma firstPacket_spares ck : respects spares (firstPacket ck).
Proof.
  intros s made s' out E. unfold firstPacket in E. apply bind_inv in E as ([] & s1 & o1 & o2 & E1 & E & ->).
  assert (respects spares (update (setReceivedFirst true))) as Hu by bookkeeping. apply Hu in E1.
  eapply (composes_trans (R := spares)); [exact E1|]. clear E1 Hu. unfold get in E. autorewrite with proc in E.
  destruct (m_protocol (conn s1)) as [p|].
  { assert (respects spares (_ ← update (setMsg (NetworkMessage.skip 1 (m_msg (conn s1)))); mret true)) as Hr by bookkeeping. by eapply Hr. }
  autorewrite with proc in E. destruct (makeProtocol ck _ _) as [[[p m'] w']|] eqn:Em; [|done].
  apply make_spares in Em as (Hface & Hconn & Hrel & Hnew). autorewrite with proc in E.
  set (s2 := mkState (setProtocol p (setMsg m' (conn s1))) (m_logError s1) w').
  assert (spares s1 [] s2) as H12.
  { split; [intros q Hq _; by apply Hface|intros k; cbn; by rewrite Hconn|].
    intros q [Hq|Hq]; [right; by apply Hnew|left; right]. cbn in Hq. by rewrite Hrel in Hq. }
  unfold update, onWorld in E. autorewrite with proc in E.
  apply (composes_trans (R := spares) s1 [] s2 o2 s'); [exact H12|].
  destruct p as [p|]; [|injection E as _ <- <-; apply (composes_refl (R := spares))].
  apply bind_inv in E as ([] & s3 & o3 & o4 & E3%bind_touches & E & ->). injection E as _ <- <-. rewrite app_nil_r.
  by apply (touches_spares p); [left|].
Qed.

Lemma parsePacket_spares e error : respects spares (parsePacket e error).
Proof.
  apply (parsePacket_rule spares); [apply composes_trans|done| |].
  - intros ck s s' out _ E. revert E. apply (respects_bind spares); [apply firstPacket_spares|]. intros made.
    case_match; [bookkeeping|]. apply (respects_bind spares); [apply deliver_spares, first_handles|intros _; bookkeeping].
  - intros s s' out E. revert E. apply (respects_bind spares); [apply deliver_spares, next_handles|intros _; bookkeeping].
Qed.

Lemma onWrite_spares e error : respects spares (onWrite e error).
Proof. unfold onWrite. bookkeeping. Qed.

End Guard.
(** ** The session *)

Section Steps.
Context {DB : Type} `{!Database.Server DB}.
Context (MD5 SHA1 SHA256 SHA512 : list Z -> list Z).
Context (rsa : list Z -> option (list Z)) (c : nat).
Abbreviation world := (Session.world (DB := DB)).
Abbreviation sys := (Session.sys (DB := DB)).
#[local] Hint Extern 0 (ProtocolOps _) => exact (login_ops rsa c) : typeclass_instances.
Abbreviation run := (Session.run MD5 SHA1 SHA256 SHA512 rsa c).

Record spared (s s' : sys) : Prop := {
  spared_face p : is_Some (aspect face (pool_of s) p) -> ~ own s p -> aspect face (pool_of s') p = aspect face (pool_of s) p;
  spared_connection k : is_Some (OutputMessagePool.connections (pool_of s') !! k) <-> is_Some (OutputMessagePool.connections (pool_of s) !! k);
  spared_own p : own s' p -> own s p \/ aspect face (pool_of s) p = None
}.

Lemma settle_spared e s (cs : Connection.sys world) q out :
  spares (st (prepare e (csys s))) out (st cs) -> spared s (settle c q cs).
Proof. by intros [F C M]. Qed.

Lemma handler_spared e s (cs cs' : Connection.sys world) (m : proc (Connection.state world) request unit) q :
  respects spares m -> absorb cs (m (st (prepare e (csys s)))) = Some cs' -> spared s (settle c q cs').
Proof.
  intros Hm. destruct (m _) as [[[[] x] out]|] eqn:E; [|done]. intros [= <-]. apply Hm in E. by apply (settle_spared e s _ q out).
Qed.

Lemma pool_spared e s s' (m : proc OutputMessagePool.state OutputMessagePool.request unit) w p :
  respects (touches_pool p) m -> pool_step c m (queue s) (on_world (fun _ => w) (prepare e (csys s))) = Some s' ->
  own s p \/ respects (steady face) m /\ silent m -> login w = login (world_of s) -> (forall q, q ∈ releases w -> q ∈ releases (world_of s)) ->
  spared s s'.
Proof.
  intros Hm E Hp Hl Hr. unfold pool_step in E. rewrite pool_call_eq in E. cbn [Connection.world st on_world] in E.
  destruct (m (ProtocolLogin.pool (login w))) as [[[[] x] out]|] eqn:Em; [|done]. injection E as <-. pose proof (Hm _ _ _ _ Em) as [F C L].
  rewrite Hl in Em, F, C. apply (settle_spared e s _ (queue s) []).
  split; [|exact C|].
  - intros q He Hq. destruct Hp as [Hp|[Hs _]]; [apply F; by intros ->|]. apply (steady_aspect face _ _ _ (Hs _ _ _ _ Em)).
  - intros q [Hq|Hq]; left; [by left|]. cbn in Hq. apply elem_of_app in Hq as [Hq|Hq]; [right; by apply Hr|].
    destruct Hp as [Hp|[_ Hs]]; [by rewrite (L q Hq)|]. pose proof (Hs _ _ _ _ Em) as Ho. unfold nothing in Ho. subst out.
    by apply elem_of_nil in Hq.
Qed.

Lemma dispatch_spared e s s' : run e Dispatch s = Some s' -> spared s s'.
Proof.
  intros E. cbn [Session.run] in E. destruct (queue s) as [|[d|] q] eqn:Hq; [done| |].
  - destruct (call _ _) as [[[[] w] out]|] eqn:Ec; [|done]. cbn [mbind option_bind] in E.
    destruct (absorb _ _) as [cs|] eqn:Ea; [|done]. injection E as <-.
    unfold call in Ec. destruct (ProtocolLogin.delegate _ _ _ _ _ _ _ _ _ _ _) as [[[[] x] o]|] eqn:Ed; [|done].
    injection Ec as <- <-.
    destruct (for_each _ _ _) as [[[[] y] o2]|] eqn:Ef; [|done]. injection Ea as <-. apply callbacks_spare in Ef.
    apply (settle_spared e s _ q ([] ++ o2)). eapply (composes_trans (R := spares)); [|exact Ef].
    destruct (LoginFrame.delegate_lsteady MD5 SHA1 SHA256 SHA512 face _ _ _ _ _ _ _ _ _ _ Ed) as [Hf Hc].
    apply (delegate_touches MD5 SHA1 SHA256 SHA512 0) in Ed as [_ Hl]. split; [intros p _ _; apply Hf|exact Hc|].
    intros p [Hp|Hp]; left; [by left|]. cbn in Hp. rewrite Hl, app_nil_r in Hp. by right.
  - cbn [Connection.run] in E. destruct (absorb _ _) as [cs|] eqn:Ea; [|done]. injection E as <-.
    eapply handler_spared; [apply closeConnection_spares|exact Ea].
Qed.

(** What a session's own steps do to the others. *)
Lemma run_spares e ev s s' :
  match ev with Elsewhere _ => False | _ => True end -> allowed c ev s -> run e ev s = Some s' -> spared s s'.
Proof.
  intros Hev Ha E. destruct ev as [ev| |id|id|p|x]; [| | | | |done]; cbn [allowed] in Ha.
  - destruct Ha as [Hex _]. destruct ev; try discriminate Hex;
      cbn [Session.run Connection.run] in E; destruct (absorb _ _) as [cs|] eqn:Ea; try discriminate E; injection E as <-.
    + eapply (handler_spared e s _ _ close); [bookkeeping|exact Ea].
    + eapply (handler_spared e s _ _ (releaseConnection (net e))); [bookkeeping|exact Ea].
    + eapply (handler_spared e s _ _ onStop); [bookkeeping|exact Ea].
    + eapply (handler_spared e s _ _ (_ ← fill 0 bytes; parseHeader (net e) error)); [bookkeeping|exact Ea].
    + eapply (handler_spared e s _ _ (_ ← fill NETWORK_HEADER_SIZE bytes; parsePacket (net e) error)); [|exact Ea].
      apply (respects_bind spares); [bookkeeping|intros _; apply parsePacket_spares].
    + eapply (handler_spared e s _ _ (onWrite (net e) error)); [apply onWrite_spares|exact Ea].
    + eapply (handler_spared e s _ _ (handleReadTimeout (net e) false error)); [bookkeeping|exact Ea].
    + eapply (handler_spared e s _ _ (handleWriteTimeout (net e) false error)); [bookkeeping|exact Ea].
  - by eapply dispatch_spared.
  - cbn [Session.run] in E. eapply (pool_spared e s s' _ (Connection.world (st (prepare e (csys s)))) 0); [|exact E| |done|done].
    + apply steady_touches; [apply drop_pointer_steady|apply drop_pointer_silent].
    + right. split; [apply drop_pointer_steady|apply drop_pointer_silent].
  - cbn [Session.run] in E. eapply (pool_spared e s s' _ (Connection.world (st (prepare e (csys s)))) 0); [|exact E| |done|done].
    + apply steady_touches; [apply internalReleaseMessage_steady, _|apply internalReleaseMessage_silent].
    + right. split; [apply internalReleaseMessage_steady, _|apply internalReleaseMessage_silent].
  - cbn [Session.run] in E. eapply (pool_spared e s s' _ (mkWorld _ _ _ _) p); [|exact E| |done|].
    + apply releaseProtocol_touches.
    + left. by right.
    + intros q. apply PoolLaws.elem_of_remove_one.
Qed.

End Steps.
End SessionGuard.
