(* ===== verification/SessionList.v ===== *)
(** * The manager's list of connections, and a session

    The connection manager keeps every connection until it is told, when the socket is
    deleted, that it is over.  Nothing else a session does touches that list, or makes the
    socket come or go. *)
From S2P Require Import Prelude Proc CString Definitions NetMessage OutMessage Proto Pool PoolFrame Conn ConnFrame ConnLife ConnMgr Db Accounts Login Server Session SessionLaws.

Module SessionList.
Import Session Connection ConnFrame SessionLaws.

(** ** The login protocol's handlers *)

Section LoginList.
Context {DB : Type} `{!Database.Server DB}.
Context (MD5 SHA1 SHA256 SHA512 : list Z -> list Z) (rsa : list Z -> option (list Z)).
Abbreviation lstate := (ProtocolLogin.state (DB := DB)).
Import ProtocolLogin.

Definition listed (s : lstate) : list nat := ConnectionManager.m_connections (manager s).
Definition same_list (s : lstate) (out : list ProtocolLogin.request) (s' : lstate) : Prop := listed s' = listed s.

#[export] Instance same_list_composes : Composes same_list.
Proof. split; [done|]. unfold same_list. congruence. Qed.

Lemma onPool_list {A} (m : proc OutputMessagePool.state OutputMessagePool.request A) : respects same_list (onPool m).
Proof. intros s a s' out. unfold onPool. destruct (m (pool s)) as [[[b x] o]|]; [|done]. by intros [= <- <- <-]. Qed.
Lemma onIO_list {A} (m : proc (IO.t DB) Empty_set A) : respects same_list (onIO m).
Proof. intros s a s' out. unfold onIO. destruct (m (io s)) as [[[b x] o]|]; [|done]. by intros [= <- <- <-]. Qed.

Lemma addAttempt_connections cfg now ip pid ok m :
  ConnectionManager.m_connections (ConnectionManager.addAttempt cfg now ip pid ok m) = ConnectionManager.m_connections m.
Proof. unfold ConnectionManager.addAttempt. by destruct (ip =? 0). Qed.

Ltac kept := respects; first [apply onPool_list|apply onIO_list|by apply respects_emit|by apply addAttempt_connections|idtac].

Lemma disconnectClient_list e p error message : respects same_list (disconnectClient e p error message).
Proof. unfold disconnectClient, write, close, getConnection. kept. Qed.

Lemma delegate_list e p name password clientIp version :
  respects same_list (delegate MD5 SHA1 SHA256 SHA512 e p name password clientIp version).
Proof.
  unfold delegate, addAttempt, write_list, write_broadcasts, write_characters, write_broadcast, write_character, pick_port, write,
    close, getConnection.
  kept; apply disconnectClient_list.
Qed.

Lemma onRecvFirstMessage_list e p msg : respects same_list (onRecvFirstMessage rsa e p msg).
Proof. unfold onRecvFirstMessage, readLogin, checkClient, close, getConnection. kept; apply disconnectClient_list. Qed.

End LoginList.

(** ** The connection's handlers *)

Section List.
Context {DB : Type} `{!Database.Server DB}.
Context (MD5 SHA1 SHA256 SHA512 : list Z -> list Z).
Context (rsa : list Z -> option (list Z)) (c : nat).
Abbreviation world := (Session.world (DB := DB)).
Abbreviation cstate := (Connection.state world).
Abbreviation sys := (Session.sys (DB := DB)).
#[local] Hint Extern 0 (ProtocolOps _) => exact (login_ops rsa c) : typeclass_instances.
Abbreviation run := (Session.run MD5 SHA1 SHA256 SHA512 rsa c).

Record keeps (s : cstate) (out : list request) (s' : cstate) : Prop := {
  keeps_socket : m_socket (conn s') = SocketNull <-> m_socket (conn s) = SocketNull;
  keeps_list : listed (login (Connection.world s')) = listed (login (Connection.world s))
}.

#[export] Instance keeps_composes : Composes keeps.
Proof. split; [done|]. intros s1 o1 s2 o2 s3 [S1 L1] [S2 L2]. split; [by rewrite S2, S1|congruence]. Qed.

#[export] Instance keeps_minor : Minor keeps.
Proof. split; [|done]. intros s cn log (_ & _ & Hs & _). by split. Qed.

Lemma update_keeps f : (forall cn, m_socket (f cn) = m_socket cn) -> respects keeps (update f).
Proof. intros Hf. apply respects_modify. intros s. split; [cbn; by rewrite Hf|done]. Qed.
#[local] Hint Extern 1 (respects _ (update _)) => by apply update_keeps : conn.

Lemma emit_keeps r : respects keeps (emit r).
Proof. by apply respects_emit. Qed.
#[local] Hint Resolve emit_keeps : conn.

Lemma callWorld_keeps f : (forall w w', f w = Some w' -> listed (login w') = listed (login w)) -> respects keeps (callWorld f).
Proof.
  intros Hf s [] s' out E. unfold callWorld in E. autorewrite with proc in E.
  destruct (f (Connection.world s)) as [w|] eqn:Ew; [|done]. autorewrite with proc in E. unfold onWorld in E. injection E as <- <-.
  split; [done|]. by apply Hf.
Qed.

Lemma pool_call_list {A} (m : proc OutputMessagePool.state OutputMessagePool.request A) (w w' : world) a :
  pool_call m w = Some (a, w') -> listed (login w') = listed (login w).
Proof. rewrite pool_call_eq. destruct (m _) as [[[b x] out]|]; [|done]. by intros [= <- <-]. Qed.

Lemma closeConnection_keeps e : respects keeps (closeConnection e).
Proof.
  unfold closeConnection. bookkeeping; apply callWorld_keeps; intros w w'; cbn;
    destruct (pool_call _ _) as [[[] x]|] eqn:E; cbn; try done; intros [= <-]; by eapply pool_call_list.
Qed.

Lemma send_keeps e id : respects keeps (send e id).
Proof. unfold send, internalSend, encode. bookkeeping; apply callWorld_keeps; by intros w w' [= <-]. Qed.

Lemma callbacks_keep e cbs : respects keeps (for_each (run_callback e) cbs).
Proof.
  respects. destruct x; cbn [run_callback]; [bookkeeping|]. apply respects_bind; [apply _|apply send_keeps|intros _; bookkeeping].
Qed.

Definition handles (f : NetworkMessage.t -> world -> option (list callback * NetworkMessage.t * world)) : Prop :=
  forall m w cbs m' w', f m w = Some (cbs, m', w') -> listed (login w') = listed (login w).

Lemma deliver_keeps e f : (forall p, handles (f p)) -> respects keeps (deliver e f).
Proof.
  intros Hf s [] s' out E. unfold deliver, get in E. rewrite bind_gets in E. destruct (m_protocol (conn s)) as [p|]; [|done].
  unfold call_protocol, get, update, onWorld in E. autorewrite with proc in E.
  destruct (f p _ _) as [[[cbs m'] w']|] eqn:Ef; [|done]. autorewrite with proc in E. apply callbacks_keep in E. cbn in E.
  apply (composes_trans (R := keeps) s [] (mkState (setMsg m' (conn s)) (m_logError s) w') out s'); [|done].
  split; [done|]. by apply (Hf p _ _ _ _ _ Ef).
Qed.

Lemma first_list p : handles (onRecvFirstMessage p).
Proof.
  intros m w cbs m' w'. cbn [onRecvFirstMessage login_ops]. unfold call.
  destruct (ProtocolLogin.onRecvFirstMessage rsa (handlers w) p m (login w)) as [[[m1 x] out]|] eqn:E; [|done].
  intros [= <- <- <-]. by apply onRecvFirstMessage_list in E.
Qed.

Lemma next_list p : handles (onRecvMessage p).
Proof.
  intros m w cbs m' w'. cbn [onRecvMessage login_ops]. destruct (pool_call _ _) as [[pr x]|] eqn:E; [|done]. cbn [mbind option_bind].
  destruct (Protocol.onRecvMessage pr m) as [[ok m1]|]; [|done]. intros [= <- <- <-]. by eapply pool_call_list.
Qed.

Lemma firstPacket_keeps ck : respects keeps (firstPacket ck).
Proof.
  unfold firstPacket. apply respects_bind; [apply _|bookkeeping|intros _]. apply respects_bind; [apply _|bookkeeping|intros p].
  destruct p as [p|]; [bookkeeping|]. intros s made s' out E. unfold get, update, onWorld in E. autorewrite with proc in E.
  destruct (makeProtocol ck _ _) as [[[p m'] w']|] eqn:Em; [|done]. autorewrite with proc in E.
  assert (listed (login w') = listed (login (Connection.world s))) as Hl.
  { cbn [makeProtocol login_ops] in Em. unfold make in Em. destruct (Server.ServicePort.makeProtocol _ _ _) as [[[pr|] m1]|]; [| |done].
    - cbn [mbind option_bind] in Em. destruct (pool_call _ _) as [[[] x]|] eqn:Ep; [|done]. injection Em as _ _ <-. by eapply pool_call_list.
    - by injection Em as _ _ <-. }
  apply (composes_trans (R := keeps) s [] (mkState (setProtocol p (setMsg m' (conn s))) (m_logError s) w') out s'); [by split|].
  destruct p as [p|]; [|injection E as _ <- <-; apply (composes_refl (R := keeps))].
  apply bind_inv in E as ([] & s3 & o3 & o4 & E3 & E & ->). injection E as _ <- <-. rewrite app_nil_r. revert E3. apply callWorld_keeps.
  intros w w2. cbn. destruct (pool_call _ _) as [[[] x]|] eqn:Ep; cbn; [|done]. intros [= <-]. by eapply pool_call_list.
Qed.

Lemma parsePacket_keeps e error : respects keeps (parsePacket e error).
Proof.
  apply (parsePacket_rule keeps); [apply composes_trans|done| |].
  - intros ck s s' out _ E. revert E. apply (respects_bind keeps); [apply firstPacket_keeps|]. intros made.
    case_match; [bookkeeping|]. apply (respects_bind keeps); [apply deliver_keeps, first_list|intros _; bookkeeping].
  - intros s s' out E. revert E. apply (respects_bind keeps); [apply deliver_keeps, next_list|intros _; bookkeeping].
Qed.

(** ** The session *)

Definition socketless (s : sys) : Prop := m_socket (connection_of (csys s)) = SocketNull.
Definition list_of (s : sys) : list nat := listed (login (world_of s)).

Record undisturbed (s s' : sys) : Prop := {
  same_socket : socketless s' <-> socketless s;
  same_listed : list_of s' = list_of s
}.

Lemma settle_undisturbed e s (cs : Connection.sys world) q out :
  keeps (st (prepare e (csys s))) out (st cs) -> undisturbed s (settle c q cs).
Proof. by intros [S L]. Qed.

Lemma handler_undisturbed e s (cs cs' : Connection.sys world) (m : proc (Connection.state world) request unit) q :
  respects keeps m -> absorb cs (m (st (prepare e (csys s)))) = Some cs' -> undisturbed s (settle c q cs').
Proof.
  intros Hm. destruct (m _) as [[[[] x] out]|] eqn:E; [|done]. intros [= <-]. apply Hm in E. by apply (settle_undisturbed e s _ q out).
Qed.

Lemma pool_undisturbed e s s' (m : proc OutputMessagePool.state OutputMessagePool.request unit) f q :
  (forall w, login (f w) = login w) -> pool_step c m q (on_world f (prepare e (csys s))) = Some s' -> undisturbed s s'.
Proof.
  intros Hf. unfold pool_step. destruct (pool_call _ _) as [[[] w]|] eqn:E; [|done]. intros [= <-]. apply pool_call_list in E.
  apply (settle_undisturbed e s _ q []). split; [done|]. cbn in *. by rewrite E, Hf.
Qed.

Lemma dispatch_undisturbed e s s' : run e Dispatch s = Some s' -> undisturbed s s'.
Proof.
  intros E. cbn [Session.run] in E. destruct (queue s) as [|[d|] q] eqn:Hq; [done| |].
  - destruct (call _ _) as [[[[] w] out]|] eqn:Ec; [|done]. cbn [mbind option_bind] in E.
    destruct (absorb _ _) as [cs|] eqn:Ea; [|done]. injection E as <-.
    unfold call in Ec. destruct (ProtocolLogin.delegate _ _ _ _ _ _ _ _ _ _ _) as [[[[] x] o]|] eqn:Ed; [|done].
    injection Ec as <- <-. destruct (for_each _ _ _) as [[[[] y] o2]|] eqn:Ef; [|done]. injection Ea as <-. apply callbacks_keep in Ef.
    apply (settle_undisturbed e s _ q ([] ++ o2)). eapply (composes_trans (R := keeps)); [|exact Ef].
    split; [done|]. by apply delegate_list in Ed.
  - cbn [Connection.run] in E. destruct (absorb _ _) as [cs|] eqn:Ea; [|done]. injection E as <-.
    eapply handler_undisturbed; [apply closeConnection_keeps|exact Ea].
Qed.

(** Only the end of the connection makes the socket go; nothing touches the list. *)
Lemma run_undisturbed e ev s s' :
  match ev with Elsewhere _ | Net EvStop => False | _ => True end -> allowed c ev s -> run e ev s = Some s' -> undisturbed s s'.
Proof.
  intros Hev Ha E. destruct ev as [ev| |id|id|p|x]; [| | | | |done]; cbn [allowed] in Ha.
  - destruct Ha as [Hex _]. destruct ev; try discriminate Hex; try done;
      cbn [Session.run Connection.run] in E; destruct (absorb _ _) as [cs|] eqn:Ea; try discriminate E; injection E as <-.
    + eapply (handler_undisturbed e s _ _ close); [bookkeeping|exact Ea].
    + eapply (handler_undisturbed e s _ _ (releaseConnection (net e))); [bookkeeping|exact Ea].
    + eapply (handler_undisturbed e s _ _ (_ ← fill 0 bytes; parseHeader (net e) error)); [bookkeeping|exact Ea].
    + eapply (handler_undisturbed e s _ _ (_ ← fill NETWORK_HEADER_SIZE bytes; parsePacket (net e) error)); [|exact Ea].
      apply (respects_bind keeps); [bookkeeping|intros _; apply parsePacket_keeps].
    + eapply (handler_undisturbed e s _ _ (onWrite (net e) error)); [unfold onWrite; bookkeeping|exact Ea].
    + eapply (handler_undisturbed e s _ _ (handleReadTimeout (net e) false error)); [bookkeeping|exact Ea].
    + eapply (handler_undisturbed e s _ _ (handleWriteTimeout (net e) false error)); [bookkeeping|exact Ea].
  - by eapply dispatch_undisturbed.
  - cbn [Session.run] in E. by apply (pool_undisturbed e s s' _ (fun w => w) (queue s)) in E.
  - cbn [Session.run] in E. by apply (pool_undisturbed e s s' _ (fun w => w) (queue s)) in E.
  - cbn [Session.run] in E. by apply (pool_undisturbed e s s' _ _ (queue s)) in E.
Qed.

(** The end of the connection: the socket was there and is gone. *)
#[local] Instance socket_eq_dec : EqDecision socket.
Proof. solve_decision. Defined.

Lemma stop_unlists e s s' : run e (Net EvStop) s = Some s' -> ~ socketless s /\ socketless s' /\ list_of s' = list_of s.
Proof.
  cbn [Session.run Connection.run]. unfold socketless, connection_of. set (s0 := st (prepare e (csys s))).
  change (m_socket (conn (st (csys s)))) with (m_socket (conn s0)). change (st (set_stopPosts _ _)) with s0.
  destruct (decide (m_socket (conn s0) = SocketNull)) as [Hs|Hs].
  - unfold onStop, get. rewrite !bind_emit, bind_gets, Hs. done.
  - destruct (ConnectionLife.onStop_result s0 Hs) as (out & -> & _). cbn. intros [= <-]. by split_and!.
Qed.

End List.
End SessionList.
