(* ===== verification/SessionLogin.v ===== *)
(** * A client logs in: from its first frame to the bytes it reads

    The three steps of a session that is served (the header and the packet of the client's
    frame, and the delegate), computed, and what the client decodes. *)
From S2P Require Import Prelude Proc CString Bytes Definitions NetMessage Checksum Cipher OutMessage Proto Pool PoolFrame PoolLaws PoolRun PoolSend Conn ConnLife Wire Db Accounts AccountLaws ConnMgr Login LoginFrame LoginLaws LoginPacket Server Session SessionLaws SessionRun.

Module SessionLogin.
Import PoolFrame PoolLaws Session Connection.

(** ** The connection reads a frame *)

Section Reads.
Context {W : Type} `{!ProtocolOps W}.

(** A connection that waits for its first packet, nothing having gone wrong. *)
Definition listening (m : NetworkMessage.t) (refs time : Z) : t :=
  Connection.mk m None SocketOpen false false false 0 1 CONNECTION_STATE_OPEN refs time 0.

Lemma header_read e size m refs time log (w : W) :
  fault e = NoFault -> NetworkMessage.wf m -> 0 < size < NETWORK_MAX_SIZE - 16 ->
  exists m', Wire.receive_header (le_bytes 2 size) m = Some (size, m') /\
    (_ ← fill 0 (le_bytes 2 size); parseHeader e NoError) (mkState (listening m refs time) log w) =
      Some (tt, mkState (listening m' refs time) log w, [Cancel_readTimer; Start_readTimer; Read_packet NETWORK_HEADER_SIZE size]).
Proof.
  intros He Hwf Hs. destruct (Wire.receive_header_size size m Hwf Hs) as (m' & Hr & _).
  exists m'. split; [done|]. unfold Wire.receive_header in Hr. remember (le_bytes 2 size) as header eqn:Eh. clear Eh.
  destruct (buf_write (NetworkMessage.m_buffer m) 0 header) as [b|] eqn:Eb; [|done]. cbn [mbind option_bind] in Hr.
  destruct (NetworkMessage.decodeHeader (NetworkMessage.setBuffer b m)) as [[size' m1]|] eqn:Ed; [|done].
  cbn [mbind option_bind] in Hr. destruct (_ || _) eqn:Eo; [done|]. injection Hr as -> <-.
  unfold fill, parseHeader, finishRead, startRead, is_state, get, update, getHandle, skip, emit, gets, modify, lift, mret,
    proc_ret, mbind, proc_bind.
  cbn. rewrite Eb. cbn. rewrite Ed. cbn. rewrite Eo. cbn. rewrite He. cbn. done.
Qed.

(** The connection once its protocol has read the first packet. *)
Definition greeted (m : NetworkMessage.t) (p : nat) (refs time packets : Z) : t :=
  Connection.mk m (Some p) SocketOpen true false false 0 1 CONNECTION_STATE_OPEN refs time packets.

(** One packet is within every positive rate. *)
Lemma first_within e m refs time :
  env_ok e -> 0 <= time < 2 ^ 32 - 2 -> 1 <= MAX_PACKETS_PER_SECOND e < 2 ^ 32 ->
  exists time' packets, packetRate e (listening m refs time) = Some (true, setRate time' packets (listening m refs time)).
Proof.
  intros He Ht Hmax. unfold env_ok in He. unfold packetRate. cbn [m_time m_packets listening].
  rewrite (wrapu_small 32 (Z.max 1 _)) by lia. set (passed := Z.max 1 (now e - time + 1)). assert (1 <= passed) by lia.
  rewrite (proj2 (Z.eqb_neq _ _)) by lia. change (u32 (0 + 1)) with 1. rewrite (wrapu_small 32 (MAX_PACKETS_PER_SECOND e)) by lia.
  assert (1 / passed <= 1) by (apply Z.div_le_upper_bound; lia). rewrite (proj2 (Z.ltb_ge _ _)) by lia.
  destruct (2 <? passed); [by exists (now e), 0|by eexists time, 1].
Qed.

Lemma packet_read e bytes m m2 p m3 m4 refs time log (w w1 w2 w3 : W) :
  env_ok e -> 0 <= time < 2 ^ 32 - 2 -> 1 <= MAX_PACKETS_PER_SECOND e < 2 ^ 32 -> fault e = NoFault ->
  Wire.receive_packet bytes m = Some (true, m2) -> makeProtocol true m2 w = Some (Some p, m3, w1) ->
  setConnection p true w1 = Some w2 -> onRecvFirstMessage p m3 w2 = Some ([], m4, w3) ->
  exists time' packets,
    (_ ← fill NETWORK_HEADER_SIZE bytes; parsePacket e NoError) (mkState (listening m refs time) log w) =
      Some (tt, mkState (greeted m4 p refs time' packets) log w3,
            [Cancel_readTimer; Start_readTimer; Read_header 0 NETWORK_HEADER_SIZE]).
Proof.
  intros He Ht Hmax Hf Hr Hmake Hbind Hfirst. unfold Wire.receive_packet in Hr.
  destruct (buf_write (NetworkMessage.m_buffer m) NETWORK_HEADER_SIZE bytes) as [b|] eqn:Eb; [|done].
  cbn [mbind option_bind] in Hr.
  destruct (first_within e (NetworkMessage.setBuffer b m) refs time He Ht Hmax) as (time' & packets & Erate).
  exists time', (u32 packets). unfold fill, parsePacket, firstPacket, deliver, call_protocol, callWorld, onWorld, finishRead, readHeader,
    startRead, is_state, get, update, getHandle, skip, emit, gets, modify, lift, mret, proc_ret, mbind, proc_bind.
  unfold mbind in Eb, Hr. cbn -[verifyChecksum packetRate]. rewrite Eb. cbn -[verifyChecksum packetRate].
  change (bool_decide (CONNECTION_STATE_OPEN ∈ [CONNECTION_STATE_OPEN])) with true. cbn -[verifyChecksum packetRate].
  change (listening (NetworkMessage.setBuffer b m) refs time) with (setMsg (NetworkMessage.setBuffer b m) (listening m refs time)) in Erate.
  rewrite Erate.
  cbn -[verifyChecksum packetRate]. rewrite Hr. cbn. rewrite Hmake. cbn. rewrite Hbind. cbn. rewrite Hfirst. cbn.
  rewrite Hf. cbn. done.
Qed.

(** The answer: one message, then the closure. *)
Lemma answer_sent e id m p refs time packets log (w : W) :
  fault e = NoFault -> onSendMessage id w = Some w ->
  for_each (run_callback e) [Callback_send id; Callback_close] (mkState (greeted m p refs time packets) log w) =
    Some (tt, mkState (setState CONNECTION_STATE_REQUEST_CLOSE (setPending 1 1 (greeted m p refs time packets))) log w,
          [Start_writeTimer; Write_message id; AddTask_closeConnection]).
Proof.
  intros Hf Hs. unfold for_each, run_callback, send, encode, callWorld, onWorld, internalSend, close, getHandle, is_state, get, update, skip,
    emit, gets, modify, lift, mret, proc_ret, mbind, proc_bind.
  cbn. change (bool_decide (CONNECTION_STATE_OPEN ∈ [CONNECTION_STATE_OPEN])) with true. cbn. rewrite Hs. cbn. rewrite Hf. cbn. done.
Qed.

End Reads.

(** ** A client's login *)

(** What a client sends: the platform, the version and the signatures of its files, and a
    block for the private key, which holds its key, name and password. *)
Record client := mkClient {
  platform : list Z;
  version : Z; dat : Z; spr : Z; pic : Z;
  block : list Z;
  k0 : Z; k1 : Z; k2 : Z; k3 : Z;
  name : cstring; password : cstring;
  filler : list Z
}.

Definition header_of (a : client) : list NetworkMessage.field := LoginPacket.header_fields (version a) (dat a) (spr a) (pic a).
Definition block_of (a : client) : list NetworkMessage.field :=
  LoginPacket.block_fields (k0 a) (k1 a) (k2 a) (k3 a) (name a) (password a).

(** The packet, without its checksum. *)
Definition login_packet (a : client) : list Z :=
  [ProtocolLogin.protocolId] ++ platform a ++ NetworkMessage.encode (header_of a) ++ block a.

Record client_ok (rsa : list Z -> option (list Z)) (a : client) : Prop := {
  client_platform : zlen (platform a) = 2 /\ bytes_ok (platform a);
  client_block : zlen (block a) = 128 /\ bytes_ok (block a) /\
    rsa (block a) = Some (0 :: NetworkMessage.encode (block_of a) ++ filler a);
  client_fields : Forall NetworkMessage.field_ok (header_of a ++ block_of a);
  client_name : name a <> [];
  client_version : CLIENT_VERSION_MIN <= version a <= CLIENT_VERSION_MAX
}.

Lemma zlen_login_packet rsa a : client_ok rsa a -> zlen (login_packet a) = 145.
Proof.
  intros [[Hp _] [Hb _] _ _ _]. unfold login_packet, header_of, LoginPacket.header_fields. rewrite !NetworkMessage.encode_cons.
  cbn [NetworkMessage.encode_field]. change (NetworkMessage.encode []) with (@nil Z).
  rewrite !zlen_app, !zlen_le_bytes, zlen_nil, Hp, Hb. change (zlen [ProtocolLogin.protocolId]) with 1. lia.
Qed.

Lemma fields_bytes fs : Forall NetworkMessage.field_ok fs -> bytes_ok (NetworkMessage.encode fs).
Proof.
  induction 1 as [|f fs Hf Hfs IH]; [constructor|]. rewrite NetworkMessage.encode_cons. apply Forall_app. split; [|done].
  destruct f as [n v|t]; cbn [NetworkMessage.encode_field NetworkMessage.field_ok] in *; [apply le_bytes_ok|]. apply Forall_app. split; [apply le_bytes_ok|apply (proj2 Hf)].
Qed.

Lemma login_packet_bytes rsa a : client_ok rsa a -> bytes_ok (login_packet a).
Proof.
  intros [[_ Hp] [_ [Hb _]] Hf _ _]. apply Forall_app in Hf as [Hh _]. unfold login_packet.
  apply Forall_app. split; [by repeat constructor|]. apply Forall_app. split; [done|].
  apply Forall_app. split; [by apply fields_bytes|done].
Qed.

Section Login.
Context {DB : Type} `{!Database.Server DB, !AccountLaws.LawfulServer DB}.
Context (MD5 SHA1 SHA256 SHA512 : list Z -> list Z).
Context (rsa : list Z -> option (list Z)) (Hrsa : LoginPacket.rsa_ok rsa).
Context (c : nat).

Abbreviation lstate := (ProtocolLogin.state (DB := DB)).
Abbreviation world := (Session.world (DB := DB)).
#[local] Hint Extern 0 (ProtocolOps _) => exact (login_ops rsa c) : typeclass_instances.
Abbreviation run := (Session.run MD5 SHA1 SHA256 SHA512 rsa c).
Abbreviation reachable := (Session.reachable MD5 SHA1 SHA256 SHA512 rsa c).

(** The protocol of a client that has sent this. *)
Definition protocol_of (a : client) : Protocol.t :=
  Protocol.setXTEAKey [k0 a; k1 a; k2 a; k3 a] (Protocol.enableXTEAEncryption (ProtocolLogin.new (Some c))).

Definition delegation_of (h : ProtocolLogin.env) (p : nat) (a : client) : delegation :=
  mkDelegation p (name a) (password a) (ProtocolLogin.remote_ip h c) (version a).

Definition enabled_ip (h : ProtocolLogin.env) (x : lstate) : Prop :=
  ConnectionManager.isDisabled (ProtocolLogin.manager_config h) (ProtocolLogin.now h) (ProtocolLogin.remote_ip h c)
    ProtocolLogin.protocolId (ProtocolLogin.manager x) = false.

(** The packet without its checksum makes a protocol, which is bound to the connection and
    reads the rest. *)
Lemma login_read h x m a :
  SessionLaws.fine c (mkWorld h x [] []) -> client_ok rsa a -> enabled_ip h x ->
  NetworkMessage.wf m -> NetworkMessage.m_position m = 6 -> NetworkMessage.m_size m = 151 ->
  NetworkMessage.contains m (login_packet a) ->
  exists p m3 w1 w2 m4 x2, makeProtocol true m (mkWorld h x [] []) = Some (Some p, m3, w1) /\
    setConnection p true w1 = Some w2 /\
    onRecvFirstMessage p m3 w2 = Some ([], m4, mkWorld h x2 [delegation_of h p a] []) /\
    ProtocolLogin.io x2 = ProtocolLogin.io x /\ LoginLaws.shut x2 = LoginLaws.shut x /\
    OutputMessagePool.protocols (ProtocolLogin.pool x2) !! p = Some (protocol_of a).
Proof.
  intros Hf [[Hpl _] [Hbl [_ Hblock]] Hfields Hname Hver] Hip Hwf Hpos Hsz Hc. set (w := mkWorld h x [] []) in *.
  destruct (NetworkMessage.get_contains m [ProtocolLogin.protocolId] (platform a ++ NetworkMessage.encode (header_of a) ++ block a))
    as (Hget & Hwf3 & Hc3 & Hp3); [done|exact Hc|change (zlen [ProtocolLogin.protocolId]) with 1; NetworkMessage.consts; lia|].
  change (zlen [ProtocolLogin.protocolId]) with 1 in *. rewrite Hpos in *.
  set (m3 := NetworkMessage.setPosition (6 + 1) m) in *.
  destruct (NetworkMessage.get_contains m3 (platform a) (NetworkMessage.encode (header_of a) ++ block a))
    as (_ & _ & Hc4 & _); [done|exact Hc3|rewrite Hp3, Hpl; by compute|]. rewrite Hpl in Hc4.
  set (p := base.fresh (dom (OutputMessagePool.protocols (ProtocolLogin.pool x)))).
  set (x1 := OutputMessagePool.setProtocols (insert p (ProtocolLogin.new None)) (ProtocolLogin.pool x)).
  set (w1 := SessionLaws.with_pool x1 [] w).
  assert (makeProtocol true m w = Some (Some p, m3, w1)) as Emake.
  { cbn [makeProtocol login_ops]. unfold make, Server.ServicePort.makeProtocol. rewrite Hget. cbn [mbind option_bind].
    change (le_value [ProtocolLogin.protocolId]) with 1.
    change (find (Server.ServicePort.takes true 1) (Server.ServicePort.m_services port)) with (Some Service.login).
    cbn [fmap option_fmap option_map]. by rewrite SessionLaws.pool_call_eq. }
  assert (ConnectionLife.packet m) as Hpk by (split; [split; [done|NetworkMessage.consts; lia]|lia|NetworkMessage.consts; lia]).
  destruct (SessionLaws.make_fine rsa c true m w Hpk Hf) as (p' & m' & w1' & E1 & _ & Hf1 & Hw1 & Hl1).
  change (makeProtocol true m w = Some (p', m', w1')) in E1. rewrite Emake in E1. injection E1 as <- <- <-.
  destruct (SessionLaws.bind_fine rsa c p w1 Hf1 (Hw1 eq_refl) (Hl1 p eq_refl)) as (w2 & E2 & Hf2 & Hb2).
  change (setConnection p true w1 = Some w2) in E2.
  set (x2 := OutputMessagePool.setProtocols (insert p (ProtocolLogin.new (Some c))) x1).
  assert (w2 = SessionLaws.with_pool x2 [] w1) as ->.
  { cbn [setConnection login_ops] in E2. rewrite SessionLaws.pool_call_eq in E2.
    unfold OutputMessagePool.onProtocol, OutputMessagePool.protocol in E2. autorewrite with proc in E2.
    cbn [w1 SessionLaws.with_pool login ProtocolLogin.setPool ProtocolLogin.pool x1 OutputMessagePool.setProtocols OutputMessagePool.protocols] in E2.
    rewrite lookup_insert_eq in E2. autorewrite with proc in E2. by injection E2 as <-. }
  set (x0 := login (SessionLaws.with_pool x2 [] w1)).
  destruct (LoginPacket.wp_client_packet rsa h p c m3 x0 (version a) (dat a) (spr a) (pic a) (block a)
    (k0 a) (k1 a) (k2 a) (k3 a) (name a) (password a) (filler a) (ProtocolLogin.new (Some c)))
    as (m4 & x3 & out & E & _ & -> & _ & Hio & Hsh & Hpr); try done.
  { apply Hf. } { split; [apply Hf2|apply Hb2|apply Hf2]. }
  { cbn. by rewrite lookup_insert_eq. }
  exists p, m3, w1, (SessionLaws.with_pool x2 [] w1), m4, x3. split; [done|]. split; [done|].
  split; [|split; [exact Hio|split; [exact Hsh|exact Hpr]]].
  cbn [onRecvFirstMessage login_ops]. unfold call. change (handlers (SessionLaws.with_pool x2 [] w1)) with h. fold x0. by rewrite E.
Qed.

(** ** The steps *)

Definition refs_of (x : lstate) : Z := u32 (default 0 (OutputMessagePool.connections (ProtocolLogin.pool x) !! c)).

(** Nothing is posted, scheduled or being written. *)
Definition session (cn : t) (log : bool) (w : world) (d : reading_t) : Connection.sys world :=
  Connection.mkSys (mkState cn log w) 0 0 0 d [].

(** What the handlers read while the connection would start a write at once. *)
Definition free_env (e : Session.env) : ProtocolLogin.env := with_how (fun _ _ => OutputMessagePool.Writing) (protocols e).

Lemma prepare_free e cn log w d :
  fault (net e) = NoFault -> m_connectionState cn = CONNECTION_STATE_OPEN -> m_writeError cn = false -> m_pendingWrite cn = 0 ->
  prepare e (session cn log w d) = session cn log (mkWorld (free_env e) (login w) [] (releases w)) d.
Proof. intros Hf Ho He Hp. unfold prepare, sending_of. cbn. by rewrite Ho, He, Hp, Hf. Qed.

Lemma settle_session cn log w d :
  settle c [] (session cn log w d) =
    Session.mkSys (session (setRefCount (default 0 (OutputMessagePool.connections (ProtocolLogin.pool (login w)) !! c)) cn) log
             (mkWorld (handlers w) (login w) [] (releases w)) d) (map T_delegate (posted w)).
Proof. unfold settle. cbn. by rewrite app_nil_r. Qed.

Lemma started e memory time log x :
  fault (net e) = NoFault ->
  start c e memory time log x =
    Some (Session.mkSys (session (listening (NetworkMessage.new memory) (refs_of x) time) log (mkWorld (free_env e) x [] []) AwaitHeader) []).
Proof.
  intros Hf. unfold start. change (fresh memory time log (mkWorld (protocols e) x [] [])) with
    (session (Connection.new memory time) log (mkWorld (protocols e) x [] []) Idle).
  rewrite prepare_free by done. cbn [login releases].
  unfold accept, readHeader, startRead, get, update, getHandle, skip, emit, gets, modify, mret, proc_ret, mbind, proc_bind.
  cbn. rewrite Hf. done.
Qed.

Lemma header_step e h size m refs time log x :
  fault (net e) = NoFault -> NetworkMessage.wf m -> 0 < size < NETWORK_MAX_SIZE - 16 ->
  exists m', Wire.receive_header (le_bytes 2 size) m = Some (size, m') /\
    run e (Net (EvHeader NoError (le_bytes 2 size)))
        (Session.mkSys (session (listening m refs time) log (mkWorld h x [] []) AwaitHeader) []) =
      Some (Session.mkSys (session (listening m' (refs_of x) time) log (mkWorld (free_env e) x [] []) (AwaitPacket size)) []).
Proof.
  intros Hf Hwf Hs.
  destruct (header_read (net e) size m refs time log (mkWorld (free_env e) x [] []) Hf Hwf Hs) as (m' & Hr & E).
  exists m'. split; [done|]. cbn [Session.run csys queue]. rewrite prepare_free by done. cbn [login releases].
  cbn [Connection.run st session]. rewrite E. done.
Qed.

Lemma packet_step e h m a refs time log x :
  SessionLaws.fine c (mkWorld (free_env e) x [] []) -> client_ok rsa a -> enabled_ip (free_env e) x ->
  env_ok (net e) -> 0 <= time < 2 ^ 32 - 2 -> 1 <= MAX_PACKETS_PER_SECOND (net e) < 2 ^ 32 -> fault (net e) = NoFault ->
  NetworkMessage.wf m -> NetworkMessage.m_position m = NETWORK_HEADER_SIZE -> NetworkMessage.m_size m = 149 + NETWORK_HEADER_SIZE ->
  exists p m4 x2 time' packets,
    run e (Net (EvPacket NoError (le_bytes 4 (Checksum.adler32 (login_packet a)) ++ login_packet a)))
        (Session.mkSys (session (listening m refs time) log (mkWorld h x [] []) (AwaitPacket 149)) []) =
      Some (Session.mkSys (session (greeted m4 p (refs_of x2) time' packets) log (mkWorld (free_env e) x2 [] []) AwaitHeader)
             [T_delegate (delegation_of (free_env e) p a)]) /\
    ProtocolLogin.io x2 = ProtocolLogin.io x /\ LoginLaws.shut x2 = LoginLaws.shut x /\
    OutputMessagePool.protocols (ProtocolLogin.pool x2) !! p = Some (protocol_of a).
Proof.
  intros Hfine Ha Hip He Ht Hmax Hf Hwf Hp Hs. pose proof (zlen_login_packet rsa a Ha) as Hz.
  destruct (Wire.receive_packet_checked (login_packet a) m) as (m2 & Hr & Hwf2 & Hp2 & Hs2 & Hc2); try done;
    rewrite ?Hz; NetworkMessage.consts; try lia; [by eapply login_packet_bytes|].
  destruct (login_read (free_env e) x m2 a) as (p & m3 & w1 & w2 & m4 & x2 & Emake & Ebind & Efirst & Hio & Hsh & Hpr);
    try done; [rewrite Hs2, Hz; done|].
  destruct (packet_read (net e) _ m m2 p m3 m4 refs time log (mkWorld (free_env e) x [] []) w1 w2 _ He Ht Hmax Hf Hr Emake Ebind Efirst)
    as (time' & packets & E).
  exists p, m4, x2, time', packets. split; [|done].
  cbn [Session.run csys queue]. rewrite prepare_free by done. cbn [login releases].
  cbn [Connection.run st session]. rewrite E. done.
Qed.

(** The payload fits a message with its padding. *)
Definition fits (payload : list Z) : Prop :=
  NETWORK_CRYPTOHEADER_SIZE + zlen payload + Protocol.pad_len (2 + zlen payload) < NETWORK_BODY_SIZE.

(** A client with this key reads the payload off the wire, whatever its buffer held. *)
Definition client_reads (key payload wire : list Z) : Prop :=
  forall m, NetworkMessage.wf m -> exists m1 m2 m3,
    Wire.receive_header (take 2 wire) m = Some (zlen (drop 2 wire), m1) /\
    Wire.receive_packet (drop 2 wire) m1 = Some (true, m2) /\
    Protocol.XTEA_decrypt key m2 = Some (true, m3) /\
    NetworkMessage.m_size m3 = zlen payload /\ NetworkMessage.contains m3 payload.

(** A message the client's protocol has encoded. *)
Lemma sealed_read a m m' pr :
  unencoded m -> Protocol.encodeMessage pr m = Some m' -> face pr = face (protocol_of a) ->
  let payload := NetworkMessage.payload (OutputMessage.base m) in
  fits payload -> exists wire, OutputMessage.wire m' = Some wire /\ client_reads [k0 a; k1 a; k2 a; k3 a] payload wire.
Proof.
  intros [Hw Hst] Henc Hface payload Hfit.
  rewrite (Protocol.encodeMessage_cipher pr (protocol_of a) m (f_equal snd Hface)) in Henc.
  destruct (Protocol.encode_frame (protocol_of a) 0 m eq_refl eq_refl eq_refl Hw Hst Hfit) as (p' & m1 & E & Hwire).
  unfold Protocol.onSendMessage in E. rewrite Henc in E. injection E as _ <-. eexists. split; [exact Hwire|].
  fold payload. intros b Hb. pose proof (NetworkMessage.payload_bytes _ Hw) as Hpb. fold payload in Hpb.
  destruct (Protocol.plain_body_len payload) as [Hl _]. unfold fits in Hfit. NetworkMessage.consts.
  destruct (Wire.frame_decoded (protocol_of a) payload b Hb Hpb eq_refl) as (m2 & m3 & m4 & H1 & H2 & H3 & H4 & H5).
  { unfold Protocol.frame. rewrite !zlen_app, !zlen_le_bytes, Protocol.zlen_encrypted_body, Hl. NetworkMessage.consts. lia. }
  by exists m2, m3, m4.
Qed.

(** The delegate's answer is being written, and the closure is queued. *)
Lemma delegate_step e h m p refs time packets log x a :
  let s := Session.mkSys (session (greeted m p refs time packets) log (mkWorld h x [] []) AwaitHeader)
             [T_delegate (delegation_of h p a)] in
  SessionRun.good rsa Hrsa c s -> env_good e -> fault (net e) = NoFault -> LoginLaws.shut x = false ->
  OutputMessagePool.protocols (ProtocolLogin.pool x) !! p = Some (protocol_of a) ->
  exists s' attempt fs id m', run e Dispatch s = Some s' /\ queue s' = [T_closeConnection] /\
    LoginLaws.replies MD5 SHA1 SHA256 SHA512 (free_env e) (name a) (password a) (ProtocolLogin.remote_ip h c)
      (ProtocolLogin.io x) attempt fs /\
    writing (csys s') = [id] /\ id ∈ OutputMessagePool.held (pool_of s') /\
    store (pool_of s') !! id = Some m' /\
    let payload := LoginLaws.script [] fs in
    (fits payload -> exists wire, OutputMessage.wire m' = Some wire /\ client_reads [k0 a; k1 a; k2 a; k3 a] payload wire).
Proof.
  intros s Hg He Hf Hsh Hpr. set (d := delegation_of h p a).
  destruct (SessionRun.delegate_runs MD5 SHA1 SHA256 SHA512 rsa Hrsa c e s d [] Hg He eq_refl) as (x' & out & E & Ha & _ & _ & Hrun).
  unfold s in E, Ha, Hrun at 2 3. cbn [csys] in E, Ha, Hrun. rewrite prepare_free in E, Ha, Hrun by done.
  cbn [Connection.world st session login handlers releases d delegation_of protocol Session.name Session.password clientIp
    Session.version] in E, Ha, Hrun.
  destruct Ha as (_ & _ & Hop). destruct (Hop Hsh) as (attempt & fs & Hrep & _ & id & m0 & sent & _ & Hpl & -> & Hwr).
  destruct (Hwr eq_refl) as [[-> Hu (pr & m' & Hpr' & Henc & Hm')] Hheld].
  pose proof (LoginFrame.delegate_lsteady MD5 SHA1 SHA256 SHA512 face _ _ _ _ _ _ _ _ _ _ E) as [Hface _].
  specialize (Hface p). unfold aspect in Hface. rewrite Hpr', Hpr in Hface.
  assert (face pr = face (protocol_of a)) as Hfc by exact (inj Some _ _ Hface).
  assert (callbacks_of c (map ProtocolLogin.Pool [OutputMessagePool.Connection_send c id m0; OutputMessagePool.Async_write c id] ++
    [ProtocolLogin.Connection_close c]) = [Callback_send id; Callback_close]) as Hcb by (cbn; by destruct (decide (c = c))).
  rewrite Hcb in Hrun. unfold on_world in Hrun at 2. cbn [st session conn m_logError] in Hrun.
  rewrite (answer_sent (net e) id m p refs time packets log) in Hrun by done. cbn [absorb mbind option_bind] in Hrun.
  eexists _, attempt, fs, id, m'. split; [exact Hrun|]. split; [done|]. split; [exact Hrep|]. split; [done|].
  split; [exact Hheld|]. split; [exact Hm'|]. rewrite <- Hpl. by eapply sealed_read.
Qed.

(** ** From the accepted connection to the delegate *)

(** The environment of a step in which nothing fails. *)
Definition calm (e : Session.env) : Prop := env_good e /\ fault (net e) = NoFault.

Lemma login_posted e0 e1 e2 memory time log x a :
  calm e0 -> calm e1 -> calm e2 ->
  zlen memory = NETWORK_MAX_SIZE -> bytes_ok memory -> 0 <= time < 2 ^ 32 - 2 ->
  books (ProtocolLogin.pool x) -> AccountLaws.io_ok (ProtocolLogin.io x) ->
  is_Some (OutputMessagePool.connections (ProtocolLogin.pool x) !! c) -> PoolRun.few_messages (ProtocolLogin.pool x) ->
  1 <= MAX_PACKETS_PER_SECOND (net e2) < 2 ^ 32 -> client_ok rsa a -> enabled_ip (protocols e2) x ->
  exists s0 s1 p m4 x2 time' packets,
    let s2 := Session.mkSys (session (greeted m4 p (refs_of x2) time' packets) log (mkWorld (free_env e2) x2 [] []) AwaitHeader)
                [T_delegate (delegation_of (protocols e2) p a)] in
    start c e0 memory time log x = Some s0 /\ reachable s0 /\
    run e1 (Net (EvHeader NoError (le_bytes 2 149))) s0 = Some s1 /\ reachable s1 /\
    run e2 (Net (EvPacket NoError (le_bytes 4 (Checksum.adler32 (login_packet a)) ++ login_packet a))) s1 = Some s2 /\ reachable s2 /\
    ProtocolLogin.io x2 = ProtocolLogin.io x /\ LoginLaws.shut x2 = LoginLaws.shut x /\
    OutputMessagePool.protocols (ProtocolLogin.pool x2) !! p = Some (protocol_of a).
Proof.
  intros [He0 Hf0] [He1 Hf1] [He2 Hf2] Hm Hmb Ht Hb Hio Hc Hfew Hmax Ha Hip.
  pose proof (started e0 memory time log x Hf0) as E0. set (s0 := Session.mkSys _ _) in E0.
  destruct (header_step e1 (free_env e0) 149 (NetworkMessage.new memory) (refs_of x) time log x Hf1) as (m1 & Hr & E1).
  { by apply NetworkMessage.writing_wf, NetworkMessage.new_writing. } { done. }
  destruct (Wire.receive_header_size 149 (NetworkMessage.new memory)) as (m1' & Hr' & Hwf1 & Hp1 & Hs1).
  { by apply NetworkMessage.writing_wf, NetworkMessage.new_writing. } { done. }
  rewrite Hr in Hr'. injection Hr' as <-. match type of E1 with _ = Some ?y => set (s1 := y) in E1 end.
  assert (SessionLaws.fine c (mkWorld (free_env e2) x [] [])) as Hfine.
  { destruct He2 as [_ []]. split; try done. split; [constructor|]. intros q Hq. by apply elem_of_nil in Hq. }
  destruct (packet_step e2 (free_env e1) m1 a (refs_of x) time log x Hfine Ha Hip (good_net _ He2) Ht Hmax Hf2 Hwf1 Hp1 Hs1)
    as (p & m4 & x2 & time' & packets & E2 & Hio2 & Hsh2 & Hpr). match type of E2 with _ = Some ?y => set (s2 := y) in E2 end.
  assert (reachable s0) as R0 by (by apply (reach_start _ _ _ _ _ _ e0 memory time log x)).
  assert (reachable s1) as R1.
  { eapply reach_step; [exact R0|exact He1| | |exact E1]; [|exact Hfew]. split; [done|]. vm_compute. reflexivity. }
  assert (reachable s2) as R2.
  { eapply reach_step; [exact R1|exact He2| | |exact E2]; [|exact Hfew]. split; [done|]. cbn [enabled s1 csys session reading].
    apply andb_true_iff. split; [done|]. unfold read_complete. apply andb_true_iff. split.
    - apply bool_decide_eq_true. apply Forall_app. split; [apply le_bytes_ok|by eapply login_packet_bytes].
    - cbn [failed]. rewrite zlen_app, zlen_le_bytes, (zlen_login_packet rsa) by done. reflexivity. }
  exists s0, s1, p, m4, x2, time', packets. by split_and!.
Qed.

End Login.
End SessionLogin.
