(* ===== verification/SessionProps.v ===== *)
(** * Sessions: the properties

    What holds of every session, and of one that is served.  The example is that of
    [LoginPacket]: the account "ann" logs in over connection 7. *)
From S2P Require Import Prelude Proc CString Bytes Definitions NetMessage Checksum Cipher OutMessage Proto Pool PoolFrame PoolLaws PoolRun PoolSend Conn ConnLife Wire Db Accounts AccountLaws ConnMgr Login LoginFrame LoginLaws LoginPacket Server Session SessionLaws SessionRun SessionOnce SessionLogin.

Module SessionProps.
Import PoolFrame PoolLaws Connection Session SessionLaws SessionRun SessionOnce SessionLogin.

(** The end of a handler that has been computed. *)
Ltac leaf :=
  cbn -[elem_of]; eexists _, _; split; [reflexivity|]; cbn -[elem_of]; rewrite ?elem_of_cons, ?elem_of_nil;
  split_and!; intuition congruence.

Section Properties.
Context {DB : Type} `{!Database.Server DB, !AccountLaws.LawfulServer DB}.
Context (MD5 SHA1 SHA256 SHA512 : list Z -> list Z).
Context (rsa : list Z -> option (list Z)) (Hrsa : LoginPacket.rsa_ok rsa).
Context (c : nat).

#[local] Hint Extern 0 (ProtocolOps _) => exact (login_ops rsa c) : typeclass_instances.
#[local] Hint Extern 0 (ConnectionLife.ProtocolLaws _) => exact (login_laws rsa Hrsa c) : typeclass_instances.
Abbreviation world := (Session.world (DB := DB)).
Abbreviation run := (Session.run (DB := DB) MD5 SHA1 SHA256 SHA512 rsa c).
Abbreviation reachable := (Session.reachable (DB := DB) MD5 SHA1 SHA256 SHA512 rsa c).

(** A login session meets no undefined behaviour.  The connection, its service port,
    the login protocol, the pool of messages, the accounts and the dispatcher, put
    together: in every state a session can reach, whatever comes next (any bytes or error
    on the socket, a timer, a close() from any thread, the next task of the dispatcher, a
    message's pointer dropped or its release, a protocol's release tried again, any step
    of the other clients that keeps the pool's books), the handlers end, and none of them
    dereferences a protocol that has been deleted, a socket that is gone or a NULL
    pointer, or leaves a buffer. *)
Theorem session_never_stuck e ev s :
  reachable s -> env_good e -> allowed c ev s -> few s -> exists s', run e ev s = Some s'.
Proof.
  intros Hr He Ha Hfew. pose proof (reachable_good MD5 SHA1 SHA256 SHA512 rsa Hrsa c s Hr) as Hg.
  destruct (run_good MD5 SHA1 SHA256 SHA512 rsa Hrsa c e ev s Hg He Ha) as (s' & E & _); [by destruct ev|eauto].
Qed.

(** C7: a delegate runs in time.  The task of ProtocolLogin::delegate holds a plain pointer
    to its protocol, and the closure of the connection deletes the protocol.  In every
    state a session can reach, the tasks in the dispatcher's queue are delegates followed
    by at most one closure, which is there exactly while one is requested; each delegate
    is of the protocol the connection has, which exists and is bound to this connection,
    whose closure has not run yet. *)
Theorem delegate_in_time s :
  reachable s ->
  exists ds, queue s = map T_delegate ds ++
      (if decide (ConnectionLife.conn_state (csys s) = CONNECTION_STATE_REQUEST_CLOSE) then [T_closeConnection] else []) /\
    forall d, d ∈ ds -> m_protocol (connection_of (csys s)) = Some (protocol d) /\
      (exists pr, OutputMessagePool.protocols (pool_of s) !! protocol d = Some pr /\ Protocol.m_connection pr = Some c) /\
      (ConnectionLife.conn_state (csys s) = CONNECTION_STATE_OPEN \/
       ConnectionLife.conn_state (csys s) = CONNECTION_STATE_REQUEST_CLOSE).
Proof.
  intros Hr. pose proof (reachable_good MD5 SHA1 SHA256 SHA512 rsa Hrsa c s Hr) as Hg.
  destruct (good_queue rsa Hrsa c _ Hg) as (ds & Hq & Hds). exists ds. split.
  - rewrite Hq, (ConnectionLife.inv_close _ (good_conn rsa Hrsa c _ Hg)). by case_decide.
  - intros d Hd. pose proof (proj1 (Forall_forall _ _) Hds d Hd) as Hp. split; [done|]. split.
    + by apply LoginLaws.linked_protocol, (good_linked rsa Hrsa c).
    + destruct (inv_bound rsa Hrsa c _ _ (good_conn rsa Hrsa c _ Hg) Hp) as [Hs _].
      pose proof (ConnectionLife.ok_released _ (ConnectionLife.inv_ok _ (good_conn rsa Hrsa c _ Hg) Hs)) as Hrel.
      unfold ConnectionLife.conn_state, connection_of in *. destruct (m_connectionState _); auto; rewrite Hrel in Hp; auto; done.
Qed.

(** C2: a client that logs in is answered.  A connection is accepted; its client sends one
    frame, whose checksum is right and whose packet names the login protocol and carries
    a supported version and, in a block the private key opens, its key, name and password.
    Then the header and the packet are read, a protocol is made and bound, and the
    dispatcher has exactly one task, the delegate for that name, password and address;
    when it runs, one message is being written to the client and the closure of the
    connection is queued; that message is the reply the database's answers call for, and,
    when the reply fits a message, what goes over the wire is a frame from which a
    client with that key reads exactly the reply. *)
Theorem client_served e0 e1 e2 e3 memory time log x a :
  calm e0 -> calm e1 -> calm e2 -> calm e3 ->
  zlen memory = NETWORK_MAX_SIZE -> bytes_ok memory -> 0 <= time < 2 ^ 32 - 2 ->
  books (ProtocolLogin.pool x) -> AccountLaws.io_ok (ProtocolLogin.io x) ->
  is_Some (OutputMessagePool.connections (ProtocolLogin.pool x) !! c) -> PoolRun.few_messages (ProtocolLogin.pool x) ->
  LoginLaws.shut x = false -> 1 <= MAX_PACKETS_PER_SECOND (net e2) < 2 ^ 32 ->
  client_ok rsa a -> enabled_ip c (protocols e2) x ->
  exists s0 s1 s2 s3 p attempt fs id m',
    start c e0 memory time log x = Some s0 /\
    run e1 (Net (EvHeader NoError (le_bytes 2 149))) s0 = Some s1 /\
    run e2 (Net (EvPacket NoError (le_bytes 4 (Checksum.adler32 (login_packet a)) ++ login_packet a))) s1 = Some s2 /\
    queue s2 = [T_delegate (delegation_of c (protocols e2) p a)] /\
    run e3 Dispatch s2 = Some s3 /\ queue s3 = [T_closeConnection] /\
    LoginLaws.replies MD5 SHA1 SHA256 SHA512 (free_env e3) (name a) (password a) (ProtocolLogin.remote_ip (protocols e2) c)
      (ProtocolLogin.io x) attempt fs /\
    writing (csys s3) = [id] /\ id ∈ OutputMessagePool.held (pool_of s3) /\ store (pool_of s3) !! id = Some m' /\
    let payload := LoginLaws.script [] fs in
    (fits payload -> exists wire, OutputMessage.wire m' = Some wire /\ client_reads [k0 a; k1 a; k2 a; k3 a] payload wire).
Proof.
  intros He0 He1 He2 [He3 Hf3] Hm Hmb Ht Hb Hio Hc Hfew Hsh Hmax Ha Hip.
  destruct (login_posted MD5 SHA1 SHA256 SHA512 rsa Hrsa c e0 e1 e2 memory time log x a)
    as (s0 & s1 & p & m4 & x2 & time' & packets & E0 & _ & E1 & _ & E2 & R2 & Hio2 & Hsh2 & Hpr); try done.
  pose proof (SessionRun.reachable_good MD5 SHA1 SHA256 SHA512 rsa Hrsa c _ R2) as Hg.
  destruct (delegate_step MD5 SHA1 SHA256 SHA512 rsa Hrsa c e3 (free_env e2) m4 p (refs_of c x2) time' packets log x2 a Hg He3 Hf3) as
    (s3 & attempt & fs & id & m' & E3 & Hq & Hrep & Hwr & Hheld & Hstore & Hwire); [congruence|done|].
  eexists s0, s1, _, s3, p, attempt, fs, id, m'. split_and!; try done. by rewrite <- Hio2.
Qed.

(** C8: a client is answered at most once.  Whatever the client sends, whatever fails and
    whatever the other clients do: there is at most one answer to come, the first
    packet's or that of a delegate in the queue, and a step never adds one; while there is
    one, nothing is being written and the connection would not queue a message (so that
    sendAll has nothing of this client); and a step starts a write only when it spends
    the answer. *)
Theorem answered_once e ev s s' :
  reachable s -> allowed c ev s -> run e ev s = Some s' ->
  (answers_left s' <= answers_left s <= 1)%nat /\
  (answers_left s = 1%nat -> writing (csys s) = [] /\
     forall e, sending_of e (connection_of (csys s)) ∈ [OutputMessagePool.Refused; OutputMessagePool.Writing; OutputMessagePool.WriteFault]) /\
  (writing (csys s') = writing (csys s) \/ writing (csys s') = tail (writing (csys s)) \/
   answers_left s = 1%nat /\ answers_left s' = 0%nat /\ exists id, writing (csys s') = [id]).
Proof.
  intros Hr Ha E. pose proof (reachable_once MD5 SHA1 SHA256 SHA512 rsa c s Hr) as Ho.
  destruct (run_once MD5 SHA1 SHA256 SHA512 rsa c e ev s s' Ho Ha E) as [_ [Hle Hw]].
  destruct Ho as [Hl Hi _]. split; [done|]. split; [|naive_solver].
  intros H1. destruct (Hi H1) as [Hp Hwr]. split; [done|]. intros en. unfold sending_of. rewrite Hp. cbn -[elem_of].
  destruct (_ || _); [|destruct (fault en)]; rewrite ?elem_of_cons; auto.
Qed.

(** The connection and the pool agree on a message.  The two models meet in
    Connection::send, which the pool calls: the session tells the pool what the
    connection will do, from its state and the faults of the step, before the connection
    does it.  On a connection that has its socket, send returns false exactly when the
    pool was told the message is refused; it starts a write, puts the message on the
    queue of sendAll, or queues its own closure exactly when the pool was told so; and
    the world is left as the pool's side of the call has made it. *)
Theorem send_agrees e id (s : Connection.state world) :
  m_socket (conn s) <> SocketNull ->
  let how := sending_of e (conn s) in
  exists s' out, Connection.send e id s = Some (bool_decide (how <> OutputMessagePool.Refused), s', out) /\
    (Write_message id ∈ out <-> how = OutputMessagePool.Writing) /\
    (AutoSend id ∈ out <-> how = OutputMessagePool.Queued) /\
    (AddTask_closeConnection ∈ out <-> how = OutputMessagePool.Slow) /\
    Connection.world s' = Connection.world s.
Proof.
  intros Hs how. unfold how, sending_of. destruct s as [cn log w]. cbn [conn] in *.
  unfold Connection.send, encode, internalSend, close, logged, callWorld, onWorld, getHandle, is_state, get, update, skip, emit, gets, modify,
    lift, mret, proc_ret, mbind, proc_bind.
  cbn -[elem_of].
  destruct (bool_decide (m_connectionState cn ∈ [CONNECTION_STATE_OPEN])) eqn:Eo; cbn -[elem_of]; [|leaf].
  destruct (m_writeError cn) eqn:Ew; cbn -[elem_of]; [leaf|].
  assert (m_socket cn = SocketOpen \/ m_socket cn = SocketClosed) as Hsk by (destruct (m_socket cn); tauto).
  destruct (m_pendingWrite cn =? 0) eqn:Ep; cbn -[elem_of].
  - destruct (fault e), log, Hsk as [Es|Es]; cbn -[elem_of]; try rewrite Es; leaf.
  - destruct (_ && _) eqn:Ef; cbn -[elem_of]; [|leaf].
    apply bool_decide_eq_true, list_elem_of_singleton in Eo. rewrite Eo. leaf.
Qed.

End Properties.

(** ** The example *)

Definition example_env : env := Session.mkEnv ConnectionLife.example_env LoginPacket.example_env.
Definition example_memory : list Z := PoolRun.example_memory.
Definition example_client : client :=
  mkClient [2; 0] 963 0 0 0 (replicate 128 0) 1 2 3 4 ($"ann") ($"secret") LoginPacket.example_filler.

#[local] Existing Instance LoginPacket.example_database.
#[local] Existing Instance LoginPacket.example_lawful.
Abbreviation digest := LoginPacket.example_digest.
Abbreviation rsa := LoginPacket.example_block.
Abbreviation example_run := (Session.run digest digest digest digest rsa 7).
Abbreviation example_session := (Session.reachable digest digest digest digest rsa 7).

Lemma example_calm : calm example_env.
Proof. by split; [split; [by compute|exact LoginPacket.example_env_ok]|]. Qed.

Lemma example_client_ok : client_ok rsa example_client.
Proof.
  split.
  - split; [done|repeat constructor; by compute].
  - split; [done|]. split; [|done]. apply LoginPacket.bytes_check. vm_compute. reflexivity.
  - repeat constructor; try (by compute); apply lit_bytes_ok.
  - done.
  - by compute.
Qed.

Lemma example_state_ok :
  zlen example_memory = NETWORK_MAX_SIZE /\ bytes_ok example_memory /\
  books (ProtocolLogin.pool LoginPacket.example_state) /\ AccountLaws.io_ok (ProtocolLogin.io LoginPacket.example_state) /\
  is_Some (OutputMessagePool.connections (ProtocolLogin.pool LoginPacket.example_state) !! 7%nat) /\
  PoolRun.few_messages (ProtocolLogin.pool LoginPacket.example_state).
Proof.
  destruct PoolRun.example_memory_ok. destruct LoginPacket.example_ready.
  split_and!; try done; vm_compute; by eexists.
Qed.

(** The state in which the delegate of the client's login is queued. *)
Lemma example_posted :
  exists s d, example_session s /\ queue s = [T_delegate d].
Proof.
  destruct example_state_ok as (H1 & H2 & H3 & H4 & H5 & H6).
  destruct (login_posted digest digest digest digest rsa LoginPacket.example_block_ok 7 example_env example_env example_env
    example_memory 1000 true LoginPacket.example_state example_client)
    as (s0 & s1 & p & m4 & x2 & time' & packets & _ & _ & _ & _ & _ & R & _);
    first [exact example_calm|exact example_client_ok|assumption|idtac].
  - by compute.
  - by compute.
  - vm_compute. reflexivity.
  - by eexists _, _.
Qed.

(** The accepted connection. *)
Lemma example_started :
  exists s, start 7 example_env example_memory 1000 true LoginPacket.example_state = Some s /\ example_session s /\
    allowed 7 (Net (EvHeader NoError [255; 255])) s /\ few s.
Proof.
  destruct example_state_ok as (H1 & H2 & H3 & H4 & H5 & H6).
  pose proof (started 7 example_env example_memory 1000 true LoginPacket.example_state eq_refl) as E.
  eexists. split; [exact E|]. split; [|split; [split; [done|vm_compute; reflexivity]|exact H6]].
  apply (reach_start _ _ _ _ _ _ example_env example_memory 1000 true LoginPacket.example_state);
    [exact H1|exact H2| |exact (proj1 example_calm)|exact H3|exact H4|exact H5|exact E].
  lia.
Qed.

(** A header that promises more than a message holds, sent to the accepted connection. *)
Lemma session_never_stuck_witness :
  exists s s', start 7 example_env example_memory 1000 true LoginPacket.example_state = Some s /\
    example_run example_env (Net (EvHeader NoError [255; 255])) s = Some s'.
Proof.
  destruct example_started as (s & E & R & Ha & Hf). exists s.
  destruct (session_never_stuck digest digest digest digest rsa LoginPacket.example_block_ok 7 example_env
    (Net (EvHeader NoError [255; 255])) s R (proj1 example_calm) Ha Hf) as (s' & Hs').
  exists s'. split; [exact E|exact Hs'].
Defined.

(** The delegate is of the connection's protocol. *)
Lemma delegate_in_time_witness :
  exists s d, example_session s /\ queue s = [T_delegate d] /\ m_protocol (connection_of (csys s)) = Some (protocol d).
Proof.
  destruct example_posted as (s & d & R & Hq). exists s, d. split; [exact R|]. split; [exact Hq|].
  destruct (delegate_in_time digest digest digest digest rsa LoginPacket.example_block_ok 7 s R) as (ds & Hds & Hin).
  apply Hin. rewrite Hq in Hds. destruct ds as [|d' ds]; [by case_decide|]. injection Hds as -> _. left.
Defined.

(** The delegate spends the answer. *)
Lemma answered_once_witness :
  exists s s', example_session s /\ example_run example_env Dispatch s = Some s' /\ answers_left s = 1%nat /\ (answers_left s' <= 1)%nat.
Proof.
  destruct example_posted as (s & d & R & Hq).
  pose proof (reachable_good digest digest digest digest rsa LoginPacket.example_block_ok 7 s R) as Hg.
  destruct (delegate_good digest digest digest digest rsa LoginPacket.example_block_ok 7 example_env s d [] Hg (proj1 example_calm) Hq)
    as (s' & E & _).
  assert (allowed 7 Dispatch s) as Ha by (cbn; by rewrite Hq).
  destruct (answered_once digest digest digest digest rsa 7 example_env Dispatch s s' R Ha E) as (Hle & _ & _).
  assert (1 <= answers_left s)%nat as H1 by (unfold answers_left; rewrite Hq; cbn; lia).
  exists s, s'. split; [exact R|]. split; [exact E|]. lia.
Defined.

(** Ann logs in. *)
Lemma client_served_witness :
  exists s0 s1 s2 s3, start 7 example_env example_memory 1000 true LoginPacket.example_state = Some s0 /\
    example_run example_env (Net (EvHeader NoError (le_bytes 2 149))) s0 = Some s1 /\
    example_run example_env (Net (EvPacket NoError
      (le_bytes 4 (Checksum.adler32 (login_packet example_client)) ++ login_packet example_client))) s1 = Some s2 /\
    example_run example_env Dispatch s2 = Some s3 /\ queue s3 = [T_closeConnection].
Proof.
  destruct example_state_ok as (H1 & H2 & H3 & H4 & H5 & H6).
  destruct (client_served digest digest digest digest rsa LoginPacket.example_block_ok 7 example_env example_env example_env example_env
    example_memory 1000 true LoginPacket.example_state example_client)
    as (s0 & s1 & s2 & s3 & p & attempt & fs & id & m' & E0 & E1 & E2 & _ & E3 & Hq & _);
    first [exact example_calm|exact example_client_ok|assumption|idtac].
  - by compute.
  - vm_compute. reflexivity.
  - by compute.
  - vm_compute. reflexivity.
  - exists s0, s1, s2, s3. split_and!; done.
Defined.

Definition example_busy : t := setPending 1 1 (Connection.new example_memory 1000).

(** A message for a connection that is writing is queued. *)
Lemma send_agrees_witness :
  sending_of ConnectionLife.example_env example_busy = OutputMessagePool.Queued /\
  exists s' out, Connection.send (ProtocolOps0 := login_ops rsa 7) ConnectionLife.example_env 3 (mkState example_busy true
      (mkWorld LoginPacket.example_env LoginPacket.example_state [] [])) = Some (true, s', out) /\ AutoSend 3 ∈ out.
Proof.
  split; [vm_compute; reflexivity|].
  destruct (send_agrees rsa 7 ConnectionLife.example_env 3 (mkState example_busy true
    (mkWorld LoginPacket.example_env LoginPacket.example_state [] []))) as (s' & out & E & _ & H & _); [done|].
  exists s', out. split; [exact E|]. apply H. vm_compute. reflexivity.
Defined.

End SessionProps.
