(* ===== verification/Clients.v ===== *)
(** * All the clients of a server

    The sessions of every connection over what they share: the accounts and their database,
    the connection manager, the pool of messages, and the one queue of the dispatcher. *)
From S2P Require Import Prelude Proc Definitions OutMessage Proto Pool PoolLaws PoolRun Conn Db Accounts AccountLaws Login LoginLaws Session.

Module Clients.
Import Session.

Section Clients.
Context {DB : Type} `{!Database.Server DB}.
Variables MD5 SHA1 SHA256 SHA512 : list Z -> list Z.
Variable RSA_private_decrypt : list Z -> option (list Z).

Abbreviation lstate := (ProtocolLogin.state (DB := DB)).
Abbreviation session := (Session.sys (DB := DB)).
Abbreviation session_event := (Session.event (DB := DB)).

Record sys := mkSys {
  shared : lstate;
  clients : gmap nat session;           (* by connection; what is shared is as each saw it last *)
  queue : list (nat * Session.task)     (* the dispatcher's, each task with its connection *)
}.

(** A client's session, which finds what the others have made of what they share. *)
Definition seen (c : nat) (e : env) (x : lstate) (s : session) : session :=
  settle c (Session.queue s) (on_world (fun w => mkWorld (handlers w) x (posted w) (releases w)) (prepare e (csys s))).

(** Its tasks in the dispatcher's queue, in their order. *)
Definition tasks_of (c : nat) (q : list (nat * Session.task)) : list Session.task :=
  omap (fun kt => if decide (kt.1 = c) then Some kt.2 else None) q.

(** The session takes a step, and its new tasks go behind those of the dispatcher. *)
Definition step_of (c : nat) (e : env) (ev : session_event) (q : list (nat * Session.task)) (S : sys) : option sys :=
  s ← clients S !! c;
  s' ← Session.run MD5 SHA1 SHA256 SHA512 RSA_private_decrypt c e ev (seen c e (shared S) s);
  let kept := length (tasks_of c q) in
  Some (mkSys (login (world_of s')) (<[c := s']> (clients S)) (q ++ map (pair c) (drop kept (Session.queue s')))).

Inductive event :=
| Client (c : nat) (ev : session_event)                          (* anything but a task of the dispatcher *)
| Dispatch                                                       (* the dispatcher runs its first task *)
| Accepted (c : nat) (memory : list Z) (time : Z) (log : bool)   (* a new connection *)
| Freed (c : nat).                                               (* a connection nobody holds any more *)

Definition with_connections (f : gmap nat Z -> gmap nat Z) (x : lstate) : lstate :=
  ProtocolLogin.setPool (OutputMessagePool.setConnections f (ProtocolLogin.pool x)) x.

Definition step (e : env) (ev : event) (S : sys) : option sys :=
  match ev with
  | Client c ev => step_of c e ev (queue S) S
  | Dispatch =>
      match queue S with
      | [] => None
      | (c, _) :: q => step_of c e Session.Dispatch q S
      end
  | Accepted c memory time log =>
      let x := with_connections (insert c 0) (shared S) in
      s ← Session.start c e memory time log x;
      Some (mkSys x (<[c := s]> (clients S)) (queue S ++ map (pair c) (Session.queue s)))
  | Freed c => Some (mkSys (with_connections (delete c) (shared S)) (delete c (clients S)) (queue S))
  end.

(** Whose session an event is a step of, and which. *)
Definition stepping (ev : event) (S : sys) : option (nat * session_event) :=
  match ev with
  | Client c ev => Some (c, ev)
  | Dispatch => match queue S with [] => None | (c, _) :: _ => Some (c, Session.Dispatch) end
  | Accepted _ _ _ _ | Freed _ => None
  end.

(** ** What may happen *)

(** The events that are a client's own. *)
Definition personal (ev : session_event) : Prop :=
  match ev with Session.Dispatch | Session.Elsewhere _ => False | _ => True end.

(** A connection with nothing left to do. *)
Record idle (s : session) : Prop := {
  idle_protocol : Connection.m_protocol (Connection.connection_of (csys s)) = None;
  idle_releases : releases (world_of s) = [];
  idle_tasks : Session.queue s = []
}.

Definition allowed (e : env) (ev : event) (S : sys) : Prop :=
  match ev with
  | Client c ev => personal ev /\ exists s, clients S !! c = Some s /\ Session.allowed c ev (seen c e (shared S) s)
  | Dispatch => queue S <> []
  | Accepted c memory time _ =>
      clients S !! c = None /\ OutputMessagePool.connections (ProtocolLogin.pool (shared S)) !! c = None /\
      zlen memory = NETWORK_MAX_SIZE /\ bytes_ok memory /\ 0 <= time < 2 ^ 32 - 2
  | Freed c =>
      (exists s, clients S !! c = Some s /\ idle s) /\
      PoolRun.allowed (PoolRun.FreeConnection c) (ProtocolLogin.pool (shared S))
  end.

Definition few (S : sys) : Prop := PoolRun.few_messages (ProtocolLogin.pool (shared S)).

Inductive reachable : sys -> Prop :=
| reach_new x :
    PoolLaws.books (ProtocolLogin.pool x) -> AccountLaws.io_ok (ProtocolLogin.io x) -> reachable (mkSys x ∅ [])
| reach_next e ev S S' :
    reachable S -> env_good e -> allowed e ev S -> few S -> step e ev S = Some S' -> reachable S'.

End Clients.
End Clients.
