(* ===== verification/ClientsRun.v ===== *)
(** * All the clients: each is a session, and none disturbs another

    What [Session] assumes of the other clients is what every client's step keeps: the
    sessions of a server can be taken one at a time. *)
From S2P Require Import Prelude Proc Definitions OutMessage Proto Pool PoolFrame PoolLaws PoolRun Conn ConnFrame ConnLife Db Accounts AccountLaws Login LoginLaws LoginPacket Session SessionLaws SessionRun SessionOnce SessionGuard Clients.

Module ClientsRun.
Import PoolFrame PoolLaws Clients Session SessionLaws SessionRun SessionGuard.

Section Run.
Context {DB : Type} `{!Database.Server DB, !AccountLaws.LawfulServer DB}.
Context (MD5 SHA1 SHA256 SHA512 : list Z -> list Z).
Context (rsa : list Z -> option (list Z)) (Hrsa : LoginPacket.rsa_ok rsa).

Abbreviation lstate := (ProtocolLogin.state (DB := DB)).
Abbreviation session := (Session.sys (DB := DB)).
Abbreviation sys := (Clients.sys (DB := DB)).
Abbreviation live := (Session.reachable MD5 SHA1 SHA256 SHA512 rsa).
Abbreviation run := (Session.run MD5 SHA1 SHA256 SHA512 rsa).
Abbreviation step := (Clients.step MD5 SHA1 SHA256 SHA512 rsa).
Abbreviation step_of := (Clients.step_of MD5 SHA1 SHA256 SHA512 rsa).
Abbreviation reachable := (Clients.reachable MD5 SHA1 SHA256 SHA512 rsa).
Abbreviation spool S := (ProtocolLogin.pool (Clients.shared S)).

Record inv (S : sys) : Prop := {
  inv_books : books (spool S);
  inv_io : AccountLaws.io_ok (ProtocolLogin.io (Clients.shared S));
  inv_client c s : clients S !! c = Some s -> live c s /\ elsewhere c s (Clients.shared S);
  inv_later c1 c2 s1 s2 p : c1 <> c2 -> clients S !! c1 = Some s1 -> clients S !! c2 = Some s2 ->
    p ∈ releases (world_of s1) -> ~ (p ∈ releases (world_of s2));
  inv_queue c s : clients S !! c = Some s -> tasks_of c (Clients.queue S) = Session.queue s;
  inv_tasks c t : (c, t) ∈ Clients.queue S -> is_Some (clients S !! c)
}.

(** ** One session among the others *)

Lemma seen_live c e x s : live c s -> elsewhere c s x -> env_good e -> live c (seen c e x s).
Proof. intros Hl He Hg. by eapply (reach_step MD5 SHA1 SHA256 SHA512 rsa c e (Elsewhere x) s). Qed.

Lemma seen_queue c e x s : live c s -> Session.queue (seen c e x s) = Session.queue s.
Proof.
  intros Hl. pose proof (reachable_good MD5 SHA1 SHA256 SHA512 rsa Hrsa c s Hl) as Hg.
  destruct (good_queue rsa Hrsa c _ Hg) as (ds & Hq & _). pose proof (good_posted rsa Hrsa c _ Hg) as Hp.
  unfold seen, settle. cbn -[Nat.sub]. rewrite Hq, closes_queue, Nat.sub_diag. by rewrite app_nil_r.
Qed.

(** Its protocols, in the pool it sees. *)
Lemma own_known c s p :
  live c s -> own s p ->
  aspect Protocol.m_connection (pool_of s) p = Some (Some c) \/
  p ∈ releases (world_of s) /\ aspect Protocol.m_connection (pool_of s) p = Some None.
Proof.
  intros Hl Hp. pose proof (reachable_good MD5 SHA1 SHA256 SHA512 rsa Hrsa c s Hl) as Hg. destruct Hp as [Hp|Hp].
  - left. apply linked_aspect. by apply (good_linked rsa Hrsa c).
  - right. split; [done|].
    pose proof (ConnectionLife.inv_world _ (good_conn rsa Hrsa c _ Hg)) as Hf. apply (releases_let_go _ _ (fine_releases _ _ Hf) p Hp).
Qed.

Lemma own_exists c s p : live c s -> own s p -> is_Some (aspect face (pool_of s) p).
Proof.
  intros Hl Hp. destruct (own_known c s p Hl Hp) as [Hk|[_ Hk]]; rewrite aspect_face in Hk;
    destruct (aspect face (pool_of s) p); try done; by eexists.
Qed.

(** Two sessions have no protocol in common. *)
Lemma own_apart S c1 c2 s1 s2 p :
  inv S -> c1 <> c2 -> clients S !! c1 = Some s1 -> clients S !! c2 = Some s2 -> own s1 p -> own s2 p -> False.
Proof.
  intros Hi Hne H1 H2 Ho1 Ho2. destruct (inv_client _ Hi _ _ H1) as [L1 E1]. destruct (inv_client _ Hi _ _ H2) as [L2 E2].
  pose proof (elsewhere_protocols _ _ _ E1 p Ho1) as F1. pose proof (elsewhere_protocols _ _ _ E2 p Ho2) as F2.
  pose proof (own_known c1 s1 p L1 Ho1) as K1. pose proof (own_known c2 s2 p L2 Ho2) as K2.
  rewrite !aspect_face, <- F1 in K1. rewrite !aspect_face, <- F2 in K2.
  destruct K1 as [K1|[R1 K1]], K2 as [K2|[R2 K2]]; try congruence. by apply (inv_later _ Hi c1 c2 s1 s2 p).
Qed.

(** ** The dispatcher's queue *)

Lemma tasks_of_app c q1 q2 : tasks_of c (q1 ++ q2) = tasks_of c q1 ++ tasks_of c q2.
Proof. apply omap_app. Qed.
Lemma tasks_of_own c ts : tasks_of c (map (pair c) ts) = ts.
Proof. induction ts as [|t ts IH]; [done|]. unfold tasks_of in *. cbn. rewrite decide_True by done. by rewrite IH. Qed.
Lemma tasks_of_other c k ts : c <> k -> tasks_of c (map (pair k) ts) = [].
Proof. intros Hc. induction ts as [|t ts IH]; [done|]. unfold tasks_of in *. cbn. by rewrite decide_False. Qed.

(** A step of a session leaves the tasks in front of those it adds. *)
Lemma run_queue c e ev s s' :
  run c e ev s = Some s' ->
  exists new, Session.queue s' = match ev with Session.Dispatch => tail (Session.queue s) | _ => Session.queue s end ++ new.
Proof.
  intros E. destruct ev as [ev| |id|id|p|x]; cbn [Session.run] in E.
  - destruct (Connection.run _ _ _) as [cs|]; [|done]. injection E as <-. by eexists.
  - destruct (Session.queue s) as [|[d|] q]; [done| |].
    + destruct (call _ _) as [[[[] w] out]|]; [|done]. cbn [mbind option_bind] in E.
      destruct (Connection.absorb _ _) as [cs|]; [|done]. injection E as <-. by eexists.
    + destruct (Connection.run _ _ _) as [cs|]; [|done]. injection E as <-. by eexists.
  - unfold pool_step in E. destruct (pool_call _ _) as [[[] w]|]; [|done]. injection E as <-. by eexists.
  - unfold pool_step in E. destruct (pool_call _ _) as [[[] w]|]; [|done]. injection E as <-. by eexists.
  - unfold pool_step in E. destruct (pool_call _ _) as [[[] w]|]; [|done]. injection E as <-. by eexists.
  - injection E as <-. by eexists.
Qed.

(** ** What a step keeps *)

Lemma live_world c s :
  live c s -> books (pool_of s) /\ AccountLaws.io_ok (ProtocolLogin.io (login (world_of s))) /\ elsewhere c s (login (world_of s)).
Proof.
  intros Hl. pose proof (reachable_good MD5 SHA1 SHA256 SHA512 rsa Hrsa c s Hl) as Hg.
  pose proof (ConnectionLife.inv_world _ (good_conn rsa Hrsa c _ Hg)) as [Hb Hio Hc _ _]. by split_and!.
Qed.

(** The others find what they knew. *)
Lemma spared_elsewhere S c s s' k sk e :
  inv S -> clients S !! c = Some s -> k <> c -> clients S !! k = Some sk -> live c s' ->
  spared (seen c e (Clients.shared S) s) s' -> elsewhere k sk (login (world_of s')).
Proof.
  intros Hi Hs Hk Hsk Hl [F C _]. destruct (live_world c s' Hl) as (Hb & Hio & _). destruct (inv_client _ Hi _ _ Hsk) as [Lk [_ _ Ck Fk]].
  split; [done|done|by apply C|]. intros p Hp. rewrite <- (Fk p Hp). apply F; [|intros Hc; by apply (own_apart S k c sk s p)].
  change (is_Some (aspect face (spool S) p)). rewrite (Fk p Hp). by eapply own_exists.
Qed.

Lemma session_step S c e ev q s :
  inv S -> env_good e -> Clients.few S -> clients S !! c = Some s -> Session.allowed c ev (seen c e (Clients.shared S) s) ->
  match ev with Elsewhere _ => False | _ => True end ->
  tasks_of c q = match ev with Session.Dispatch => tail (Session.queue s) | _ => Session.queue s end ->
  (forall k, k <> c -> tasks_of k q = tasks_of k (Clients.queue S)) -> (forall k t, (k, t) ∈ q -> (k, t) ∈ Clients.queue S) ->
  exists S' s', step_of c e ev q S = Some S' /\ run c e ev (seen c e (Clients.shared S) s) = Some s' /\
    clients S' = <[c := s']> (clients S) /\ Clients.shared S' = login (world_of s') /\ inv S'.
Proof.
  intros Hi He Hfew Hs Ha Hev Hqc Hqk Hqt. set (s0 := seen c e (Clients.shared S) s) in *.
  destruct (inv_client _ Hi _ _ Hs) as [Hl Hel]. pose proof (seen_live c e _ s Hl Hel He) as L0. fold s0 in L0.
  destruct (run_good MD5 SHA1 SHA256 SHA512 rsa Hrsa c e ev s0 (reachable_good MD5 SHA1 SHA256 SHA512 rsa Hrsa c s0 L0) He Ha)
    as (s' & E & _); [by destruct ev|].
  assert (live c s') as L' by (eapply reach_step; [exact L0|exact He|exact Ha|by destruct ev|exact E]).
  assert (spared s0 s') as Hsp by (by apply (run_spares MD5 SHA1 SHA256 SHA512 rsa c e ev)).
  destruct (live_world c s' L') as (Hb' & Hio' & Hown).
  destruct (run_queue c e ev s0 s' E) as (new & Hnew).
  assert (Session.queue s0 = Session.queue s) as Hq0 by by apply seen_queue. rewrite Hq0 in Hnew.
  assert (Session.queue s' = tasks_of c q ++ new) as Hq' by (by rewrite Hqc, Hnew).
  eexists _, s'. split; [unfold Clients.step_of; rewrite Hs; cbn [mbind option_bind]; fold s0; by rewrite E|].
  split; [done|]. split; [done|]. split; [done|].
  assert (drop (length (tasks_of c q)) (Session.queue s') = new) as Hdrop by (by rewrite Hq', drop_app_length).
  rewrite Hdrop. split; cbn [Clients.shared Clients.clients Clients.queue].
  - exact Hb'.
  - exact Hio'.
  - intros k sk. destruct (decide (k = c)) as [->|Hk]; [rewrite lookup_insert_eq; intros [= <-]; by split|].
    rewrite lookup_insert_ne by done. intros Hsk. split; [by apply (inv_client _ Hi)|]. by eapply (spared_elsewhere S c s).
  - assert (forall k sk p, k <> c -> clients S !! k = Some sk -> p ∈ releases (world_of s') -> ~ (p ∈ releases (world_of sk))) as Hlater.
    { intros k sk p Hk Hsk Hp Hpk. destruct (spared_own _ _ Hsp p) as [Ho|Hn]; [by right| |].
      - by apply (own_apart S k c sk s p); [| | | |right|].
      - destruct (inv_client _ Hi _ _ Hsk) as [Lk [_ _ _ Fk]]. destruct (own_exists k sk p Lk) as [f Hf]; [by right|].
        rewrite <- (Fk p) in Hf by (by right). change (aspect face (spool S) p = None) in Hn. congruence. }
    intros c1 c2 s1 s2 p Hne H1 H2 P1 P2.
    destruct (decide (c1 = c)) as [->|N1]; [rewrite lookup_insert_eq in H1; injection H1 as <-; rewrite lookup_insert_ne in H2 by done; by eapply Hlater|].
    rewrite lookup_insert_ne in H1 by done.
    destruct (decide (c2 = c)) as [->|N2]; [rewrite lookup_insert_eq in H2; injection H2 as <-; by eapply Hlater|].
    rewrite lookup_insert_ne in H2 by done. by eapply (inv_later _ Hi c1 c2).
  - intros k sk. rewrite tasks_of_app. destruct (decide (k = c)) as [->|Hk].
    + rewrite lookup_insert_eq, tasks_of_own. intros [= <-]. done.
    + rewrite lookup_insert_ne, tasks_of_other, app_nil_r, Hqk by done. apply (inv_queue _ Hi).
  - intros k t [Hk|Hk]%elem_of_app.
    + destruct (decide (k = c)) as [->|]; [rewrite lookup_insert_eq; by eexists|]. rewrite lookup_insert_ne by done. eapply inv_tasks; [exact Hi|by apply Hqt].
    + apply list_elem_of_fmap in Hk as (x & [= -> _] & _). rewrite lookup_insert_eq. by eexists.
Qed.

(** ** Connections that come and go *)

Lemma inv_connections S f :
  inv S -> books (OutputMessagePool.setConnections f (spool S)) ->
  (forall k s, clients S !! k = Some s -> is_Some (OutputMessagePool.connections (spool S) !! k) ->
     is_Some (f (OutputMessagePool.connections (spool S)) !! k)) ->
  inv (Clients.mkSys (with_connections f (Clients.shared S)) (clients S) (Clients.queue S)).
Proof.
  intros [Hb Hio Hc Hl Hq Ht] Hb' Hf. split; try done. intros c s Hs. destruct (Hc c s Hs) as [Lc [_ _ Ck Fk]].
  split; [done|]. split; [done|done|by eapply Hf|exact Fk].
Qed.

(** Nothing happens to what is shared when a connection is accepted. *)
Lemma start_world c e memory time log (x : lstate) s :
  start c e memory time log x = Some s -> login (world_of s) = x /\ releases (world_of s) = [].
Proof.
  unfold start. set (s0 := prepare e _). set (same := fun (s : Connection.state (Session.world (DB := DB))) (_ : list Connection.request) s' =>
    Connection.world s' = Connection.world s).
  assert (Composes same) as Hc by (split; [done|]; unfold same; congruence).
  assert (ConnFrame.Minor same) as Hm by (split; done).
  assert (respects same (Connection.readHeader (net e))) as Hr by (apply ConnFrame.readHeader_minor; [exact Hc|exact Hm]).
  destruct (Connection.accept (net e) (Connection.st s0)) as [[[[] y] out]|] eqn:E; [|done]. intros [= <-].
  apply Hr in E. unfold same in E. unfold world_of. cbn. by rewrite E.
Qed.

Lemma tasks_of_known c t q : (c, t) ∈ q -> t ∈ tasks_of c q.
Proof. intros Hq. apply list_elem_of_omap. exists (c, t). split; [done|]. cbn. by rewrite decide_True. Qed.

Lemma tasks_of_unknown c q : (forall t, ~ ((c, t) ∈ q)) -> tasks_of c q = [].
Proof.
  induction q as [|[k t] q IH]; intros Hq; [done|]. unfold tasks_of in *. cbn. case_decide as Hk.
  - subst k. destruct (Hq t). left.
  - apply IH. intros t' Ht'. destruct (Hq t'). by right.
Qed.

Lemma accepted_step S c e memory time log :
  inv S -> env_good e -> Clients.allowed e (Accepted c memory time log) S ->
  exists S', step e (Accepted c memory time log) S = Some S' /\ inv S'.
Proof.
  intros Hi He (Hc & Hpc & Hm & Hmb & Ht). pose proof Hi as [Hb Hio _ _ _ _]. set (x := with_connections (insert c 0) (Clients.shared S)).
  destruct (PoolRun.run_books (PoolRun.NewConnection c) (spool S) Hb Hpc) as ([] & y & out & Ey & Hbx). injection Ey as <- <-.
  assert (is_Some (OutputMessagePool.connections (ProtocolLogin.pool x) !! c)) as Hxc by (cbn; rewrite lookup_insert_eq; by eexists).
  destruct (start_good rsa Hrsa c e memory time log x Hm Hmb Ht He Hbx Hio Hxc) as (s & E & Hg).
  assert (live c s) as Hl by (by apply (reach_start _ _ _ _ _ _ e memory time log x)).
  destruct (start_world c e memory time log x s E) as [Hw Hr].
  eexists. cbn [Clients.step]. fold x. rewrite E. split; [done|].
  assert (inv (Clients.mkSys x (clients S) (Clients.queue S))) as [_ _ Hcl Hlt Hq Hts].
  { apply (inv_connections S (insert c 0)); [done|exact Hbx|]. intros k sk Hsk Hk. rewrite lookup_insert_ne; [done|congruence]. }
  cbn [Clients.shared Clients.clients Clients.queue] in *. split; cbn [Clients.shared Clients.clients Clients.queue].
  - exact Hbx.
  - exact Hio.
  - intros k sk. destruct (decide (k = c)) as [->|Hk]; [rewrite lookup_insert_eq; intros [= <-]|rewrite lookup_insert_ne by done; apply Hcl].
    split; [done|]. rewrite <- Hw. by apply live_world.
  - intros c1 c2 s1 s2 p Hne. destruct (decide (c1 = c)) as [->|N1].
    + rewrite lookup_insert_eq. intros [= <-] _ Hp. rewrite Hr in Hp. by apply elem_of_nil in Hp.
    + rewrite lookup_insert_ne by done. destruct (decide (c2 = c)) as [->|N2]; [|rewrite lookup_insert_ne by done; by apply Hlt].
      rewrite lookup_insert_eq. intros _ [= <-] _. rewrite Hr. apply not_elem_of_nil.
  - intros k sk. rewrite tasks_of_app. destruct (decide (k = c)) as [->|Hk].
    + rewrite lookup_insert_eq, tasks_of_own. intros [= <-]. rewrite tasks_of_unknown; [done|]. intros t Hct.
      destruct (Hts _ _ Hct). congruence.
    + rewrite lookup_insert_ne, tasks_of_other, app_nil_r by done. apply Hq.
  - intros k t [Hk|Hk]%elem_of_app.
    + destruct (decide (k = c)) as [->|]; [rewrite lookup_insert_eq; by eexists|]. rewrite lookup_insert_ne by done. by eapply Hts.
    + apply list_elem_of_fmap in Hk as (z & [= -> _] & _). rewrite lookup_insert_eq. by eexists.
Qed.

Lemma freed_step S c e : inv S -> Clients.allowed e (Freed c) S -> exists S', step e (Freed c) S = Some S' /\ inv S'.
Proof.
  intros Hi [(s & Hs & [_ _ Hqs]) Hc]. pose proof (inv_books _ Hi) as Hb.
  destruct (PoolRun.run_books (PoolRun.FreeConnection c) (spool S) Hb Hc) as ([] & y & out & Ey & Hbx). injection Ey as <- <-.
  eexists. split; [done|]. pose proof (inv_queue _ Hi c s Hs) as Hqc. rewrite Hqs in Hqc.
  destruct Hi as [_ Hio Hcl Hlt Hq Hts]. split; cbn [Clients.shared Clients.clients Clients.queue]; try done.
  - intros k sk [Hk Hsk]%lookup_delete_Some. destruct (Hcl k sk Hsk) as [Lk [_ _ Ck Fk]].
    split; [done|]. split; [done|done| |exact Fk]. cbn. by rewrite lookup_delete_ne.
  - intros c1 c2 s1 s2 p Hne [_ H1]%lookup_delete_Some [_ H2]%lookup_delete_Some. by apply (Hlt c1 c2).
  - intros k sk [_ Hsk]%lookup_delete_Some. by apply Hq.
  - intros k t Hk. destruct (decide (k = c)) as [->|]; [|rewrite lookup_delete_ne by done; by eapply Hts].
    apply tasks_of_known in Hk. rewrite Hqc in Hk. by apply elem_of_nil in Hk.
Qed.

(** ** Every step *)

(** What becomes of a client in a step of the server. *)
Definition follows (e : env) (ev : Clients.event) (S S' : sys) (c : nat) (s : session) : Prop :=
  (forall ev', stepping ev S = Some (c, ev') ->
     exists s', run c e ev' (seen c e (Clients.shared S) s) = Some s' /\ clients S' !! c = Some s' /\
       Clients.shared S' = login (world_of s')) /\
  ((forall ev', stepping ev S <> Some (c, ev')) -> ev <> Clients.Freed c -> clients S' !! c = Some s).

Lemma session_follows e ev S S' c ev' sc s' :
  stepping ev S = Some (c, ev') -> clients S !! c = Some sc -> run c e ev' (seen c e (Clients.shared S) sc) = Some s' ->
  clients S' = <[c := s']> (clients S) -> Clients.shared S' = login (world_of s') ->
  forall k sk, clients S !! k = Some sk -> follows e ev S S' k sk.
Proof.
  intros Hev Hc Er HS' Hsh k sk Hsk. split.
  - intros ek Hk. rewrite Hev in Hk. injection Hk as <- <-. rewrite Hc in Hsk. injection Hsk as <-.
    exists s'. by rewrite HS', lookup_insert_eq.
  - intros Hk _. rewrite HS', lookup_insert_ne; [done|]. intros ->. by apply (Hk ev').
Qed.

Lemma inv_step e ev S :
  inv S -> env_good e -> Clients.allowed e ev S -> Clients.few S ->
  exists S', step e ev S = Some S' /\ inv S' /\ forall c s, clients S !! c = Some s -> follows e ev S S' c s.
Proof.
  intros Hi He Ha Hfew. destruct ev as [c ev| |c memory time log|c].
  - destruct Ha as [Hp (s & Hs & Ha)].
    destruct (session_step S c e ev (Clients.queue S) s Hi He Hfew Hs Ha) as (S' & s' & E & Er & HS' & Hsh & Hi'); try done;
      [by destruct ev|by rewrite (inv_queue _ Hi c s Hs); destruct ev|].
    exists S'. split; [exact E|]. split; [done|]. by eapply session_follows.
  - destruct (Clients.queue S) as [|[c t] q] eqn:Hq; [by destruct Ha|]. destruct (inv_tasks _ Hi c t) as [s Hs]; [rewrite Hq; left|].
    pose proof (inv_queue _ Hi c s Hs) as Hqc. rewrite Hq in Hqc. unfold tasks_of in Hqc. cbn in Hqc. rewrite decide_True in Hqc by done.
    destruct (inv_client _ Hi c s Hs) as [Hl _].
    destruct (session_step S c e Session.Dispatch q s Hi He Hfew Hs) as (S' & s' & E & Er & HS' & Hsh & Hi'); try done.
    + cbn [Session.allowed]. rewrite (seen_queue c e (Clients.shared S) s Hl), <- Hqc. done.
    + by rewrite <- Hqc.
    + intros k Hk. rewrite Hq. unfold tasks_of. cbn. by rewrite decide_False.
    + intros k t' Hk. rewrite Hq. by right.
    + exists S'. cbn [Clients.step]. rewrite Hq. split; [exact E|]. split; [done|].
      eapply session_follows; [cbn; by rewrite Hq|exact Hs|exact Er|exact HS'|exact Hsh].
  - destruct (accepted_step S c e memory time log Hi He Ha) as (S' & E & Hi'). exists S'. split; [done|]. split; [done|].
    intros k sk Hsk. split; [done|]. intros _ _. cbn [Clients.step] in E. destruct (start _ _ _ _ _ _); [|done]. injection E as <-. cbn.
    rewrite lookup_insert_ne; [done|]. destruct Ha as [Hc _]. congruence.
  - destruct (freed_step S c e Hi Ha) as (S' & E & Hi'). exists S'. split; [done|]. split; [done|].
    intros k sk Hsk. injection E as <-. split; [done|]. intros _ Hk. cbn. rewrite lookup_delete_ne; [done|congruence].
Qed.

Lemma server_inv S : reachable S -> inv S.
Proof.
  induction 1 as [x Hb Hio|e ev S S' _ IH He Ha Hfew E].
  - split; try done. intros c t Hq. by apply elem_of_nil in Hq.
  - destruct (inv_step e ev S IH He Ha Hfew) as (S1 & E1 & Hi & _). congruence.
Qed.

End Run.
End ClientsRun.
