(* ===== verification/ClientsProps.v ===== *)
(** * All the clients: the properties

    The server with any number of clients, over the example of [SessionProps]. *)
From S2P Require Import Prelude Proc CString Definitions OutMessage Proto Pool PoolFrame PoolLaws PoolRun Conn ConnLife Db Accounts AccountLaws Login LoginLaws LoginPacket Session SessionLaws SessionRun SessionProps Clients ClientsRun.

Module ClientsProps.
Import Clients ClientsRun.

Section Properties.
Context {DB : Type} `{!Database.Server DB, !AccountLaws.LawfulServer DB}.
Context (MD5 SHA1 SHA256 SHA512 : list Z -> list Z).
Context (rsa : list Z -> option (list Z)) (Hrsa : LoginPacket.rsa_ok rsa).

Abbreviation sys := (Clients.sys (DB := DB)).
Abbreviation step := (Clients.step MD5 SHA1 SHA256 SHA512 rsa).
Abbreviation reachable := (Clients.reachable MD5 SHA1 SHA256 SHA512 rsa).

(** A server with any number of clients meets no undefined behaviour.  Connections are
    accepted at any time; what happens to each (bytes, errors, timers, closures, releases)
    and the tasks of the dispatcher's one queue interleave in any order, over the accounts,
    the connection manager and the pool all clients share: every handler ends, and none
    dereferences a protocol that has been deleted, a socket that is gone or a NULL
    pointer, or leaves a buffer. *)
Theorem clients_never_stuck e ev (S : sys) :
  reachable S -> Session.env_good e -> allowed e ev S -> few S -> exists S', step e ev S = Some S'.
Proof.
  intros Hr He Ha Hfew. pose proof (server_inv MD5 SHA1 SHA256 SHA512 rsa Hrsa S Hr) as Hi.
  destruct (inv_step MD5 SHA1 SHA256 SHA512 rsa Hrsa e ev S Hi He Ha Hfew) as (S' & E & _). eauto.
Qed.

(** C5: every client has a session of its own.  The server refines the sessions of its
    clients: in every state it can reach, each client's is a session that [Session] can
    reach, and its tasks are in the dispatcher's queue in its order.  An event of a client,
    and a task at the front of the queue, is a step of that client's session over what the
    others have made of what they share, and leaves what they share as that session has
    made it.  For every other client, unless it is the one that is freed, nothing happens
    to its session but what it allows others to do: its connection is known, and its
    protocols keep their connection and their key. *)
Theorem clients_are_sessions e ev (S S' : sys) c s :
  reachable S -> Session.env_good e -> allowed e ev S -> few S -> step e ev S = Some S' -> clients S !! c = Some s ->
  Session.reachable MD5 SHA1 SHA256 SHA512 rsa c s /\ tasks_of c (queue S) = Session.queue s /\
  (forall ev', stepping ev S = Some (c, ev') ->
     exists s', Session.run MD5 SHA1 SHA256 SHA512 rsa c e ev' (seen c e (shared S) s) = Some s' /\
       clients S' !! c = Some s' /\ shared S' = Session.login (Session.world_of s')) /\
  ((forall ev', stepping ev S <> Some (c, ev')) -> ev <> Freed c ->
     clients S' !! c = Some s /\ Session.elsewhere c s (shared S')).
Proof.
  intros Hr He Ha Hfew E Hs. pose proof (server_inv MD5 SHA1 SHA256 SHA512 rsa Hrsa S Hr) as Hi.
  destruct (inv_step MD5 SHA1 SHA256 SHA512 rsa Hrsa e ev S Hi He Ha Hfew) as (S1 & E1 & Hi' & Hstep).
  rewrite E in E1. injection E1 as <-. destruct (inv_client _ _ _ _ _ _ Hi c s Hs) as [Hl _].
  split; [done|]. split; [by eapply inv_queue|]. destruct (Hstep c s Hs) as [H1 H2]. split; [exact H1|].
  intros Hn Hf. specialize (H2 Hn Hf). split; [done|]. by destruct (inv_client _ _ _ _ _ _ Hi' c s H2).
Qed.

End Properties.

(** ** The example *)

#[local] Existing Instance LoginPacket.example_database.
#[local] Existing Instance LoginPacket.example_lawful.
Abbreviation digest := LoginPacket.example_digest.
Abbreviation rsa := LoginPacket.example_block.
Abbreviation example_step := (Clients.step digest digest digest digest rsa SessionProps.example_env).
Abbreviation example_server := (Clients.reachable digest digest digest digest rsa).

Definition example_new : Clients.sys (DB := unit) := mkSys LoginPacket.example_state ∅ [].
Definition example_accept (c : nat) : Clients.event (DB := unit) := Accepted c SessionProps.example_memory 1000 true.

Lemma example_new_reachable : example_server example_new.
Proof.
  destruct SessionProps.example_state_ok as (_ & _ & Hb & Hio & _). by apply reach_new.
Qed.

Lemma example_accept_allowed c (S : Clients.sys (DB := unit)) :
  clients S !! c = None -> OutputMessagePool.connections (ProtocolLogin.pool (shared S)) !! c = None ->
  allowed SessionProps.example_env (example_accept c) S.
Proof. destruct SessionProps.example_state_ok as (Hm & Hb & _). intros. split_and!; try done. Qed.

(** A connection is accepted. *)
Lemma clients_never_stuck_witness :
  example_server example_new /\ exists S, example_step (example_accept 8) example_new = Some S.
Proof.
  split; [exact example_new_reachable|].
  apply (clients_never_stuck digest digest digest digest rsa LoginPacket.example_block_ok SessionProps.example_env (example_accept 8) example_new).
  - exact example_new_reachable.
  - exact (proj1 SessionProps.example_calm).
  - apply example_accept_allowed; vm_compute; reflexivity.
  - exact (proj2 (proj2 (proj2 (proj2 (proj2 SessionProps.example_state_ok))))).
Defined.

(** Two connections are accepted; the first does not notice the second. *)
Lemma example_one :
  exists S s, example_server S /\ clients S = {[8%nat := s]} /\ shared S = with_connections (insert 8%nat 0) LoginPacket.example_state.
Proof.
  assert (allowed SessionProps.example_env (example_accept 8) example_new) as Ha by (apply example_accept_allowed; vm_compute; reflexivity).
  assert (few example_new) as Hf by exact (proj2 (proj2 (proj2 (proj2 (proj2 SessionProps.example_state_ok))))).
  pose proof (server_inv digest digest digest digest rsa LoginPacket.example_block_ok _ example_new_reachable) as Hi.
  destruct (inv_step digest digest digest digest rsa LoginPacket.example_block_ok SessionProps.example_env (example_accept 8) example_new Hi
    (proj1 SessionProps.example_calm) Ha Hf) as (S & E & _).
  pose proof (reach_next digest digest digest digest rsa SessionProps.example_env (example_accept 8) _ S example_new_reachable
    (proj1 SessionProps.example_calm) Ha Hf E) as Hr.
  cbn [step example_accept] in E. destruct (Session.start _ _ _ _ _ _) as [s|]; [|discriminate E]. injection E as <-.
  eexists _, s. split; [exact Hr|]. by split.
Qed.

Lemma clients_are_sessions_witness :
  exists S s S', example_server S /\ clients S !! 8%nat = Some s /\ example_step (example_accept 9) S = Some S' /\
    clients S' !! 8%nat = Some s /\ Session.reachable digest digest digest digest rsa 8 s.
Proof.
  destruct example_one as (S & s & Hr & Hc & Hsh).
  assert (allowed SessionProps.example_env (example_accept 9) S) as Ha.
  { apply example_accept_allowed; [by rewrite Hc|rewrite Hsh; vm_compute; reflexivity]. }
  assert (few S) as Hf.
  { unfold few. rewrite Hsh. exact (proj2 (proj2 (proj2 (proj2 (proj2 SessionProps.example_state_ok))))). }
  pose proof (server_inv digest digest digest digest rsa LoginPacket.example_block_ok _ Hr) as Hi.
  destruct (inv_step digest digest digest digest rsa LoginPacket.example_block_ok SessionProps.example_env (example_accept 9) S Hi
    (proj1 SessionProps.example_calm) Ha Hf) as (S' & E & _).
  assert (clients S !! 8%nat = Some s) as Hs by by rewrite Hc.
  exists S, s, S'. split; [exact Hr|]. split; [exact Hs|]. split; [exact E|].
  destruct (clients_are_sessions digest digest digest digest rsa LoginPacket.example_block_ok SessionProps.example_env (example_accept 9) S S' 8 s
    Hr (proj1 SessionProps.example_calm) Ha Hf E Hs) as (Hl & _ & _ & H).
  split; [|exact Hl]. apply H; discriminate.
Defined.

End ClientsProps.
