(* ===== verification/Program.v ===== *)
(** * The whole server

    The service ports in front of the clients: a connection that a port accepts becomes a
    session, over the one connection manager that the ports, the sessions and the login
    protocol share.  (src/net/server.cpp, src/net/connection.cpp, src/protocol/protocollogin.cpp) *)
From S2P Require Import Prelude Proc Definitions Pool PoolLaws PoolRun Conn ConnMgr Db Accounts AccountLaws Login Server ServerLaws ServerRun Session SessionList Clients.

Module Program.
Import Server.

Section Program.
Context {DB : Type} `{!Database.Server DB}.
Variables MD5 SHA1 SHA256 SHA512 : list Z -> list Z.
Variable RSA_private_decrypt : list Z -> option (list Z).

Abbreviation lstate := (ProtocolLogin.state (DB := DB)).

Record sys := mkSys {
  gate : ServerLaws.sys;                    (* the ports; their manager is the clients' *)
  inside : Clients.sys (DB := DB)
}.

Record env := mkEnv { ports_env : Server.env; session_env : Session.env }.

(** ** The connection manager *)

Definition manager (S : sys) : ConnectionManager.t := ProtocolLogin.manager (Clients.shared (inside S)).

Definition manage (f : ConnectionManager.t -> ConnectionManager.t) (I : Clients.sys (DB := DB)) : Clients.sys (DB := DB) :=
  Clients.mkSys (ProtocolLogin.setManager f (Clients.shared I)) (Clients.clients I) (Clients.queue I).

(** The ports, with the manager as it is now. *)
Definition knowing (m : ConnectionManager.t) (x : ServerLaws.sys) : ServerLaws.sys :=
  ServerLaws.mkSys (setConnections m (ServerLaws.net x)) (ServerLaws.restarts x) (ServerLaws.closes x).

(** ** What happens *)

Inductive event :=
| Gate (ev : ServerLaws.event) (memory : list Z) (time : Z) (log : bool)   (* the ports; of a new connection, its memory and the time *)
| Inside (ev : Clients.event (DB := DB)).

(** What the handler of an accept asks for. *)
Definition requests (e : Server.env) (ev : ServerLaws.event) (x : ServerLaws.sys) : list request :=
  match ev with
  | ServerLaws.EvAccept op c =>
      match handle e op c (ServerLaws.completed op (ServerLaws.net x)) with Some (_, _, out) => out | None => [] end
  | _ => []
  end.

(** The connections to start. *)
Definition connected (out : list request) : list nat :=
  omap (fun r => match r with Connection_accept c _ _ => Some c | _ => None end) out.

(** The end of a connection is told to the manager. *)
Definition told (ev : Clients.event (DB := DB)) : ConnectionManager.t -> ConnectionManager.t :=
  match ev with
  | Clients.Client c (Session.Net Connection.EvStop) => fun m => (ConnectionManager.releaseConnection c m).2
  | _ => id
  end.

Definition step (e : env) (ev : event) (S : sys) : option sys :=
  match ev with
  | Gate ev memory time log =>
      let x := knowing (manager S) (gate S) in
      x' ← ServerLaws.run (ports_env e) ev x;
      let I := manage (fun _ => connections (ServerLaws.net x')) (inside S) in
      match connected (requests (ports_env e) ev x) with
      | [] => Some (mkSys x' I)
      | c :: _ =>
          I ← Clients.step MD5 SHA1 SHA256 SHA512 RSA_private_decrypt (session_env e) (Clients.Accepted c memory time log) I;
          Some (mkSys x' I)
      end
  | Inside ev =>
      I ← Clients.step MD5 SHA1 SHA256 SHA512 RSA_private_decrypt (session_env e) ev (inside S);
      Some (mkSys (gate S) (manage (told ev) I))
  end.

(** ** What may happen *)

(** The program adds the login service, and stops the manager only when it ends (in the
    manager's destructor); a connection the manager still has is not freed. *)
Definition allowed (e : env) (ev : event) (S : sys) : Prop :=
  match ev with
  | Gate ev memory time log =>
      ServerLaws.enabled ev (gate S) = true /\
      match ev with ServerLaws.EvAdd s _ _ => s = Service.login | ServerLaws.EvStop => False | _ => True end /\
      zlen memory = NETWORK_MAX_SIZE /\ bytes_ok memory /\ 0 <= time < 2 ^ 32 - 2
  | Inside ev =>
      Clients.allowed (session_env e) ev (inside S) /\
      match ev with
      | Clients.Accepted _ _ _ _ => False
      | Clients.Freed c => c ∉ ConnectionManager.m_connections (manager S)
      | _ => True
      end
  end.

Record env_good (e : env) : Prop := {
  good_ports : ServerLaws.env_ok (ports_env e);
  good_session : Session.env_good (session_env e)
}.

Definition few (S : sys) : Prop := Clients.few (inside S).

(** The start: no port, no client, an empty list of connections. *)
Inductive reachable : sys -> Prop :=
| reach_new x :
    PoolLaws.books (ProtocolLogin.pool x) -> AccountLaws.io_ok (ProtocolLogin.io x) ->
    OutputMessagePool.connections (ProtocolLogin.pool x) = ∅ ->
    ConnectionManager.m_connections (ProtocolLogin.manager x) = [] ->
    reachable (mkSys ServerLaws.start (Clients.mkSys x ∅ []))
| reach_next e ev S S' :
    reachable S -> env_good e -> allowed e ev S -> few S -> step e ev S = Some S' -> reachable S'.

End Program.
End Program.
