(* ===== verification/ProgramRun.v ===== *)
(** * The whole server: its invariant

    The ports, the sessions and the manager's list agree in every state the server can
    reach. *)
From S2P Require Import Prelude Proc CString StdMap Definitions Pool PoolFrame PoolLaws PoolRun Conn ConnFrame ConnMgr Db Accounts AccountLaws Login LoginLaws LoginPacket Server ServerLaws ServerRun Session SessionLaws SessionRun SessionGuard SessionList Clients ClientsRun Program.

Module ProgramRun.
Import Server SessionGuard SessionList.
Import ServerLaws (handle_failed, handle_accepted, books_services, remoteIp_v4, completed, welcome).
#[local] Existing Instance Connection.asio_error_eq_dec.

(** ** The ports keep to themselves

    They have login services only, names are given out in increasing order, and only an
    accept looks at the manager. *)

Definition all_login (s : state) : Prop := forall p P, ports s !! p = Some P -> Forall (eq Service.login) (ServicePort.m_services P).

Record apart (s : state) (out : list request) (s' : state) : Prop := {
  apart_fresh : (fresh s <= fresh s')%nat;
  apart_manager : connections s' = connections s;
  apart_login : all_login s -> all_login s'
}.

#[export] Instance apart_composes : Composes apart.
Proof. split; [done|]. intros s1 o1 s2 o2 s3 [F1 M1 L1] [F2 M2 L2]. split; [lia|congruence|auto]. Qed.

Lemma port_apart p : respects apart (port p).
Proof. unfold port. respects. Qed.
Lemma emit_apart r : respects apart (emit r).
Proof. by apply respects_emit. Qed.
Lemma new_apart : respects apart new.
Proof.
  intros s n s' out E. unfold new in E. autorewrite with proc in E. injection E as _ <- <-. split; [cbn; lia|done|done].
Qed.

Lemma onPort_apart p f : (forall P, ServicePort.m_services (f P) = ServicePort.m_services P) -> respects apart (onPort p f).
Proof.
  intros Hf s [] s' out E. unfold onPort, port in E. autorewrite with proc in E.
  destruct (ports s !! p) as [P|] eqn:Hp; [|done]. autorewrite with proc in E. injection E as <- <-.
  split; [done|done|]. intros Ha q Q. cbn. rewrite lookup_insert_Some. intros [[<- <-]|[_ Hq]]; [|by eapply Ha].
  rewrite Hf. by eapply Ha.
Qed.

Ltac alone := respects; first [apply port_apart|apply emit_apart|apply new_apart|by apply onPort_apart|by split|idtac].

Lemma accept_apart e p a : respects apart (accept e p a).
Proof. unfold accept. alone. Qed.

Lemma open_apart e p ips sp : respects apart (open e p ips sp).
Proof.
  assert (forall ips i, respects apart (open_loop e p sp i ips)) as Hl.
  { clear ips. induction ips as [|ip ips IH]; intros i; cbn [open_loop]; alone; first [apply accept_apart|apply IH]. }
  unfold open. alone. apply Hl.
Qed.

Lemma close_apart p : respects apart (close p).
Proof. unfold close. alone. Qed.

Lemma delete_apart p : respects apart (delete p).
Proof.
  unfold delete. apply respects_bind; [apply _|apply close_apart|intros _]. apply respects_modify. intros s. split; [done|done|].
  intros Ha q Q. cbn. intros [_ Hq]%lookup_delete_Some. by eapply Ha.
Qed.

Lemma services_apart e p ips sp : respects apart (services e p ips sp).
Proof. unfold services. alone. apply open_apart. Qed.

Lemma stop_apart e : respects apart (stop e).
Proof. unfold stop. alone. Qed.

Lemma run_apart n : respects apart (Server.run n).
Proof. unfold Server.run. alone. Qed.

Lemma add_service_apart p : respects apart (P ← port p; let '(ok, P) := ServicePort.add Service.login P in _ ← onPort p (fun _ => P); mret ok).
Proof.
  intros s a s' out E. unfold onPort, port in E. autorewrite with proc in E. destruct (ports s !! p) as [P|] eqn:Hp; [|done].
  autorewrite with proc in E. destruct (ServicePort.add Service.login P) as [ok P'] eqn:Ea. autorewrite with proc in E. rewrite Hp in E.
  autorewrite with proc in E. injection E as <- <- <-. split; [done|done|]. intros Ha q Q. cbn. rewrite lookup_insert_Some.
  intros [[<- <-]|[_ Hq]]; [|by eapply Ha]. unfold ServicePort.add in Ea. pose proof (Ha _ _ Hp) as HP.
  destruct (existsb _ _); injection Ea as <- <-; [done|]. cbn. apply Forall_app. split; [done|by constructor].
Qed.

Lemma add_apart e sp ips : respects apart (add e Service.login sp ips).
Proof.
  unfold add. case_match; [alone|]. apply respects_bind; [apply _|respects|intros it]. destruct it as [p|].
  - apply respects_bind; [apply _|apply port_apart|intros P]. case_match; [alone|apply add_service_apart].
  - apply respects_bind; [apply _|apply new_apart|intros p]. apply respects_bind; [apply _| |intros _].
    + apply respects_modify. intros s. split; [done|done|]. intros Ha q Q. cbn. rewrite lookup_insert_Some.
      intros [[_ <-]|[_ Hq]]; [constructor|by eapply Ha].
    + apply respects_bind; [apply _|apply open_apart|intros _]. apply respects_bind; [apply _|by apply respects_modify|intros _].
      apply add_service_apart.
Qed.

Definition good_gate (x : ServerLaws.sys) : Prop :=
  ServerRun.sys_inv x /\ ServerRun.kept (ServerLaws.net x) /\ all_login (ServerLaws.net x).

Definition may_gate (ev : ServerLaws.event) : Prop :=
  match ev with ServerLaws.EvAdd s _ _ => s = Service.login | ServerLaws.EvStop => False | _ => True end.

Abbreviation list_at x := (ConnectionManager.m_connections (connections (ServerLaws.net x))).

Lemma acceptConnection_list now ip m :
  ConnectionManager.m_connections (ConnectionManager.acceptConnection now ip m).2 = ConnectionManager.m_connections m.
Proof. unfold ConnectionManager.acceptConnection. repeat case_match; done. Qed.

Lemma gate_alone e ev x y :
  (forall op c, ev = ServerLaws.EvAccept op c -> error c <> Connection.NoError) -> may_gate ev -> ServerRun.on_live_port ev x ->
  ServerLaws.run e ev x = Some y ->
  Program.connected (Program.requests e ev x) = [] /\ apart (ServerLaws.net x) [] (ServerLaws.net y).
Proof.
  intros Ha Hm Hlive E. assert (forall (m : proc state request unit) z, respects apart m -> ServerLaws.absorb (m (ServerLaws.net z)) z = Some y ->
    apart (ServerLaws.net z) [] (ServerLaws.net y)) as Hr.
  { intros m z Hr Ez. unfold ServerLaws.absorb in Ez. destruct (m _) as [[[[] s] out]|] eqn:Em; [|done]. injection Ez as <-.
    by destruct (Hr _ _ _ _ Em). }
  destruct ev as [sv sp ips|n| |op c|i| |p]; cbn [may_gate] in Hm; [subst sv| |done|..]; cbn [ServerLaws.run] in E.
  - split; [done|]. unfold ServerLaws.absorb in E. destruct (add _ _ _ _ _) as [[[b s] out]|] eqn:Em; [|done]. injection E as <-.
    by destruct (add_apart _ _ _ _ _ _ _ Em).
  - split; [done|]. by apply (Hr _ _ (run_apart n)).
  - specialize (Ha op c eq_refl). cbn [ServerRun.on_live_port] in Hlive. unfold ServerLaws.absorb in E.
    fold (ServerLaws.completed op (ServerLaws.net x)) in E. cbn [Program.requests].
    destruct (decide (error c = Connection.OperationAborted)) as [Hc|Hc].
    + assert (handle e op c (ServerLaws.completed op (ServerLaws.net x)) = Some (tt, ServerLaws.completed op (ServerLaws.net x), [])) as Eh.
      { destruct op. unfold handle. by rewrite Hc. }
      rewrite Eh in E |- *. injection E as <-. by split; [|split].
    + destruct Hlive as [|[P HP]]; [done|].
      rewrite (handle_failed e op c (ServerLaws.completed op (ServerLaws.net x)) P Ha Hc HP) in E |- *. injection E as <-.
      split; [by destruct (ServicePort.m_pendingStart P)|]. split; [done|done|]. intros Hl q Q. cbn. rewrite lookup_insert_Some.
      intros [[<- <-]|[_ Hq]]; [exact (Hl _ _ HP)|by eapply Hl].
  - split; [done|]. destruct (ServerLaws.restarts x !! i) as [[[p ips] sp]|]; [|done].
    exact (Hr (services e p ips sp) (ServerLaws.mkSys (ServerLaws.net x) _ _) (services_apart e p ips sp) E).
  - split; [done|]. destruct (head _) as [p|]; [|done].
    exact (Hr (close p) (ServerLaws.mkSys (ServerLaws.net x) _ _) (close_apart p) E).
  - split; [done|]. exact (Hr (delete p) x (delete_apart p) E).
Qed.

Lemma gate_live ev x :
  ServerRun.kept (ServerLaws.net x) -> ServerLaws.enabled ev x = true -> ServerRun.on_live_port ev x.
Proof.
  intros Hk Hen. destruct ev as [| | |op c| | |]; try done. right. apply Hk. cbn in Hen.
  by apply andb_prop in Hen as [[Hop%bool_decide_eq_true _]%andb_prop _].
Qed.

(** An accept that has completed. *)
Lemma gate_accepts e op c x :
  good_gate x -> ServerLaws.env_ok e -> ServerLaws.enabled (ServerLaws.EvAccept op c) x = true -> error c = Connection.NoError ->
  exists ip, remoteIp (remote_endpoint c) = Some ip /\
    let '(m, n, out) := welcome e op c Service.login (ServerLaws.net x) ip in
    ServerLaws.run e (ServerLaws.EvAccept op c) x =
      Some (ServerLaws.mkSys (ServerLaws.welcomed op m n (completed op (ServerLaws.net x))) (ServerLaws.restarts x) (ServerLaws.closes x)) /\
    Program.requests e (ServerLaws.EvAccept op c) x = out.
Proof.
  intros ([_ Hb] & Hk & Hl) He Hen Hc. destruct (gate_live _ x Hk Hen) as [Ha|[P HP]]; [congruence|].
  cbn in Hen. apply andb_prop in Hen as [[_ Hv4]%andb_prop _].
  destruct (ServicePort.m_services P) as [|front rest] eqn:Es; [by destruct (books_services _ _ _ _ Hb _ P HP) as [? _]|].
  pose proof (Hl _ _ HP) as Hfront. rewrite Es in Hfront. apply Forall_cons in Hfront as [<- _].
  destruct (remoteIp_v4 _ Hv4) as [ip Hip]. exists ip. split; [done|].
  pose proof (handle_accepted e op c (completed op (ServerLaws.net x)) P Service.login rest ip He Hc HP Es Hip) as Eh.
  change (welcome e op c Service.login (completed op (ServerLaws.net x)) ip) with (welcome e op c Service.login (ServerLaws.net x) ip) in Eh.
  pose proof (ServerLaws.welcome_quiet e op c Service.login (ServerLaws.net x) ip) as [Hq1 Hq2].
  destruct (welcome e op c Service.login (ServerLaws.net x) ip) as [[m n] out]. cbn [snd] in Hq1, Hq2.
  cbn [ServerLaws.run Program.requests]. fold (completed op (ServerLaws.net x)). rewrite Eh. cbn. by rewrite Hq1, Hq2, !app_nil_r.
Qed.

(** What an event of the ports does to the connections. *)
Lemma gate_step e ev x :
  good_gate x -> ServerLaws.env_ok e -> ServerLaws.enabled ev x = true -> may_gate ev ->
  exists y, ServerLaws.run e ev x = Some y /\ good_gate y /\ (fresh (ServerLaws.net x) <= fresh (ServerLaws.net y))%nat /\
    (Program.connected (Program.requests e ev x) = [] /\ list_at y = list_at x \/
     let c := fresh (ServerLaws.net x) in
     Program.connected (Program.requests e ev x) = [c] /\ list_at y = list_at x ++ [c] /\ (c < fresh (ServerLaws.net y))%nat).
Proof.
  intros (Hi & Hk & Hl) He Hen Hm.
  pose proof (gate_live ev x Hk Hen) as Hlive.
  destruct (ServerRun.step_ok e ev x He Hen Hi Hlive) as (y & E & Hi').
  assert (ServerRun.kept (ServerLaws.net y)) as Hk' by (eapply ServerRun.step_keeps; try done; by intros ->).
  exists y. split; [exact E|].
  assert ((forall op c, ev = ServerLaws.EvAccept op c -> error c <> Connection.NoError) \/
    exists op c, ev = ServerLaws.EvAccept op c /\ error c = Connection.NoError) as [Ha|(op & c & -> & Hc)].
  { destruct ev as [| | |op c| | |]; try (by left). destruct (decide (error c = Connection.NoError)) as [|Hc]; [right; eauto|left].
    by intros ? ? [= <- <-]. }
  { destruct (gate_alone e ev x y Ha Hm Hlive E) as [Ho [Hf Hc Hlog]]. split; [by split_and!; [..|apply Hlog]|]. split; [done|].
    left. split; [done|]. by rewrite Hc. }
  destruct (gate_accepts e op c x (conj Hi (conj Hk Hl)) He Hen Hc) as (ip & Hip & Ew). rewrite E in Ew. unfold welcome in Ew.
  revert Ew. generalize (Program.requests e (ServerLaws.EvAccept op c) x) as req. intros req Ew.
  pose proof (acceptConnection_list (now e) ip (connections (ServerLaws.net x))) as Hlist.
  destruct (ip =? 0); [|destruct (ConnectionManager.acceptConnection (now e) ip (connections (ServerLaws.net x))) as [[] m]]; cbn in Ew;
    destruct Ew as [E' Ho]; injection E' as ->; rewrite Ho; (split; [split; [done|split; [done|exact Hl]]|]);
    (split; [cbn; lia|]).
  - left. by destruct (is_open c).
  - right. cbn. split; [done|]. split; [by rewrite <- Hlist|lia].
  - left. split; [by destruct (is_open c)|exact Hlist].
Qed.

(** ** The clients *)

Section Run.
Context {DB : Type} `{!Database.Server DB, !AccountLaws.LawfulServer DB}.
Context (MD5 SHA1 SHA256 SHA512 : list Z -> list Z).
Context (rsa : list Z -> option (list Z)) (Hrsa : LoginPacket.rsa_ok rsa).

Abbreviation crowd := (Clients.sys (DB := DB)).
Abbreviation session := (Session.sys (DB := DB)).
Abbreviation run := (Session.run MD5 SHA1 SHA256 SHA512 rsa).
Abbreviation crowd_step := (Clients.step MD5 SHA1 SHA256 SHA512 rsa).
Abbreviation step := (Program.step MD5 SHA1 SHA256 SHA512 rsa).
Abbreviation reachable := (Program.reachable MD5 SHA1 SHA256 SHA512 rsa).
Abbreviation crowd_inv := (ClientsRun.inv MD5 SHA1 SHA256 SHA512 rsa).
Abbreviation names I := (OutputMessagePool.connections (ProtocolLogin.pool (Clients.shared I))).
Abbreviation list_in I := (listed (Clients.shared I)).

Lemma manage_inv f (I : crowd) : crowd_inv I -> crowd_inv (Program.manage f I).
Proof.
  intros [Hb Hio Hc Hl Hq Ht]. split; try done. intros c s Hs. destruct (Hc c s Hs) as [Lc [_ _ Ck Fk]]. by split.
Qed.

(** A step of one client, from the outside. *)
Lemma own_step c e ev q (I I' : crowd) :
  Clients.step_of MD5 SHA1 SHA256 SHA512 rsa c e ev q I = Some I' ->
  match ev with Session.Elsewhere _ => False | _ => True end ->
  (forall s, Clients.clients I !! c = Some s -> Session.allowed c ev (Clients.seen c e (Clients.shared I) s)) ->
  exists s s', Clients.clients I !! c = Some s /\ Clients.clients I' = <[c := s']> (Clients.clients I) /\
    (forall k, is_Some (names I' !! k) <-> is_Some (names I !! k)) /\ list_in I' = list_in I /\
    match ev with
    | Session.Net Connection.EvStop => ~ socketless s /\ socketless s'
    | _ => socketless s' <-> socketless s
    end.
Proof.
  unfold Clients.step_of. destruct (Clients.clients I !! c) as [s|] eqn:Hs; [|done]. cbn [mbind option_bind].
  set (s0 := Clients.seen c e (Clients.shared I) s). destruct (run c e ev s0) as [s'|] eqn:E; [|done]. cbn [mbind option_bind].
  intros [= <-] Hev Ha. specialize (Ha s eq_refl). exists s, s'. split; [done|]. split; [done|].
  assert (names I = OutputMessagePool.connections (Session.pool_of s0)) as -> by done.
  assert (list_in I = list_of s0) as -> by done.
  change (socketless s) with (socketless s0).
  pose proof (run_spares MD5 SHA1 SHA256 SHA512 rsa c e ev s0 s' Hev Ha E) as Hsp. split; [apply (spared_connection _ _ Hsp)|].
  assert ((forall x, ev <> Session.Net x) \/ exists x, ev = Session.Net x) as [Hn|[x ->]] by (destruct ev; eauto; by left).
  - destruct (run_undisturbed MD5 SHA1 SHA256 SHA512 rsa c e ev s0 s') as [Hsk Hl]; try done.
    { clear -Hev Hn. destruct ev; try done. by destruct (Hn _ eq_refl). }
    split; [exact Hl|]. clear -Hsk Hn. destruct ev; try done. by destruct (Hn _ eq_refl).
  - assert (x = Connection.EvStop \/ x <> Connection.EvStop) as [->|Hx] by (destruct x; auto).
    + destruct (stop_unlists MD5 SHA1 SHA256 SHA512 rsa c e s0 s' E) as (H1 & H2 & H3). by split_and!.
    + destruct (run_undisturbed MD5 SHA1 SHA256 SHA512 rsa c e (Session.Net x) s0 s') as [Hsk Hl]; try done.
      { clear -Hx. by destruct x. }
      split; [exact Hl|]. clear -Hsk Hx. by destruct x.
Qed.

(** Where the sockets are. *)
Definition open_at (I : crowd) (c : nat) : Prop := exists s, Clients.clients I !! c = Some s /\ ~ socketless s.

(** The manager's list holds each connection that has its socket, once; names are older
    than the next one. *)
Record tidy (next : nat) (I : crowd) : Prop := {
  tidy_once : NoDup (list_in I);
  tidy_listed c : c ∈ list_in I <-> open_at I c;
  tidy_client c : is_Some (Clients.clients I !! c) -> (c < next)%nat;
  tidy_name c : is_Some (names I !! c) -> (c < next)%nat
}.

Lemma erase_first_spec c cs :
  NoDup cs -> c ∈ cs -> exists cs', ConnectionManager.erase_first c cs = Some cs' /\ NoDup cs' /\ forall k, k ∈ cs' <-> k ∈ cs /\ k <> c.
Proof.
  induction cs as [|x cs IH]; [by intros _ ?%elem_of_nil|]. intros [Hx Hn]%NoDup_cons Hc. cbn. case_decide as Hd.
  - subst x. exists cs. split_and!; [done|done|]. intros k. rewrite elem_of_cons. split; [|tauto].
    intros Hk. split; [by right|]. by intros ->.
  - apply elem_of_cons in Hc as [->|Hc]; [done|]. destruct (IH Hn Hc) as (cs' & -> & Hn' & Hk). exists (x :: cs').
    split_and!; [done| |].
    + apply NoDup_cons. split; [|done]. by intros [? _]%Hk.
    + intros k. rewrite !elem_of_cons, Hk. split; [|tauto]. intros [->|[? ?]]; [|tauto]. by split; [left|].
Qed.

Lemma release_spec c m :
  NoDup (ConnectionManager.m_connections m) -> c ∈ ConnectionManager.m_connections m ->
  let r := ConnectionManager.releaseConnection c m in
  r.1 = true /\ NoDup (ConnectionManager.m_connections r.2) /\
  forall k, k ∈ ConnectionManager.m_connections r.2 <-> k ∈ ConnectionManager.m_connections m /\ k <> c.
Proof.
  intros Hn Hc. unfold ConnectionManager.releaseConnection. destruct (erase_first_spec c _ Hn Hc) as (cs' & -> & Hcs). by split.
Qed.

Lemma open_at_insert (I I' : crowd) c s' k :
  Clients.clients I' = <[c := s']> (Clients.clients I) -> open_at I' k <-> (k = c /\ ~ socketless s') \/ (k <> c /\ open_at I k).
Proof.
  intros HI. unfold open_at. rewrite HI. destruct (decide (k = c)) as [->|Hk].
  - rewrite lookup_insert_eq. naive_solver.
  - rewrite lookup_insert_ne by done. naive_solver.
Qed.

Lemma tidy_own c e ev q next (I I' : crowd) :
  tidy next I -> Clients.step_of MD5 SHA1 SHA256 SHA512 rsa c e ev q I = Some I' ->
  match ev with Session.Elsewhere _ => False | _ => True end ->
  (forall s, Clients.clients I !! c = Some s -> Session.allowed c ev (Clients.seen c e (Clients.shared I) s)) ->
  tidy next (Program.manage (match ev with
    | Session.Net Connection.EvStop => fun m => (ConnectionManager.releaseConnection c m).2 | _ => id end) I').
Proof.
  intros [Hn Hl Hc Hk] E Hev Ha. destruct (own_step c e ev q I I' E Hev Ha) as (s & s' & Hs & HI & Hnames & Hlist & Hsk).
  pose proof (fun k => open_at_insert I I' c s' k HI) as Ho.
  assert (forall f, NoDup (list_in (Program.manage f I')) -> (forall k, k ∈ list_in (Program.manage f I') <-> open_at I' k) ->
    tidy next (Program.manage f I')) as Htidy.
  { intros f H1 H2. split; [exact H1|exact H2| |].
    - intros k. change (is_Some (Clients.clients I' !! k) -> (k < next)%nat). rewrite HI, lookup_insert_is_Some'.
      intros [<-|Hks]; [apply Hc; eauto|by apply Hc].
    - intros k. change (is_Some (names I' !! k) -> (k < next)%nat). rewrite Hnames. apply Hk. }
  assert ((socketless s' <-> socketless s) -> tidy next (Program.manage id I')) as Hsame.
  { intros Hss. apply Htidy; change (list_in (Program.manage id I')) with (list_in I'); rewrite Hlist; [done|].
    intros k. rewrite Hl, Ho, Hss. unfold open_at. destruct (decide (k = c)) as [->|Hkc]; [|naive_solver].
    rewrite Hs. naive_solver. }
  assert (ev = Session.Net Connection.EvStop \/ match ev with Session.Net Connection.EvStop => False | _ => True end) as [->|Hn'].
  { destruct ev as [ev| | | | |]; auto. destruct ev; auto. }
  - destruct Hsk as [Hs1 Hs2].
    assert (c ∈ list_in I) as Hin by (apply Hl; by exists s). rewrite <- Hlist in Hin, Hn. setoid_rewrite <- Hlist in Hl.
    destruct (release_spec c (ProtocolLogin.manager (Clients.shared I')) Hn Hin) as (_ & Hn2 & Hk2).
    apply Htidy; [exact Hn2|]. intros k. etrans; [apply Hk2|]. rewrite Ho. etrans; [apply and_iff_compat_r, Hl|]. naive_solver.
  - destruct ev as [ev| | | | |]; try done; [destruct ev; try done|..]; by apply Hsame.
Qed.

(** A new connection has its socket, and the manager's list is the ports' business. *)
Lemma start_socket c e memory time log (x : ProtocolLogin.state (DB := DB)) s :
  Session.start c e memory time log x = Some s -> ~ socketless s.
Proof.
  unfold Session.start. set (s0 := Session.prepare e _).
  destruct (Connection.accept (Session.net e) (Connection.st s0)) as [[[[] y] out]|] eqn:E; [|done]. intros [= <-].
  apply (ConnFrame.readHeader_minor keeps) in E as [Hs _].
  unfold socketless, Connection.connection_of. cbn. rewrite Hs. done.
Qed.

Lemma tidy_accepted e c memory time log next (I I' : crowd) cs :
  tidy c (Program.manage (fun m => ConnectionManager.setConnections cs m) I) -> (c < next)%nat ->
  list_in I = cs ++ [c] -> crowd_step e (Clients.Accepted c memory time log) I = Some I' -> tidy next I'.
Proof.
  intros [Hn Hl Hc Hk] Hlt Hlist. cbn [Clients.step].
  destruct (Session.start c e memory time log _) as [s|] eqn:E; [|done]. cbn [mbind option_bind]. intros [= <-].
  change (list_in (Program.manage (fun m => ConnectionManager.setConnections cs m) I)) with cs in Hn, Hl.
  assert (c ∉ cs) as Hcs.
  { intros (sc & Hsc & _)%Hl. specialize (Hc c (mk_is_Some _ _ Hsc)). lia. }
  split.
  - change (NoDup (list_in I)). rewrite Hlist. apply NoDup_app. split_and!; [done| |apply NoDup_singleton].
    intros k Hkc ->%list_elem_of_singleton. done.
  - intros k. set (I' := Clients.mkSys _ _ _). change (k ∈ list_in I <-> open_at I' k).
    rewrite (open_at_insert I I' c s k eq_refl), Hlist, elem_of_app, list_elem_of_singleton, Hl.
    pose proof (start_socket _ _ _ _ _ _ _ E) as Hs. split.
    + intros [Ho| ->]; [right|by left]. split; [|exact Ho]. intros ->. by apply Hcs, Hl.
    + intros [[-> _]|[_ Ho]]; [by right|by left].
  - intros k. cbn. rewrite lookup_insert_is_Some'. intros [<-|Hks]; [done|]. specialize (Hc k Hks). lia.
  - intros k. cbn. rewrite lookup_insert_is_Some'. intros [<-|Hks]; [done|]. specialize (Hk k Hks). lia.
Qed.

Lemma tidy_freed e c next (I I' : crowd) :
  tidy next I -> c ∉ list_in I -> crowd_step e (Clients.Freed c) I = Some I' -> tidy next I'.
Proof.
  intros [Hn Hl Hc Hk] Hcl [= <-]. split; [exact Hn| | |].
  - intros k. set (I' := Clients.mkSys _ _ _). change (k ∈ list_in I <-> open_at I' k).
    rewrite Hl. unfold open_at. cbn. destruct (decide (k = c)) as [->|Hkc].
    + rewrite lookup_delete_eq. split; [intros Ho; by apply Hl in Ho|by intros (? & ? & _)].
    + by rewrite lookup_delete_ne.
  - intros k. cbn. intros [_ H1]%lookup_delete_is_Some. by apply Hc.
  - intros k. cbn. intros [_ H1]%lookup_delete_is_Some. by apply Hk.
Qed.

(** ** The server *)

Record inv (S : Program.sys (DB := DB)) : Prop := {
  inv_gate : good_gate (Program.gate S);
  inv_inside : crowd_inv (Program.inside S);
  inv_tidy : tidy (fresh (ServerLaws.net (Program.gate S))) (Program.inside S)
}.

Lemma knowing_gate m x : good_gate x -> good_gate (Program.knowing m x).
Proof.
  intros ([Hw Hb] & Hk & Hl). split; [split|by split].
  - by apply (ServerLaws.wired_frame (ServerLaws.net x)).
  - by eapply (ServerLaws.books_similar _ (ServerLaws.net x)); [apply ServerLaws.similar_same|].
Qed.

Lemma gate_inv e ev memory time log S :
  inv S -> Program.env_good e -> Program.allowed e (Program.Gate ev memory time log) S ->
  exists S', step e (Program.Gate ev memory time log) S = Some S' /\ inv S'.
Proof.
  intros [Hg Hi Ht] [Hp Hs] (Hen & Hm & Hmem & Hb & Htime).
  set (x := Program.knowing (Program.manager S) (Program.gate S)).
  destruct (gate_step (Program.ports_env e) ev x) as (y & E & Hy & Hf & Hout); [by apply knowing_gate|done|by destruct ev|by destruct ev|].
  cbn [Program.step]. fold x. rewrite E. cbn [mbind option_bind]. set (I := Program.manage _ _).
  pose proof (manage_inv (fun _ => connections (ServerLaws.net y)) _ Hi) as HI. fold I in HI.
  change (fresh (ServerLaws.net x)) with (fresh (ServerLaws.net (Program.gate S))) in *.
  change (list_at x) with (list_in (Program.inside S)) in Hout. destruct Ht as [Hn Hl Hc Hk].
  destruct Hout as [[Ho Hlist]|(Ho & Hlist & Hnew)]; rewrite Ho.
  - eexists. split; [done|]. split; [exact Hy|exact HI|]. split.
    + change (NoDup (list_at y)). by rewrite Hlist.
    + intros c. change (c ∈ list_at y <-> open_at (Program.inside S) c). by rewrite Hlist.
    + intros c Hcc. specialize (Hc c Hcc). cbn. lia.
    + intros c Hcc. specialize (Hk c Hcc). cbn. lia.
  - set (c := fresh (ServerLaws.net (Program.gate S))) in *.
    destruct (ClientsRun.accepted_step MD5 SHA1 SHA256 SHA512 rsa Hrsa I c (Program.session_env e) memory time log HI Hs) as (I' & E' & HI').
    { destruct Htime. split_and!; try done.
      - apply eq_None_not_Some. intros Hcc. specialize (Hc c Hcc). lia.
      - apply eq_None_not_Some. intros Hcc. specialize (Hk c Hcc). lia. }
    rewrite E'. eexists. split; [done|]. split; [exact Hy|exact HI'|].
    apply (tidy_accepted (Program.session_env e) c memory time log _ I I' (list_in (Program.inside S))); [|exact Hnew|exact Hlist|exact E'].
    split; [exact Hn|exact Hl|exact Hc|exact Hk].
Qed.

Lemma inside_inv e ev S :
  inv S -> Program.env_good e -> Program.allowed e (Program.Inside ev) S -> Program.few S ->
  exists S', step e (Program.Inside ev) S = Some S' /\ inv S'.
Proof.
  intros [Hg Hi Ht] [Hp Hs] [Ha Hm] Hfew.
  destruct (ClientsRun.inv_step MD5 SHA1 SHA256 SHA512 rsa Hrsa (Program.session_env e) ev (Program.inside S) Hi Hs Ha Hfew) as (I & E & HI & _).
  cbn [Program.step]. rewrite E. eexists. split; [done|]. split; [exact Hg|by apply manage_inv|]. cbn [Program.gate Program.inside].
  destruct ev as [c ev| |c memory time log|c]; [| |done|].
  - destruct Ha as [Hpers (s & Hsc & Ha)]. apply (tidy_own c (Program.session_env e) ev (Clients.queue (Program.inside S)) _ _ _ Ht) in E.
    + exact E.
    + by destruct ev.
    + intros s' Hs'. rewrite Hsc in Hs'. by injection Hs' as <-.
  - cbn [Clients.step] in E. destruct (Clients.queue (Program.inside S)) as [|[c t] q] eqn:Hq; [done|].
    apply (tidy_own c (Program.session_env e) Session.Dispatch q _ _ _ Ht E Logic.I).
    intros s' Hs'. cbn [Session.allowed]. destruct (ClientsRun.inv_client _ _ _ _ _ _ Hi c s' Hs') as [Hl _].
    rewrite (ClientsRun.seen_queue MD5 SHA1 SHA256 SHA512 rsa Hrsa c (Program.session_env e) _ s' Hl).
    pose proof (ClientsRun.inv_queue _ _ _ _ _ _ Hi c s' Hs') as Hqc. rewrite Hq in Hqc. unfold Clients.tasks_of in Hqc. cbn in Hqc.
    rewrite decide_True in Hqc by done. by rewrite <- Hqc.
  - destruct (tidy_freed (Program.session_env e) c _ _ _ Ht Hm E) as [H1 H2 H3 H4]. by split.
Qed.

Lemma program_step e ev S :
  inv S -> Program.env_good e -> Program.allowed e ev S -> Program.few S -> exists S', step e ev S = Some S' /\ inv S'.
Proof. intros Hi He Ha Hfew. destruct ev; [by apply gate_inv|by apply inside_inv]. Qed.

Lemma start_gate : good_gate ServerLaws.start.
Proof.
  split; [apply ServerRun.start_inv|]. split; [|by intros p P HP].
  split; [by intros p [P HP]|by intros op ?%elem_of_nil].
Qed.

Lemma program_inv S : reachable S -> inv S.
Proof.
  induction 1 as [x Hb Hio Hc Hl|e ev S S' _ IH He Ha Hfew E].
  - split; [apply start_gate| |].
    + split; try done. intros c t Hq. by apply elem_of_nil in Hq.
    + split; cbn; unfold listed; rewrite ?Hl, ?Hc; [constructor| |by intros c [? ?]|by intros c [? ?]].
      intros c. split; [by intros ?%elem_of_nil|by intros (s & Hs & _)].
  - destruct (program_step e ev S IH He Ha Hfew) as (S1 & E1 & Hi). congruence.
Qed.

End Run.
End ProgramRun.
