(* ===== verification/ProgramProps.v ===== *)
(** * The whole server: the properties

    From the port a client connects to, through its session, to the end of its
    connection, over the example of [SessionProps] behind the port of [ServerRun]. *)
From S2P Require Import Prelude Proc CString Definitions Pool PoolLaws PoolRun Conn ConnMgr Db Accounts AccountLaws Login LoginLaws LoginPacket Server ServerLaws ServerRun Session SessionRun SessionList SessionLogin SessionProps Clients ClientsRun Program ProgramRun.

Module ProgramProps.
Import ProgramRun SessionList.

Section Properties.
Context {DB : Type} `{!Database.Server DB, !AccountLaws.LawfulServer DB}.
Context (MD5 SHA1 SHA256 SHA512 : list Z -> list Z).
Context (rsa : list Z -> option (list Z)) (Hrsa : LoginPacket.rsa_ok rsa).

Abbreviation sys := (Program.sys (DB := DB)).
Abbreviation event := (Program.event (DB := DB)).
Abbreviation step := (Program.step MD5 SHA1 SHA256 SHA512 rsa).
Abbreviation reachable := (Program.reachable MD5 SHA1 SHA256 SHA512 rsa).
Abbreviation live := (Session.reachable MD5 SHA1 SHA256 SHA512 rsa).

(** C3: the server meets no undefined behaviour while it runs, on IPv4 and with a message
    of the day that fits.  Services are added, clients are accepted, refused or lost before
    they are accepted, ports are reopened; what happens to each connection (bytes, errors,
    timers, closures, releases) and the tasks of the dispatcher's one queue interleave in
    any order, over the accounts, the connection manager and the pool all share: every
    handler ends, and none runs on a deleted port, protocol or socket, dereferences NULL,
    or leaves a buffer.

    Two ways the code does go wrong are left out by the hypotheses.  [LoginLaws.env_motd],
    in [env_good]: the message of the day, with its number, a line feed and a NUL, fits the
    1300 bytes delegate formats it into; sprintf runs past the end of the buffer for a
    longer one.  [ServerLaws.enabled], in [allowed]: the addresses listened at and those of
    the clients are of IPv4; for a client of IPv6 to_v4 throws in the handler of the accept,
    and nothing catches it.  The other conditions: every world has a port, the results of
    the database are lawful ([AccountLaws.LawfulServer]), a block that RSA opens is 128
    bytes, random numbers are below 2^24, the clock below 2^32 - 2 seconds, the pool owns
    fewer than 2^32 messages, an accept is reported through its handler, and the service
    manager is not stopped (only the end of the process does that). *)
Theorem server_never_stuck e (ev : event) (S : sys) :
  reachable S -> Program.env_good e -> Program.allowed e ev S -> Program.few S -> exists S', step e ev S = Some S'.
Proof.
  intros Hr He Ha Hfew. pose proof (program_inv MD5 SHA1 SHA256 SHA512 rsa Hrsa S Hr) as Hi.
  destruct (program_step MD5 SHA1 SHA256 SHA512 rsa Hrsa e ev S Hi He Ha Hfew) as (S' & E & _). eauto.
Qed.

(** C6: the manager's list holds exactly the connections that are open.  In every state the
    server can reach, a connection is in the list of the connection manager once if it has
    its socket, and not at all if the socket has been deleted; so that releaseConnection,
    which the end of a connection calls, always finds it, and leaves the others. *)
Theorem connections_listed (S : sys) :
  reachable S ->
  NoDup (ConnectionManager.m_connections (Program.manager S)) /\
  (forall c, c ∈ ConnectionManager.m_connections (Program.manager S) <->
     exists s, Clients.clients (Program.inside S) !! c = Some s /\ live c s /\ ~ socketless s) /\
  forall c e, Program.env_good e -> Program.few S ->
    Program.allowed e (Program.Inside (Clients.Client c (Session.Net Connection.EvStop))) S ->
    let r := ConnectionManager.releaseConnection c (Program.manager S) in
    r.1 = true /\ forall k, k ∈ ConnectionManager.m_connections r.2 <->
      k ∈ ConnectionManager.m_connections (Program.manager S) /\ k <> c.
Proof.
  intros Hr. pose proof (program_inv MD5 SHA1 SHA256 SHA512 rsa Hrsa S Hr) as [Hg Hi [Hn Hl _ _]].
  change (listed (Clients.shared (Program.inside S))) with (ConnectionManager.m_connections (Program.manager S)) in Hn, Hl.
  split; [exact Hn|]. split.
  - intros c. rewrite Hl. split; intros (s & Hs & Ho); [|exists s; by destruct Ho].
    exists s. split_and!; try done. by destruct (ClientsRun.inv_client _ _ _ _ _ _ Hi c s Hs).
  - intros c e [_ He] Hfew [Hac _]. pose proof Hac as [_ (s & Hs & Ha)].
    destruct (ClientsRun.inv_step MD5 SHA1 SHA256 SHA512 rsa Hrsa (Program.session_env e) _ _ Hi He Hac Hfew) as (I' & E & _).
    destruct (own_step MD5 SHA1 SHA256 SHA512 rsa c _ _ _ _ _ E) as (s1 & _ & Hs1 & _ & _ & _ & Ho & _); [done| |].
    { intros s1 Hs1. rewrite Hs in Hs1. by injection Hs1 as <-. }
    assert (c ∈ ConnectionManager.m_connections (Program.manager S)) as Hc by (apply Hl; by exists s1).
    by destruct (release_spec c _ Hn Hc) as (H1 & _ & H2).
Qed.

Lemma accepts_again op m n s :
  Server.mkAccepting (Server.of_port op) (Server.on_acceptor op) (n + Server.fresh s) ∈ Server.accepts (ServerLaws.welcomed op m n s).
Proof. cbn. rewrite elem_of_app, list_elem_of_singleton. by right. Qed.

Lemma connection_starts e op c memory time log (S : sys) :
  reachable S -> Program.env_good e -> Program.allowed e (Program.Gate (ServerLaws.EvAccept op c) memory time log) S ->
  Server.error c = Connection.NoError ->
  exists ip S' socket,
    Server.remoteIp (Server.remote_endpoint c) = Some ip /\
    step e (Program.Gate (ServerLaws.EvAccept op c) memory time log) S = Some S' /\
    Server.mkAccepting (Server.of_port op) (Server.on_acceptor op) socket ∈ Server.accepts (ServerLaws.net (Program.gate S')) /\
    let new := Server.fresh (ServerLaws.net (Program.gate S)) in
    let checked := ConnectionManager.acceptConnection (Server.now (Program.ports_env e)) ip (Program.manager S) in
    if negb (ip =? 0) && checked.1
    then
      exists s, Clients.clients (Program.inside S) !! new = None /\
        Clients.clients (Program.inside S') = <[new := s]> (Clients.clients (Program.inside S)) /\ live new s /\
        Program.manager S' = ConnectionManager.createConnection new checked.2 /\
        (Connection.fault (Session.net (Program.session_env e)) = Connection.NoFault ->
           Connection.reading (Session.csys s) = Connection.AwaitHeader)
    else
      Clients.clients (Program.inside S') = Clients.clients (Program.inside S) /\
      Program.manager S' = (if ip =? 0 then Program.manager S else checked.2).
Proof.
  intros Hr He Ha Hc. pose proof (program_inv MD5 SHA1 SHA256 SHA512 rsa Hrsa S Hr) as Hi.
  destruct (gate_inv MD5 SHA1 SHA256 SHA512 rsa Hrsa e _ memory time log S Hi He Ha) as (S' & E & [_ Hi' _]).
  destruct Hi as [Hg _ [_ _ Hold _]]. destruct He as [Hp _], Ha as (Hen & _).
  set (x := Program.knowing (Program.manager S) (Program.gate S)) in *.
  destruct (gate_accepts (Program.ports_env e) op c x (knowing_gate _ _ Hg) Hp Hen Hc) as (ip & Hip & Ew).
  set (new := Server.fresh (ServerLaws.net (Program.gate S))). change (Server.fresh (ServerLaws.net x)) with new in *.
  assert (Clients.clients (Program.inside S) !! new = None) as Hnew.
  { apply eq_None_not_Some. intros Hs. specialize (Hold new Hs). unfold new in Hold. lia. }
  pose proof E as E0. cbn [Program.step] in E0. fold x in E0. unfold ServerLaws.welcome in Ew.
  change (Server.connections (ServerLaws.net x)) with (Program.manager S) in Ew.
  exists ip, S'. cbn zeta.
  destruct (ip =? 0); [|destruct (ConnectionManager.acceptConnection (Server.now (Program.ports_env e)) ip (Program.manager S)) as [[] m]];
    cbn [negb andb fst snd] in *; destruct Ew as [Er Ho]; rewrite Er in E0; cbn [mbind option_bind] in E0; rewrite Ho in E0.
  - exists new.
    destruct (Server.is_open c); injection E0 as <-; (split_and!; [done|exact E|exact (accepts_again op _ 0 (ServerLaws.completed op (ServerLaws.net x)))|done|done]).
  - exists (Datatypes.S new). cbn [Program.connected omap list_omap] in E0. cbn [Service.isSingleSocket Service.login] in E0. cbn in E0.
    destruct (Session.start _ _ _ _ _ _) as [s|] eqn:Es; [|done]. cbn [mbind option_bind] in E0. injection E0 as <-.
    split; [done|]. split; [exact E|]. split; [exact (accepts_again op _ 1 (ServerLaws.completed op (ServerLaws.net x)))|]. exists s. split; [exact Hnew|]. split; [done|].
    destruct (ClientsRun.inv_client _ _ _ _ _ _ Hi' new s (lookup_insert_eq _ _ _)) as [Hl _]. split; [exact Hl|]. split; [done|].
    intros Hf. rewrite SessionLogin.started in Es by done. by injection Es as <-.
  - exists new.
    destruct (Server.is_open c); injection E0 as <-; (split_and!; [done|exact E|exact (accepts_again op _ 0 (ServerLaws.completed op (ServerLaws.net x)))|done|done]).
Qed.

(** C4: what becomes of a client that connects.  The accept of a port of the server has
    completed.  If the client's address is known, not 0.0.0.0, and the connection manager
    accepts it, a session starts for a new connection: the manager has it in its list, it
    waits for the header of its first packet, unless the read could not be started, and the
    other sessions are what they were.  Every other client gets no session.  In both cases
    the port accepts the next client. *)
Theorem client_connects e op c memory time log (S : sys) :
  reachable S -> Program.env_good e -> Program.allowed e (Program.Gate (ServerLaws.EvAccept op c) memory time log) S ->
  Server.error c = Connection.NoError ->
  exists ip S' socket,
    Server.remoteIp (Server.remote_endpoint c) = Some ip /\
    step e (Program.Gate (ServerLaws.EvAccept op c) memory time log) S = Some S' /\
    Server.mkAccepting (Server.of_port op) (Server.on_acceptor op) socket ∈ Server.accepts (ServerLaws.net (Program.gate S')) /\
    let new := Server.fresh (ServerLaws.net (Program.gate S)) in
    let checked := ConnectionManager.acceptConnection (Server.now (Program.ports_env e)) ip (Program.manager S) in
    if negb (ip =? 0) && checked.1
    then
      exists s, Clients.clients (Program.inside S) !! new = None /\
        Clients.clients (Program.inside S') = <[new := s]> (Clients.clients (Program.inside S)) /\ live new s /\
        Program.manager S' = ConnectionManager.createConnection new checked.2 /\
        (Connection.fault (Session.net (Program.session_env e)) = Connection.NoFault ->
           Connection.reading (Session.csys s) = Connection.AwaitHeader)
    else
      Clients.clients (Program.inside S') = Clients.clients (Program.inside S) /\
      Program.manager S' = (if ip =? 0 then Program.manager S else checked.2).
Proof. exact (connection_starts e op c memory time log S). Qed.

End Properties.

(** ** The example *)

#[local] Existing Instance LoginPacket.example_database.
#[local] Existing Instance LoginPacket.example_lawful.
Abbreviation digest := LoginPacket.example_digest.
Abbreviation rsa := LoginPacket.example_block.
Abbreviation example_step := (Program.step digest digest digest digest rsa).
Abbreviation example_server := (Program.reachable digest digest digest digest rsa).

Definition example_env : Program.env := Program.mkEnv (ServerRun.example_env true) SessionProps.example_env.
Definition example_new : ProtocolLogin.state (DB := unit) :=
  ProtocolLogin.mk (ProtocolLogin.io LoginPacket.example_state) ConnectionManager.new
    (PoolRun.start SessionProps.example_memory 20000 false) 0.
Definition example_off : Program.sys (DB := unit) := Program.mkSys ServerLaws.start (Clients.mkSys example_new ∅ []).

Definition at_gate (ev : ServerLaws.event) : Program.event (DB := unit) := Program.Gate ev SessionProps.example_memory 1000 true.
Definition example_add : Program.event (DB := unit) := at_gate ServerRun.example_add.
Definition example_accept : Program.event (DB := unit) :=
  at_gate (ServerLaws.EvAccept ServerRun.example_op (Server.mkCompletion Connection.NoError (Some ServerRun.example_ip) true)).

Lemma example_env_good : Program.env_good example_env.
Proof. split; [apply ServerRun.example_env_works|exact (proj1 SessionProps.example_calm)]. Qed.

Lemma example_off_reachable : example_server example_off.
Proof.
  destruct SessionProps.example_state_ok as (_ & _ & _ & Hio & _). apply Program.reach_new; [|exact Hio|reflexivity|reflexivity].
  apply (PoolRun.reachable_books SessionProps.example_memory); [exact PoolRun.example_memory_ok|apply PoolRun.reach_start].
Qed.

Lemma example_may ev S :
  ServerLaws.enabled ev (Program.gate S) = true -> may_gate ev -> Program.allowed example_env (at_gate ev) S.
Proof. intros Hen Hm. destruct SessionProps.example_state_ok as (H1 & H2 & _). split_and!; try done; by destruct ev. Qed.

Lemma example_few : Program.few example_off.
Proof. vm_compute. reflexivity. Qed.

(** The service is added. *)
Lemma server_never_stuck_witness : example_server example_off /\ exists S, example_step example_env example_add example_off = Some S.
Proof.
  split; [exact example_off_reachable|].
  apply (server_never_stuck digest digest digest digest rsa LoginPacket.example_block_ok).
  - exact example_off_reachable.
  - exact example_env_good.
  - apply example_may; [vm_compute; reflexivity|reflexivity].
  - exact example_few.
Defined.

(** The server with its port open. *)
Definition example_open : ServerLaws.sys :=
  default ServerLaws.start (ServerLaws.run (ServerRun.example_env true) ServerRun.example_add ServerLaws.start).

Lemma example_listening :
  exists S, example_server S /\ Program.gate S = example_open /\ Program.manager S = ConnectionManager.new /\ Program.few S /\
    Clients.clients (Program.inside S) = ∅.
Proof.
  assert (Program.allowed example_env example_add example_off) as Ha by (apply example_may; [vm_compute; reflexivity|reflexivity]).
  assert (ServerLaws.run (Program.ports_env example_env) ServerRun.example_add (Program.knowing (Program.manager example_off) (Program.gate example_off))
    = Some example_open) as E by (vm_compute; reflexivity).
  assert (example_step example_env example_add example_off = Some (Program.mkSys example_open
    (Program.manage (fun _ => Server.connections (ServerLaws.net example_open)) (Program.inside example_off)))) as Es.
  { cbn [Program.step example_add at_gate]. by rewrite E. }
  eexists. split; [exact (Program.reach_next digest digest digest digest rsa _ _ _ _ example_off_reachable example_env_good Ha example_few Es)|].
  split; [reflexivity|]. split; [vm_compute; reflexivity|]. split; [vm_compute; reflexivity|reflexivity].
Qed.

Lemma example_accept_may S : Program.gate S = example_open -> Program.allowed example_env example_accept S.
Proof. intros Hg. apply example_may; [rewrite Hg; vm_compute; reflexivity|exact I]. Qed.

(** A client connects. *)
Lemma client_connects_witness :
  exists S S' s, example_server S /\ example_step example_env example_accept S = Some S' /\
    Clients.clients (Program.inside S') = {[3%nat := s]} /\ Connection.reading (Session.csys s) = Connection.AwaitHeader.
Proof.
  destruct example_listening as (S & Hr & Hg & Hm & Hf & Hn). exists S.
  destruct (client_connects digest digest digest digest rsa LoginPacket.example_block_ok example_env ServerRun.example_op
    (Server.mkCompletion Connection.NoError (Some ServerRun.example_ip) true) SessionProps.example_memory 1000 true S
    Hr example_env_good (example_accept_may S Hg) eq_refl) as (ip & S' & socket & Hip & E & _ & H).
  injection Hip as <-. rewrite Hm, Hn, Hg in H.
  destruct H as (s & _ & Hc & _ & _ & Hread). exists S', s.
  split; [exact Hr|]. split; [exact E|]. split; [exact Hc|]. apply Hread. reflexivity.
Defined.

(** The list of the manager after that. *)
Lemma example_connected :
  exists S, example_server S /\ ConnectionManager.m_connections (Program.manager S) = [3%nat].
Proof.
  destruct example_listening as (S & Hr & Hg & Hm & Hf & Hn).
  destruct (connection_starts digest digest digest digest rsa LoginPacket.example_block_ok example_env ServerRun.example_op
    (Server.mkCompletion Connection.NoError (Some ServerRun.example_ip) true) SessionProps.example_memory 1000 true S
    Hr example_env_good (example_accept_may S Hg) eq_refl) as (ip & S' & socket & Hip & E & _ & H).
  injection Hip as <-. rewrite Hm, Hn, Hg in H. destruct H as (s & _ & _ & _ & HS & _).
  exists S'. split; [exact (Program.reach_next digest digest digest digest rsa _ _ _ _ Hr example_env_good (example_accept_may S Hg) Hf E)|].
  rewrite HS. vm_compute. reflexivity.
Qed.

Lemma connections_listed_witness :
  exists S s, example_server S /\ Clients.clients (Program.inside S) !! 3%nat = Some s /\ ~ socketless s.
Proof.
  destruct example_connected as (S & Hr & Hl). exists S.
  destruct (connections_listed digest digest digest digest rsa LoginPacket.example_block_ok S Hr) as (_ & Hlist & _).
  destruct (proj1 (Hlist 3%nat)) as (s & Hs & _ & Ho); [rewrite Hl; apply list_elem_of_singleton; reflexivity|].
  exists s. split; [exact Hr|]. split; [exact Hs|exact Ho].
Defined.

End ProgramProps.
