(* ===== verification/TextLogger.v ===== *)
(** * Log files (src/textlogger.h, src/textlogger.cpp)

    The two log files, and the stream buffer that puts the time in front of every line
    the program prints.  An open file is known by its handle; what was written through it
    is kept with its path. *)
From S2P Require Import Prelude Proc CString Definitions Config Tools.

Module TextLogger.

Inductive LogFile_t := LOGFILE_ADMIN | LOGFILE_OUTPUT.
Inductive LogType_t := LOGTYPE_EVENT | LOGTYPE_NOTICE | LOGTYPE_WARNING | LOGTYPE_ERROR.

(** What the functions read: the configuration, whether a file can be opened, and the
    clock ([localtime] of the current time, and its milliseconds). *)
Record env := mkEnv {
  config : ConfigManager.t;
  can_open : cstring -> bool;
  now : Z;
  millitm : Z;
  tms : option Tools.tm
}.

Record file := mkFile { path : cstring; truncated : bool; written : cstring }.

Record state := mk {
  m_admin : option nat;            (* m_files[LOGFILE_ADMIN] *)
  m_output : option nat;           (* m_files[LOGFILE_OUTPUT] *)
  m_loaded : bool;
  m_cache : cstring;               (* OutputHandler::m_cache *)
  files : gmap nat file;           (* the open files *)
  handles : nat;                   (* the handles given so far *)
  cout : cstring                   (* what was printed *)
}.

(** The objects at start; their storage is static and so zero at first. *)
Definition new : state := mk None None false [] ∅ 0 [].

Definition setFiles a o s := mk a o (m_loaded s) (m_cache s) (files s) (handles s) (cout s).
Definition setLoaded b s := mk (m_admin s) (m_output s) b (m_cache s) (files s) (handles s) (cout s).
Definition setCache c s := mk (m_admin s) (m_output s) (m_loaded s) c (files s) (handles s) (cout s).
Definition setOpen fs n s := mk (m_admin s) (m_output s) (m_loaded s) (m_cache s) fs n (cout s).
Definition setCout c s := mk (m_admin s) (m_output s) (m_loaded s) (m_cache s) (files s) (handles s) c.

Abbreviation M := (proc state Empty_set).

Definition m_files (f : LogFile_t) (s : state) : option nat :=
  match f with LOGFILE_ADMIN => m_admin s | LOGFILE_OUTPUT => m_output s end.

(** [fopen], [fprintf("%s")] and [fclose]; a handle that is not open is stuck. *)
Definition fopen (e : env) (name : cstring) (truncate : bool) : M (option nat) :=
  if can_open e name then
    n ← gets handles;
    _ ← modify (fun s => setOpen (<[n := mkFile name truncate []]> (files s)) (S n) s);
    mret (Some n)
  else mret None.

Definition fprintf (h : nat) (text : cstring) : M unit :=
  s ← gets files;
  f ← lift (s !! h);
  modify (fun s => setOpen (<[h := mkFile (path f) (truncated f) (written f ++ c_str text)]> (files s)) (handles s) s).

Definition fclose (h : nat) : M unit :=
  s ← gets files;
  _ ← lift (s !! h);
  modify (fun s => setOpen (delete h (files s)) (handles s) s).

(** ** Logger *)

Definition str (k : ConfigManager.string_config_t) (e : env) : cstring := ConfigManager.getString (ConfigManager.str k) (config e).
Definition bln (k : ConfigManager.bool_config_t) (e : env) : bool := ConfigManager.getBool (ConfigManager.bln k) (config e).

(** The path of the output log. *)
Definition output_path (e : env) : cstring :=
  let path := str ConfigManager.OUTPUT_LOG e in
  match path with
  | c0 :: c1 :: _ :: _ =>
      if negb (c0 =? 47) && negb (c1 =? 58) then Tools.getFilePath Tools.FILE_TYPE_LOG path else path
  | _ => []
  end.

(** [open()] *)
Definition open (e : env) : M unit :=
  let path := output_path e in
  admin ← fopen e (Tools.getFilePath Tools.FILE_TYPE_LOG ($"admin.log")) false;
  output ← gets m_output;
  _ ← modify (setFiles admin output);
  _ ← (if bool_decide (path = []) then skip
       else
         output ← fopen e path (bln ConfigManager.TRUNCATE_LOG e);
         admin ← gets m_admin;
         modify (setFiles admin output));
  modify (setLoaded true).

(** [close()], also run by the destructor; the pointers are left as they are. *)
Definition close : M unit :=
  _ ← modify (setLoaded false);
  for_each (fun f =>
    h ← gets (m_files f);
    match h with Some h => fclose h | None => skip end) [LOGFILE_ADMIN; LOGFILE_OUTPUT].

Definition isLoaded (s : state) : bool := m_loaded s.

(** [internal(file, output, newLine)] *)
Definition internal (file : option nat) (output : cstring) (newLine : bool) : M unit :=
  match file with
  | None => skip
  | Some h => fprintf h (if newLine then output ++ [10] else output)
  end.

(** [iFile(file, output, newLine)]; the flush is not modelled. *)
Definition iFile (f : LogFile_t) (output : cstring) (newLine : bool) : M unit :=
  loaded ← gets isLoaded;
  h ← gets (m_files f);
  match h with
  | Some _ => if loaded : bool then internal h output newLine else skip
  | None => skip
  end.

Definition date (e : env) : cstring := Tools.formatDate (now e) (tms e).

(** [eFile(file, output, newLine)] *)
Definition eFile (e : env) (name : cstring) (output : cstring) (newLine : bool) : M unit :=
  f ← fopen e (Tools.getFilePath Tools.FILE_TYPE_LOG name) false;
  match f with
  | None => skip
  | Some h => _ ← internal f ($"[" ++ date e ++ $"] " ++ output) newLine; fclose h
  end.

Definition log_line (e : env) (func : cstring) (type : LogType_t) (message channel : cstring) : cstring :=
  $"[" ++ date e ++ $"]" ++ $" (" ++
  (match type with
   | LOGTYPE_EVENT => $"Event" | LOGTYPE_NOTICE => $"Notice" | LOGTYPE_WARNING => $"Warning" | LOGTYPE_ERROR => $"Error"
   end) ++ $" - " ++ func ++ $") " ++
  (if bool_decide (channel = []) then [] else channel ++ $": ") ++ message.

(** [log(func, type, message, channel, newLine)] *)
Definition log (e : env) (func : cstring) (type : LogType_t) (message channel : cstring) (newLine : bool) : M unit :=
  loaded ← gets isLoaded;
  if negb loaded then skip
  else iFile LOGFILE_ADMIN (log_line e func type message channel) newLine.

(** ** OutputHandler *)

(** [overflow(c)], [c] an [int]: the line is printed when it ends. *)
Definition overflow (e : env) (c : Z) : M Z :=
  _ ← modify (fun s => setCache (m_cache s ++ [u8 c]) s);
  if negb (c =? 10) && negb (c =? 13) then mret c
  else
    cache ← gets m_cache;
    let long := 1 <? zlen cache in
    _ ← (if long then modify (fun s => setCout (cout s ++ $"[" ++ Tools.formatTime 0 (now e) true (millitm e) (tms e) ++ $"] ") s) else skip);
    _ ← modify (fun s => setCout (cout s ++ cache) s);
    loaded ← gets isLoaded;
    _ ← (if loaded : bool
         then iFile LOGFILE_OUTPUT ((if long then $"[" ++ date e ++ $"] " else []) ++ cache) false
         else skip);
    _ ← modify (setCache []);
    mret c.

(** A program's output is its characters, one [overflow] each: the buffer has no room. *)
Fixpoint print (clock : nat -> env) (text : cstring) : M unit :=
  match text with
  | [] => skip
  | c :: text => _ ← overflow (clock 0%nat) c; print (fun i => clock (S i)) text
  end.

(** ** What is printed and logged *)

(** The complete lines of [cache ++ text], each with the position in [text] of the
    character that ends it, and what is left. *)
Fixpoint lines (cache text : cstring) (i : nat) : list (nat * cstring) * cstring :=
  match text with
  | [] => ([], cache)
  | c :: text =>
      if (c =? 10) || (c =? 13)
      then let '(ls, rest) := lines [] text (S i) in ((i, cache ++ [c]) :: ls, rest)
      else lines (cache ++ [c]) text (S i)
  end.

Definition ends_line (c : Z) : bool := (c =? 10) || (c =? 13).

Lemma lines_concat cache text i : concat (lines cache text i).1.*2 ++ (lines cache text i).2 = cache ++ text.
Proof.
  revert cache i. induction text as [|c text IH]; intros cache i; cbn [lines]; [by rewrite app_nil_r|].
  destruct (_ || _).
  - specialize (IH [] (S i)). destruct (lines [] text (S i)) as [ls rest]. cbn in *. by rewrite <- !app_assoc, IH.
  - rewrite IH. by rewrite <- app_assoc.
Qed.

Lemma lines_ended cache text i :
  Forall (fun c => ends_line c = false) cache ->
  Forall (fun l => exists s c, l.2 = s ++ [c] /\ ends_line c = true /\ Forall (fun c => ends_line c = false) s) (lines cache text i).1 /\
  Forall (fun c => ends_line c = false) (lines cache text i).2.
Proof.
  revert cache i. induction text as [|c text IH]; intros cache i Hc; cbn [lines]; [by split|].
  destruct (_ || _) eqn:E.
  - destruct (IH [] (S i)) as [H1 H2]; [constructor|]. destruct (lines [] text (S i)) as [ls rest]. cbn in *.
    split; [|done]. constructor; [|done]. cbn. eauto.
  - apply IH. apply Forall_app. split; [done|]. by repeat constructor.
Qed.

(** A line as it is printed, and as it is logged. *)
Definition stamped (e : env) (l : cstring) : cstring :=
  (if 1 <? zlen l then $"[" ++ Tools.formatTime 0 (now e) true (millitm e) (tms e) ++ $"] " else []) ++ l.
Definition dated (e : env) (l : cstring) : cstring :=
  c_str ((if 1 <? zlen l then $"[" ++ date e ++ $"] " else []) ++ l).

(** The output log is open, or nothing is logged; [w] is what it holds. *)
Definition logging (s : state) (w : cstring) : Prop :=
  if m_loaded s then
    match m_output s with
    | Some h => exists f, files s !! h = Some f /\ written f = w
    | None => w = []
    end
  else w = [].
Definition logs (s : state) : bool := m_loaded s && match m_output s with Some _ => true | None => false end.

Lemma overflow_ends e c s w :
  is_byte c -> ends_line c = true -> logging s w ->
  exists s', overflow e c s = Some (c, s', []) /\ m_cache s' = [] /\ logs s' = logs s /\
    cout s' = cout s ++ stamped e (m_cache s ++ [c]) /\
    logging s' (if logs s then w ++ dated e (m_cache s ++ [c]) else w).
Proof.
  intros Hc He Hl. unfold overflow. autorewrite with proc. rewrite (wrapu_small 8) by (unfold is_byte in Hc; lia).
  replace (negb (c =? 10) && negb (c =? 13)) with false by (unfold ends_line in He; destruct (c =? 10), (c =? 13); done).
  autorewrite with proc. cbn [setCache m_cache]. set (l := m_cache s ++ [c]). unfold stamped, dated, logs, logging in *.
  destruct (1 <? zlen l) eqn:E1; unfold skip; autorewrite with proc; cbn [setCout setCache isLoaded m_loaded m_output cout];
    destruct (m_loaded s) eqn:El; unfold iFile, internal, fprintf, skip; autorewrite with proc;
    cbn [setCout setCache isLoaded m_loaded m_output cout files m_files];
    try (destruct (m_output s) as [h|] eqn:Eo; autorewrite with proc; cbn [setCout setCache isLoaded m_loaded m_output cout files m_files]);
    rewrite ?El; autorewrite with proc.
  all: try (destruct Hl as (f & Hf & <-); cbn [setCout setCache files]; rewrite Hf; autorewrite with proc).
  all: eexists; split; [reflexivity|]; cbn; rewrite ?El, ?Eo, <- ?(assoc_L (++)); split_and!; try done.
  all: first [by eexists; split; [apply lookup_insert_eq|]|cbn; by rewrite <- ?app_assoc].
Qed.

Lemma overflow_goes_on e c s :
  is_byte c -> ends_line c = false -> overflow e c s = Some (c, setCache (m_cache s ++ [c]) s, []).
Proof.
  intros Hc He. unfold overflow. autorewrite with proc. rewrite (wrapu_small 8) by (unfold is_byte in Hc; lia).
  apply orb_false_iff in He as [-> ->]. done.
Qed.

(** The text of some lines, each at the clock of the character that ends it. *)
Definition render (f : env -> cstring -> cstring) (clock : nat -> env) (ls : list (nat * cstring)) : cstring :=
  concat (map (fun l => f (clock l.1) l.2) ls).

Lemma lines_shift cache text i j :
  lines cache text (i + j) = (prod_map (Nat.add j) id <$> (lines cache text i).1, (lines cache text i).2).
Proof.
  revert cache i. induction text as [|c text IH]; intros cache i; cbn [lines]; [done|].
  destruct (_ || _); [|apply (IH _ (S i))]. specialize (IH [] (S i)). cbn [Nat.add] in IH. rewrite IH.
  destruct (lines [] text (S i)) as [ls rest]. cbn. do 2 f_equal. unfold prod_map. cbn. f_equal. lia.
Qed.

Lemma render_shift f clock ls : render f clock (prod_map (Nat.add 1) id <$> ls) = render f (fun i => clock (S i)) ls.
Proof. unfold render. rewrite <- list_fmap_compose. done. Qed.

Lemma print_lines clock text s w :
  bytes_ok text -> logging s w ->
  exists s', print clock text s = Some (tt, s', []) /\
    m_cache s' = (lines (m_cache s) text 0).2 /\ logs s' = logs s /\
    cout s' = cout s ++ render stamped clock (lines (m_cache s) text 0).1 /\
    logging s' (if logs s then w ++ render dated clock (lines (m_cache s) text 0).1 else w).
Proof.
  revert clock s w. induction text as [|c text IH]; intros clock s w Hb Hl; cbn [print lines].
  { exists s. split_and!; try done; rewrite ?app_nil_r; try done. by destruct (logs s). }
  apply Forall_cons in Hb as [Hc Hb]. fold (ends_line c). destruct (ends_line c) eqn:E.
  - destruct (overflow_ends (clock 0%nat) c s w Hc E Hl) as (s1 & E1 & Hc1 & Hg1 & Ho1 & Hl1).
    destruct (IH (fun i => clock (S i)) s1 _ Hb Hl1) as (s2 & E2 & Hc2 & Hg2 & Ho2 & Hl2).
    exists s2. unfold mbind, proc_bind. rewrite E1, E2. rewrite Hc1 in Hc2, Ho2, Hl2. rewrite Hg1 in Hg2, Hl2.
    rewrite (lines_shift [] text 0 1 : lines [] text 1 = _). cbn [fst snd].
    split_and!; [done|done|done| |].
    + rewrite Ho2, Ho1, <- app_assoc, <- render_shift. done.
    + rewrite <- render_shift in Hl2. destruct (logs s); [|done]. by rewrite <- app_assoc in Hl2.
  - set (s1 := setCache (m_cache s ++ [c]) s).
    destruct (IH (fun i => clock (S i)) s1 w Hb Hl) as (s2 & E2 & Hc2 & Hg2 & Ho2 & Hl2).
    exists s2. unfold mbind, proc_bind. rewrite (overflow_goes_on _ _ _ Hc E). fold s1. rewrite E2.
    rewrite (lines_shift _ text 0 1 : lines _ text 1 = _). cbn [fst snd]. rewrite !render_shift. done.
Qed.

(** C39: what the program prints is printed line by line, and logged.  Whatever bytes are
    sent to the standard streams, the handler ends; the text comes apart into complete
    lines, each ended by its only line feed or carriage return, and a rest, which waits;
    every line is printed in order, the ones longer than their end with the time of their
    last character in front; and when the output log is open it gets the same lines, with
    the date in front, each up to its first NUL. *)
Theorem output_lines clock text s w :
  bytes_ok text -> m_cache s = [] -> logging s w ->
  exists s' ls rest, print clock text s = Some (tt, s', []) /\
    concat (map snd ls) ++ rest = text /\ m_cache s' = rest /\
    Forall (fun l => exists t c, l.2 = t ++ [c] /\ ends_line c = true /\ Forall (fun c => ends_line c = false) t) ls /\
    Forall (fun c => ends_line c = false) rest /\
    cout s' = cout s ++ render stamped clock ls /\
    logging s' (if logs s then w ++ render dated clock ls else w).
Proof.
  intros Hb Hc Hl. destruct (print_lines clock text s w Hb Hl) as (s' & E & Hc' & _ & Ho & Hl').
  rewrite Hc in *. pose proof (lines_concat [] text 0) as Hcat. pose proof (lines_ended [] text 0 ltac:(constructor)) as [H1 H2].
  exists s', (lines [] text 0).1, (lines [] text 0).2. done.
Qed.

Definition example_clock (i : nat) : env := mkEnv ConfigManager.new (fun _ => true) 0 7 (Some (Tools.mkTm 5 4 3 2 1 100)).
Definition example_text : cstring := $"up" ++ [10; 10] ++ $"on".

Lemma output_lines_witness :
  exists s', print example_clock example_text new = Some (tt, s', []) /\
    cout s' = $"[3:4:05.007] up" ++ [10; 10] /\ m_cache s' = $"on".
Proof.
  destruct (output_lines example_clock example_text new []) as (s' & ls & rest & E & _).
  - by repeat constructor.
  - reflexivity.
  - reflexivity.
  - exists s'. split; [exact E|]. vm_compute in E. injection E as <-. split; vm_compute; reflexivity.
Defined.

End TextLogger.
