(* ===== verification/Startup.v ===== *)
(** * The program (src/otlogin.cpp)

    The command line, the start sequence run by the dispatcher, and the end of [main],
    over the components they start.  What the program asks of the operating system, of
    its threads and of OpenSSL is a request. *)
From S2P Require Import Prelude Proc CString Definitions StdMap Json Config WorldList Tools Db Accounts Server.

Module Startup.

(** ** The command line *)

Record settings := mkSettings { g_configDir : cstring; g_config : ConfigManager.t }.

Definition setString (k : ConfigManager.string_config_t) (v : cstring) (g : settings) : settings :=
  mkSettings (g_configDir g) (ConfigManager.setString (ConfigManager.str k) v (g_config g)).2.
Definition setBool (k : ConfigManager.bool_config_t) (v : bool) (g : settings) : settings :=
  mkSettings (g_configDir g) (ConfigManager.setBool (ConfigManager.bln k) v (g_config g)).2.
Definition setNumber (k : ConfigManager.number_config_t) (v : Z) (g : settings) : settings :=
  mkSettings (g_configDir g) (ConfigManager.setNumber (ConfigManager.num k) v (g_config g)).2.
Definition setDir (v : cstring) (g : settings) : settings := mkSettings v (g_config g).

Definition is_one_of (s : cstring) (names : list cstring) : bool := existsb (cstring_eqb s) names.

Definition runfile_names : list cstring := [$"--runfile"; $"--run-file"; $"--pidfile"; $"--pid-file"].

(** One argument, split at its equal signs; [None] when [tmp[1]] is not there. *)
Definition argument (tmp : list cstring) (g : settings) : option settings :=
  head ← tmp !! 0%nat;
  if cstring_eqb head ($"--path") then v ← tmp !! 1%nat; Some (setDir v g)
  else if is_one_of head runfile_names then v ← tmp !! 1%nat; Some (setString ConfigManager.RUNFILE v g)
  else if cstring_eqb head ($"--log") then v ← tmp !! 1%nat; Some (setString ConfigManager.OUTPUT_LOG v g)
  else if is_one_of head [$"--daemon"; $"-d"] then Some (setBool ConfigManager.DAEMONIZE true g)
  else Some g.

(** [argumentsHandler(args)]; the texts of --help and --version are left out. *)
Fixpoint argumentsHandler (args : list cstring) (g : settings) : option (bool * settings) :=
  match args with
  | [] => Some (true, g)
  | it :: args =>
      if cstring_eqb it ($"--help") then Some (false, g)
      else if is_one_of it [$"--version"; $"-v"] then Some (false, g)
      else
        tmp ← Tools.explodeString (length it) it ($"=") true 0;
        g ← argument tmp g;
        argumentsHandler args g
  end.

(** ** The terminal *)

(** What [getch()] touches: the local flags (an unsigned int), and the characters typed. *)
Record terminal := mkTerminal { c_lflag : Z; typed : list Z }.

Definition ICANON := 2.
Definition ECHO := 8.

(** [tcsetattr(STDIN_FILENO, TCSANOW, ...)] and [getchar()], -1 at the end of the input. *)
Definition tcsetattr (lflag : Z) (t : terminal) : terminal := mkTerminal lflag (typed t).
Definition getchar (t : terminal) : Z * terminal :=
  match typed t with [] => (-1, t) | c :: l => (c, mkTerminal (c_lflag t) l) end.

(** [getch()]: the character, the terminal, and the flags under which it was read. *)
Definition getch (t : terminal) : Z * terminal * Z :=
  let oldt := c_lflag t in
  let newt := Z.land oldt (u32 (Z.lnot (Z.lor ICANON ECHO))) in
  let t := tcsetattr newt t in
  let '(ch, t) := getchar t in
  (ch, tcsetattr oldt t, newt).

(** [allocationHandler()]: the exit code. *)
Definition allocationHandler (t : terminal) : Z * terminal := let '(_, t, _) := getch t in (-1, t).

(** [runfileHandler()], at the exit: the files after it, the run file emptied if it can
    be opened. *)
Definition runfileHandler (can_open : cstring -> bool) (g : settings) (files : gmap (list Z) (list Z)) : gmap (list Z) (list Z) :=
  let path := c_str (ConfigManager.getString (ConfigManager.str ConfigManager.RUNFILE) (g_config g)) in
  if can_open path then <[path := []]> files else files.

(** ** Starting *)

(** The text "host:port" of LISTEN_ADDR. *)
Definition bind_address (listenAddr : cstring) : cstring * Z :=
  match rfind_char 58 listenAddr with
  | Some colonPos =>
      (substr listenAddr 0 colonPos, u16 (atoi (c_str (substr_from listenAddr (colonPos + 1)))))
  | None => ($"0.0.0.0", 7171)
  end.

(** ENCRYPTION, by the name of the algorithm. *)
Definition encryption_of (encryptionType : cstring) : Z :=
  if cstring_eqb encryptionType ($"md5") then ENCRYPTION_MD5
  else if cstring_eqb encryptionType ($"sha1") then ENCRYPTION_SHA1
  else if cstring_eqb encryptionType ($"sha256") then ENCRYPTION_SHA256
  else if cstring_eqb encryptionType ($"sha512") then ENCRYPTION_SHA512
  else ENCRYPTION_PLAIN.

Section Program.
Context {DB : Type} `{!Database.Server DB}.

(** Boost.JSON, the request to Discord, [inet_addr], [make_address], and what OpenSSL
    answers for the key made of the primes, the private exponent, the modulus and the
    public exponent. *)
Variable json_parse : cstring -> option Json.value.
Variable discord : cstring -> cstring -> option (Z * cstring).
Variable inet_addr : cstring -> Z.
Variable make_address : cstring -> option Server.IPAddress.
Variable RSA_check_key : list cstring -> Z.   (* 1: valid, 0: not, -1: an error *)

Record env := mkEnv {
  superuser : bool;                      (* getuid() or geteuid() is 0 *)
  key : Z;                               (* getch() *)
  fork : Z;
  file : cstring -> option cstring;      (* the contents of a file, when it can be opened *)
  ms : Z;
  now : Z;
  os : Server.env
}.

Record state := mk {
  set : settings;
  server : DB;
  io : option (IO.t DB);                 (* the database object of the dispatcher's thread *)
  worldList : StdMap.t Z World.t;
  services : Server.state
}.

Inductive request :=
| Logger_open
| Set_affinity (cores : list Z)
| Write_runfile (path : cstring)
| Nice (level : Z)
| Sleep (seconds : Z)
| Start_workers (count : nat)
| AddEvent_motdReloadTask (delay : Z)
| Net (r : Server.request)
| Notify_loader
| AddTask_otlogin
| Dispatcher_exit
| Scheduler_exit
| Database_shutdownWorkers
| Database_joinWorkers.

(** How a part of the program ends: it goes on, or the process exits. *)
Inductive outcome := Continue | Exit (code : Z).

Abbreviation M := (proc state request).

Definition setSettings (f : settings -> settings) (s : state) : state := mk (f (set s)) (server s) (io s) (worldList s) (services s).
Definition setConfig (c : ConfigManager.t) (s : state) : state := setSettings (fun g => mkSettings (g_configDir g) c) s.
Definition setIo (x : IO.t DB) (s : state) : state := mk (set s) (server s) (Some x) (worldList s) (services s).
Definition setWorlds (w : StdMap.t Z World.t) (s : state) : state := mk (set s) (server s) (io s) w (services s).
Definition setServices (x : Server.state) (s : state) : state := mk (set s) (server s) (io s) (worldList s) x.

Definition configuration : M ConfigManager.t := gets (fun s => g_config (set s)).
Definition getString (k : ConfigManager.string_config_t) : M cstring := gets (fun s => ConfigManager.getString (ConfigManager.str k) (g_config (set s))).
Definition getNumber (k : ConfigManager.number_config_t) : M Z := gets (fun s => ConfigManager.getNumber (ConfigManager.num k) (g_config (set s))).
Definition getBool (k : ConfigManager.bool_config_t) : M bool := gets (fun s => ConfigManager.getBool (ConfigManager.bln k) (g_config (set s))).

(** A component's operation on its part of the state. *)
Definition onNet {A} (m : proc Server.state Server.request A) : M A := fun s =>
  '(a, x, out) ← m (services s); Some (a, setServices x s, map Net out).
Definition onIO {A} (m : proc (IO.t DB) Empty_set A) : M A := fun s =>
  x ← io s; '(a, x, _) ← m x; Some (a, setIo x s, []).

(** One part after the other, unless the process exits. *)
Definition andThen (m k : M outcome) : M outcome :=
  r ← m; match r with Continue => k | Exit code => mret (Exit code) end.

(** [startupErrorMessage(...)]; the text, and the wait for a key, are left out. *)
Definition startupErrorMessage : M outcome := mret (Exit (-1)).

Definition confirm (e : env) : M outcome :=
  if superuser e && negb (i8 (key e) =? 121) && negb (i8 (key e) =? 89) then startupErrorMessage else mret Continue.

Definition load_config (e : env) : M outcome :=
  g ← gets set;
  let dir := g_configDir g in
  let '(ok, c) := ConfigManager.load json_parse discord dir (file e (dir ++ $"/config.json")) (g_config g) in
  _ ← modify (setConfig c);
  if ok : bool then mret Continue else startupErrorMessage.

Definition daemonize (e : env) : M outcome :=
  d ← getBool ConfigManager.DAEMONIZE;
  if (d : bool) && negb (fork e =? 0) then mret (Exit 0) else mret Continue.

(** From the logs to the process's priority; [cores[0]] of an empty vector is stuck. *)
Definition settle_process : M outcome :=
  _ ← emit Logger_open;
  c ← configuration;
  let cores := ConfigManager.getCoresUsed c in
  core ← lift (cores !! 0%nat);
  _ ← (if core =? -1 then skip else emit (Set_affinity cores));
  runPath ← getString ConfigManager.RUNFILE;
  _ ← (if 2 <? zlen runPath then emit (Write_runfile runPath) else skip);
  level ← getNumber ConfigManager.NICE_LEVEL;
  _ ← emit (Nice (i32 level));
  mret Continue.

Definition set_encryption : M outcome :=
  type ← getString ConfigManager.ENCRYPTION_TYPE;
  let encryption := encryption_of (Tools.asLowerCaseString type) in
  _ ← modify (setSettings (setNumber ConfigManager.ENCRYPTION encryption));
  _ ← (if encryption =? ENCRYPTION_PLAIN then emit (Sleep 15) else skip);
  mret Continue.

(** The code tests the answer of [RSA_check_key] against 0, so that an error counts as a
    valid key. *)
Definition load_rsa : M outcome :=
  p ← getString ConfigManager.RSA_PRIME1; q ← getString ConfigManager.RSA_PRIME2;
  d ← getString ConfigManager.RSA_PRIVATE; n ← getString ConfigManager.RSA_MODULUS;
  e ← getString ConfigManager.RSA_PUBLIC;
  if negb (RSA_check_key [c_str p; c_str q; c_str d; c_str n; c_str e] =? 0) then mret Continue else startupErrorMessage.

Definition open_database (e : env) : M outcome :=
  dsn ← getString ConfigManager.DATABASE_DSN;
  db ← gets (fun s => Database.local dsn (ms e) (server s) (IO.db <$> io s));
  _ ← modify (setIo (IO.mk db []));
  if Database.m_connected db
  then _ ← emit (Start_workers 2); mret Continue
  else startupErrorMessage.

Definition load_worlds (e : env) : M outcome :=
  dir ← gets (fun s => g_configDir (set s));
  r ← gets (fun s => Worlds.loadFromJson json_parse inet_addr (file e (dir ++ $"/worlds.json")) (worldList s));
  _ ← modify (setWorlds r.2);
  if r.1 : bool then mret Continue else startupErrorMessage.

Definition update_premium (e : env) : M outcome :=
  update ← getBool ConfigManager.INIT_PREMIUM_UPDATE;
  _ ← (if update : bool then
         dsn ← getString ConfigManager.DATABASE_DSN;
         group ← getNumber ConfigManager.GAMEMASTER_GROUP;
         w ← gets worldList;
         _ ← onIO (IO.updatePremium_all (IO.mkEnv dsn (ms e) (now e) w group)); mret tt
       else skip);
  mret Continue.

Definition bind_services (e : env) : M outcome :=
  _ ← emit (AddEvent_motdReloadTask 60000);
  listenAddr ← getString ConfigManager.LISTEN_ADDR;
  let '(bindHost, bindPort) := bind_address listenAddr in
  match make_address bindHost with
  | None => startupErrorMessage
  | Some bindAddr =>
      _ ← onNet (Server.add (os e) Service.login bindPort [bindAddr]);
      _ ← emit Notify_loader;
      mret Continue
  end.

(** [otlogin(args, services)], run by the dispatcher. *)
Definition otlogin (e : env) : M outcome :=
  andThen (confirm e) (andThen (load_config e) (andThen (daemonize e) (andThen settle_process
    (andThen set_encryption (andThen load_rsa (andThen (open_database e) (andThen (load_worlds e)
      (andThen (update_premium e) (bind_services e))))))))).

(** [motdReloadTask()] *)
Definition motdReloadTask : M unit :=
  c ← configuration;
  _ ← modify (setConfig (ConfigManager.reloadMotd json_parse discord c));
  emit (AddEvent_motdReloadTask 60000).

(** [main] until it waits for the loader; [Exit 0] after --help and --version. *)
Definition main_start (args : list cstring) : M outcome :=
  g ← gets set;
  r ← lift (if (1 <? length args)%nat then argumentsHandler args g else Some (true, g));
  let '(go, g) := r in
  _ ← modify (setSettings (fun _ => g));
  if negb go then mret (Exit 0)
  else
    c ← configuration;
    _ ← modify (setConfig (ConfigManager.startup c));
    _ ← emit AddTask_otlogin;
    mret Continue.

(** [main] from there on: the threads of the manager, when there are services, and the
    end, which waits for the dispatcher's thread. *)
Definition main_end : M outcome :=
  online ← gets (fun s => Server.isRunning (services s));
  _ ← (if online : bool then
         n ← getNumber ConfigManager.SERVICE_THREADS;
         onNet (Server.run n)
       else skip);
  _ ← emit Dispatcher_exit;
  _ ← emit Scheduler_exit;
  _ ← emit Database_shutdownWorkers;
  _ ← emit Database_joinWorkers;
  mret (Exit 0).

End Program.
End Startup.
