(* ===== verification/StartupLaws.v ===== *)
(** * What the command line and the start sequence do (src/otlogin.cpp)

    The options, the text of LISTEN_ADDR, the outcome of every way the start sequence can
    go, and what the server is left with when it has ended. *)
From S2P Require Import Prelude Proc CString Definitions StdMap Json Config WorldList Tools Db Accounts ConnMgr Server Startup.
Import Startup.

Module StartupLaws.

(** ** The command line *)

(** What is left of a text that is split at its equal signs, and the text after the first
    one, if there is one. *)
Definition received (v : cstring) : cstring :=
  match sfind v ($"=") 0 with None => v | Some i => Tools.trimString (take i v) end.
Definition value_of (arg : cstring) : option cstring :=
  i ← sfind arg ($"=") 0; Some (received (drop (S i) arg)).

Lemma trim_init_splits s pieces :
  Tools.splits ($"=") s pieces ->
  Tools.trim_init true pieces !! 0%nat = Some (received s) /\ Tools.trim_init true pieces !! 1%nat = value_of s.
Proof.
  unfold received, value_of. destruct 1 as [s E|s i pieces E Hp]; rewrite E; [done|].
  pose proof (Tools.splits_nonempty _ _ _ Hp) as Hne. cbn [mbind option_bind].
  rewrite Nat.add_1_r in Hp. unfold received.
  destruct Hp as [t E'|t j pieces E' Hp']; rewrite E'; [done|].
  pose proof (Tools.splits_nonempty _ _ _ Hp'). by destruct pieces.
Qed.

Lemma equal_sign : $"=" <> [] :> cstring.
Proof. done. Qed.

(** What the handler makes of an argument. *)
Lemma explode_argument it :
  exists tmp, Tools.explodeString (length it) it ($"=") true 0 = Some tmp /\
    tmp !! 0%nat = Some (received it) /\ tmp !! 1%nat = value_of it.
Proof.
  destruct (Tools.splits_exists ($"=") it equal_sign) as [pieces Hp].
  pose proof (Tools.splits_length _ _ _ equal_sign Hp) as Hl.
  exists (Tools.trim_init true pieces). split; [|by apply trim_init_splits].
  apply Tools.explode_loop_splits; [lia|by rewrite drop_0|lia].
Qed.

(** The arguments the program knows, and any other. *)
Inductive argument_t :=
| Path (v : cstring)
| Runfile (name v : cstring)
| Log (v : cstring)
| Daemon (name : cstring)
| Ignored (arg : cstring).

Definition stop_names : list cstring := [$"--help"; $"--version"; $"-v"].
Definition valued_names : list cstring := $"--path" :: $"--log" :: runfile_names.
Definition daemon_names : list cstring := [$"--daemon"; $"-d"].

Definition print (a : argument_t) : cstring :=
  match a with
  | Path v => $"--path" ++ $"=" ++ v
  | Runfile name v => name ++ $"=" ++ v
  | Log v => $"--log" ++ $"=" ++ v
  | Daemon name | Ignored name => name
  end.

Definition argument_ok (a : argument_t) : Prop :=
  match a with
  | Path _ | Log _ => True
  | Runfile name _ => name ∈ runfile_names
  | Daemon name => name ∈ daemon_names
  | Ignored arg => received arg ∉ valued_names ++ daemon_names /\ arg ∉ stop_names
  end.

Definition effect (g : settings) (a : argument_t) : settings :=
  match a with
  | Path v => setDir (received v) g
  | Runfile _ v => setString ConfigManager.RUNFILE (received v) g
  | Log v => setString ConfigManager.OUTPUT_LOG (received v) g
  | Daemon _ => setBool ConfigManager.DAEMONIZE true g
  | Ignored _ => g
  end.

Lemma is_one_of_spec s names : is_one_of s names = bool_decide (s ∈ names).
Proof.
  apply eq_bool_prop_intro. rewrite bool_decide_spec. unfold is_one_of. split.
  - intros (x & H & Hx)%Is_true_true%existsb_exists. apply cstring_eqb_eq in Hx as ->. by apply list_elem_of_In.
  - intros H. apply Is_true_true, existsb_exists. exists s. split; [by apply list_elem_of_In|by apply cstring_eqb_eq].
Qed.

(** An argument whose head and value are known. *)
Lemma handler_step it args g :
  it ∉ stop_names ->
  argumentsHandler (it :: args) g = tmp ← Tools.explodeString (length it) it ($"=") true 0;
    g ← argument tmp g; argumentsHandler args g.
Proof.
  intros H. cbn [argumentsHandler]. rewrite is_one_of_spec. unfold cstring_eqb.
  rewrite !bool_decide_eq_false_2; [done|..]; intros ?; apply H; unfold stop_names; set_solver.
Qed.

Lemma named_argument name v :
  name ∈ valued_names -> received (name ++ $"=" ++ v) = name /\ value_of (name ++ $"=" ++ v) = Some (received v) /\
    value_of name = None /\ received name = name /\ name ++ $"=" ++ v ∉ stop_names /\ name ∉ stop_names.
Proof.
  unfold valued_names, runfile_names. intros H.
  repeat (apply elem_of_cons in H as [->|H]; [split_and!; first [reflexivity|by apply (bool_decide_eq_false_1 _)|idtac]|]);
    [..|by apply elem_of_nil in H].
  all: unfold stop_names; rewrite !elem_of_cons, elem_of_nil; intros [?|[?|[?|?]]]; done.
Qed.

Lemma argument_step a args g :
  argument_ok a -> argumentsHandler (print a :: args) g = argumentsHandler args (effect g a).
Proof.
  intros Ha. destruct (explode_argument (print a)) as (tmp & E & E0 & E1).
  assert (print a ∉ stop_names /\ argument tmp g = Some (effect g a)) as [Hs Hg];
    [|rewrite handler_step, E by done; cbn [mbind option_bind]; by rewrite Hg].
  destruct a as [v|name v|v|name|arg]; cbn [print argument_ok effect] in *.
  - destruct (named_argument ($"--path") v ltac:(by apply (bool_decide_eq_true_1 _))) as (H0 & H1 & _ & _ & H2 & _).
    split; [done|]. unfold argument. by rewrite E0, E1, H0, H1.
  - destruct (named_argument name v ltac:(unfold valued_names; set_solver)) as (H0 & H1 & _ & _ & H2 & _).
    split; [done|]. unfold argument. rewrite E0, E1, H0, H1. cbn [mbind option_bind].
    unfold runfile_names in Ha. repeat (apply elem_of_cons in Ha as [->|Ha]; [reflexivity|]). by apply elem_of_nil in Ha.
  - destruct (named_argument ($"--log") v ltac:(by apply (bool_decide_eq_true_1 _))) as (H0 & H1 & _ & _ & H2 & _).
    split; [done|]. unfold argument. by rewrite E0, E1, H0, H1.
  - unfold argument. rewrite E0. unfold daemon_names in Ha.
    repeat (apply elem_of_cons in Ha as [->|Ha]; [split; [by apply (bool_decide_eq_false_1 _)|reflexivity]|]). by apply elem_of_nil in Ha.
  - destruct Ha as [Ha Hst]. split; [done|]. unfold argument. rewrite E0. cbn [mbind option_bind].
    rewrite !is_one_of_spec. unfold cstring_eqb. unfold valued_names, daemon_names in Ha.
    rewrite !bool_decide_eq_false_2; [done|..]; set_solver.
Qed.

(** C38: the command line is read from left to right.  The program's own name, and anything
    that is not an option, changes nothing; --path, the four names of --runfile and --log
    take the text after the equal sign (up to the next one, and trimmed, if there is
    another), --daemon or -d switches DAEMONIZE on, and the last one wins; --help and
    --version end the program there, whatever follows.  An option that needs a value and
    has no equal sign reads the second of one pieces: the behaviour is undefined. *)
Theorem command_line opts more g :
  Forall argument_ok opts ->
  argumentsHandler (map print opts) g = Some (true, foldl effect g opts) /\
  (forall stop, stop ∈ stop_names ->
     argumentsHandler (map print opts ++ stop :: more) g = Some (false, foldl effect g opts)) /\
  (forall name, name ∈ valued_names -> argumentsHandler (map print opts ++ name :: more) g = None).
Proof.
  intros Hok. assert (forall rest, argumentsHandler (map print opts ++ rest) g = argumentsHandler rest (foldl effect g opts)) as Hr.
  { intros rest. revert g. induction Hok as [|a opts Ha _ IH]; intros g; [done|].
    cbn [map app foldl]. by rewrite argument_step, IH. }
  split_and!.
  - rewrite <- (app_nil_r (map print opts)). by rewrite Hr.
  - intros stop H. rewrite Hr. unfold stop_names in H.
    repeat (apply elem_of_cons in H as [->|H]; [reflexivity|]). by apply elem_of_nil in H.
  - intros name H. rewrite Hr. destruct (named_argument name [] H) as (_ & _ & Hv & Hn & _ & Hs).
    rewrite handler_step by done. destruct (explode_argument name) as (tmp & -> & E0 & E1). cbn [mbind option_bind].
    unfold argument. rewrite E0, E1, Hv, Hn. cbn [mbind option_bind]. unfold valued_names, runfile_names in H.
    repeat (apply elem_of_cons in H as [->|H]; [reflexivity|]). by apply elem_of_nil in H.
Qed.

Definition example_options : list argument_t := [Ignored ($"./tfls"); Path ($"/etc/tfls"); Runfile ($"--pidfile") ($"a.pid"); Daemon ($"-d")].

Lemma command_line_witness :
  exists g, argumentsHandler [$"./tfls"; $"--path=/etc/tfls"; $"--pidfile=a.pid"; $"-d"] (mkSettings ($".") ConfigManager.new) = Some (true, g) /\
    g_configDir g = $"/etc/tfls" /\ ConfigManager.string_at ConfigManager.RUNFILE (g_config g) = $"a.pid".
Proof.
  destruct (command_line example_options [] (mkSettings ($".") ConfigManager.new)) as [H _].
  - repeat constructor; apply (bool_decide_eq_true_1 _); vm_compute; reflexivity.
  - eexists. split; [exact H|]. split; vm_compute; reflexivity.
Defined.

(** ** LISTEN_ADDR *)

Lemma rfind_char_app c s t : c ∉ t -> rfind_char c (s ++ c :: t) = Some (length s).
Proof.
  intros Ht. assert (rfind_char c t = None) as Hn.
  { induction t as [|x t IH]; [done|]. apply not_elem_of_cons in Ht as [Hx Ht]. cbn. rewrite (IH Ht). by zbool. }
  induction s as [|x s IH]; cbn; [rewrite Hn; by zbool|by rewrite IH].
Qed.

Lemma bind_address_spec host port :
  0 <= port < 2 ^ 16 -> bind_address (host ++ $":" ++ dec port) = (host, port).
Proof.
  intros Hp. unfold bind_address, dec. zbool. pose proof (dec_u_digits port ltac:(lia)) as Hd. rewrite Forall_forall in Hd.
  change ($":" ++ dec_u port) with (58 :: dec_u port).
  rewrite rfind_char_app by (intros Hin; by apply Hd in Hin). unfold substr, substr_from. rewrite drop_0, take_app_length.
  rewrite drop_app_ge by lia. replace (length host + 1 - length host)%nat with 1%nat by lia. cbn [drop]. rewrite drop_0.
  rewrite c_str_id by (apply Forall_forall; intros x Hx; apply Hd in Hx; unfold is_digit in Hx; lia).
  pose proof (atoi_dec port ltac:(lia)) as Ha. unfold dec in Ha. rewrite (proj2 (Z.ltb_ge port 0)) in Ha by lia.
  rewrite Ha. by rewrite wrapu_small.
Qed.

(** ** The configuration that has been loaded *)

Section Loaded.
Import ConfigManager.
Context (json_parse : cstring -> option Json.value) (discord : cstring -> cstring -> option (Z * cstring)).

Lemma reloadMotd_keeps c :
  m_loaded (reloadMotd json_parse discord c) = m_loaded c /\ m_coresUsed (reloadMotd json_parse discord c) = m_coresUsed c.
Proof. unfold reloadMotd, default_motd. repeat case_match; done. Qed.

(** It can be read, its arrays are whole, and it names a core. *)
Lemma load_ready dir text c c' :
  wf c -> load json_parse discord dir text c = (true, c') -> m_loaded c' = true /\ wf c' /\ m_coresUsed c' <> [].
Proof.
  intros Hc. unfold load. destruct text as [text|]; [|done]. destruct (json_parse text) as [[| | | | | | |root]|]; try done. intros [= <-].
  set (c1 := match _ with Some leg => _ | None => _ end). destruct (reloadMotd_keeps (put_loaded true c1)) as [-> ->].
  assert (wf c1 /\ m_coresUsed c1 <> []) as [H1 H2]; [|split; [done|]; split; [by apply reloadMotd_wf, put_loaded_wf|done]].
  unfold c1. pose proof (put_string_wf CONFIG_DIR dir c Hc) as H0. apply (load_sections_wf) with (root := root) in H0.
  destruct (Json.as_object _) as [leg|]; split; [by apply load_legacy_wf| |by apply load_defaults_wf|done].
  unfold load_legacy, load_cores. cbn. by destruct (omap _ _).
Qed.

End Loaded.

(** ** The service that is bound *)

Import Server (mkState, mkAccepting, listen_ok, accept_ok).

(** No services yet, and the login service once it has been added. *)
Definition unbound : Server.state := mkState ∅ ∅ [] 0 true ConnectionManager.new [] false.
Definition bound (os : Server.env) (ip : Server.IPAddress) (port : Z) : Server.state :=
  let heard := listen_ok os 0 in
  mkState {[0%nat := Server.ServicePort.mk [Service.login] (if heard then {[1%nat := ip]} else ∅) port (negb heard)]}
    (if heard then {[1%nat := (ip, port)]} else ∅)
    (if heard && accept_ok os 1 then [mkAccepting 0 1 2] else [])
    (if heard then 3 else 1) (heard && accept_ok os 1) ConnectionManager.new [(port, 0%nat)] false.
Definition bound_requests (os : Server.env) (ip : Server.IPAddress) (port : Z) : list Server.request :=
  if listen_ok os 0 then if accept_ok os 1 then [] else [Server.Log_error]
  else [Server.Log_error; Server.AddEvent_services 0 [ip] port].

Lemma add_login os ip port :
  Server.add os Service.login port [ip] unbound =
    if port =? 0 then Some (false, unbound, []) else Some (true, bound os ip port, bound_requests os ip port).
Proof.
  unfold Server.add. destruct (port =? 0); [done|]. unfold bound, bound_requests.
  destruct os as [t listens works posts]. cbn [listen_ok accept_ok].
  destruct (listens 0%nat) eqn:El; [destruct (works 1%nat) eqn:Ea|]; vm_compute; rewrite El; try rewrite Ea; reflexivity.
Qed.

(** ** The start sequence *)

Section Outcome.
Context {DB : Type} `{database_server : !Database.Server DB}.
Context (json_parse : cstring -> option Json.value) (discord : cstring -> cstring -> option (Z * cstring))
  (inet_addr : cstring -> Z) (make_address : cstring -> option Server.IPAddress) (RSA_check_key : list cstring -> Z).

Abbreviation state := (Startup.state (DB := DB)).
Abbreviation start := (otlogin (DB := DB) json_parse discord inet_addr make_address RSA_check_key).

Lemma wp_andThen (m k : proc state request outcome) Q s :
  wp m (fun r s1 o1 => match r with
                       | Continue => wp k (fun r s2 o2 => Q r s2 (o1 ++ o2)) s1
                       | Exit code => Q (Exit code) s1 o1
                       end) s ->
  wp (andThen m k) Q s.
Proof.
  intros H. apply wp_bind. eapply wp_mono; [exact H|]. intros [|code] s1 o1; [done|].
  intros ?. apply wp_ret. by rewrite app_nil_r.
Qed.

(** What the parts of the sequence find. *)
Definition loaded (e : env) (s : state) : bool * ConfigManager.t :=
  let dir := g_configDir (set s) in
  ConfigManager.load json_parse discord dir (file e (dir ++ $"/config.json")) (g_config (set s)).

Definition string_of (k : ConfigManager.string_config_t) (c : ConfigManager.t) : cstring := ConfigManager.getString (ConfigManager.str k) c.
Definition bool_of (k : ConfigManager.bool_config_t) (c : ConfigManager.t) : bool := ConfigManager.getBool (ConfigManager.bln k) c.

Definition encryption (c : ConfigManager.t) : Z := encryption_of (Tools.asLowerCaseString (string_of ConfigManager.ENCRYPTION_TYPE c)).
Definition settled (e : env) (s : state) : ConfigManager.t :=
  ConfigManager.put_number ConfigManager.ENCRYPTION (encryption (loaded e s).2) (loaded e s).2.

Definition database (e : env) (s : state) : Database.t DB :=
  Database.local (string_of ConfigManager.DATABASE_DSN (settled e s)) (ms e) (server s) (IO.db <$> io s).
Definition worlds (e : env) (s : state) : bool * StdMap.t Z World.t :=
  Worlds.loadFromJson json_parse inet_addr (file e (g_configDir (set s) ++ $"/worlds.json")) (worldList s).
Definition listens_at (e : env) (s : state) : cstring * Z := bind_address (string_of ConfigManager.LISTEN_ADDR (settled e s)).
Definition rsa_key (c : ConfigManager.t) : list cstring :=
  map (fun k => c_str (string_of k c))
    [ConfigManager.RSA_PRIME1; ConfigManager.RSA_PRIME2; ConfigManager.RSA_PRIVATE; ConfigManager.RSA_MODULUS; ConfigManager.RSA_PUBLIC].

(** Everything but the services. *)
Definition ready (e : env) (s : state) : state :=
  mk (mkSettings (g_configDir (set s)) (settled e s)) (server s) (Some (IO.mk (database e s) [])) (worlds e s).2 (services s).

(** The first thing the start fails for, and how the process ends. *)
Definition obstacle (e : env) (s : state) : option Z :=
  if superuser e && negb (bool_decide (i8 (key e) ∈ [121; 89])) then Some (-1)
  else if negb (loaded e s).1 then Some (-1)
  else if bool_of ConfigManager.DAEMONIZE (loaded e s).2 && negb (fork e =? 0) then Some 0
  else if RSA_check_key (rsa_key (settled e s)) =? 0 then Some (-1)
  else if negb (Database.m_connected (database e s)) then Some (-1)
  else if negb (worlds e s).1 then Some (-1)
  else match make_address (listens_at e s).1 with None => Some (-1) | Some _ => None end.

(** Requests made before anything is bound. *)
Definition early (r : request) : Prop :=
  match r with Net _ | Notify_loader => False | _ => True end.

Lemma update_premium_keeps e s r s' out :
  update_premium e s = Some (r, s', out) ->
  r = Continue /\ out = [] /\ exists x, s' = mk (set s) (server s) x (worldList s) (services s).
Proof.
  unfold update_premium, getBool, getString, getNumber, onIO. autorewrite with proc.
  destruct (ConfigManager.getBool _ _).
  - autorewrite with proc. unfold mbind at 1, proc_bind. destruct (io s) as [x|]; [|done]. cbn [mbind option_bind].
    destruct (IO.updatePremium_all _ _) as [[[b x'] o]|]; [|done]. cbn. intros [= <- <- <-]. eauto.
  - intros [= <- <- <-]. destruct s. eauto.
Qed.

(** The parts, one by one. *)
Abbreviation config s := (g_config (set (DB := DB) s)).
Definition ends (ok : bool) (code : Z) : outcome := if ok then Continue else Exit code.

Lemma confirm_eq e (s : state) :
  confirm e s = Some (ends (negb (superuser e && negb (bool_decide (i8 (key e) ∈ [121; 89])))) (-1), s, []).
Proof.
  unfold confirm. replace (bool_decide (i8 (key e) ∈ [121; 89])) with ((i8 (key e) =? 121) || (i8 (key e) =? 89)).
  - rewrite negb_orb, andb_assoc. by destruct (superuser e && _ && _).
  - destruct (Z.eqb_spec (i8 (key e)) 121) as [->|H1]; [done|]. destruct (Z.eqb_spec (i8 (key e)) 89) as [->|H2]; [done|].
    symmetry. apply bool_decide_eq_false. rewrite !elem_of_cons, elem_of_nil. tauto.
Qed.

Lemma load_config_eq e s :
  load_config json_parse discord e s = Some (ends (loaded e s).1 (-1), setConfig (loaded e s).2 s, []).
Proof. unfold load_config. rewrite bind_gets. unfold loaded. destruct (ConfigManager.load _ _ _ _ _) as [[] c]; done. Qed.

Lemma daemonize_eq e s :
  daemonize e s = Some (ends (negb (bool_of ConfigManager.DAEMONIZE (config s) && negb (fork e =? 0))) 0, s, []).
Proof. unfold daemonize, getBool. rewrite bind_gets. unfold bool_of. by destruct (_ && _). Qed.

Lemma settle_process_ends s :
  ConfigManager.m_coresUsed (config s) <> [] -> exists out, settle_process s = Some (Continue, s, out) /\ Forall early out.
Proof.
  intros Hc. unfold settle_process, configuration, getString, getNumber. rewrite bind_emit, bind_gets.
  unfold ConfigManager.getCoresUsed. destruct (ConfigManager.m_coresUsed _) as [|core cores]; [done|]. cbn [lookup list_lookup].
  rewrite bind_lift. destruct (core =? -1); [unfold skip; rewrite bind_ret|rewrite bind_emit].
  all: rewrite bind_gets; destruct (2 <? zlen _); [rewrite bind_emit|unfold skip; rewrite bind_ret].
  all: rewrite bind_gets, bind_emit; eexists; (split; [reflexivity|by repeat constructor]).
Qed.

Lemma set_encryption_eq s :
  exists out, set_encryption s = Some (Continue, setConfig (ConfigManager.put_number ConfigManager.ENCRYPTION (encryption (config s)) (config s)) s, out) /\
    Forall early out.
Proof.
  unfold set_encryption, getString. rewrite bind_gets, bind_modify. fold (string_of ConfigManager.ENCRYPTION_TYPE (config s)).
  fold (encryption (config s)). destruct (encryption _ =? ENCRYPTION_PLAIN); [rewrite bind_emit|unfold skip; rewrite bind_ret].
  all: eexists; (split; [reflexivity|by repeat constructor]).
Qed.

Lemma load_rsa_eq s : load_rsa RSA_check_key s = Some (ends (negb (RSA_check_key (rsa_key (config s)) =? 0)) (-1), s, []).
Proof. unfold load_rsa, getString. rewrite !bind_gets. unfold rsa_key, string_of. cbn [map]. by destruct (RSA_check_key _ =? 0). Qed.

Lemma open_database_eq e s db :
  Database.local (string_of ConfigManager.DATABASE_DSN (config s)) (ms e) (server s) (IO.db <$> io s) = db ->
  open_database e s = Some (ends (Database.m_connected db) (-1), setIo (IO.mk db []) s, if Database.m_connected db then [Start_workers 2] else []).
Proof.
  intros Hdb. unfold open_database, getString. rewrite !bind_gets, bind_modify. fold (string_of ConfigManager.DATABASE_DSN (config s)).
  rewrite Hdb. by destruct (Database.m_connected db).
Qed.

Lemma load_worlds_eq e s : load_worlds json_parse inet_addr e s = Some (ends (worlds e s).1 (-1), setWorlds (worlds e s).2 s, []).
Proof. unfold load_worlds. rewrite !bind_gets, bind_modify. fold (worlds e s). by destruct (worlds e s) as [[] w]. Qed.

Lemma bind_services_eq e s ip :
  let at_ := bind_address (string_of ConfigManager.LISTEN_ADDR (config s)) in
  make_address at_.1 = Some ip -> services s = unbound ->
  bind_services make_address e s = Some (Continue, setServices (if at_.2 =? 0 then unbound else bound (os e) ip at_.2) s,
    AddEvent_motdReloadTask 60000 :: map Net (if at_.2 =? 0 then [] else bound_requests (os e) ip at_.2) ++ [Notify_loader]).
Proof.
  intros at_ Ha Hs. unfold bind_services, getString. rewrite bind_emit, bind_gets. fold (string_of ConfigManager.LISTEN_ADDR (config s)).
  fold at_. destruct at_ as [host port]. cbn [fst snd] in *. rewrite Ha. unfold onNet at 1, mbind at 2, proc_bind.
  rewrite Hs, add_login. by destruct (port =? 0).
Qed.

Lemma wp_part (m k : proc state request outcome) ok code s s1 o1 Q :
  m s = Some (ends ok code, s1, o1) ->
  (if ok then wp k (fun r s2 o2 => Q r s2 (o1 ++ o2)) s1 else Q (Exit code) s1 o1) -> wp (andThen m k) Q s.
Proof. intros E H0. apply wp_andThen. exists (ends ok code), s1, o1. split; [done|]. by destruct ok. Qed.

(** How the start ends, with the services that were not bound before. *)
Definition ending (e : env) (s : state) (r : outcome) (s' : state) (out : list request) : Prop :=
  match obstacle e s with
  | Some code => r = Exit code /\ services s' = unbound /\ Forall early out
  | None => exists ip x before, let port := (listens_at e s).2 in
      r = Continue /\ make_address (listens_at e s).1 = Some ip /\
      s' = mk (set (ready e s)) (server s) x (worlds e s).2 (if port =? 0 then unbound else bound (os e) ip port) /\
      out = before ++ AddEvent_motdReloadTask 60000 :: map Net (if port =? 0 then [] else bound_requests (os e) ip port) ++ [Notify_loader] /\
      Forall early before
  end.

Lemma start_ends e s :
  ConfigManager.wf (config s) -> services s = unbound -> is_Some (update_premium e (ready e s)) -> wp (start e) (ending e s) s.
Proof.
  intros Hwf Hs [[[r x] o] Hp]. pose proof (load_ready json_parse discord (g_configDir (set s)) (file e (g_configDir (set s) ++ $"/config.json")) (config s)) as Hl.
  fold (loaded e s) in Hl. unfold otlogin, ending, obstacle.
  eapply wp_part; [apply confirm_eq|]. destruct (_ && negb (bool_decide _)); cbn [negb]; [by split_and!|].
  eapply wp_part; [apply load_config_eq|]. destruct (loaded e s) as [[] c] eqn:El; cbn [fst snd negb]; [|by split_and!].
  destruct (Hl c Hwf eq_refl) as (_ & _ & Hcores). set (s1 := setConfig c s).
  eapply wp_part; [apply daemonize_eq|]. cbn [s1 setConfig setSettings set g_config]. destruct (bool_of _ c && _); cbn [negb]; [by split_and!|].
  destruct (settle_process_ends s1 Hcores) as (o1 & E1 & H1). apply (wp_part _ _ true 0 _ _ _ _ E1).
  destruct (set_encryption_eq s1) as (o2 & E2 & H2). apply (wp_part _ _ true 0 _ _ _ _ E2). clear E1 E2.
  assert (ConfigManager.put_number ConfigManager.ENCRYPTION (encryption (config s1)) (config s1) = settled e s) as -> by (unfold settled; by rewrite El).
  eapply wp_part; [apply load_rsa_eq|]. cbn [setConfig setSettings set g_config]. assert (Forall early ((o1 ++ o2) ++ [])) as H3 by (repeat apply Forall_app_2; done).
  destruct (RSA_check_key _ =? 0); cbn [negb]; [split_and!; [done|done|by rewrite <- ?app_assoc in *]|].
  eapply wp_part; [by apply (open_database_eq e _ (database e s))|].
  destruct (Database.m_connected _) eqn:Ed; cbn [negb]; [|split_and!; [done|done|by rewrite <- ?app_assoc in *]].
  eapply wp_part; [apply load_worlds_eq|]. change (worlds e (setIo _ _)) with (worlds e s).
  destruct (worlds e s).1 eqn:Ew; cbn [negb]; [|split_and!; [done|done|rewrite <- ?app_assoc in *; repeat apply Forall_app_2; by repeat constructor]].
  destruct (update_premium_keeps e _ _ _ _ Hp) as (-> & -> & y & ->).
  apply (wp_part _ _ true 0 _ _ _ _ Hp).
  destruct (make_address (listens_at e s).1) as [ip|] eqn:Ea.
  - do 3 eexists. split; [by apply bind_services_eq|].
    exists ip, y, (o1 ++ o2 ++ [Start_workers 2]). rewrite <- !app_assoc. split_and!; try done.
    repeat apply Forall_app_2; by repeat constructor.
  - eexists (Exit (-1)), _, [AddEvent_motdReloadTask 60000]. split.
    + unfold bind_services, getString. rewrite bind_emit, bind_gets. change (bind_address _) with (listens_at e s).
      destruct (listens_at e s) as [host port]. cbn [fst] in Ea. by rewrite Ea.
    + split_and!; [done|done|]. repeat apply Forall_app_2; by repeat constructor.
Qed.

Lemma early_quiet out : Forall early out -> Notify_loader ∉ out /\ forall q, Net q ∉ out.
Proof. rewrite Forall_forall. intros H1. split; [intros Hin|intros q Hin]; by apply H1 in Hin. Qed.

Lemma settled_config e s :
  ConfigManager.wf (config s) -> obstacle e s = None ->
  ConfigManager.m_loaded (settled e s) = true /\
  ConfigManager.getNumber (ConfigManager.num ConfigManager.ENCRYPTION) (settled e s) = encryption (settled e s).
Proof.
  intros Hwf Ho. assert ((loaded e s).1 = true) as Hok.
  { unfold obstacle in Ho. destruct (_ && negb (bool_decide _)); [done|]. by destruct (loaded e s).1. }
  pose proof (load_ready json_parse discord (g_configDir (set s)) (file e (g_configDir (set s) ++ $"/config.json")) (config s)) as Hl.
  fold (loaded e s) in Hl. unfold settled in *. destruct (loaded e s) as [ok c]. cbn [fst snd] in *. subst ok.
  destruct (Hl c Hwf eq_refl) as (H1 & H2 & _). split; [done|].
  rewrite ConfigManager.getNumber_at by done. by rewrite ConfigManager.number_at_put, decide_True.
Qed.

(** C37: every way the start can go.  From a program that has bound nothing, the start
    sequence ends (unless the premium update throws).  It exits with 0 for the parent of
    a daemon and with an error for each other obstacle, in the order of the code (the
    super user who does not confirm, a configuration that cannot be loaded, an RSA key
    RSA_check_key answers 0 for, no database, no list of worlds, an address that cannot be parsed);
    then nothing has been asked of the services and the main thread has not been woken.
    Otherwise it goes on with a loaded configuration whose ENCRYPTION is the method named
    there, worlds that can be served, and the login service at the address and the port
    that LISTEN_ADDR names; waking the main thread is the last thing it does. *)
Theorem startup_outcome e s :
  ConfigManager.wf (config s) -> Worlds.wf (worldList s) -> services s = unbound -> is_Some (update_premium e (ready e s)) ->
  exists r s' out, start e s = Some (r, s', out) /\
    match obstacle e s with
    | Some code => r = Exit code /\ services s' = unbound /\ Notify_loader ∉ out /\ forall q, Net q ∉ out
    | None =>
        r = Continue /\ ConfigManager.m_loaded (config s') = true /\
        ConfigManager.getNumber (ConfigManager.num ConfigManager.ENCRYPTION) (config s') = encryption (config s') /\
        Worlds.wf (worldList s') /\
        (forall host port, 0 < port < 2 ^ 16 -> string_of ConfigManager.LISTEN_ADDR (config s') = host ++ $":" ++ dec port ->
           exists ip, make_address host = Some ip /\ services s' = bound (os e) ip port) /\
        exists before, out = before ++ [Notify_loader] /\ Notify_loader ∉ before
    end.
Proof.
  intros Hwf Hw Hs Hp. destruct (start_ends e s Hwf Hs Hp) as (r & s' & out & E & Hend). exists r, s', out. split; [done|].
  unfold ending in Hend. destruct (obstacle e s) as [code|] eqn:Ho.
  { destruct Hend as (-> & Hs' & Hq). pose proof (early_quiet _ Hq). tauto. }
  destruct Hend as (ip & x & before & -> & Ha & -> & -> & Hq). cbn zeta. cbn [set services worldList ready g_config].
  destruct (settled_config e s Hwf Ho) as [Hload Henc]. split_and!; try done.
  - pose proof (Worlds.loadFromJson_wf json_parse inet_addr (file e (g_configDir (set s) ++ $"/worlds.json")) (worldList s) Hw) as H1.
    fold (worlds e s) in H1. destruct (worlds e s) as [ok l]. apply H1.
  - intros host port Hport Hl. unfold listens_at in *. rewrite Hl, bind_address_spec in * by lia. cbn [fst snd] in *.
    exists ip. by zbool.
  - exists (before ++ AddEvent_motdReloadTask 60000 :: map Net (if (listens_at e s).2 =? 0 then [] else bound_requests (os e) ip (listens_at e s).2)).
    rewrite <- !app_assoc. split; [done|]. intros [H1|[H1|H1]%elem_of_cons]%elem_of_app; [by apply (early_quiet _ Hq)|done|].
    by apply list_elem_of_fmap in H1 as (q & [=] & _).
Qed.

Lemma start_threads n (s : Server.state) :
  for_each (fun _ : nat => emit Server.Start_thread) (seq 0 n) s = Some (tt, s, replicate n Server.Start_thread).
Proof.
  generalize 0%nat. induction n as [|n IH]; intros i; [done|]. cbn [seq for_each replicate]. rewrite bind_emit. by rewrite IH.
Qed.

Lemma run_starts n k (s : Server.state) :
  Server.running s = false -> Server.threads n = Some k ->
  Server.run n s = Some (tt, Server.setManager (Server.m_acceptors s) true s, replicate k Server.Start_thread).
Proof.
  intros Hs Hn. unfold Server.run. rewrite bind_gets, Hs, Hn, bind_lift. unfold mbind, proc_bind.
  rewrite start_threads. cbn. by rewrite app_nil_r.
Qed.

(** C40: a busy address.  When the address cannot be listened on at the start, the start
    goes on; the server counts as online, since the port has been registered, and the end
    of main starts its threads although no accept is in flight: io_context::run() returns
    at once in each of them, and nothing runs it when the restart scheduled for the port
    finds the address free, five seconds later. *)
Theorem busy_start e s n :
  ConfigManager.wf (config s) -> services s = unbound -> is_Some (update_premium e (ready e s)) ->
  obstacle e s = None -> (listens_at e s).2 <> 0 -> listen_ok (os e) 0 = false ->
  Server.threads (ConfigManager.getNumber (ConfigManager.num ConfigManager.SERVICE_THREADS) (settled e s)) = Some n ->
  exists s' out ip, start e s = Some (Continue, s', out) /\
    Net (Server.AddEvent_services 0 [ip] (listens_at e s).2) ∈ out /\
    Server.isRunning (services s') = true /\ Server.m_logError (services s') = false /\
    exists s'', main_end s' = Some (Exit 0, s'', map Net (replicate n Server.Start_thread) ++
        [Dispatcher_exit; Scheduler_exit; Database_shutdownWorkers; Database_joinWorkers]) /\
      Server.accepts (services s'') = [] /\ Server.listening (services s'') = ∅.
Proof.
  intros Hwf Hs Hp Ho Hport Hbusy Hn. destruct (start_ends e s Hwf Hs Hp) as (r & s' & out & E & Hend).
  unfold ending in Hend. rewrite Ho in Hend. destruct Hend as (ip & x & before & -> & _ & -> & -> & _).
  eexists _, _, ip. split; [exact E|]. cbn [services]. zbool. unfold bound, bound_requests. rewrite Hbusy. cbn [andb negb]. split_and!.
  - apply elem_of_app. right. right. by right; left.
  - done.
  - done.
  - unfold main_end. rewrite bind_gets. cbn [services]. unfold Server.isRunning at 1. cbn [Server.m_acceptors].
    rewrite bool_decide_eq_false_2 by done. cbn [negb]. unfold getNumber. rewrite bind_assoc, bind_gets. cbn [set ready g_config].
    unfold mbind at 1, proc_bind. unfold onNet at 1. cbn [services]. rewrite (run_starts _ n) by done. cbn [mbind option_bind].
    eexists. cbn. split_and!; [reflexivity|done|done].
Qed.

End Outcome.

(** ** Examples *)

#[local] Instance example_database : Database.Server unit := {
  Database.server_connect _ s := (true, s);
  Database.server_execute _ s := (inr Database.ErrorOther, s)
}.

Definition example_parse (text : cstring) : option Json.value :=
  if cstring_eqb text ($"worlds") then Some (Json.JArray [])
  else Some (Json.JObject [($"legacy", Json.JObject [($"updatePremiumStateAtStartup", Json.JBool false);
    ($"listenAddr", Json.JString ($"0.0.0.0:7171"))])]).
Definition example_address (host : cstring) : option Server.IPAddress :=
  if cstring_eqb host ($"0.0.0.0") then Some Server.address_any else None.
Definition example_env (listens : bool) : env :=
  mkEnv false 0 0 (fun path => Some (if cstring_eqb path ($"./worlds.json") then $"worlds" else [])) 5 7
    (Server.mkEnv 1000 (fun _ => listens) (fun _ => true) true).
Definition example_state : state (DB := unit) :=
  mk (mkSettings ($".") ConfigManager.new) tt None [] unbound.

Lemma startup_outcome_witness :
  exists s' out, otlogin example_parse (fun _ _ => None) (fun _ => 0) example_address (fun _ => 1) (example_env true) example_state =
    Some (Continue, s', out) /\ services s' = bound (os (example_env true)) Server.address_any 7171.
Proof.
  destruct (startup_outcome example_parse (fun _ _ => None) (fun _ => 0) example_address (fun _ => 1) (example_env true) example_state)
    as (r & s' & out & E & H).
  - apply ConfigManager.new_wf.
  - split; [done|constructor].
  - reflexivity.
  - eexists. vm_compute. reflexivity.
  - assert (obstacle example_parse (fun _ _ => None) (fun _ => 0) example_address (fun _ => 1) (example_env true) example_state = None) as Ho
      by (vm_compute; reflexivity).
    rewrite Ho in H. destruct H as (-> & _). exists s', out. split; [exact E|].
    vm_compute in E. injection E as <- _. vm_compute. reflexivity.
Defined.

Lemma busy_start_witness :
  exists s' s'' out, main_end s' = Some (Exit 0, s'', out) /\ Server.isRunning (services s') = true /\
    Server.accepts (services s'') = [] /\ g_configDir (set s') = $"." /\ (io s' : option (IO.t unit)) <> None.
Proof.
  destruct (busy_start example_parse (fun _ _ => None) (fun _ => 0) example_address (fun _ => 1) (example_env false) example_state 1)
    as (s' & out & ip & E & _ & Hr & _ & s'' & E' & Ha & _).
  - apply ConfigManager.new_wf.
  - reflexivity.
  - eexists. vm_compute. reflexivity.
  - vm_compute. reflexivity.
  - vm_compute. discriminate.
  - reflexivity.
  - vm_compute. reflexivity.
  - exists s', s'', (map Net [Server.Start_thread] ++ [Dispatcher_exit; Scheduler_exit; Database_shutdownWorkers; Database_joinWorkers]).
    split; [exact E'|]. split; [exact Hr|]. split; [exact Ha|].
    vm_compute in E. injection E as <- _. split; vm_compute; [reflexivity|discriminate].
Defined.

(** [getch()] reads one character, not a line, without echo, and leaves the terminal's
    flags as they were. *)
Lemma getch_restores t : 0 <= c_lflag t < 2 ^ 32 ->
  let '(ch, t', flags) := getch t in
  c_lflag t' = c_lflag t /\ typed t' = tail (typed t) /\ ch = default (-1) (head (typed t)) /\
  Z.testbit flags 1 = false /\ Z.testbit flags 3 = false /\
  forall n, 0 <= n < 32 -> n <> 1 -> n <> 3 -> Z.testbit flags n = Z.testbit (c_lflag t) n.
Proof.
  intros Hf. unfold getch, getchar, tcsetattr. cbn [typed].
  assert (forall n, 0 <= n < 32 -> Z.testbit (u32 (Z.lnot (Z.lor ICANON ECHO))) n = negb ((n =? 1) || (n =? 3))) as Hm.
  { intros n Hn. unfold wrapu. rewrite Z.mod_pow2_bits_low, Z.lnot_spec, Z.lor_spec by lia.
    change ICANON with (2 ^ 1). change ECHO with (2 ^ 3). rewrite !Z.pow2_bits_eqb by lia.
    by rewrite (Z.eqb_sym 1), (Z.eqb_sym 3). }
  destruct t as [f [|c l]]; cbn -[wrapu Z.land Z.testbit]; split_and!; try done;
    try (rewrite Z.land_spec, Hm by lia; by rewrite andb_false_r);
    intros n Hn H1 H3; rewrite Z.land_spec, Hm by lia;
    rewrite (proj2 (Z.eqb_neq _ _) H1), (proj2 (Z.eqb_neq _ _) H3); apply andb_true_r.
Qed.

End StartupLaws.
